(** * Technolize organizer: the file-organization core

    A shallow embedding of the core of [organize_gui.py] (and of its twin
    [organize_gui_riot.py]): the path classifier [resolve_destination], the
    collision resolvers [ensure_unique_path] / [ensure_unique_dir], and the
    organization engine [organize_folder] / [relocate_legacy_folders];
    further the dry run [preview_organization] of [organize_gui_riot.py] and
    the activity log [OrganizerApp.write_log] of [organize_gui.py].

    The file system is a finite tree; the [pathlib] / [shutil] primitives the
    code calls are modelled over it in a state-and-exception monad that also
    keeps a trace of the effects performed.

    Modelling conventions:
    - a path is the list of its components; a directory entry name is one
      component (the operating system never yields a name with a separator);
    - a name is a byte string, which Python reads as UTF-8 (with
      [surrogateescape], as [os.fsdecode] does); [str.lower] is the
      lower-casing of Unicode 14.0.0, the tables of CPython 3.11;
    - [PurePath.suffix] / [stem] follow the [rfind] definition of CPython
      up to 3.13;
    - [shutil.move] is a rename inside one file system; it replaces an
      existing regular file, as [os.rename] and the copy fallback do;
    - [Path.iterdir] takes its listing when the loop starts ([os.listdir]),
      in the order the directory stores its entries;
    - [Path.exists] and [Path.is_dir] are those of CPython up to 3.13: a
      failing [stat] is read as absence only when it says so, any other
      [OSError] is raised; [os.path.isdir] and [os.path.exists], which
      [shutil.move] calls, read every failure as absence;
    - two failures of the environment are modelled: a denied [rmdir]
      (field [locked]) and a path the operating system refuses (field
      [refused]: a name longer than [NAME_MAX], a path longer than
      [PATH_MAX], a folder that may not be searched); every call that names
      a refused path raises [OSError], and no call changes which paths are
      refused.  A failure that depends on the operation (a folder that may
      be read but not written, a full disk) is not modelled: apart from
      refused paths, [mkdir] and [move] fail for structural reasons only;
    - the activity log is the sequence of calls made on the text widget;
      the paths it prints are [pathlib] paths of the POSIX flavour, and
      [relative_to] compares them as written. *)

From Stdlib Require Import String Ascii List Arith NArith Bool Lia Permutation.
From Stdlib Require Import DecimalString DecimalNat.
Import ListNotations.
Local Open Scope string_scope.
Local Open Scope list_scope.

(** ** Unicode, as far as [str.lower] goes *)

(** A code point is a number; the tables are those of Unicode 14.0.0, the
    version CPython 3.11 carries. *)
Module Unicode.

Local Open Scope N_scope.

(** The lower-case mappings of single code points, as rows [(first, last,
    step, image of first)]: every [step]-th code point from [first] to
    [last] maps to the code point at the same distance from the image. *)
Definition lower_rows : list (N * N * N * N) :=
  [
      (65, 90, 1, 97); (192, 214, 1, 224); (216, 222, 1, 248);
      (256, 302, 2, 257); (306, 310, 2, 307); (313, 327, 2, 314);
      (330, 374, 2, 331); (376, 376, 1, 255); (377, 381, 2, 378);
      (385, 385, 1, 595); (386, 388, 2, 387); (390, 390, 1, 596);
      (391, 391, 1, 392); (393, 394, 1, 598); (395, 395, 1, 396);
      (398, 398, 1, 477); (399, 399, 1, 601); (400, 400, 1, 603);
      (401, 401, 1, 402); (403, 403, 1, 608); (404, 404, 1, 611);
      (406, 406, 1, 617); (407, 407, 1, 616); (408, 408, 1, 409);
      (412, 412, 1, 623); (413, 413, 1, 626); (415, 415, 1, 629);
      (416, 420, 2, 417); (422, 422, 1, 640); (423, 423, 1, 424);
      (425, 425, 1, 643); (428, 428, 1, 429); (430, 430, 1, 648);
      (431, 431, 1, 432); (433, 434, 1, 650); (435, 437, 2, 436);
      (439, 439, 1, 658); (440, 440, 1, 441); (444, 444, 1, 445);
      (452, 452, 1, 454); (453, 453, 1, 454); (455, 455, 1, 457);
      (456, 456, 1, 457); (458, 458, 1, 460); (459, 475, 2, 460);
      (478, 494, 2, 479); (497, 497, 1, 499); (498, 500, 2, 499);
      (502, 502, 1, 405); (503, 503, 1, 447); (504, 542, 2, 505);
      (544, 544, 1, 414); (546, 562, 2, 547); (570, 570, 1, 11365);
      (571, 571, 1, 572); (573, 573, 1, 410); (574, 574, 1, 11366);
      (577, 577, 1, 578); (579, 579, 1, 384); (580, 580, 1, 649);
      (581, 581, 1, 652); (582, 590, 2, 583); (880, 882, 2, 881);
      (886, 886, 1, 887); (895, 895, 1, 1011); (902, 902, 1, 940);
      (904, 906, 1, 941); (908, 908, 1, 972); (910, 911, 1, 973);
      (913, 929, 1, 945); (931, 939, 1, 963); (975, 975, 1, 983);
      (984, 1006, 2, 985); (1012, 1012, 1, 952); (1015, 1015, 1, 1016);
      (1017, 1017, 1, 1010); (1018, 1018, 1, 1019); (1021, 1023, 1, 891);
      (1024, 1039, 1, 1104); (1040, 1071, 1, 1072); (1120, 1152, 2, 1121);
      (1162, 1214, 2, 1163); (1216, 1216, 1, 1231); (1217, 1229, 2, 1218);
      (1232, 1326, 2, 1233); (1329, 1366, 1, 1377); (4256, 4293, 1, 11520);
      (4295, 4295, 1, 11559); (4301, 4301, 1, 11565); (5024, 5103, 1, 43888);
      (5104, 5109, 1, 5112); (7312, 7354, 1, 4304); (7357, 7359, 1, 4349);
      (7680, 7828, 2, 7681); (7838, 7838, 1, 223); (7840, 7934, 2, 7841);
      (7944, 7951, 1, 7936); (7960, 7965, 1, 7952); (7976, 7983, 1, 7968);
      (7992, 7999, 1, 7984); (8008, 8013, 1, 8000); (8025, 8031, 2, 8017);
      (8040, 8047, 1, 8032); (8072, 8079, 1, 8064); (8088, 8095, 1, 8080);
      (8104, 8111, 1, 8096); (8120, 8121, 1, 8112); (8122, 8123, 1, 8048);
      (8124, 8124, 1, 8115); (8136, 8139, 1, 8050); (8140, 8140, 1, 8131);
      (8152, 8153, 1, 8144); (8154, 8155, 1, 8054); (8168, 8169, 1, 8160);
      (8170, 8171, 1, 8058); (8172, 8172, 1, 8165); (8184, 8185, 1, 8056);
      (8186, 8187, 1, 8060); (8188, 8188, 1, 8179); (8486, 8486, 1, 969);
      (8490, 8490, 1, 107); (8491, 8491, 1, 229); (8498, 8498, 1, 8526);
      (8544, 8559, 1, 8560); (8579, 8579, 1, 8580); (9398, 9423, 1, 9424);
      (11264, 11311, 1, 11312); (11360, 11360, 1, 11361);
      (11362, 11362, 1, 619); (11363, 11363, 1, 7549); (11364, 11364, 1, 637);
      (11367, 11371, 2, 11368); (11373, 11373, 1, 593); (11374, 11374, 1, 625);
      (11375, 11375, 1, 592); (11376, 11376, 1, 594); (11378, 11378, 1, 11379);
      (11381, 11381, 1, 11382); (11390, 11391, 1, 575);
      (11392, 11490, 2, 11393); (11499, 11501, 2, 11500);
      (11506, 11506, 1, 11507); (42560, 42604, 2, 42561);
      (42624, 42650, 2, 42625); (42786, 42798, 2, 42787);
      (42802, 42862, 2, 42803); (42873, 42875, 2, 42874);
      (42877, 42877, 1, 7545); (42878, 42886, 2, 42879);
      (42891, 42891, 1, 42892); (42893, 42893, 1, 613);
      (42896, 42898, 2, 42897); (42902, 42920, 2, 42903);
      (42922, 42922, 1, 614); (42923, 42923, 1, 604); (42924, 42924, 1, 609);
      (42925, 42925, 1, 620); (42926, 42926, 1, 618); (42928, 42928, 1, 670);
      (42929, 42929, 1, 647); (42930, 42930, 1, 669); (42931, 42931, 1, 43859);
      (42932, 42946, 2, 42933); (42948, 42948, 1, 42900);
      (42949, 42949, 1, 642); (42950, 42950, 1, 7566); (42951, 42953, 2, 42952);
      (42960, 42960, 1, 42961); (42966, 42968, 2, 42967);
      (42997, 42997, 1, 42998); (65313, 65338, 1, 65345);
      (66560, 66599, 1, 66600); (66736, 66771, 1, 66776);
      (66928, 66964, 2, 66967); (66929, 66937, 2, 66968);
      (66941, 66953, 2, 66980); (66957, 66961, 2, 66996);
      (66965, 66965, 1, 67004); (68736, 68786, 1, 68800);
      (71840, 71871, 1, 71872); (93760, 93791, 1, 93792);
      (125184, 125217, 1, 125218)
  ].

(** The case-ignorable code points, as ranges [(first, last)]. *)
Definition case_ignorable_rows : list (N * N) :=
  [
      (39, 39); (46, 46); (58, 58); (94, 94); (96, 96); (168, 168); (173, 173);
      (175, 175); (180, 180); (183, 184); (688, 879); (884, 885); (890, 890);
      (900, 901); (903, 903); (1155, 1161); (1369, 1369); (1375, 1375);
      (1425, 1469); (1471, 1471); (1473, 1474); (1476, 1477); (1479, 1479);
      (1524, 1524); (1536, 1541); (1552, 1562); (1564, 1564); (1600, 1600);
      (1611, 1631); (1648, 1648); (1750, 1757); (1759, 1768); (1770, 1773);
      (1807, 1807); (1809, 1809); (1840, 1866); (1958, 1968); (2027, 2037);
      (2042, 2042); (2045, 2045); (2070, 2093); (2137, 2139); (2184, 2184);
      (2192, 2193); (2200, 2207); (2249, 2306); (2362, 2362); (2364, 2364);
      (2369, 2376); (2381, 2381); (2385, 2391); (2402, 2403); (2417, 2417);
      (2433, 2433); (2492, 2492); (2497, 2500); (2509, 2509); (2530, 2531);
      (2558, 2558); (2561, 2562); (2620, 2620); (2625, 2626); (2631, 2632);
      (2635, 2637); (2641, 2641); (2672, 2673); (2677, 2677); (2689, 2690);
      (2748, 2748); (2753, 2757); (2759, 2760); (2765, 2765); (2786, 2787);
      (2810, 2815); (2817, 2817); (2876, 2876); (2879, 2879); (2881, 2884);
      (2893, 2893); (2901, 2902); (2914, 2915); (2946, 2946); (3008, 3008);
      (3021, 3021); (3072, 3072); (3076, 3076); (3132, 3132); (3134, 3136);
      (3142, 3144); (3146, 3149); (3157, 3158); (3170, 3171); (3201, 3201);
      (3260, 3260); (3263, 3263); (3270, 3270); (3276, 3277); (3298, 3299);
      (3328, 3329); (3387, 3388); (3393, 3396); (3405, 3405); (3426, 3427);
      (3457, 3457); (3530, 3530); (3538, 3540); (3542, 3542); (3633, 3633);
      (3636, 3642); (3654, 3662); (3761, 3761); (3764, 3772); (3782, 3782);
      (3784, 3789); (3864, 3865); (3893, 3893); (3895, 3895); (3897, 3897);
      (3953, 3966); (3968, 3972); (3974, 3975); (3981, 3991); (3993, 4028);
      (4038, 4038); (4141, 4144); (4146, 4151); (4153, 4154); (4157, 4158);
      (4184, 4185); (4190, 4192); (4209, 4212); (4226, 4226); (4229, 4230);
      (4237, 4237); (4253, 4253); (4348, 4348); (4957, 4959); (5906, 5908);
      (5938, 5939); (5970, 5971); (6002, 6003); (6068, 6069); (6071, 6077);
      (6086, 6086); (6089, 6099); (6103, 6103); (6109, 6109); (6155, 6159);
      (6211, 6211); (6277, 6278); (6313, 6313); (6432, 6434); (6439, 6440);
      (6450, 6450); (6457, 6459); (6679, 6680); (6683, 6683); (6742, 6742);
      (6744, 6750); (6752, 6752); (6754, 6754); (6757, 6764); (6771, 6780);
      (6783, 6783); (6823, 6823); (6832, 6862); (6912, 6915); (6964, 6964);
      (6966, 6970); (6972, 6972); (6978, 6978); (7019, 7027); (7040, 7041);
      (7074, 7077); (7080, 7081); (7083, 7085); (7142, 7142); (7144, 7145);
      (7149, 7149); (7151, 7153); (7212, 7219); (7222, 7223); (7288, 7293);
      (7376, 7378); (7380, 7392); (7394, 7400); (7405, 7405); (7412, 7412);
      (7416, 7417); (7468, 7530); (7544, 7544); (7579, 7679); (8125, 8125);
      (8127, 8129); (8141, 8143); (8157, 8159); (8173, 8175); (8189, 8190);
      (8203, 8207); (8216, 8217); (8228, 8228); (8231, 8231); (8234, 8238);
      (8288, 8292); (8294, 8303); (8305, 8305); (8319, 8319); (8336, 8348);
      (8400, 8432); (11388, 11389); (11503, 11505); (11631, 11631);
      (11647, 11647); (11744, 11775); (11823, 11823); (12293, 12293);
      (12330, 12333); (12337, 12341); (12347, 12347); (12441, 12446);
      (12540, 12542); (40981, 40981); (42232, 42237); (42508, 42508);
      (42607, 42610); (42612, 42621); (42623, 42623); (42652, 42655);
      (42736, 42737); (42752, 42785); (42864, 42864); (42888, 42890);
      (42994, 42996); (43000, 43001); (43010, 43010); (43014, 43014);
      (43019, 43019); (43045, 43046); (43052, 43052); (43204, 43205);
      (43232, 43249); (43263, 43263); (43302, 43309); (43335, 43345);
      (43392, 43394); (43443, 43443); (43446, 43449); (43452, 43453);
      (43471, 43471); (43493, 43494); (43561, 43566); (43569, 43570);
      (43573, 43574); (43587, 43587); (43596, 43596); (43632, 43632);
      (43644, 43644); (43696, 43696); (43698, 43700); (43703, 43704);
      (43710, 43711); (43713, 43713); (43741, 43741); (43756, 43757);
      (43763, 43764); (43766, 43766); (43867, 43871); (43881, 43883);
      (44005, 44005); (44008, 44008); (44013, 44013); (64286, 64286);
      (64434, 64450); (65024, 65039); (65043, 65043); (65056, 65071);
      (65106, 65106); (65109, 65109); (65279, 65279); (65287, 65287);
      (65294, 65294); (65306, 65306); (65342, 65342); (65344, 65344);
      (65392, 65392); (65438, 65439); (65507, 65507); (65529, 65531);
      (66045, 66045); (66272, 66272); (66422, 66426); (67456, 67461);
      (67463, 67504); (67506, 67514); (68097, 68099); (68101, 68102);
      (68108, 68111); (68152, 68154); (68159, 68159); (68325, 68326);
      (68900, 68903); (69291, 69292); (69446, 69456); (69506, 69509);
      (69633, 69633); (69688, 69702); (69744, 69744); (69747, 69748);
      (69759, 69761); (69811, 69814); (69817, 69818); (69821, 69821);
      (69826, 69826); (69837, 69837); (69888, 69890); (69927, 69931);
      (69933, 69940); (70003, 70003); (70016, 70017); (70070, 70078);
      (70089, 70092); (70095, 70095); (70191, 70193); (70196, 70196);
      (70198, 70199); (70206, 70206); (70367, 70367); (70371, 70378);
      (70400, 70401); (70459, 70460); (70464, 70464); (70502, 70508);
      (70512, 70516); (70712, 70719); (70722, 70724); (70726, 70726);
      (70750, 70750); (70835, 70840); (70842, 70842); (70847, 70848);
      (70850, 70851); (71090, 71093); (71100, 71101); (71103, 71104);
      (71132, 71133); (71219, 71226); (71229, 71229); (71231, 71232);
      (71339, 71339); (71341, 71341); (71344, 71349); (71351, 71351);
      (71453, 71455); (71458, 71461); (71463, 71467); (71727, 71735);
      (71737, 71738); (71995, 71996); (71998, 71998); (72003, 72003);
      (72148, 72151); (72154, 72155); (72160, 72160); (72193, 72202);
      (72243, 72248); (72251, 72254); (72263, 72263); (72273, 72278);
      (72281, 72283); (72330, 72342); (72344, 72345); (72752, 72758);
      (72760, 72765); (72767, 72767); (72850, 72871); (72874, 72880);
      (72882, 72883); (72885, 72886); (73009, 73014); (73018, 73018);
      (73020, 73021); (73023, 73029); (73031, 73031); (73104, 73105);
      (73109, 73109); (73111, 73111); (73459, 73460); (78896, 78904);
      (92912, 92916); (92976, 92982); (92992, 92995); (94031, 94031);
      (94095, 94111); (94176, 94177); (94179, 94180); (110576, 110579);
      (110581, 110587); (110589, 110590); (113821, 113822); (113824, 113827);
      (118528, 118573); (118576, 118598); (119143, 119145); (119155, 119170);
      (119173, 119179); (119210, 119213); (119362, 119364); (121344, 121398);
      (121403, 121452); (121461, 121461); (121476, 121476); (121499, 121503);
      (121505, 121519); (122880, 122886); (122888, 122904); (122907, 122913);
      (122915, 122916); (122918, 122922); (123184, 123197); (123566, 123566);
      (123628, 123631); (125136, 125142); (125252, 125259); (127995, 127999);
      (917505, 917505); (917536, 917631); (917760, 917999)
  ].

(** The cased code points that are not case-ignorable, as ranges. *)
Definition cased_rows : list (N * N) :=
  [
      (65, 90); (97, 122); (170, 170); (181, 181); (186, 186); (192, 214);
      (216, 246); (248, 442); (444, 447); (452, 659); (661, 687); (880, 883);
      (886, 887); (891, 893); (895, 895); (902, 902); (904, 906); (908, 908);
      (910, 929); (931, 1013); (1015, 1153); (1162, 1327); (1329, 1366);
      (1376, 1416); (4256, 4293); (4295, 4295); (4301, 4301); (4304, 4346);
      (4349, 4351); (5024, 5109); (5112, 5117); (7296, 7304); (7312, 7354);
      (7357, 7359); (7424, 7467); (7531, 7543); (7545, 7578); (7680, 7957);
      (7960, 7965); (7968, 8005); (8008, 8013); (8016, 8023); (8025, 8025);
      (8027, 8027); (8029, 8029); (8031, 8061); (8064, 8116); (8118, 8124);
      (8126, 8126); (8130, 8132); (8134, 8140); (8144, 8147); (8150, 8155);
      (8160, 8172); (8178, 8180); (8182, 8188); (8450, 8450); (8455, 8455);
      (8458, 8467); (8469, 8469); (8473, 8477); (8484, 8484); (8486, 8486);
      (8488, 8488); (8490, 8493); (8495, 8500); (8505, 8505); (8508, 8511);
      (8517, 8521); (8526, 8526); (8544, 8575); (8579, 8580); (9398, 9449);
      (11264, 11387); (11390, 11492); (11499, 11502); (11506, 11507);
      (11520, 11557); (11559, 11559); (11565, 11565); (42560, 42605);
      (42624, 42651); (42786, 42863); (42865, 42887); (42891, 42894);
      (42896, 42954); (42960, 42961); (42963, 42963); (42965, 42969);
      (42997, 42998); (43002, 43002); (43824, 43866); (43872, 43880);
      (43888, 43967); (64256, 64262); (64275, 64279); (65313, 65338);
      (65345, 65370); (66560, 66639); (66736, 66771); (66776, 66811);
      (66928, 66938); (66940, 66954); (66956, 66962); (66964, 66965);
      (66967, 66977); (66979, 66993); (66995, 67001); (67003, 67004);
      (68736, 68786); (68800, 68850); (71840, 71903); (93760, 93823);
      (119808, 119892); (119894, 119964); (119966, 119967); (119970, 119970);
      (119973, 119974); (119977, 119980); (119982, 119993); (119995, 119995);
      (119997, 120003); (120005, 120069); (120071, 120074); (120077, 120084);
      (120086, 120092); (120094, 120121); (120123, 120126); (120128, 120132);
      (120134, 120134); (120138, 120144); (120146, 120485); (120488, 120512);
      (120514, 120538); (120540, 120570); (120572, 120596); (120598, 120628);
      (120630, 120654); (120656, 120686); (120688, 120712); (120714, 120744);
      (120746, 120770); (120772, 120779); (122624, 122633); (122635, 122654);
      (125184, 125251); (127280, 127305); (127312, 127337); (127344, 127369)
  ].

Definition in_range (c : N) (r : N * N) : bool :=
  (fst r <=? c) && (c <=? snd r).

(** [_PyUnicode_IsCaseIgnorable] *)
Definition is_case_ignorable (c : N) : bool :=
  existsb (in_range c) case_ignorable_rows.

(** [_PyUnicode_IsCased]; [str.lower] asks it only of code points that are
    not case-ignorable. *)
Definition is_cased (c : N) : bool := existsb (in_range c) cased_rows.

Fixpoint to_lower_in (rows : list (N * N * N * N)) (c : N) : N :=
  match rows with
  | [] => c
  | (first, last, step, image) :: rows' =>
      if (first <=? c) && (c <=? last) && ((c - first) mod step =? 0)
      then image + (c - first)
      else to_lower_in rows' c
  end.

Definition to_lower (c : N) : N := to_lower_in lower_rows c.

(** [_PyUnicode_ToLowerFull]: one code point has a lower case of two. *)
Definition to_lower_full (c : N) : list N :=
  if c =? 304 then [105; 775] else [to_lower c].

(** Does a cased code point follow, case-ignorable ones skipped? *)
Fixpoint cased_follows (l : list N) : bool :=
  match l with
  | [] => false
  | c :: l' => if is_case_ignorable c then cased_follows l' else is_cased c
  end.

(** [do_lower]; [after_cased]: the last code point before, case-ignorable
    ones skipped, is cased.  A capital sigma (931) becomes a final sigma
    (962) at the end of a word ([handle_capital_sigma]), else a small
    sigma (963). *)
Fixpoint lower_from (after_cased : bool) (l : list N) : list N :=
  match l with
  | [] => []
  | c :: l' =>
      (if c =? 931
       then [if after_cased && negb (cased_follows l') then 962 else 963]
       else to_lower_full c)
      ++ lower_from (if is_case_ignorable c then after_cased else is_cased c) l'
  end.

Definition do_lower (l : list N) : list N := lower_from false l.

(** *** File names are bytes: UTF-8 with [surrogateescape] *)

(** The byte at index [i], or 256 past the end. *)
Definition peek (i : nat) (s : string) : N :=
  match String.get i s with
  | Some a => N_of_ascii a
  | None => 256
  end.

Definition is_cont (b : N) : bool := (128 <=? b) && (b <=? 191).

(** The character that begins with the byte [b0], [b1 b2 b3] being the
    bytes after it: its code point and its width in bytes.  A byte that
    begins no well-formed sequence is escaped as the lone surrogate
    [0xDC00 + b0]. *)
Definition classify (b0 b1 b2 b3 : N) : N * nat :=
  if b0 <? 128 then (b0, 1%nat)
  else if (194 <=? b0) && (b0 <=? 223) then
    if is_cont b1 then ((b0 - 192) * 64 + (b1 - 128), 2%nat)
    else (56320 + b0, 1%nat)
  else if (224 <=? b0) && (b0 <=? 239) then
    if ((if b0 =? 224 then 160 else 128) <=? b1)
       && (b1 <=? (if b0 =? 237 then 159 else 191))
       && is_cont b2
    then ((b0 - 224) * 4096 + (b1 - 128) * 64 + (b2 - 128), 3%nat)
    else (56320 + b0, 1%nat)
  else if (240 <=? b0) && (b0 <=? 244) then
    if ((if b0 =? 240 then 144 else 128) <=? b1)
       && (b1 <=? (if b0 =? 244 then 143 else 191))
       && is_cont b2 && is_cont b3
    then ((b0 - 240) * 262144 + (b1 - 128) * 4096 + (b2 - 128) * 64
          + (b3 - 128), 4%nat)
    else (56320 + b0, 1%nat)
  else (56320 + b0, 1%nat).

(** [os.fsdecode] *)
Fixpoint decode (s : string) : list N :=
  match s with
  | EmptyString => []
  | String a s1 =>
      let (c, width) :=
        classify (N_of_ascii a) (peek 0 s1) (peek 1 s1) (peek 2 s1) in
      c :: match width, s1 with
           | 2%nat, String _ s2 => decode s2
           | 3%nat, String _ (String _ s3) => decode s3
           | 4%nat, String _ (String _ (String _ s4)) => decode s4
           | _, _ => decode s1
           end
  end.

Definition byte (n : N) : ascii := ascii_of_N n.

Definition encode_point (c : N) : string :=
  if c <? 128 then String (byte c) ""
  else if c <? 2048 then
    String (byte (192 + c / 64)) (String (byte (128 + c mod 64)) "")
  else if (56448 <=? c) && (c <=? 56575) then String (byte (c - 56320)) ""
  else if c <? 65536 then
    String (byte (224 + c / 4096))
      (String (byte (128 + (c / 64) mod 64))
         (String (byte (128 + c mod 64)) ""))
  else
    String (byte (240 + c / 262144))
      (String (byte (128 + (c / 4096) mod 64))
         (String (byte (128 + (c / 64) mod 64))
            (String (byte (128 + c mod 64)) ""))).

(** [os.fsencode] *)
Fixpoint encode (l : list N) : string :=
  match l with
  | [] => ""
  | c :: l' => (encode_point c ++ encode l')%string
  end.

End Unicode.

(** ** Strings as Python uses them *)

Module PyStr.

(** [s.lower()].  A name is the byte string the file system holds; Python
    reads it as UTF-8 and lower-cases its code points. *)
Definition lower (s : string) : string :=
  Unicode.encode (Unicode.do_lower (Unicode.decode s)).

(** [s.rfind(c)]: index of the last occurrence, [None] for Python's [-1]. *)
Fixpoint rfind (c : ascii) (s : string) : option nat :=
  match s with
  | EmptyString => None
  | String a s' =>
      match rfind c s' with
      | Some i => Some (S i)
      | None => if Ascii.eqb a c then Some 0 else None
      end
  end.

(** [str(n)] for a non-negative integer. *)
Definition str (n : nat) : string := NilEmpty.string_of_uint (Nat.to_uint n).

(** [x in xs] for a list of strings. *)
Definition mem (x : string) (xs : list string) : bool :=
  existsb (String.eqb x) xs.

(** [s.split(sep)] on a single-character separator. *)
Fixpoint split (sep : ascii) (s : string) : list string :=
  match s with
  | EmptyString => [EmptyString]
  | String a s' =>
      if Ascii.eqb a sep then EmptyString :: split sep s'
      else match split sep s' with
           | [] => [String a EmptyString]
           | w :: ws => String a w :: ws
           end
  end.

End PyStr.

(** ** Pure paths ([pathlib.PurePath]) *)

Definition Path := list string.

Module PurePath.

(** [Path(s)]: the components of a relative path string; empty components
    and ["."] are dropped, as [pathlib] does when it parses. *)
Definition of_string (s : string) : Path :=
  filter (fun c => negb (String.eqb c "") && negb (String.eqb c "."))
         (PyStr.split "/" s).

(** [p.name] *)
Definition name (p : Path) : string := last p "".

(** [p.parent] *)
Definition parent (p : Path) : Path := removelast p.

(** [name.suffix] of a final component. *)
Definition suffix_of (nm : string) : string :=
  match PyStr.rfind "." nm with
  | Some i =>
      if ((0 <? i) && (i <? String.length nm - 1))%nat
      then substring i (String.length nm - i) nm
      else ""
  | None => ""
  end.

(** [name.stem] of a final component. *)
Definition stem_of (nm : string) : string :=
  match PyStr.rfind "." nm with
  | Some i =>
      if ((0 <? i) && (i <? String.length nm - 1))%nat
      then substring 0 i nm
      else nm
  | None => nm
  end.

Definition suffix (p : Path) : string := suffix_of (name p).
Definition stem (p : Path) : string := stem_of (name p).

End PurePath.

(** [p / s] for an entry name [s] (one component), and [p / q] for a
    relative path [q]. *)
Notation "p // s" := (p ++ [s]) (at level 40, left associativity).
Notation "p /// q" := (p ++ q) (at level 40, left associativity, only parsing).

(** ** The file system: a finite tree *)

(** A regular file with its content, or a directory with its entries in
    listing order. *)
#[warnings="-register-all"]
Inductive node : Type :=
| File (data : string)
| Dir (entries : list (string * node)).

Module Tree.

Definition entries_t := list (string * node).

Fixpoint assoc (k : string) (es : entries_t) : option node :=
  match es with
  | [] => None
  | (k', v) :: es' => if String.eqb k k' then Some v else assoc k es'
  end.

(** Replace the entry named [k] in place, or append it. *)
Fixpoint put_entry (k : string) (v : node) (es : entries_t) : entries_t :=
  match es with
  | [] => [(k, v)]
  | (k', v') :: es' =>
      if String.eqb k k' then (k, v) :: es' else (k', v') :: put_entry k v es'
  end.

(** Remove the entry named [k]. *)
Definition del_entry (k : string) (es : entries_t) : entries_t :=
  filter (fun e => negb (String.eqb k (fst e))) es.

(** Resolve a path from the root. *)
Fixpoint lookup (p : Path) (t : node) {struct p} : option node :=
  match p with
  | [] => Some t
  | c :: p' =>
      match t with
      | File _ => None
      | Dir es =>
          match assoc c es with
          | Some ch => lookup p' ch
          | None => None
          end
      end
  end.

(** Rewrite the entries of the directory at [p]; nothing happens when [p]
    is not a directory. *)
Fixpoint update (p : Path) (f : entries_t -> entries_t) (t : node)
  {struct p} : node :=
  match t with
  | File _ => t
  | Dir es =>
      match p with
      | [] => Dir (f es)
      | c :: p' =>
          match assoc c es with
          | Some ch => Dir (put_entry c (update p' f ch) es)
          | None => t
          end
      end
  end.

Definition path_exists (t : node) (p : Path) : bool :=
  match lookup p t with Some _ => true | None => false end.

Definition path_is_dir (t : node) (p : Path) : bool :=
  match lookup p t with Some (Dir _) => true | _ => false end.

Definition path_is_file (t : node) (p : Path) : bool :=
  match lookup p t with Some (File _) => true | _ => false end.

(** Names of the entries of the directory at [p] ([[]] when it is none). *)
Definition listing (t : node) (p : Path) : list string :=
  match lookup p t with
  | Some (Dir es) => map fst es
  | _ => []
  end.

(** Put node [x] at path [p] / remove the entry at path [p]. *)
Definition add (p : Path) (x : node) (t : node) : node :=
  update (PurePath.parent p) (put_entry (PurePath.name p) x) t.

Definition del (p : Path) (t : node) : node :=
  update (PurePath.parent p) (del_entry (PurePath.name p)) t.

Fixpoint nodupb (l : list string) : bool :=
  match l with
  | [] => true
  | x :: l' => negb (PyStr.mem x l') && nodupb l'
  end.

(** Well-formed: no directory lists a name twice. *)
Fixpoint wf (t : node) : bool :=
  match t with
  | File _ => true
  | Dir es => nodupb (map fst es) && forallb (fun e => wf (snd e)) es
  end.

(** The contents of all regular files, in depth-first order. *)
Fixpoint files (t : node) : list string :=
  match t with
  | File c => [c]
  | Dir es => flat_map (fun e => files (snd e)) es
  end.

End Tree.

(** ** Paths compared *)

Fixpoint prefixb (q p : Path) : bool :=
  match q, p with
  | [], _ => true
  | a :: q', b :: p' => String.eqb a b && prefixb q' p'
  | _ :: _, [] => false
  end.

Definition path_eqb (p q : Path) : bool := prefixb p q && prefixb q p.

(** [q] is [p] or an ancestor of [p]. *)
Definition prefix (q p : Path) : Prop := exists r, p = q ++ r.

(** [p] and [q] part ways at some component. *)
Definition diverge (p q : Path) : Prop :=
  exists l a b p' q', p = l ++ a :: p' /\ q = l ++ b :: q' /\ a <> b.

(** ** Effects: a state-and-exception monad over the file system *)

Inductive event : Type :=
| MkdirEv (p : Path)
| MoveEv (src dst : Path) (replaced : bool)
| RmdirEv (p : Path).

(** [locked]: directories whose removal the environment denies.
    [refused]: paths the operating system does not resolve (one with too
    long a name, say); every call that names such a path fails. *)
Record world : Type := World {
  tree : node;
  locked : list Path;
  refused : Path -> bool;
  events : list event
}.

(** All of these are [OSError]s in Python; [OSError] itself is the error of
    a refused path (errno [ENAMETOOLONG], say), which [pathlib] does not
    read as absence. *)
Inductive exn : Type :=
| FileNotFoundError (p : Path)
| FileExistsError (p : Path)
| NotADirectoryError (p : Path)
| PermissionError (p : Path)
| DirectoryNotEmpty (p : Path)
| ShutilError (p : Path)
| OSError (p : Path).

(** [Diverge]: a [while True] loop exhausted its bound. *)
Inductive outcome (A : Type) : Type :=
| Ok (a : A)
| Raise (e : exn)
| Diverge.
Arguments Ok {A} a.
Arguments Raise {A} e.
Arguments Diverge {A}.

Definition M (A : Type) : Type := world -> outcome A * world.

Definition ret {A} (a : A) : M A := fun w => (Ok a, w).

Definition bind {A B} (m : M A) (k : A -> M B) : M B :=
  fun w =>
    match m w with
    | (Ok a, w') => k a w'
    | (Raise e, w') => (Raise e, w')
    | (Diverge, w') => (Diverge, w')
    end.

Definition raise {A} (e : exn) : M A := fun w => (Raise e, w).

Definition diverge_ {A} : M A := fun w => (Diverge, w).

(** [try: m except OSError as e: h e] *)
Definition try_except {A} (m : M A) (h : exn -> M A) : M A :=
  fun w =>
    match m w with
    | (Raise e, w') => h e w'
    | r => r
    end.

Declare Scope monad_scope.
Delimit Scope monad_scope with monad.
Notation "x <- m ;; k" := (bind m (fun x => k))
  (at level 61, m at next level, right associativity) : monad_scope.
Notation "m ;; k" := (bind m (fun _ => k))
  (at level 61, right associativity) : monad_scope.
Local Open Scope monad_scope.

(** [for x in xs: s = body x s] *)
Fixpoint for_each {A S : Type} (xs : list A) (body : A -> S -> M S) (s : S)
  : M S :=
  match xs with
  | [] => ret s
  | x :: xs' => s' <- body x s ;; for_each xs' body s'
  end.

Definition add_event (e : event) (t' : node) (w : world) : world :=
  {| tree := t'; locked := locked w; refused := refused w;
     events := events w ++ [e] |}.

(** ** The [pathlib], [os] and [shutil] primitives the code calls *)

Module Fs.

(** [p.exists()]: a failing [stat] is read as absence only when it says
    so (ENOENT, ENOTDIR); the error of a refused path is raised. *)
Definition exists_ (p : Path) : M bool :=
  fun w =>
    if refused w p then (Raise (OSError p), w)
    else (Ok (Tree.path_exists (tree w) p), w).

(** [p.is_dir()], likewise. *)
Definition is_dir (p : Path) : M bool :=
  fun w =>
    if refused w p then (Raise (OSError p), w)
    else (Ok (Tree.path_is_dir (tree w) p), w).

(** [p.iterdir()], as the listing [os.listdir] takes when iteration starts. *)
Definition iterdir (p : Path) : M (list Path) :=
  fun w =>
    if refused w p then (Raise (OSError p), w)
    else
    match Tree.lookup p (tree w) with
    | Some (Dir es) => (Ok (map (fun e => p // fst e) es), w)
    | Some (File _) => (Raise (NotADirectoryError p), w)
    | None => (Raise (FileNotFoundError p), w)
    end.

(** [os.mkdir(p)] *)
Definition os_mkdir (p : Path) : M unit :=
  fun w =>
    let t := tree w in
    if refused w p then (Raise (OSError p), w)
    else if Tree.path_exists t p then (Raise (FileExistsError p), w)
    else
      match Tree.lookup (PurePath.parent p) t with
      | Some (Dir _) => (Ok tt, add_event (MkdirEv p) (Tree.add p (Dir []) t) w)
      | Some (File _) => (Raise (NotADirectoryError p), w)
      | None =>
          if existsb (fun n => Tree.path_is_file t (firstn n p))
                     (seq 0 (List.length p))
          then (Raise (NotADirectoryError p), w)
          else (Raise (FileNotFoundError p), w)
      end.

(** [p.mkdir(parents=False, exist_ok=True)] *)
Definition mkdir_exist_ok (p : Path) : M unit :=
  try_except (os_mkdir p)
    (fun e => d <- is_dir p ;; if d then ret tt else raise e).

(** [p.mkdir(parents=True, exist_ok=True)]; [n] bounds the recursion on
    [p.parent], which needs one step per component. *)
Fixpoint mkdir_parents_rec (n : nat) (p : Path) : M unit :=
  try_except (os_mkdir p)
    (fun e =>
       match e with
       | FileNotFoundError _ =>
           match n with
           | 0 => raise e
           | S n' =>
               if path_eqb (PurePath.parent p) p then raise e
               else mkdir_parents_rec n' (PurePath.parent p) ;;
                    mkdir_exist_ok p
           end
       | _ => d <- is_dir p ;; if d then ret tt else raise e
       end).

Definition mkdir_parents (p : Path) : M unit :=
  mkdir_parents_rec (List.length p) p.

(** [p.rmdir()] *)
Definition rmdir (p : Path) : M unit :=
  fun w =>
    let t := tree w in
    if refused w p then (Raise (OSError p), w)
    else
    match p, Tree.lookup p t with
    | _, None => (Raise (FileNotFoundError p), w)
    | _, Some (File _) => (Raise (NotADirectoryError p), w)
    | [], Some (Dir _) => (Raise (PermissionError p), w)
    | _ :: _, Some (Dir (_ :: _)) => (Raise (DirectoryNotEmpty p), w)
    | _ :: _, Some (Dir []) =>
        if existsb (path_eqb p) (locked w) then (Raise (PermissionError p), w)
        else (Ok tt, add_event (RmdirEv p) (Tree.del p t) w)
    end.

(** [os.path.isdir(p)] and [os.path.exists(p)] read every failure as
    absence. *)
Definition os_path_isdir (w : world) (p : Path) : bool :=
  negb (refused w p) && Tree.path_is_dir (tree w) p.

Definition os_path_exists (w : world) (p : Path) : bool :=
  negb (refused w p) && Tree.path_exists (tree w) p.

(** [shutil.move(src, dst)] inside one file system; returns the real
    destination.  When [os.rename] fails the copy that is tried instead
    fails as well, on opening the source or on creating the destination. *)
Definition shutil_move (src dst : Path) : M Path :=
  fun w =>
    let t := tree w in
    if os_path_isdir w dst && path_eqb src dst then (Ok dst, w)
    else
      let real_dst := if os_path_isdir w dst then dst // PurePath.name src
                      else dst in
      if os_path_isdir w dst && os_path_exists w real_dst
      then (Raise (ShutilError real_dst), w)
      else if refused w src then (Raise (OSError src), w)
      else
        match Tree.lookup src t with
        | None => (Raise (FileNotFoundError src), w)
        | Some x =>
            if path_eqb src real_dst then (Ok real_dst, w)
            else if Tree.path_is_dir t src && prefixb src real_dst
            then (Raise (ShutilError real_dst), w)
            else if refused w real_dst then (Raise (OSError real_dst), w)
            else
              match Tree.lookup (PurePath.parent real_dst) t with
              | Some (Dir _) =>
                  match Tree.lookup real_dst t, x with
                  | None, _ =>
                      (Ok real_dst,
                       add_event (MoveEv src real_dst false)
                         (Tree.add real_dst x (Tree.del src t)) w)
                  | Some (File _), File _ =>
                      (Ok real_dst,
                       add_event (MoveEv src real_dst true)
                         (Tree.add real_dst x (Tree.del src t)) w)
                  | Some _, _ => (Raise (FileExistsError real_dst), w)
                  end
              | Some (File _) => (Raise (NotADirectoryError real_dst), w)
              | None => (Raise (FileNotFoundError real_dst), w)
              end
        end.

(** The bound under which a [while True] search for an unused name in
    directory [parent] is run: one more than the number of its entries. *)
Definition search_bound (parent : Path) : M nat :=
  fun w => (Ok (S (List.length (Tree.listing (tree w) parent))), w).

End Fs.

(** ** The program: [organize_gui.py] *)

Module OrganizeGui.

(** Category definition: destination folder -> list of extensions *)
Definition CATEGORY_MAP : list (string * list string) :=
  [ ("Documents/Excel", [".xls"; ".xlsx"; ".xlsm"; ".xlsb"; ".xltx"; ".csv"]);
    ("Documents/Word", [".doc"; ".docx"; ".odt"; ".rtf"]);
    ("Documents/PDF", [".pdf"]);
    ("Documents/Text", [".txt"]);
    ("Media/Images",
      [".jpg"; ".jpeg"; ".png"; ".gif"; ".bmp"; ".tiff"; ".webp"; ".heic"]);
    ("Media/Videos",
      [".mp4"; ".mov"; ".avi"; ".mkv"; ".wmv"; ".flv"; ".webm"; ".m4v"]) ].

Definition LEGACY_FOLDER_REMAP : list (string * string) :=
  [ ("Excel", "Documents/Excel");
    ("Word", "Documents/Word");
    ("PDF", "Documents/PDF");
    ("Text", "Documents/Text") ].

Definition OTHER_FOLDER : string := "Other".

(** The scan [for dest, extensions in CATEGORY_MAP.items()]. *)
Fixpoint first_category (ext : string) (table : list (string * list string))
  : option Path :=
  match table with
  | [] => None
  | (dest, extensions) :: table' =>
      if PyStr.mem ext extensions then Some (PurePath.of_string dest)
      else first_category ext table'
  end.

Definition resolve_destination (file_path : Path) : option Path :=
  let ext := PyStr.lower (PurePath.suffix file_path) in
  first_category ext CATEGORY_MAP.

(** The loop [while True: ... counter += 1] of both resolvers. *)
Fixpoint unique_loop (fuel : nat) (candidate_of : nat -> Path) (counter : nat)
  : M Path :=
  match fuel with
  | 0 => diverge_
  | S fuel' =>
      let candidate := candidate_of counter in
      e <- Fs.exists_ candidate ;;
      if negb e then ret candidate
      else unique_loop fuel' candidate_of (S counter)
  end.

Definition ensure_unique_path (target : Path) : M Path :=
  e <- Fs.exists_ target ;;
  if negb e then ret target
  else
    let stem := PurePath.stem target in
    let suffix := PurePath.suffix target in
    let parent := PurePath.parent target in
    fuel <- Fs.search_bound parent ;;
    unique_loop fuel
      (fun counter =>
         parent // (stem ++ " (" ++ PyStr.str counter ++ ")" ++ suffix)%string) 1.

Definition ensure_unique_dir (target : Path) : M Path :=
  e <- Fs.exists_ target ;;
  if negb e then ret target
  else
    let parent := PurePath.parent target in
    fuel <- Fs.search_bound parent ;;
    unique_loop fuel
      (fun counter =>
         parent // (PurePath.name target ++ " (" ++ PyStr.str counter ++ ")")%string)
      1.

Definition MoveLog := list (Path * Path).

(** Body of the loop over the items of one legacy folder. *)
Definition relocate_item (dest_dir item : Path) (moves : MoveLog)
  : M MoveLog :=
  d <- Fs.is_dir item ;;
  if d then
    target_dir <- ensure_unique_dir (dest_dir // PurePath.name item) ;;
    _ <- Fs.shutil_move item target_dir ;;
    ret (moves ++ [(item, target_dir)])
  else
    target_file <- ensure_unique_path (dest_dir // PurePath.name item) ;;
    _ <- Fs.shutil_move item target_file ;;
    ret (moves ++ [(item, target_file)]).

(** Body of the loop over [LEGACY_FOLDER_REMAP.items()]. *)
Definition relocate_legacy (base_folder : Path) (remap : string * string)
  (moves : MoveLog) : M MoveLog :=
  let (legacy_name, dest_rel) := remap in
  let src_dir := base_folder // legacy_name in
  e <- Fs.exists_ src_dir ;;
  d <- Fs.is_dir src_dir ;;
  if negb e || negb d then ret moves
  else
    let dest_dir := base_folder /// PurePath.of_string dest_rel in
    Fs.mkdir_parents dest_dir ;;
    items <- Fs.iterdir src_dir ;;
    moves <- for_each items (relocate_item dest_dir) moves ;;
    try_except (Fs.rmdir src_dir) (fun _ => ret tt) ;;
    ret moves.

Definition relocate_legacy_folders (base_folder : Path) (moves : MoveLog)
  : M MoveLog :=
  for_each LEGACY_FOLDER_REMAP (relocate_legacy base_folder) moves.

(** Body of the loop over [base_folder.iterdir()]. *)
Definition organize_entry (base_folder entry : Path) (moves : MoveLog)
  : M MoveLog :=
  d <- Fs.is_dir entry ;;
  if d then ret moves
  else
    let dest_subpath := resolve_destination entry in
    let dest_root := match dest_subpath with
                     | Some p => p
                     | None => PurePath.of_string OTHER_FOLDER
                     end in
    let dest_folder := base_folder /// dest_root in
    Fs.mkdir_parents dest_folder ;;
    target <- ensure_unique_path (dest_folder // PurePath.name entry) ;;
    _ <- Fs.shutil_move entry target ;;
    ret (moves ++ [(entry, target)]).

(** The first pass: the loop over the top-level entries. *)
Definition organize_top_level (base_folder : Path) : M MoveLog :=
  entries <- Fs.iterdir base_folder ;;
  for_each entries (organize_entry base_folder) [].

Definition organize_folder (base_folder : Path) : M MoveLog :=
  moves <- organize_top_level base_folder ;;
  relocate_legacy_folders base_folder moves.

End OrganizeGui.

(** ** The program: [organize_gui_riot.py] *)

Module OrganizeGuiRiot.

(** Category definition *)
Definition CATEGORY_MAP : list (string * list string) :=
  [ ("Documents/Excel", [".xls"; ".xlsx"; ".xlsm"; ".xlsb"; ".xltx"; ".csv"]);
    ("Documents/Word", [".doc"; ".docx"; ".odt"; ".rtf"]);
    ("Documents/PDF", [".pdf"]);
    ("Documents/Text", [".txt"]);
    ("Media/Images",
      [".jpg"; ".jpeg"; ".png"; ".gif"; ".bmp"; ".tiff"; ".webp"; ".heic"]);
    ("Media/Videos",
      [".mp4"; ".mov"; ".avi"; ".mkv"; ".wmv"; ".flv"; ".webm"; ".m4v"]) ].

Definition LEGACY_FOLDER_REMAP : list (string * string) :=
  [ ("Excel", "Documents/Excel");
    ("Word", "Documents/Word");
    ("PDF", "Documents/PDF");
    ("Text", "Documents/Text") ].

Definition OTHER_FOLDER : string := "Other".

(** The scan [for dest, extensions in CATEGORY_MAP.items()]. *)
Fixpoint first_category (ext : string) (table : list (string * list string))
  : option Path :=
  match table with
  | [] => None
  | (dest, extensions) :: table' =>
      if PyStr.mem ext extensions then Some (PurePath.of_string dest)
      else first_category ext table'
  end.

Definition resolve_destination (file_path : Path) : option Path :=
  let ext := PyStr.lower (PurePath.suffix file_path) in
  first_category ext CATEGORY_MAP.

(** The loop [while True: ... counter += 1] of both resolvers. *)
Fixpoint unique_loop (fuel : nat) (candidate_of : nat -> Path) (counter : nat)
  : M Path :=
  match fuel with
  | 0 => diverge_
  | S fuel' =>
      let candidate := candidate_of counter in
      e <- Fs.exists_ candidate ;;
      if negb e then ret candidate
      else unique_loop fuel' candidate_of (S counter)
  end.

Definition ensure_unique_path (target : Path) : M Path :=
  e <- Fs.exists_ target ;;
  if negb e then ret target
  else
    let stem := PurePath.stem target in
    let suffix := PurePath.suffix target in
    let parent := PurePath.parent target in
    fuel <- Fs.search_bound parent ;;
    unique_loop fuel
      (fun counter =>
         parent // (stem ++ " (" ++ PyStr.str counter ++ ")" ++ suffix)%string) 1.

Definition ensure_unique_dir (target : Path) : M Path :=
  e <- Fs.exists_ target ;;
  if negb e then ret target
  else
    let parent := PurePath.parent target in
    fuel <- Fs.search_bound parent ;;
    unique_loop fuel
      (fun counter =>
         parent // (PurePath.name target ++ " (" ++ PyStr.str counter ++ ")")%string)
      1.

Definition MoveLog := list (Path * Path).

(** Body of the loop of [preview_organization]. *)
Definition preview_entry (base_folder entry : Path) (moves : MoveLog)
  : M MoveLog :=
  d <- Fs.is_dir entry ;;
  if d then ret moves
  else
    let dest_subpath := resolve_destination entry in
    let dest_root := match dest_subpath with
                     | Some p => p
                     | None => PurePath.of_string OTHER_FOLDER
                     end in
    let dest_folder := base_folder /// dest_root in
    target <- ensure_unique_path (dest_folder // PurePath.name entry) ;;
    ret (moves ++ [(entry, target)]).

Definition preview_organization (base_folder : Path) : M MoveLog :=
  entries <- Fs.iterdir base_folder ;;
  for_each entries (preview_entry base_folder) [].

(** Body of the loop over the items of one legacy folder. *)
Definition relocate_item (dest_dir item : Path) (moves : MoveLog)
  : M MoveLog :=
  d <- Fs.is_dir item ;;
  if d then
    target_dir <- ensure_unique_dir (dest_dir // PurePath.name item) ;;
    _ <- Fs.shutil_move item target_dir ;;
    ret (moves ++ [(item, target_dir)])
  else
    target_file <- ensure_unique_path (dest_dir // PurePath.name item) ;;
    _ <- Fs.shutil_move item target_file ;;
    ret (moves ++ [(item, target_file)]).

(** Body of the loop over [LEGACY_FOLDER_REMAP.items()]. *)
Definition relocate_legacy (base_folder : Path) (remap : string * string)
  (moves : MoveLog) : M MoveLog :=
  let (legacy_name, dest_rel) := remap in
  let src_dir := base_folder // legacy_name in
  e <- Fs.exists_ src_dir ;;
  d <- Fs.is_dir src_dir ;;
  if negb e || negb d then ret moves
  else
    let dest_dir := base_folder /// PurePath.of_string dest_rel in
    Fs.mkdir_parents dest_dir ;;
    items <- Fs.iterdir src_dir ;;
    moves <- for_each items (relocate_item dest_dir) moves ;;
    try_except (Fs.rmdir src_dir) (fun _ => ret tt) ;;
    ret moves.

Definition relocate_legacy_folders (base_folder : Path) (moves : MoveLog)
  : M MoveLog :=
  for_each LEGACY_FOLDER_REMAP (relocate_legacy base_folder) moves.

(** Body of the loop over [base_folder.iterdir()]. *)
Definition organize_entry (base_folder entry : Path) (moves : MoveLog)
  : M MoveLog :=
  d <- Fs.is_dir entry ;;
  if d then ret moves
  else
    let dest_subpath := resolve_destination entry in
    let dest_root := match dest_subpath with
                     | Some p => p
                     | None => PurePath.of_string OTHER_FOLDER
                     end in
    let dest_folder := base_folder /// dest_root in
    Fs.mkdir_parents dest_folder ;;
    target <- ensure_unique_path (dest_folder // PurePath.name entry) ;;
    _ <- Fs.shutil_move entry target ;;
    ret (moves ++ [(entry, target)]).

(** The first pass: the loop over the top-level entries. *)
Definition organize_top_level (base_folder : Path) : M MoveLog :=
  entries <- Fs.iterdir base_folder ;;
  for_each entries (organize_entry base_folder) [].

Definition organize_folder (base_folder : Path) : M MoveLog :=
  moves <- organize_top_level base_folder ;;
  relocate_legacy_folders base_folder moves.

End OrganizeGuiRiot.

(** ** Vocabulary of the specification *)

Module Spec.

(** The file-naming variant: [" (N)"] between stem and extension. *)
Definition file_candidate (target : Path) (N : nat) : Path :=
  PurePath.parent target //
    (PurePath.stem target ++ " (" ++ PyStr.str N ++ ")"
       ++ PurePath.suffix target)%string.

(** The directory-naming variant: [" (N)"] after the full name. *)
Definition dir_candidate (target : Path) (N : nat) : Path :=
  PurePath.parent target //
    (PurePath.name target ++ " (" ++ PyStr.str N ++ ")")%string.

(** What a collision resolver returns for [target] in tree [t], given its
    naming variant [candidate]. *)
Definition resolved (candidate : Path -> nat -> Path) (t : node)
  (target r : Path) : Prop :=
  Tree.path_exists t r = false /\
  ((Tree.path_exists t target = false /\ r = target) \/
   (Tree.path_exists t target = true /\
    exists N, 1 <= N /\ r = candidate target N /\
      forall M, 1 <= M < N ->
        Tree.path_exists t (candidate target M) = true)).

(** A name read as the specification reads it: ASCII, where a capital
    letter stands for its small one. *)
Definition ascii_lower_char (c : ascii) : ascii :=
  let n := nat_of_ascii c in
  if ((65 <=? n) && (n <=? 90))%nat then ascii_of_nat (n + 32) else c.

Fixpoint ascii_lower (s : string) : string :=
  match s with
  | EmptyString => EmptyString
  | String c s' => String (ascii_lower_char c) (ascii_lower s')
  end.

Definition is_ascii (s : string) : Prop :=
  forall c, In c (list_ascii_of_string s) -> nat_of_ascii c < 128.

Definition no_dot (s : string) : Prop :=
  ~ In "."%char (list_ascii_of_string s).

(** The paths a resolver checks, in order: the target, then its numbered
    candidates. *)
Definition probe (candidate : Path -> nat -> Path) (target : Path) (N : nat)
  : Path :=
  match N with
  | 0 => target
  | S _ => candidate target N
  end.

(** What a collision resolver does for [target] in world [w], given its
    naming variant: it checks the probes in order and returns the first
    that does not exist, unless the operating system refuses a probe before
    one is found free; then it raises. *)
Definition resolves (candidate : Path -> nat -> Path) (w : world)
  (target : Path) (o : outcome Path) : Prop :=
  exists N,
    (forall M, M < N ->
       refused w (probe candidate target M) = false /\
       Tree.path_exists (tree w) (probe candidate target M) = true) /\
    ((refused w (probe candidate target N) = true /\
      o = Raise (OSError (probe candidate target N))) \/
     (refused w (probe candidate target N) = false /\
      Tree.path_exists (tree w) (probe candidate target N) = false /\
      o = Ok (probe candidate target N))).

End Spec.

(** ** Effects as transitions between trees *)

(** The effects the engine is meant to perform: a directory is created
    where nothing was, an entry is moved to a place where nothing was, an
    empty directory is removed. *)
Inductive effect : event -> node -> node -> Prop :=
| effect_mkdir par k es t :
    Tree.lookup par t = Some (Dir es) ->
    Tree.assoc k es = None ->
    effect (MkdirEv (par // k)) t (Tree.add (par // k) (Dir []) t)
| effect_move ps ks pd kd x es t :
    Tree.lookup (ps // ks) t = Some x ->
    Tree.lookup pd t = Some (Dir es) ->
    Tree.assoc kd es = None ->
    ~ prefix (ps // ks) (pd // kd) ->
    effect (MoveEv (ps // ks) (pd // kd) false) t
           (Tree.add (pd // kd) x (Tree.del (ps // ks) t))
| effect_rmdir par k t :
    Tree.lookup (par // k) t = Some (Dir []) ->
    effect (RmdirEv (par // k)) t (Tree.del (par // k) t).

Inductive exec : list event -> node -> node -> Prop :=
| exec_nil t : exec [] t t
| exec_cons e evs t t1 t2 :
    effect e t t1 -> exec evs t1 t2 -> exec (e :: evs) t t2.

(** Paths an effect removes, creates, touches. *)
Definition removed (e : event) : list Path :=
  match e with
  | MoveEv src _ _ => [src]
  | RmdirEv p => [p]
  | MkdirEv _ => []
  end.

Definition created (e : event) : list Path :=
  match e with
  | MkdirEv p => [p]
  | MoveEv _ dst _ => [dst]
  | RmdirEv _ => []
  end.

Definition touched (e : event) : list Path := removed e ++ created e.

Definition move_targets (e : event) : list Path :=
  match e with
  | MoveEv _ dst _ => [dst]
  | _ => []
  end.

(** [q] is a strict ancestor of [p]. *)
Definition above (q p : Path) : Prop := exists c r, p = q ++ c :: r.

(** The move records an event trace accounts for. *)
Definition moves_of (evs : list event) : list (Path * Path) :=
  flat_map (fun e => match e with
                     | MoveEv src dst _ => [(src, dst)]
                     | _ => []
                     end) evs.

(** No move in the trace replaced an existing entry. *)
Definition no_overwrite (evs : list event) : Prop :=
  forall src dst replaced, In (MoveEv src dst replaced) evs -> replaced = false.

(** What a run leaves behind: its outcome, the events it added (each a
    well-behaved effect, in order), and the final world. *)
Definition run {A} (m : M A) (w : world) (o : outcome A)
  (evs : list event) (w' : world) : Prop :=
  m w = (o, w') /\
  events w' = events w ++ evs /\
  locked w' = locked w /\
  exec evs (tree w) (tree w').

(** ** Destinations *)

Module Dest.

(** The folder, relative to the base folder, a top-level file of name [nm]
    is routed to. *)
Definition dest_root (nm : string) : Path :=
  match OrganizeGui.first_category (PyStr.lower (PurePath.suffix_of nm))
          OrganizeGui.CATEGORY_MAP with
  | Some p => p
  | None => PurePath.of_string OrganizeGui.OTHER_FOLDER
  end.

(** All destination folders, relative to the base folder. *)
Definition all : list Path :=
  map (fun e => PurePath.of_string (fst e)) OrganizeGui.CATEGORY_MAP
  ++ [PurePath.of_string OrganizeGui.OTHER_FOLDER].

(** Their first components: the top-level folders the engine fills. *)
Definition roots : list string := ["Documents"; "Media"; "Other"].

Definition legacy_names : list string :=
  map fst OrganizeGui.LEGACY_FOLDER_REMAP.

(** No destination folder, nor any folder above one, is a regular file. *)
Definition clear (base : Path) (t : node) : Prop :=
  forall d q, In d all -> prefix q (base ++ d) -> Tree.path_is_file t q = false.

End Dest.


(** ** The shape of the engine's effects *)

(** A trace of [mkdir]s only, of [p] or folders above it that were not
    there in [t]. *)
Definition mkdirs_under (p : Path) (t : node) (evs : list event) : Prop :=
  forall e, In e evs ->
    exists q, e = MkdirEv q /\ prefix q p /\ Tree.lookup q t = None.

(** An effect of the first pass over the names [ns], started in tree [t]:
    a destination folder is made, or a top-level entry that is no directory
    is moved into its destination folder. *)
Definition top_event (base : Path) (t : node) (ns : list string)
  (e : event) : Prop :=
  (exists q d, e = MkdirEv q /\ In d Dest.all /\ prefix q (base ++ d)) \/
  (exists n x, In n ns /\ Tree.path_is_dir t (base // n) = false /\
     e = MoveEv (base // n) ((base ++ Dest.dest_root n) // x) false).

(** An effect of the legacy-folder migration: a destination folder is made,
    an item of a legacy folder is moved into its destination folder, or a
    legacy folder is removed. *)
Definition legacy_event (base : Path) (tbl : list (string * string))
  (e : event) : Prop :=
  (exists q d, e = MkdirEv q /\ In d Dest.all /\ prefix q (base ++ d)) \/
  (exists L d c x, In (L, d) tbl /\
     e = MoveEv (base // L // c) ((base ++ PurePath.of_string d) // x) false) \/
  (exists L d, In (L, d) tbl /\ e = RmdirEv (base // L)).


(** An effect that leaves the entry at [q], and all below it, alone. *)
Definition quiet (q : Path) (e : event) : Prop :=
  (forall p, In p (removed e) -> ~ prefix p q) /\
  (forall p, In p (touched e) -> ~ above q p).

(** Every removal of a directory [p] in [evs] comes after a move of each
    child of [p] (as [children] lists them) out of it; [seen] holds the
    events before [evs]. *)
Fixpoint drained_before_removal (children : Path -> list string)
  (seen evs : list event) : Prop :=
  match evs with
  | [] => True
  | e :: evs' =>
      match e with
      | RmdirEv p =>
          forall c, In c (children p) ->
            exists dst, In (MoveEv (p // c) dst false) seen
      | _ => True
      end /\
      drained_before_removal children (seen ++ [e]) evs'
  end.


(** ** Scenarios *)

Module Example.

Definition base : Path := ["home"; "user"; "Downloads"].

(** A world whose base folder holds [entries]. *)
Definition world_of (entries : list (string * node)) (locked : list Path)
  : world :=
  {| tree := Dir [("home", Dir [("user", Dir [("Downloads", Dir entries)])])];
     locked := locked;
     refused := fun _ => false;
     events := [] |}.

Definition mixed : world :=
  world_of [("a.pdf", File "a"); ("b.JPG", File "b"); ("c.mp4", File "c");
            ("d.unknownext", File "d"); ("README", File "r");
            (".gitignore", File "g"); ("Projects", Dir [("main.c", File "m")])]
           [].

Definition four : world :=
  world_of [("a.pdf", File "a"); ("b.jpg", File "b"); ("c.mp4", File "c");
            ("d.unknownext", File "d")] [].

Definition collision : world :=
  world_of [("report.pdf", File "new report");
            ("Documents",
             Dir [("PDF", Dir [("report.pdf", File "old report")])])] [].

Definition legacy : world :=
  world_of [("Excel", Dir [("a.xls", File "a"); ("b.xls", File "b");
                           ("old", Dir [("c.xls", File "c")])]);
            ("Documents", Dir [("Excel", Dir [("a.xls", File "kept")])])] [].


Definition legacy_locked : world :=
  world_of [("Excel", Dir [("a.xls", File "a"); ("b.xls", File "b")])]
           [base // "Excel"].

Definition twins : world :=
  world_of [("a.pdf", File "new a"); ("a (1).pdf", File "new a1");
            ("Documents", Dir [("PDF", Dir [("a.pdf", File "old a")])])] [].

Definition blocked : world := world_of [("Other", File "not a folder")] [].

Definition other_dir : world :=
  world_of [("Other", Dir []); ("notes.xyz", File "notes")] [].

Definition readme_blocked : world :=
  world_of [("README", File "r"); ("Other", File "not a folder")] [].


(** [clip.M], the Kelvin sign U+212A (the bytes E2 84 AA), [V]. *)
Definition kelvin_name : string :=
  "clip.M" ++ String (ascii_of_nat 226) (String (ascii_of_nat 132)
                (String (ascii_of_nat 170) "V")).

Definition kelvin : world := world_of [(kelvin_name, File "k")] [].

(** An operating system that refuses every path with a name of more than
    255 bytes, as Linux does ([NAME_MAX], [ENAMETOOLONG]). *)
Definition name_too_long (p : Path) : bool :=
  existsb (fun c => Nat.ltb 255 (String.length c)) p.

(** A name of 255 bytes. *)
Definition long_name : string :=
  string_of_list_ascii (repeat "a"%char 251) ++ ".pdf".

(** The base folder and [Documents/PDF] both hold a file of that name. *)
Definition long : world :=
  {| tree := Dir [("home", Dir [("user", Dir [("Downloads",
                Dir [(long_name, File "new");
                     ("Documents",
                      Dir [("PDF", Dir [(long_name, File "old")])])])])])];
     locked := [];
     refused := name_too_long;
     events := [] |}.

End Example.


(** The log of a run that returned one. *)
Definition log_of (o : outcome OrganizeGui.MoveLog) : OrganizeGui.MoveLog :=
  match o with
  | Ok moves => moves
  | _ => []
  end.

(** [Dest.clear], decided. *)
Definition clearb (base : Path) (t : node) : bool :=
  forallb
    (fun d =>
       forallb (fun n => negb (Tree.path_is_file t (firstn n (base ++ d))))
               (seq 0 (S (List.length (base ++ d)))))
    Dest.all.


(** The errors that, in this model, only [rmdir] raises. *)
Definition rmdir_error (ex : exn) : Prop :=
  match ex with
  | PermissionError _ | DirectoryNotEmpty _ => True
  | _ => False
  end.

(** The outcome is the error of a path the operating system refuses. *)
Definition refusal {A} (o : outcome A) : Prop := exists p, o = Raise (OSError p).

(** [m] leaves the set of refused paths as it is, and raises [OSError]
    only for a path in it. *)
Definition honest {A} (m : M A) : Prop :=
  forall w o w', m w = (o, w') ->
    refused w' = refused w /\
    forall p, o = Raise (OSError p) -> refused w p = true.


(** [m] never lets an exception satisfying [P] out. *)
Definition never_raises {A} (P : exn -> Prop) (m : M A) : Prop :=
  forall w ex w', m w = (Raise ex, w') -> ~ P ex.


(** ** Vocabulary of the further properties *)

(** The names of the top-level entries of [base] that are no directories,
    in listing order. *)
Definition top_level_files (t : node) (base : Path) : list string :=
  filter (fun n => negb (Tree.path_is_dir t (base // n))) (Tree.listing t base).

(** The children of the legacy folders of [base], in table order. *)
Definition legacy_children (t : node) (base : Path) : list Path :=
  flat_map
    (fun r => map (fun c => base // fst r // c) (Tree.listing t (base // fst r)))
    OrganizeGui.LEGACY_FOLDER_REMAP.

(** What [organize_folder] is to move, in order. *)
Definition expected_sources (t : node) (base : Path) : list Path :=
  map (fun n => base // n) (top_level_files t base) ++ legacy_children t base.

(** A record of the preview for the top-level file [n]: its destination is
    what the collision resolver answers in tree [t]. *)
Definition previewed (t : node) (base : Path) (n : string)
  (rec : Path * Path) : Prop :=
  fst rec = base // n /\
  Spec.resolved Spec.file_candidate t ((base ++ Dest.dest_root n) // n) (snd rec).

(** An effect of the engine under [base]: what it creates is a destination
    folder (or a folder above one) or an entry of a destination folder;
    what it removes lies strictly under [base]. *)
Definition engine_event (base : Path) (e : event) : Prop :=
  (forall p, In p (created e) ->
     (e = MkdirEv p /\ exists d, In d Dest.all /\ prefix p (base ++ d)) \/
     (exists d x, In d Dest.all /\ p = (base ++ d) // x)) /\
  (forall p, In p (removed e) -> exists n r, p = base ++ n :: r).


(** The entries of a category table that list the extension [ext]. *)
Definition category_owners (ext : string) (table : list (string * list string))
  : list (string * list string) :=
  filter (fun e => PyStr.mem ext (snd e)) table.

(** No extension of the table is listed by two of its entries. *)
Definition one_owner_each (table : list (string * list string)) : bool :=
  forallb
    (fun e =>
       forallb
         (fun x => match map fst (category_owners x table) with
                   | [d] => String.eqb d (fst e)
                   | _ => false
                   end)
         (snd e))
    table.

(** ** The activity log of [OrganizerApp] ([organize_gui.py]) *)

Module OrganizerApp.

(** A [pathlib] path as it is written (POSIX flavour): its root (["/"],
    ["//"] or none) and its parts. *)
Record PyPath : Type := { root : string; tail : list string }.

(** [Path(s)] *)
Definition parse (s : string) : PyPath :=
  {| root := match s with
             | String "/" (String "/" (String "/" _)) => "/"
             | String "/" (String "/" _) => "//"
             | String "/" _ => "/"
             | _ => ""
             end;
     tail := PurePath.of_string s |}.

(** [p.name] *)
Definition name (p : PyPath) : string := last (tail p) "".

(** [str(p)] *)
Definition str (p : PyPath) : string :=
  match root p, tail p with
  | EmptyString, [] => "."
  | r, ps => (r ++ String.concat "/" ps)%string
  end.

Inductive error : Type :=
| ValueError (p other : PyPath).

(** [p.relative_to(other)]: the parts of [p] after those of [other], when
    [other] has the root of [p] and its parts begin those of [p]. *)
Definition relative_to (p other : PyPath) : error + PyPath :=
  if String.eqb (root p) (root other) && prefixb (tail other) (tail p)
  then inr {| root := ""; tail := skipn (List.length (tail other)) (tail p) |}
  else inl (ValueError p other).

(** The calls made on the text widget [self.log]. *)
Inductive log_call : Type :=
| Configure (state : string)
| Delete (index1 index2 : string)
| Insert (index chars : string).

Definition newline : string := String "010"%char "".

(** The loop [for src, dest in moves] of [write_log]. *)
Fixpoint insert_moves (folder_var : string) (moves : list (PyPath * PyPath))
  (calls : list log_call) : list log_call * option error :=
  match moves with
  | [] => (calls, None)
  | (src, dest) :: moves' =>
      match relative_to dest (parse folder_var) with
      | inl e => (calls, Some e)
      | inr rel =>
          insert_moves folder_var moves'
            (calls ++ [Insert "end"
                         (name src ++ " -> " ++ str rel ++ newline)%string])
      end
  end.

(** [write_log], given the text of [self.folder_var]: the calls made on
    the widget, and the exception raised if one is. *)
Definition write_log (folder_var : string) (moves : list (PyPath * PyPath))
  : list log_call * option error :=
  let calls := [Configure "normal"; Delete "1.0" "end"] in
  match moves with
  | [] =>
      (calls ++ [Insert "end" ("No files to move." ++ newline)%string;
                 Configure "disabled"], None)
  | _ :: _ =>
      match insert_moves folder_var moves calls with
      | (calls', None) => (calls' ++ [Configure "disabled"], None)
      | (calls', Some e) => (calls', Some e)
      end
  end.

(** An absolute path of the file tree, as a [pathlib] path. *)
Definition absolute (p : Path) : PyPath := {| root := "/"; tail := p |}.

Definition record (r : Path * Path) : PyPath * PyPath :=
  (absolute (fst r), absolute (snd r)).

(** The line for a record whose destination is under [base]. *)
Definition shown (base : Path) (r : Path * Path) : log_call :=
  Insert "end"
    (PurePath.name (fst r) ++ " -> "
       ++ String.concat "/" (skipn (List.length base) (snd r)) ++ newline)%string.

End OrganizerApp.

(** * Part II: facts about strings and paths *)

Section StringFacts.

Lemma append_cancel_l (s a b : string) :
  (s ++ a = s ++ b)%string -> a = b.
Proof.
  induction s as [|c s IH]; simpl; intros H.
  - exact H.
  - injection H as H. auto.
Qed.

Lemma length_append (a b : string) :
  String.length (a ++ b)%string = String.length a + String.length b.
Proof. induction a as [|c a IH]; simpl; [reflexivity | now rewrite IH]. Qed.

Lemma append_cancel_r (t a b : string) :
  (a ++ t = b ++ t)%string -> a = b.
Proof.
  revert b. induction a as [|c a IH]; intros [|d b] H; simpl in H.
  - reflexivity.
  - apply (f_equal String.length) in H. simpl in H.
    rewrite length_append in H. lia.
  - apply (f_equal String.length) in H. simpl in H.
    rewrite length_append in H. lia.
  - injection H as -> H. f_equal. auto.
Qed.

Lemma str_inj (m n : nat) : PyStr.str m = PyStr.str n -> m = n.
Proof.
  unfold PyStr.str. intros H.
  apply Unsigned.to_uint_inj.
  pose proof (NilEmpty.usu (Nat.to_uint m)) as Hm.
  pose proof (NilEmpty.usu (Nat.to_uint n)) as Hn.
  rewrite H in Hm. congruence.
Qed.

(** The numbered name [pre (N)post] determines [N]. *)
Lemma numbered_inj (pre post : string) (m n : nat) :
  (pre ++ " (" ++ PyStr.str m ++ ")" ++ post
   = pre ++ " (" ++ PyStr.str n ++ ")" ++ post)%string -> m = n.
Proof.
  intros H. apply append_cancel_l in H. apply append_cancel_l in H.
  apply append_cancel_r in H. now apply str_inj.
Qed.

Lemma mem_true_iff (x : string) (xs : list string) :
  PyStr.mem x xs = true <-> In x xs.
Proof.
  unfold PyStr.mem. rewrite existsb_exists. split.
  - intros [y [Hy E]]. apply String.eqb_eq in E. now subst.
  - intros H. exists x. split; [exact H | apply String.eqb_refl].
Qed.

End StringFacts.

Section PathFacts.

Lemma name_child (p : Path) (s : string) : PurePath.name (p // s) = s.
Proof. apply last_last. Qed.

Lemma parent_child (p : Path) (s : string) : PurePath.parent (p // s) = p.
Proof. apply removelast_last. Qed.

Lemma name_app_cons (p q : Path) (s : string) :
  PurePath.name (p ++ q // s) = s.
Proof. rewrite app_assoc. apply name_child. Qed.

Lemma parent_app_cons (p q : Path) (s : string) :
  PurePath.parent (p ++ q // s) = p ++ q.
Proof. rewrite app_assoc. apply parent_child. Qed.

Lemma prefix_refl (p : Path) : prefix p p.
Proof. exists []. now rewrite app_nil_r. Qed.

Lemma prefix_nil (p : Path) : prefix [] p.
Proof. now exists p. Qed.

Lemma prefix_app (p r : Path) : prefix p (p ++ r).
Proof. now exists r. Qed.

Lemma prefix_trans (p q r : Path) : prefix p q -> prefix q r -> prefix p r.
Proof.
  intros [a ->] [b ->]. exists (a ++ b). now rewrite app_assoc.
Qed.

Lemma prefix_cons_inv (a b : string) (q p : Path) :
  prefix (a :: q) (b :: p) -> a = b /\ prefix q p.
Proof.
  intros [r H]. simpl in H. injection H as -> ->. split; [reflexivity|].
  now exists r.
Qed.

Lemma prefix_of_nil (q : Path) : prefix q [] -> q = [].
Proof.
  intros [r H]. symmetry in H. now apply app_eq_nil in H.
Qed.

Lemma prefix_app_cancel (l a b : Path) :
  prefix (l ++ a) (l ++ b) <-> prefix a b.
Proof.
  split; intros [r H].
  - rewrite <- app_assoc in H. apply app_inv_head in H. now exists r.
  - subst. exists r. now rewrite app_assoc.
Qed.

Lemma prefixb_spec (q p : Path) : prefixb q p = true <-> prefix q p.
Proof.
  revert p. induction q as [|a q IH]; intros p; simpl.
  - split; [intros _; apply prefix_nil | reflexivity].
  - destruct p as [|b p].
    + split; [discriminate | intros H; apply prefix_of_nil in H; discriminate].
    + rewrite andb_true_iff, String.eqb_eq, IH. split.
      * intros [-> [r ->]]. now exists r.
      * apply prefix_cons_inv.
Qed.

Lemma prefix_antisym (p q : Path) : prefix p q -> prefix q p -> p = q.
Proof.
  intros [a Ha] [b Hb]. subst q.
  rewrite <- app_assoc in Hb.
  rewrite <- (app_nil_r p) in Hb at 1.
  apply app_inv_head in Hb. symmetry in Hb.
  apply app_eq_nil in Hb as [-> _]. now rewrite app_nil_r.
Qed.

Lemma path_eqb_spec (p q : Path) : path_eqb p q = true <-> p = q.
Proof.
  unfold path_eqb. rewrite andb_true_iff, !prefixb_spec. split.
  - intros [H1 H2]. now apply prefix_antisym.
  - intros ->. split; apply prefix_refl.
Qed.

Lemma path_eqb_refl (p : Path) : path_eqb p p = true.
Proof. now apply path_eqb_spec. Qed.

Lemma diverge_sym (p q : Path) : diverge p q -> diverge q p.
Proof.
  intros (l & a & b & p' & q' & -> & -> & Hab).
  exists l, b, a, q', p'. repeat split; congruence.
Qed.

Lemma diverge_under (l : Path) (a b : string) (p' q' : Path) :
  a <> b -> diverge (l ++ a :: p') (l ++ b :: q').
Proof. intros H. now exists l, a, b, p', q'. Qed.

Lemma diverge_not_prefix (p q : Path) : diverge p q -> ~ prefix p q.
Proof.
  intros (l & a & b & p' & q' & -> & -> & Hab) H.
  apply prefix_app_cancel in H. apply prefix_cons_inv in H. tauto.
Qed.

(** Two paths: one is an ancestor-or-self of the other, or they diverge. *)
Lemma path_cases (p q : Path) :
  prefix q p \/ (exists c r, q = p ++ c :: r) \/ diverge p q.
Proof.
  revert q. induction p as [|b p IH]; intros [|a q].
  - left. apply prefix_refl.
  - right. left. now exists a, q.
  - left. apply prefix_nil.
  - destruct (string_dec a b) as [->|Hab].
    + destruct (IH q) as [[r ->] | [(c & r & ->) | (l & x & y & p' & q' & -> & -> & Hxy)]].
      * left. now exists r.
      * right. left. now exists c, r.
      * right. right. now exists (b :: l), x, y, p', q'.
    + right. right. exists [], b, a, p, q. repeat split; congruence.
Qed.

End PathFacts.

(** * Part III: facts about the file-system tree *)

Section TreeFacts.

Import Tree.

Lemma assoc_put_eq k v es : assoc k (put_entry k v es) = Some v.
Proof.
  induction es as [|[k' v'] es IH]; simpl.
  - now rewrite String.eqb_refl.
  - destruct (String.eqb k k') eqn:E; simpl; rewrite ?String.eqb_refl, ?E; auto.
Qed.

Lemma assoc_put_neq c k v es :
  c <> k -> assoc c (put_entry k v es) = assoc c es.
Proof.
  intros Hck. apply String.eqb_neq in Hck.
  induction es as [|[k' v'] es IH]; simpl.
  - now rewrite Hck.
  - destruct (String.eqb k k') eqn:E; simpl.
    + apply String.eqb_eq in E. subst k'. now rewrite Hck.
    + now rewrite IH.
Qed.

Lemma assoc_del_eq k es : assoc k (del_entry k es) = None.
Proof.
  induction es as [|[k' v'] es IH]; simpl; [reflexivity|].
  destruct (String.eqb k k') eqn:E; simpl; [exact IH | now rewrite E].
Qed.

Lemma assoc_del_neq c k es :
  c <> k -> assoc c (del_entry k es) = assoc c es.
Proof.
  intros Hck. induction es as [|[k' v'] es IH]; simpl; [reflexivity|].
  destruct (String.eqb k k') eqn:E; simpl.
  - apply String.eqb_eq in E. subst k'.
    apply String.eqb_neq in Hck. now rewrite Hck.
  - now rewrite IH.
Qed.

Lemma assoc_some_in k v es : assoc k es = Some v -> In (k, v) es.
Proof.
  induction es as [|[k' v'] es IH]; simpl; [discriminate|].
  destruct (String.eqb_spec k k') as [->|Hne].
  - intros [= ->]. now left.
  - intros H. right. auto.
Qed.

Lemma assoc_none_iff k es : assoc k es = None <-> ~ In k (map fst es).
Proof.
  induction es as [|[k' v'] es IH]; simpl; [tauto|].
  destruct (String.eqb_spec k k') as [->|Hne].
  - split; [discriminate | intros H; exfalso; apply H; now left].
  - rewrite IH. split; intros H; [intros [E|E]; [congruence | tauto] | tauto].
Qed.

Lemma assoc_in_keys k v es : assoc k es = Some v -> In k (map fst es).
Proof.
  intros H. apply assoc_some_in in H.
  apply (in_map fst) in H. exact H.
Qed.

Lemma in_keys_assoc k es : In k (map fst es) -> exists v, assoc k es = Some v.
Proof.
  intros H. destruct (assoc k es) eqn:E; [eauto|].
  apply assoc_none_iff in E. tauto.
Qed.

Lemma keys_put_present k v x es :
  assoc k es = Some x -> map fst (put_entry k v es) = map fst es.
Proof.
  induction es as [|[k' v'] es IH]; simpl; [discriminate|].
  destruct (String.eqb_spec k k') as [->|Hne]; simpl; [reflexivity|].
  intros H. now rewrite IH.
Qed.

Lemma put_absent k v es :
  assoc k es = None -> put_entry k v es = es ++ [(k, v)].
Proof.
  induction es as [|[k' v'] es IH]; simpl; [reflexivity|].
  destruct (String.eqb_spec k k') as [->|Hne]; [discriminate|].
  intros H. now rewrite IH.
Qed.

Lemma lookup_app p q t :
  lookup (p ++ q) t =
  match lookup p t with Some n => lookup q n | None => None end.
Proof.
  revert t. induction p as [|c p IH]; intros t; simpl; [reflexivity|].
  destruct t as [d|es]; [reflexivity|].
  destruct (assoc c es); [apply IH | reflexivity].
Qed.

Lemma lookup_file_cons d c r : lookup (c :: r) (File d) = None.
Proof. reflexivity. Qed.

(** A path with an existing strict extension is a directory. *)
Lemma lookup_ext_dir p c r t n :
  lookup (p ++ c :: r) t = Some n -> exists es, lookup p t = Some (Dir es).
Proof.
  rewrite lookup_app. destruct (lookup p t) as [[d|es]|]; try discriminate.
  eauto.
Qed.

Lemma update_is_dir p f es : exists es', update p f (Dir es) = Dir es'.
Proof.
  destruct p as [|c p]; simpl; [eauto|].
  destruct (assoc c es); eauto.
Qed.

(** On the way down to the updated directory. *)
Lemma lookup_update_prefix q r f t n :
  lookup q t = Some n ->
  lookup q (update (q ++ r) f t) = Some (update r f n).
Proof.
  revert t. induction q as [|c q IH]; intros t; simpl.
  - now intros [= ->].
  - destruct t as [d|es]; [discriminate|].
    destruct (assoc c es) as [ch|] eqn:E; [|discriminate].
    intros H. simpl. rewrite assoc_put_eq. now apply IH.
Qed.

(** Away from the updated directory. *)
Lemma lookup_update_diverge p q f t :
  diverge p q -> lookup q (update p f t) = lookup q t.
Proof.
  intros (l & a & b & p' & q' & -> & -> & Hab).
  revert t. induction l as [|c l IH]; intros t; simpl.
  - destruct t as [d|es]; [reflexivity|].
    destruct (assoc a es) as [ch|] eqn:E; [|reflexivity].
    simpl. rewrite assoc_put_neq by congruence. reflexivity.
  - destruct t as [d|es]; [reflexivity|].
    destruct (assoc c es) as [ch|] eqn:E; simpl; [|now rewrite E].
    rewrite assoc_put_eq. apply IH.
Qed.

Lemma lookup_update_at p r f t es :
  lookup p t = Some (Dir es) ->
  lookup (p ++ r) (update p f t) = lookup r (Dir (f es)).
Proof.
  intros H. rewrite lookup_app.
  pose proof (lookup_update_prefix p [] f t _ H) as H1.
  rewrite app_nil_r in H1. rewrite H1. reflexivity.
Qed.

Lemma lookup_update_above p q f t es :
  lookup p t = Some (Dir es) -> prefix q p ->
  exists es1 es2,
    lookup q t = Some (Dir es1) /\ lookup q (update p f t) = Some (Dir es2).
Proof.
  intros H [r ->]. rewrite lookup_app in H.
  destruct (lookup q t) as [n|] eqn:E; [|discriminate].
  assert (exists es1, n = Dir es1) as [es1 ->].
  { destruct n as [d|es1]; [|eauto]. destruct r; discriminate. }
  rewrite (lookup_update_prefix q r f t _ E).
  destruct (update_is_dir r f es1) as [es2 ->]. eauto.
Qed.

Lemma lookup_update_other p q f t es :
  lookup p t = Some (Dir es) ->
  ~ prefix q p ->
  (forall c r, q = p ++ c :: r -> assoc c (f es) = assoc c es) ->
  lookup q (update p f t) = lookup q t.
Proof.
  intros H Hq Hf.
  destruct (path_cases p q) as [Hp | [(c & r & ->) | Hd]].
  - contradiction.
  - rewrite (lookup_update_at p (c :: r) f t es H).
    rewrite lookup_app, H. simpl. now rewrite (Hf c r eq_refl).
  - now apply lookup_update_diverge.
Qed.

(** *** Adding and removing one entry *)

Lemma add_child par k x t :
  add (par // k) x t = update par (put_entry k x) t.
Proof. unfold add. now rewrite parent_child, name_child. Qed.

Lemma del_child par k t :
  del (par // k) t = update par (del_entry k) t.
Proof. unfold del. now rewrite parent_child, name_child. Qed.

Lemma child_under_cases par k q :
  ~ prefix q par -> ~ prefix (par // k) q ->
  forall c r, q = par ++ c :: r -> c <> k.
Proof.
  intros _ Hn c r -> ->. apply Hn.
  exists r. now rewrite <- app_assoc.
Qed.

Lemma lookup_add_at par k x r t es :
  lookup par t = Some (Dir es) ->
  lookup (par // k ++ r) (add (par // k) x t) = lookup r x.
Proof.
  intros H. rewrite add_child, <- app_assoc. simpl.
  rewrite (lookup_update_at par (k :: r) _ t es H). simpl.
  now rewrite assoc_put_eq.
Qed.

Lemma lookup_add_other par k x q t es :
  lookup par t = Some (Dir es) ->
  ~ prefix q par -> ~ prefix (par // k) q ->
  lookup q (add (par // k) x t) = lookup q t.
Proof.
  intros H H1 H2. rewrite add_child.
  apply (lookup_update_other par q _ t es H H1).
  intros c r E. apply assoc_put_neq.
  now apply (child_under_cases par k q H1 H2 c r).
Qed.

Lemma lookup_add_above par k x q t es :
  lookup par t = Some (Dir es) -> prefix q par ->
  exists es1 es2,
    lookup q t = Some (Dir es1) /\
    lookup q (add (par // k) x t) = Some (Dir es2).
Proof. intros H Hq. rewrite add_child. now apply (lookup_update_above par q _ t es). Qed.

Lemma lookup_del_at par k r t es :
  lookup par t = Some (Dir es) ->
  lookup (par // k ++ r) (del (par // k) t) = None.
Proof.
  intros H. rewrite del_child, <- app_assoc. simpl.
  rewrite (lookup_update_at par (k :: r) _ t es H). simpl.
  now rewrite assoc_del_eq.
Qed.

Lemma lookup_del_other par k q t es :
  lookup par t = Some (Dir es) ->
  ~ prefix q par -> ~ prefix (par // k) q ->
  lookup q (del (par // k) t) = lookup q t.
Proof.
  intros H H1 H2. rewrite del_child.
  apply (lookup_update_other par q _ t es H H1).
  intros c r E. apply assoc_del_neq.
  now apply (child_under_cases par k q H1 H2 c r).
Qed.

Lemma lookup_del_above par k q t es :
  lookup par t = Some (Dir es) -> prefix q par ->
  exists es1 es2,
    lookup q t = Some (Dir es1) /\
    lookup q (del (par // k) t) = Some (Dir es2).
Proof. intros H Hq. rewrite del_child. now apply (lookup_update_above par q _ t es). Qed.

End TreeFacts.

(** * Part IV: the collision resolvers *)

Section Resolvers.

Import Tree.

Lemma exists_child_in_listing t par k :
  path_exists t (par // k) = true -> In k (listing t par).
Proof.
  unfold path_exists, listing. rewrite lookup_app.
  destruct (lookup par t) as [[d|es]|]; simpl; try discriminate.
  destruct (assoc k es) eqn:E; [|discriminate].
  intros _. now apply assoc_in_keys in E.
Qed.

Lemma NoDup_map_inj {A B} (f : A -> B) (l : list A) :
  (forall x y, f x = f y -> x = y) -> NoDup l -> NoDup (map f l).
Proof.
  intros Hinj H. induction H as [|x l Hx Hl IH]; simpl; constructor; auto.
  intros Hin. apply in_map_iff in Hin as [y [E Hy]].
  apply Hinj in E. now subst.
Qed.

Lemma bounded_search (P : nat -> bool) (c k : nat) :
  (forall m, c <= m < c + k -> P m = true) \/
  (exists m, c <= m < c + k /\ P m = false).
Proof.
  induction k as [|k IH].
  - left. intros m Hm. lia.
  - destruct IH as [IH | (m & Hm & Pm)].
    + destruct (P (c + k)) eqn:E.
      * left. intros m Hm.
        destruct (Nat.eq_dec m (c + k)) as [->|Hne]; [exact E | apply IH; lia].
      * right. exists (c + k). split; [lia | exact E].
    + right. exists m. split; [lia | exact Pm].
Qed.

(** Among [n + 1] distinct names, one is not listed in a directory of
    [n] entries. *)
Lemma free_name_exists t par (nm : nat -> string) :
  (forall m n, nm m = nm n -> m = n) ->
  exists m, 1 <= m < 1 + S (List.length (listing t par)) /\
            path_exists t (par // nm m) = false.
Proof.
  intros Hinj.
  destruct (bounded_search (fun m => path_exists t (par // nm m)) 1
              (S (List.length (listing t par)))) as [Hall | Hex]; [|exact Hex].
  exfalso.
  assert (Hincl : incl (map nm (seq 1 (S (List.length (listing t par)))))
                       (listing t par)).
  { intros k Hk. apply in_map_iff in Hk as [m [<- Hm]].
    apply in_seq in Hm. apply exists_child_in_listing. apply Hall. lia. }
  apply NoDup_incl_length in Hincl.
  - rewrite length_map, length_seq in Hincl. lia.
  - apply NoDup_map_inj; [exact Hinj | apply seq_NoDup].
Qed.

Section OneProgram.

(** Both program variants share the loop; facts are stated for the first. *)

Lemma unique_loop_finds (cand : nat -> Path) w fuel c :
  (exists m, c <= m < c + fuel /\ path_exists (tree w) (cand m) = false) ->
  exists N, c <= N < c + fuel /\
    (forall M, c <= M < N ->
       refused w (cand M) = false /\ path_exists (tree w) (cand M) = true) /\
    ((refused w (cand N) = true /\
      OrganizeGui.unique_loop fuel cand c w = (Raise (OSError (cand N)), w)) \/
     (refused w (cand N) = false /\
      path_exists (tree w) (cand N) = false /\
      OrganizeGui.unique_loop fuel cand c w = (Ok (cand N), w))).
Proof.
  revert c. induction fuel as [|fuel IH]; intros c (m & Hm & Hfree).
  - lia.
  - simpl. unfold bind, Fs.exists_.
    destruct (refused w (cand c)) eqn:R.
    { exists c. split; [lia|]. split; [intros M HM; lia|]. left. auto. }
    destruct (path_exists (tree w) (cand c)) eqn:E; simpl.
    + destruct (IH (S c)) as (N & HN & Hbelow & Hrun).
      { exists m. split; [|exact Hfree].
        assert (m <> c) by (intros ->; congruence). lia. }
      exists N. split; [lia|]. split; [|exact Hrun].
      intros M HM. destruct (Nat.eq_dec M c) as [->|Hne]; [auto|].
      apply Hbelow. lia.
    + exists c. split; [lia|]. split; [intros M HM; lia|]. right. auto.
Qed.

Lemma unique_loop_more_fuel (cand : nat -> Path) w w' r fuel fuel' c :
  OrganizeGui.unique_loop fuel cand c w = (Ok r, w') ->
  fuel <= fuel' ->
  OrganizeGui.unique_loop fuel' cand c w = (Ok r, w').
Proof.
  revert fuel' c. induction fuel as [|fuel IH]; intros fuel' c; simpl.
  - discriminate.
  - intros H Hle. destruct fuel' as [|fuel']; [lia|]. simpl.
    unfold bind, Fs.exists_ in *.
    destruct (refused w (cand c)); [exact H|].
    destruct (path_exists (tree w) (cand c)); simpl in *; [|exact H].
    apply IH; [exact H | lia].
Qed.

(** The search in directory [par] for the first free numbered name never
    exhausts its bound. *)
Lemma numbered_search par (nm : nat -> string) w :
  (forall m n, nm m = nm n -> m = n) ->
  exists N, 1 <= N /\
    (forall M, 1 <= M < N ->
       refused w (par // nm M) = false /\
       path_exists (tree w) (par // nm M) = true) /\
    ((refused w (par // nm N) = true /\
      OrganizeGui.unique_loop (S (List.length (listing (tree w) par)))
        (fun counter => par // nm counter) 1 w
      = (Raise (OSError (par // nm N)), w)) \/
     (refused w (par // nm N) = false /\
      path_exists (tree w) (par // nm N) = false /\
      OrganizeGui.unique_loop (S (List.length (listing (tree w) par)))
        (fun counter => par // nm counter) 1 w = (Ok (par // nm N), w))).
Proof.
  intros Hinj.
  destruct (unique_loop_finds (fun counter => par // nm counter) w
              (S (List.length (listing (tree w) par))) 1
              (free_name_exists (tree w) par nm Hinj))
    as (N & HN & Hbelow & Hrun).
  exists N. split; [lia|]. split; [exact Hbelow | exact Hrun].
Qed.

End OneProgram.

End Resolvers.

Section ResolverSpecs.

Import Tree.

(** A resolver that checks [target] and then the candidates [cand]. *)
Lemma resolver_resolves candidate (target : Path) (nm : nat -> string) w
  (m : M Path) :
  (forall n n', nm n = nm n' -> n = n') ->
  (forall N, 1 <= N -> candidate target N = PurePath.parent target // nm N) ->
  m = (e <- Fs.exists_ target ;;
       if negb e then ret target
       else
         fuel <- Fs.search_bound (PurePath.parent target) ;;
         OrganizeGui.unique_loop fuel
           (fun counter => PurePath.parent target // nm counter) 1) ->
  exists o, m w = (o, w) /\ Spec.resolves candidate w target o.
Proof.
  intros Hinj Hcand ->. unfold Spec.resolves, bind, Fs.exists_.
  destruct (refused w target) eqn:R.
  { exists (Raise (OSError target)). split; [reflexivity|].
    exists 0. split; [intros M HM; lia|]. left. auto. }
  destruct (path_exists (tree w) target) eqn:E; simpl.
  - unfold Fs.search_bound.
    destruct (numbered_search (PurePath.parent target) nm w Hinj)
      as (N & HN & Hbelow & Hrun).
    assert (Hpr : forall M, 1 <= M ->
              Spec.probe candidate target M = PurePath.parent target // nm M).
    { intros M HM. destruct M as [|M]; [lia|]. simpl. now apply Hcand. }
    destruct Hrun as [[HR Hrun] | (HR & Hfree & Hrun)].
    + exists (Raise (OSError (PurePath.parent target // nm N))).
      split; [exact Hrun|]. exists N. split.
      * intros M HM. destruct M as [|M]; [simpl; auto|].
        rewrite Hpr by lia. apply Hbelow. lia.
      * left. rewrite Hpr by lia. auto.
    + exists (Ok (PurePath.parent target // nm N)).
      split; [exact Hrun|]. exists N. split.
      * intros M HM. destruct M as [|M]; [simpl; auto|].
        rewrite Hpr by lia. apply Hbelow. lia.
      * right. rewrite Hpr by lia. auto.
  - exists (Ok target). split; [reflexivity|].
    exists 0. split; [intros M HM; lia|]. right. auto.
Qed.

Lemma ensure_unique_path_resolves target w :
  exists o, OrganizeGui.ensure_unique_path target w = (o, w) /\
            Spec.resolves Spec.file_candidate w target o.
Proof.
  apply (resolver_resolves Spec.file_candidate target
           (fun counter =>
              (PurePath.stem target ++ " (" ++ PyStr.str counter ++ ")"
                 ++ PurePath.suffix target)%string)).
  - intros m n. apply numbered_inj.
  - reflexivity.
  - reflexivity.
Qed.

Lemma ensure_unique_dir_resolves target w :
  exists o, OrganizeGui.ensure_unique_dir target w = (o, w) /\
            Spec.resolves Spec.dir_candidate w target o.
Proof.
  apply (resolver_resolves Spec.dir_candidate target
           (fun counter =>
              (PurePath.name target ++ " (" ++ PyStr.str counter ++ ")")%string)).
  - intros m n H. apply (numbered_inj (PurePath.name target) "" m n). exact H.
  - reflexivity.
  - reflexivity.
Qed.

(** What a resolver returns exists nowhere and is the lowest free
    candidate; what it raises is the error of a refused path. *)
Lemma resolves_cases candidate w target o :
  Spec.resolves candidate w target o ->
  (exists r, o = Ok r /\ Spec.resolved candidate (tree w) target r /\
             refused w r = false /\ refused w target = false) \/
  (exists p, o = Raise (OSError p) /\ refused w p = true).
Proof.
  intros (N & Hbelow & [[HR ->] | (HR & Hfree & ->)]).
  - right. eauto.
  - left. exists (Spec.probe candidate target N). split; [reflexivity|].
    split; [|split; [exact HR|]].
    + split; [exact Hfree|]. destruct N as [|N].
      * left. auto.
      * right. split; [apply (Hbelow 0); lia|].
        exists (S N). split; [lia|]. split; [reflexivity|].
        intros M HM. destruct M as [|M]; [lia|]. apply (Hbelow (S M)). lia.
    + destruct N as [|N]; [exact HR | apply (Hbelow 0); lia].
Qed.

Lemma ensure_unique_path_spec target w :
  (exists r, OrganizeGui.ensure_unique_path target w = (Ok r, w) /\
             Spec.resolved Spec.file_candidate (tree w) target r /\
             refused w r = false) \/
  (exists p, OrganizeGui.ensure_unique_path target w = (Raise (OSError p), w) /\
             refused w p = true).
Proof.
  destruct (ensure_unique_path_resolves target w) as (o & E & H).
  destruct (resolves_cases _ _ _ _ H) as [(r & -> & Hr & Hok & _) | (p & -> & Hp)];
    [left | right]; eauto.
Qed.

Lemma ensure_unique_dir_spec target w :
  (exists r, OrganizeGui.ensure_unique_dir target w = (Ok r, w) /\
             Spec.resolved Spec.dir_candidate (tree w) target r /\
             refused w r = false) \/
  (exists p, OrganizeGui.ensure_unique_dir target w = (Raise (OSError p), w) /\
             refused w p = true).
Proof.
  destruct (ensure_unique_dir_resolves target w) as (o & E & H).
  destruct (resolves_cases _ _ _ _ H) as [(r & -> & Hr & Hok & _) | (p & -> & Hp)];
    [left | right]; eauto.
Qed.

(** A resolved path is a sibling of the target. *)
Lemma resolved_sibling candidate t par k r :
  (forall tg N, PurePath.parent (candidate tg N) = PurePath.parent tg) ->
  (forall tg N, candidate tg N <> []) ->
  Spec.resolved candidate t (par // k) r ->
  exists k', r = par // k' /\ lookup (par // k') t = None.
Proof.
  intros Hpar Hne [Hfree Hr].
  assert (Hnone : lookup r t = None).
  { unfold path_exists in Hfree. destruct (lookup r t); [discriminate | reflexivity]. }
  destruct Hr as [[_ ->] | [_ (N & _ & -> & _)]].
  - exists k. auto.
  - specialize (Hpar (par // k) N). rewrite parent_child in Hpar.
    specialize (Hne (par // k) N).
    destruct (exists_last Hne) as (l & a & E).
    rewrite E in *. rewrite parent_child in Hpar. subst l.
    exists a. auto.
Qed.

Lemma file_candidate_sibling par k t r :
  Spec.resolved Spec.file_candidate t (par // k) r ->
  exists k', r = par // k' /\ lookup (par // k') t = None.
Proof.
  apply resolved_sibling.
  - intros tg N. apply parent_child.
  - intros tg N H. now apply app_eq_nil in H as [_ H].
Qed.

Lemma dir_candidate_sibling par k t r :
  Spec.resolved Spec.dir_candidate t (par // k) r ->
  exists k', r = par // k' /\ lookup (par // k') t = None.
Proof.
  apply resolved_sibling.
  - intros tg N. apply parent_child.
  - intros tg N H. now apply app_eq_nil in H as [_ H].
Qed.

End ResolverSpecs.

(** * Part V: what one effect preserves *)

Section EffectFacts.

Import Tree.

Lemma nodupb_spec l : nodupb l = true <-> NoDup l.
Proof.
  induction l as [|x l IH]; simpl.
  - split; [constructor | reflexivity].
  - rewrite andb_true_iff, negb_true_iff, IH. split.
    + intros [Hx Hl]. constructor; [|exact Hl].
      intros Hin. apply mem_true_iff in Hin. congruence.
    + intros H. inversion H as [|? ? Hx Hl]; subst. split; [|exact Hl].
      destruct (PyStr.mem x l) eqn:E; [|reflexivity].
      apply mem_true_iff in E. contradiction.
Qed.

Lemma wf_Dir es :
  wf (Dir es) = nodupb (map fst es) && forallb (fun e => wf (snd e)) es.
Proof. reflexivity. Qed.

Lemma files_Dir es : files (Dir es) = flat_map (fun e => files (snd e)) es.
Proof. reflexivity. Qed.

Lemma wf_dir_iff es :
  wf (Dir es) = true <->
  NoDup (map fst es) /\ (forall k v, In (k, v) es -> wf v = true).
Proof.
  rewrite wf_Dir, andb_true_iff, nodupb_spec, forallb_forall. split.
  - intros [H1 H2]. split; [exact H1|]. intros k v Hin. apply (H2 (k, v) Hin).
  - intros [H1 H2]. split; [exact H1|]. intros [k v] Hin. apply (H2 k v Hin).
Qed.

Lemma wf_lookup p t n : wf t = true -> lookup p t = Some n -> wf n = true.
Proof.
  revert t. induction p as [|c p IH]; intros t Hwf; simpl.
  - now intros [= <-].
  - destruct t as [d|es]; [discriminate|].
    destruct (assoc c es) as [ch|] eqn:E; [|discriminate].
    apply IH. apply wf_dir_iff in Hwf as [_ Hall].
    apply (Hall c ch). now apply assoc_some_in.
Qed.

Lemma in_put_entry k v es k' v' :
  In (k', v') (put_entry k v es) -> (k', v') = (k, v) \/ In (k', v') es.
Proof.
  induction es as [|[k0 v0] es IH]; simpl.
  - intros [H|[]]; auto.
  - destruct (String.eqb k k0); simpl; intros [H|H]; auto.
    destruct (IH H); auto.
Qed.

Lemma keys_put k v es :
  map fst (put_entry k v es) = map fst es \/
  (~ In k (map fst es) /\ map fst (put_entry k v es) = map fst es ++ [k]).
Proof.
  destruct (assoc k es) as [x|] eqn:E.
  - left. now apply (keys_put_present k v x).
  - right. split; [now apply assoc_none_iff|].
    rewrite (put_absent k v es E), map_app. reflexivity.
Qed.

Lemma wf_put k v es :
  wf (Dir es) = true -> wf v = true -> wf (Dir (put_entry k v es)) = true.
Proof.
  rewrite !wf_dir_iff. intros [Hnd Hall] Hv. split.
  - destruct (keys_put k v es) as [-> | [Hk ->]]; [exact Hnd|].
    apply NoDup_app; [exact Hnd | repeat constructor; simpl; tauto |].
    intros a Ha [<-|[]]. contradiction.
  - intros k' v' Hin. apply in_put_entry in Hin as [[= -> ->] | Hin].
    + exact Hv.
    + now apply (Hall k' v').
Qed.

Lemma keys_del k es :
  map fst (del_entry k es) = filter (fun c => negb (String.eqb k c)) (map fst es).
Proof.
  unfold del_entry. induction es as [|[k0 v0] es IH]; simpl; [reflexivity|].
  destruct (String.eqb k k0); simpl; now rewrite IH.
Qed.

Lemma wf_del k es : wf (Dir es) = true -> wf (Dir (del_entry k es)) = true.
Proof.
  rewrite !wf_dir_iff. intros [Hnd Hall]. split.
  - rewrite keys_del. now apply NoDup_filter.
  - intros k' v' Hin. unfold del_entry in Hin.
    apply filter_In in Hin as [Hin _]. now apply (Hall k' v').
Qed.

Lemma wf_update p f t :
  wf t = true ->
  (forall es, wf (Dir es) = true -> wf (Dir (f es)) = true) ->
  wf (update p f t) = true.
Proof.
  intros Hwf Hf. revert t Hwf. induction p as [|c p IH]; intros t Hwf.
  - destruct t as [d|es]; cbn [update]; auto.
  - destruct t as [d|es]; cbn [update]; auto.
    destruct (assoc c es) as [ch|] eqn:E; [|exact Hwf].
    apply wf_put; [exact Hwf|]. apply IH.
    apply (wf_lookup [c] (Dir es)); [exact Hwf|]. simpl. now rewrite E.
Qed.

Lemma wf_add p x t : wf t = true -> wf x = true -> wf (add p x t) = true.
Proof.
  intros Ht Hx. unfold add. apply wf_update; [exact Ht|].
  intros es Hes. now apply wf_put.
Qed.

Lemma wf_del_path p t : wf t = true -> wf (del p t) = true.
Proof.
  intros Ht. unfold del. apply wf_update; [exact Ht|].
  intros es Hes. now apply wf_del.
Qed.

Lemma wf_listing_nodup t p : wf t = true -> NoDup (listing t p).
Proof.
  intros Hwf. unfold listing.
  destruct (lookup p t) as [[d|es]|] eqn:E; try constructor.
  apply (wf_lookup p t _ Hwf) in E. now apply wf_dir_iff in E.
Qed.

(** *** Files are conserved *)

Lemma files_put_present k v x es :
  assoc k es = Some x ->
  Permutation (files (Dir (put_entry k v es)) ++ files x)
              (files (Dir es) ++ files v).
Proof.
  rewrite !files_Dir.
  induction es as [|[k0 v0] es IH]; simpl; [discriminate|].
  destruct (String.eqb k k0); simpl.
  - intros [= ->]. rewrite <- !app_assoc.
    rewrite (Permutation_app_comm (flat_map _ es) (files x)).
    rewrite (Permutation_app_comm (flat_map _ es) (files v)).
    rewrite !app_assoc. apply Permutation_app_tail. apply Permutation_app_comm.
  - intros H. rewrite <- !app_assoc. apply Permutation_app_head. now apply IH.
Qed.

Lemma files_put_absent k v es :
  assoc k es = None ->
  files (Dir (put_entry k v es)) = files (Dir es) ++ files v.
Proof.
  intros H. rewrite (put_absent k v es H), !files_Dir, flat_map_app. simpl.
  now rewrite app_nil_r.
Qed.

Lemma del_absent k es : ~ In k (map fst es) -> del_entry k es = es.
Proof.
  unfold del_entry. induction es as [|[k0 v0] es IH]; simpl; [reflexivity|].
  intros H. destruct (String.eqb_spec k k0) as [->|Hne]; [tauto|].
  simpl. rewrite IH; tauto.
Qed.

Lemma files_del k x es :
  NoDup (map fst es) -> assoc k es = Some x ->
  Permutation (files (Dir (del_entry k es)) ++ files x) (files (Dir es)).
Proof.
  rewrite !files_Dir.
  induction es as [|[k0 v0] es IH]; simpl; [discriminate|].
  intros Hnd. inversion Hnd as [|? ? Hk0 Hnd']; subst.
  destruct (String.eqb_spec k k0) as [->|Hne]; simpl.
  - intros [= ->]. fold (del_entry k0 es). rewrite (del_absent k0 es Hk0).
    apply Permutation_app_comm.
  - intros H. rewrite <- app_assoc. apply Permutation_app_head.
    fold (del_entry k es). now apply IH.
Qed.

Lemma files_update p f t es :
  lookup p t = Some (Dir es) ->
  Permutation (files (update p f t) ++ files (Dir es))
              (files t ++ files (Dir (f es))).
Proof.
  revert t. induction p as [|c p IH]; intros t; simpl.
  - intros [= ->]. simpl. apply Permutation_app_comm.
  - destruct t as [d|es0]; [discriminate|].
    destruct (assoc c es0) as [ch|] eqn:E; [|discriminate].
    intros H. specialize (IH ch H).
    pose proof (files_put_present c (update p f ch) ch es0 E) as Hp.
    apply (Permutation_app_inv_l (files ch)).
    rewrite !app_assoc.
    rewrite (Permutation_app_comm (files ch) (files (Dir (put_entry _ _ _)))).
    rewrite Hp. rewrite <- !app_assoc.
    rewrite (Permutation_app_comm (files ch) (files (Dir es0) ++ _)).
    rewrite <- !app_assoc. apply Permutation_app_head.
    rewrite IH. apply Permutation_app_comm.
Qed.

End EffectFacts.

Section EffectStability.

Import Tree.

Lemma prefix_dec (q p : Path) : {prefix q p} + {~ prefix q p}.
Proof.
  destruct (prefixb q p) eqn:E.
  - left. now apply prefixb_spec.
  - right. intros H. apply prefixb_spec in H. congruence.
Qed.

Lemma prefix_comparable (a b c : Path) :
  prefix a c -> prefix b c -> prefix a b \/ prefix b a.
Proof.
  revert b c. induction a as [|x a IH]; intros b c Ha Hb.
  - left. apply prefix_nil.
  - destruct b as [|y b]; [right; apply prefix_nil|].
    destruct c as [|z c]; [apply prefix_of_nil in Ha; discriminate|].
    apply prefix_cons_inv in Ha as [-> Ha].
    apply prefix_cons_inv in Hb as [-> Hb].
    destruct (IH b c Ha Hb) as [[r ->] | [r ->]].
    + left. now exists r.
    + right. now exists r.
Qed.

Lemma prefix_child_inv (q par : Path) (k : string) :
  prefix q (par // k) -> prefix q par \/ q = par // k.
Proof.
  intros [r H]. revert H. pattern r. apply rev_ind; clear r.
  - intros H. right. now rewrite app_nil_r in H.
  - intros a r _ H. left. rewrite app_assoc in H.
    apply app_inj_tail in H as [-> _]. now exists r.
Qed.

Lemma prefix_child (q par : Path) (k : string) :
  prefix q par -> prefix q (par // k).
Proof. intros [r ->]. exists (r // k). now rewrite app_assoc. Qed.

Lemma lookup_prefix_some p q t n :
  lookup p t = Some n -> prefix q p -> exists m, lookup q t = Some m.
Proof.
  intros H [r ->]. rewrite lookup_app in H.
  destruct (lookup q t); [eauto | discriminate].
Qed.

Lemma lookup_under_none p r t : lookup p t = None -> lookup (p ++ r) t = None.
Proof. intros H. now rewrite lookup_app, H. Qed.

Lemma lookup_child par k t es :
  lookup par t = Some (Dir es) -> lookup (par // k) t = assoc k es.
Proof.
  intros H. rewrite lookup_app, H. simpl. now destruct (assoc k es).
Qed.

Lemma lookup_child_dir par k t n :
  lookup (par // k) t = Some n ->
  exists es, lookup par t = Some (Dir es) /\ assoc k es = Some n.
Proof.
  intros H. destruct (lookup_ext_dir par k [] t n H) as [es Hes].
  exists es. split; [exact Hes|]. now rewrite (lookup_child par k t es Hes) in H.
Qed.

(** How removing or adding one entry shows at any path. *)
Lemma lookup_del_cases par k t es q :
  lookup par t = Some (Dir es) ->
  (prefix (par // k) q /\ lookup q (del (par // k) t) = None) \/
  (prefix q par /\
   exists es1 es2, lookup q t = Some (Dir es1) /\
                   lookup q (del (par // k) t) = Some (Dir es2)) \/
  (~ prefix (par // k) q /\ ~ prefix q par /\
   lookup q (del (par // k) t) = lookup q t).
Proof.
  intros H.
  destruct (prefix_dec (par // k) q) as [[r ->] | Hn1].
  - left. split; [apply prefix_app|]. now apply (lookup_del_at par k r t es).
  - destruct (prefix_dec q par) as [Hq | Hn2].
    + right. left. split; [exact Hq|]. now apply (lookup_del_above par k q t es).
    + right. right. repeat split; auto. now apply (lookup_del_other par k q t es).
Qed.

Lemma lookup_add_cases par k x t es q :
  lookup par t = Some (Dir es) ->
  (exists r, q = par // k ++ r /\ lookup q (add (par // k) x t) = lookup r x) \/
  (prefix q par /\
   exists es1 es2, lookup q t = Some (Dir es1) /\
                   lookup q (add (par // k) x t) = Some (Dir es2)) \/
  (~ prefix (par // k) q /\ ~ prefix q par /\
   lookup q (add (par // k) x t) = lookup q t).
Proof.
  intros H.
  destruct (prefix_dec (par // k) q) as [[r ->] | Hn1].
  - left. exists r. split; [reflexivity|]. now apply (lookup_add_at par k x r t es).
  - destruct (prefix_dec q par) as [Hq | Hn2].
    + right. left. split; [exact Hq|]. now apply (lookup_add_above par k x q t es).
    + right. right. repeat split; auto. now apply (lookup_add_other par k x q t es).
Qed.

(** After the source of a move is taken out, the destination directory is
    still there and still has no entry of the new name. *)
Lemma move_mid ps ks pd kd x es t :
  lookup (ps // ks) t = Some x ->
  lookup pd t = Some (Dir es) ->
  assoc kd es = None ->
  ~ prefix (ps // ks) (pd // kd) ->
  exists es1, lookup pd (del (ps // ks) t) = Some (Dir es1) /\
              assoc kd es1 = None.
Proof.
  intros Hsrc Hpd Hkd Hnp.
  destruct (lookup_child_dir ps ks t x Hsrc) as (ess & Hps & _).
  assert (Hdst : lookup (pd // kd) t = None)
    by now rewrite (lookup_child pd kd t es Hpd).
  assert (Hdst1 : lookup (pd // kd) (del (ps // ks) t) = None).
  { rewrite (lookup_del_other ps ks (pd // kd) t ess Hps); auto.
    intros Hp. destruct (lookup_prefix_some _ _ _ _ Hsrc (prefix_child _ _ ks Hp)).
    congruence. }
  destruct (lookup_del_cases ps ks t ess pd Hps)
    as [[Hu _] | [(_ & es1 & es2 & _ & E) | (_ & _ & E)]].
  - exfalso. apply Hnp. now apply prefix_child.
  - exists es2. split; [exact E|].
    now rewrite <- (lookup_child pd kd _ es2 E).
  - rewrite Hpd in E. exists es. split; [exact E | exact Hkd].
Qed.

Lemma effect_wf e t t' : effect e t t' -> wf t = true -> wf t' = true.
Proof.
  intros H Hwf. destruct H.
  - now apply wf_add.
  - apply wf_add; [now apply wf_del_path|]. eapply wf_lookup; eauto.
  - now apply wf_del_path.
Qed.

Lemma effect_files e t t' :
  effect e t t' -> wf t = true -> Permutation (files t') (files t).
Proof.
  intros H Hwf. destruct H as [par k es t Hpar Hk | ps ks pd kd x es t Hsrc Hpd Hkd Hnp | par k t Hp].
  - rewrite add_child.
    pose proof (files_update par (put_entry k (Dir [])) t es Hpar) as P.
    rewrite (files_put_absent k (Dir []) es Hk) in P. simpl in P.
    rewrite app_nil_r in P.
    now apply Permutation_app_inv_r in P.
  - destruct (lookup_child_dir ps ks t x Hsrc) as (ess & Hps & Hks).
    destruct (move_mid ps ks pd kd x es t Hsrc Hpd Hkd Hnp) as (es1 & Hpd1 & Hkd1).
    assert (Hness : NoDup (map fst ess)).
    { apply (wf_lookup ps t _ Hwf) in Hps. now apply wf_dir_iff in Hps. }
    assert (P1 : Permutation (files (del (ps // ks) t) ++ files x) (files t)).
    { rewrite del_child.
      pose proof (files_update ps (del_entry ks) t ess Hps) as P.
      rewrite <- (files_del ks x ess Hness Hks) in P at 1.
      rewrite (Permutation_app_comm (files (Dir (del_entry ks ess))) (files x)) in P.
      rewrite app_assoc in P.
      now apply Permutation_app_inv_r in P. }
    rewrite <- P1. rewrite add_child.
    pose proof (files_update pd (put_entry kd x) _ es1 Hpd1) as P.
    rewrite (files_put_absent kd x es1 Hkd1) in P.
    rewrite (Permutation_app_comm (files (Dir es1)) (files x)) in P.
    rewrite app_assoc in P.
    now apply Permutation_app_inv_r in P.
  - destruct (lookup_child_dir par k t _ Hp) as (es & Hpar & Hk).
    assert (Hnes : NoDup (map fst es)).
    { apply (wf_lookup par t _ Hwf) in Hpar. now apply wf_dir_iff in Hpar. }
    rewrite del_child.
    pose proof (files_update par (del_entry k) t es Hpar) as P.
    rewrite <- (files_del k (Dir []) es Hnes Hk) in P at 1.
    simpl in P. rewrite app_nil_r in P.
    now apply Permutation_app_inv_r in P.
Qed.

End EffectStability.

Section EffectFrame.

Import Tree.

Lemma prefix_above_child (q par : Path) (k : string) :
  prefix q par -> above q (par // k).
Proof.
  intros [r ->]. destruct r as [|c r].
  - exists k, []. now rewrite app_nil_r.
  - exists c, (r // k). now rewrite <- app_assoc.
Qed.

Lemma above_prefix (q p : Path) : above q p -> prefix q p.
Proof. intros (c & r & ->). apply prefix_app. Qed.

(** An existing entry that is not under a removed path is still there; it
    is the same unless it is a directory above a touched path. *)
Lemma effect_keeps e t t' q n :
  effect e t t' ->
  lookup q t = Some n ->
  (forall p, In p (removed e) -> ~ prefix p q) ->
  exists n', lookup q t' = Some n' /\
    (n' = n \/
     (exists es es', n = Dir es /\ n' = Dir es') /\
     (exists p, In p (touched e) /\ above q p)).
Proof.
  intros H Hq Hrem.
  destruct H as [par k es t Hpar Hk | ps ks pd kd x es t Hsrc Hpd Hkd Hnp | par k t Hp].
  - destruct (lookup_add_cases par k (Dir []) t es q Hpar)
      as [(r & -> & _) | [(Ha & es1 & es2 & E1 & E2) | (_ & _ & E)]].
    + rewrite lookup_under_none in Hq; [discriminate|].
      now rewrite (lookup_child par k t es Hpar).
    + rewrite Hq in E1. injection E1 as ->. exists (Dir es2). split; [exact E2|].
      right. split; [eauto|]. exists (par // k). split; [now left|].
      now apply prefix_above_child.
    + exists n. split; [congruence | now left].
  - destruct (lookup_child_dir ps ks t x Hsrc) as (ess & Hps & _).
    destruct (move_mid ps ks pd kd x es t Hsrc Hpd Hkd Hnp) as (es1 & Hpd1 & Hkd1).
    assert (Hmid : exists n1, lookup q (del (ps // ks) t) = Some n1 /\
              (n1 = n \/ (exists es es', n = Dir es /\ n1 = Dir es') /\ prefix q ps)).
    { destruct (lookup_del_cases ps ks t ess q Hps)
        as [[Hu _] | [(Ha & e1 & e2 & E1 & E2) | (_ & _ & E)]].
      - exfalso. apply (Hrem (ps // ks)); [now left | exact Hu].
      - rewrite Hq in E1. injection E1 as ->. exists (Dir e2). split; [exact E2|].
        right. split; [eauto | exact Ha].
      - exists n. split; [congruence | now left]. }
    destruct Hmid as (n1 & Hq1 & Hn1).
    destruct (lookup_add_cases pd kd x (del (ps // ks) t) es1 q Hpd1)
      as [(r & -> & _) | [(Ha & e1 & e2 & E1 & E2) | (_ & _ & E)]].
    + rewrite lookup_under_none in Hq1; [discriminate|].
      now rewrite (lookup_child pd kd _ es1 Hpd1).
    + rewrite Hq1 in E1. injection E1 as ->. exists (Dir e2). split; [exact E2|].
      right. split.
      * destruct Hn1 as [<- | [(a & b & -> & _) _]]; eauto.
      * exists (pd // kd). split; [simpl; auto | now apply prefix_above_child].
    + exists n1. split; [congruence|].
      destruct Hn1 as [-> | [Hd Ha]]; [now left|].
      right. split; [exact Hd|]. exists (ps // ks). split; [now left|].
      now apply prefix_above_child.
  - destruct (lookup_child_dir par k t _ Hp) as (es & Hpar & _).
    destruct (lookup_del_cases par k t es q Hpar)
      as [[Hu _] | [(Ha & e1 & e2 & E1 & E2) | (_ & _ & E)]].
    + exfalso. apply (Hrem (par // k)); [now left | exact Hu].
    + rewrite Hq in E1. injection E1 as ->. exists (Dir e2). split; [exact E2|].
      right. split; [eauto|]. exists (par // k). split; [now left|].
      now apply prefix_above_child.
    + exists n. split; [congruence | now left].
Qed.

Lemma effect_same e t t' q n :
  effect e t t' ->
  lookup q t = Some n ->
  (forall p, In p (removed e) -> ~ prefix p q) ->
  (forall p, In p (touched e) -> ~ above q p) ->
  lookup q t' = Some n.
Proof.
  intros H Hq Hrem Htou.
  destruct (effect_keeps e t t' q n H Hq Hrem) as (n' & E & [-> | [_ (p & Hp & Ha)]]).
  - exact E.
  - exfalso. exact (Htou p Hp Ha).
Qed.

Lemma effect_keeps_file e t t' q d :
  effect e t t' ->
  lookup q t = Some (File d) ->
  (forall p, In p (removed e) -> ~ prefix p q) ->
  lookup q t' = Some (File d).
Proof.
  intros H Hq Hrem.
  destruct (effect_keeps e t t' q _ H Hq Hrem)
    as (n' & E & [-> | [(a & b & Hab & _) _]]); [exact E | discriminate].
Qed.

Lemma effect_keeps_dir e t t' q :
  effect e t t' ->
  path_is_dir t q = true ->
  (forall p, In p (removed e) -> ~ prefix p q) ->
  path_is_dir t' q = true.
Proof.
  unfold path_is_dir. intros H Hq Hrem.
  destruct (lookup q t) as [[d|es]|] eqn:E; try discriminate.
  destruct (effect_keeps e t t' q _ H E Hrem)
    as (n' & -> & [-> | [(a & b & _ & ->) _]]); reflexivity.
Qed.

(** Nothing appears except at or under a created path. *)
Lemma effect_none e t t' q :
  effect e t t' ->
  lookup q t = None ->
  (forall p, In p (created e) -> ~ prefix p q) ->
  lookup q t' = None.
Proof.
  intros H Hq Hcre.
  destruct H as [par k es t Hpar Hk | ps ks pd kd x es t Hsrc Hpd Hkd Hnp | par k t Hp].
  - destruct (lookup_add_cases par k (Dir []) t es q Hpar)
      as [(r & -> & _) | [(Ha & es1 & es2 & E1 & E2) | (_ & _ & E)]].
    + exfalso. apply (Hcre (par // k)); [now left | apply prefix_app].
    + congruence.
    + congruence.
  - destruct (lookup_child_dir ps ks t x Hsrc) as (ess & Hps & _).
    destruct (move_mid ps ks pd kd x es t Hsrc Hpd Hkd Hnp) as (es1 & Hpd1 & Hkd1).
    assert (Hq1 : lookup q (del (ps // ks) t) = None).
    { destruct (lookup_del_cases ps ks t ess q Hps)
        as [[_ E] | [(Ha & e1 & e2 & E1 & E2) | (_ & _ & E)]]; congruence. }
    destruct (lookup_add_cases pd kd x (del (ps // ks) t) es1 q Hpd1)
      as [(r & -> & _) | [(Ha & e1 & e2 & E1 & E2) | (_ & _ & E)]].
    + exfalso. apply (Hcre (pd // kd)); [now left | apply prefix_app].
    + congruence.
    + congruence.
  - destruct (lookup_child_dir par k t _ Hp) as (es & Hpar & _).
    destruct (lookup_del_cases par k t es q Hpar)
      as [[_ E] | [(Ha & e1 & e2 & E1 & E2) | (_ & _ & E)]]; congruence.
Qed.

(** No regular file appears except at or under the target of a move. *)
Lemma effect_nonfile e t t' q :
  effect e t t' ->
  path_is_file t q = false ->
  (forall p, In p (move_targets e) -> ~ prefix p q) ->
  path_is_file t' q = false.
Proof.
  unfold path_is_file. intros H Hq Hmv.
  destruct H as [par k es t Hpar Hk | ps ks pd kd x es t Hsrc Hpd Hkd Hnp | par k t Hp].
  - destruct (lookup_add_cases par k (Dir []) t es q Hpar)
      as [(r & -> & E) | [(Ha & es1 & es2 & E1 & E2) | (_ & _ & E)]].
    + rewrite E. destruct r; reflexivity.
    + now rewrite E2.
    + now rewrite E.
  - destruct (lookup_child_dir ps ks t x Hsrc) as (ess & Hps & _).
    destruct (move_mid ps ks pd kd x es t Hsrc Hpd Hkd Hnp) as (es1 & Hpd1 & Hkd1).
    assert (Hq1 : match lookup q (del (ps // ks) t) with
                  | Some (File _) => true | _ => false end = false).
    { destruct (lookup_del_cases ps ks t ess q Hps)
        as [[_ E] | [(Ha & e1 & e2 & E1 & E2) | (_ & _ & E)]];
        rewrite ?E, ?E2; auto. }
    destruct (lookup_add_cases pd kd x (del (ps // ks) t) es1 q Hpd1)
      as [(r & -> & _) | [(Ha & e1 & e2 & E1 & E2) | (_ & _ & E)]].
    + exfalso. apply (Hmv (pd // kd)); [now left | apply prefix_app].
    + now rewrite E2.
    + now rewrite E.
  - destruct (lookup_child_dir par k t _ Hp) as (es & Hpar & _).
    destruct (lookup_del_cases par k t es q Hpar)
      as [[_ E] | [(Ha & e1 & e2 & E1 & E2) | (_ & _ & E)]];
      rewrite ?E, ?E2; auto.
Qed.

(** A move carries the whole entry over. *)
Lemma effect_moved src dst b t t' r :
  effect (MoveEv src dst b) t t' ->
  lookup (dst ++ r) t' = lookup (src ++ r) t /\
  lookup (src ++ r) t' = None.
Proof.
  intros H. inversion H as [| ps ks pd kd x es t0 Hsrc Hpd Hkd Hnp |]; subst.
  destruct (lookup_child_dir ps ks t x Hsrc) as (ess & Hps & _).
  destruct (move_mid ps ks pd kd x es t Hsrc Hpd Hkd Hnp) as (es1 & Hpd1 & Hkd1).
  split.
  - rewrite (lookup_add_at pd kd x r _ es1 Hpd1).
    now rewrite (lookup_app (ps // ks) r t), Hsrc.
  - assert (Hdst : lookup (pd // kd) t = None)
      by now rewrite (lookup_child pd kd t es Hpd).
    destruct (lookup_add_cases pd kd x (del (ps // ks) t) es1 (ps // ks ++ r) Hpd1)
      as [(r' & E & _) | [(Ha & _) | (_ & _ & E)]].
    + exfalso.
      destruct (prefix_comparable (pd // kd) (ps // ks) (ps // ks ++ r))
        as [Hc | Hc].
      * rewrite E. apply prefix_app.
      * apply prefix_app.
      * destruct (lookup_prefix_some _ _ _ _ Hsrc Hc). congruence.
      * contradiction.
    + exfalso. apply Hnp. apply prefix_child.
      apply (prefix_trans _ (ps // ks ++ r)); [apply prefix_app | exact Ha].
    + rewrite E. now apply (lookup_del_at ps ks r t ess).
Qed.

End EffectFrame.

(** * Part VI: traces of effects *)

Section ExecFacts.

Import Tree.

Lemma exec_one e t t' : effect e t t' -> exec [e] t t'.
Proof. intros H. econstructor; [exact H | constructor]. Qed.

Lemma exec_app e1 e2 t t1 t2 :
  exec e1 t t1 -> exec e2 t1 t2 -> exec (e1 ++ e2) t t2.
Proof.
  intros H1 H2. induction H1; simpl; [exact H2|].
  econstructor; eauto.
Qed.

Lemma exec_app_inv e1 e2 t t2 :
  exec (e1 ++ e2) t t2 -> exists t1, exec e1 t t1 /\ exec e2 t1 t2.
Proof.
  revert t. induction e1 as [|e e1 IH]; intros t H; simpl in H.
  - exists t. split; [constructor | exact H].
  - inversion H as [| ? ? ? t1 ? He Hr]; subst.
    destruct (IH _ Hr) as (t1' & H1 & H2).
    exists t1'. split; [econstructor; eauto | exact H2].
Qed.

Lemma exec_wf evs t t' : exec evs t t' -> wf t = true -> wf t' = true.
Proof. intros H. induction H; eauto using effect_wf. Qed.

Lemma exec_files evs t t' :
  exec evs t t' -> wf t = true -> Permutation (files t') (files t).
Proof.
  intros H. induction H as [|e evs t t1 t2 He Hr IH]; intros Hwf.
  - reflexivity.
  - rewrite IH by eauto using effect_wf. now apply (effect_files e).
Qed.

Lemma exec_same evs t t' q n :
  exec evs t t' ->
  lookup q t = Some n ->
  (forall e p, In e evs -> In p (removed e) -> ~ prefix p q) ->
  (forall e p, In e evs -> In p (touched e) -> ~ above q p) ->
  lookup q t' = Some n.
Proof.
  intros H. induction H as [|e evs t t1 t2 He Hr IH]; intros Hq Hrem Htou.
  - exact Hq.
  - apply IH.
    + apply (effect_same e t t1 q n He Hq).
      * intros p. apply Hrem. now left.
      * intros p. apply Htou. now left.
    + intros e' p Hin. apply Hrem. now right.
    + intros e' p Hin. apply Htou. now right.
Qed.

Lemma exec_keeps_file evs t t' q d :
  exec evs t t' ->
  lookup q t = Some (File d) ->
  (forall e p, In e evs -> In p (removed e) -> ~ prefix p q) ->
  lookup q t' = Some (File d).
Proof.
  intros H. induction H as [|e evs t t1 t2 He Hr IH]; intros Hq Hrem.
  - exact Hq.
  - apply IH.
    + apply (effect_keeps_file e t t1 q d He Hq). intros p. apply Hrem. now left.
    + intros e' p Hin. apply Hrem. now right.
Qed.

Lemma exec_keeps_dir evs t t' q :
  exec evs t t' ->
  path_is_dir t q = true ->
  (forall e p, In e evs -> In p (removed e) -> ~ prefix p q) ->
  path_is_dir t' q = true.
Proof.
  intros H. induction H as [|e evs t t1 t2 He Hr IH]; intros Hq Hrem.
  - exact Hq.
  - apply IH.
    + apply (effect_keeps_dir e t t1 q He Hq). intros p. apply Hrem. now left.
    + intros e' p Hin. apply Hrem. now right.
Qed.

Lemma exec_none evs t t' q :
  exec evs t t' ->
  lookup q t = None ->
  (forall e p, In e evs -> In p (created e) -> ~ prefix p q) ->
  lookup q t' = None.
Proof.
  intros H. induction H as [|e evs t t1 t2 He Hr IH]; intros Hq Hcre.
  - exact Hq.
  - apply IH.
    + apply (effect_none e t t1 q He Hq). intros p. apply Hcre. now left.
    + intros e' p Hin. apply Hcre. now right.
Qed.

Lemma exec_nonfile evs t t' q :
  exec evs t t' ->
  path_is_file t q = false ->
  (forall e p, In e evs -> In p (move_targets e) -> ~ prefix p q) ->
  path_is_file t' q = false.
Proof.
  intros H. induction H as [|e evs t t1 t2 He Hr IH]; intros Hq Hmv.
  - exact Hq.
  - apply IH.
    + apply (effect_nonfile e t t1 q He Hq). intros p. apply Hmv. now left.
    + intros e' p Hin. apply Hmv. now right.
Qed.

(** Every move in a trace of effects went to a place where nothing was. *)
Lemma exec_no_overwrite evs t t' : exec evs t t' -> no_overwrite evs.
Proof.
  intros H src dst b Hin. induction H as [|e evs t t1 t2 He Hr IH]; [contradiction|].
  destruct Hin as [-> | Hin]; [|auto].
  now inversion He.
Qed.

(** A trace determines the tree it leads to. *)
Lemma effect_det e t t1 t2 : effect e t t1 -> effect e t t2 -> t1 = t2.
Proof.
  intros H1 H2. inversion H1; subst; inversion H2; subst; congruence.
Qed.

Lemma exec_det evs t t1 t2 : exec evs t t1 -> exec evs t t2 -> t1 = t2.
Proof.
  intros H1. revert t2. induction H1 as [|e evs t ta tb He Hr IH]; intros t2 H2.
  - now inversion H2.
  - inversion H2 as [| ? ? ? ta' ? He' Hr']; subst.
    rewrite <- (effect_det _ _ _ _ He He') in Hr'. now apply IH.
Qed.

Lemma moves_of_app e1 e2 : moves_of (e1 ++ e2) = moves_of e1 ++ moves_of e2.
Proof. unfold moves_of. apply flat_map_app. Qed.

Lemma run_ret {A} (a : A) w : run (ret a) w (Ok a) [] w.
Proof.
  unfold run, ret. rewrite app_nil_r. repeat split. constructor.
Qed.

Lemma run_unchanged {A} (m : M A) w o :
  m w = (o, w) -> run m w o [] w.
Proof.
  intros H. unfold run. rewrite app_nil_r. repeat split; auto. constructor.
Qed.

Lemma run_effect {A} (m : M A) w (a : A) e t' :
  m w = (Ok a, add_event e t' w) -> effect e (tree w) t' ->
  run m w (Ok a) [e] (add_event e t' w).
Proof.
  intros H He. unfold run. repeat split; auto. simpl. now apply exec_one.
Qed.

Lemma run_bind {A B} (m : M A) (k : A -> M B) w a e1 w1 o e2 w2 :
  run m w (Ok a) e1 w1 -> run (k a) w1 o e2 w2 ->
  run (bind m k) w o (e1 ++ e2) w2.
Proof.
  intros (H1 & E1 & L1 & X1) (H2 & E2 & L2 & X2).
  unfold run, bind. rewrite H1. repeat split.
  - exact H2.
  - now rewrite E2, E1, app_assoc.
  - congruence.
  - eapply exec_app; eauto.
Qed.

Lemma run_bind_raise {A B} (m : M A) (k : A -> M B) w e evs w1 :
  run m w (Raise e) evs w1 -> run (bind m k) w (Raise e) evs w1.
Proof.
  intros (H1 & E1 & L1 & X1). unfold run, bind. rewrite H1. auto.
Qed.

End ExecFacts.

(** * Part VII: the primitives as effects *)

Section PrimitiveFacts.

Import Tree.

Lemma exec_keeps_exists evs t t' q n :
  exec evs t t' ->
  lookup q t = Some n ->
  (forall e p, In e evs -> In p (removed e) -> ~ prefix p q) ->
  exists n', lookup q t' = Some n'.
Proof.
  intros H. revert n. induction H as [|e evs t t1 t2 He Hr IH]; intros n Hq Hrem.
  - eauto.
  - destruct (effect_keeps e t t1 q n He Hq) as (n1 & E & _).
    + intros p. apply Hrem. now left.
    + apply (IH n1 E). intros e' p Hin. apply Hrem. now right.
Qed.

Lemma path_split (p : Path) :
  p <> [] -> p = PurePath.parent p // PurePath.name p.
Proof. intros H. now apply app_removelast_last. Qed.

Lemma prefix_parent (p : Path) : prefix (PurePath.parent p) p.
Proof.
  destruct p as [|a p] using rev_ind.
  - apply prefix_refl.
  - rewrite parent_child. apply prefix_app.
Qed.

Lemma exists_iff_lookup t p :
  path_exists t p = false <-> lookup p t = None.
Proof. unfold path_exists. destruct (lookup p t); split; congruence. Qed.

Lemma is_dir_iff_lookup t p :
  path_is_dir t p = true <-> exists es, lookup p t = Some (Dir es).
Proof.
  unfold path_is_dir. destruct (lookup p t) as [[d|es]|]; split;
    try discriminate; eauto; intros [es' H]; discriminate.
Qed.

Lemma is_file_iff_lookup t p :
  path_is_file t p = true <-> exists d, lookup p t = Some (File d).
Proof.
  unfold path_is_file. destruct (lookup p t) as [[d|es]|]; split;
    try discriminate; eauto; intros [es' H]; discriminate.
Qed.

Lemma os_mkdir_refused p w :
  refused w p = true -> Fs.os_mkdir p w = (Raise (OSError p), w).
Proof. intros H. unfold Fs.os_mkdir. now rewrite H. Qed.

Lemma is_dir_refused p w :
  refused w p = true -> Fs.is_dir p w = (Raise (OSError p), w).
Proof. intros H. unfold Fs.is_dir. now rewrite H. Qed.

Lemma is_dir_accepted p w :
  refused w p = false -> Fs.is_dir p w = (Ok (path_is_dir (tree w) p), w).
Proof. intros H. unfold Fs.is_dir. now rewrite H. Qed.

Lemma exists_refused p w :
  refused w p = true -> Fs.exists_ p w = (Raise (OSError p), w).
Proof. intros H. unfold Fs.exists_. now rewrite H. Qed.

Lemma exists_accepted p w :
  refused w p = false -> Fs.exists_ p w = (Ok (path_exists (tree w) p), w).
Proof. intros H. unfold Fs.exists_. now rewrite H. Qed.

Lemma os_mkdir_cases p w :
  refused w p = false ->
  (exists par k es,
      p = par // k /\ lookup par (tree w) = Some (Dir es) /\
      assoc k es = None /\
      Fs.os_mkdir p w
      = (Ok tt, add_event (MkdirEv p) (add p (Dir []) (tree w)) w)) \/
  (exists e, Fs.os_mkdir p w = (Raise e, w) /\
     ((e = FileExistsError p /\ path_exists (tree w) p = true) \/
      (e = NotADirectoryError p /\ lookup p (tree w) = None /\
       path_is_dir (tree w) (PurePath.parent p) = false /\
       exists q, prefix q p /\ path_is_file (tree w) q = true) \/
      (e = FileNotFoundError p /\ lookup p (tree w) = None /\
       path_is_dir (tree w) (PurePath.parent p) = false /\ p <> []))).
Proof.
  intros Hacc. unfold Fs.os_mkdir. rewrite Hacc.
  destruct (path_exists (tree w) p) eqn:Ex.
  - right. eexists. split; [reflexivity|]. left. auto.
  - apply exists_iff_lookup in Ex.
    assert (Hne : p <> []) by (intros ->; discriminate).
    destruct (lookup (PurePath.parent p) (tree w)) as [[d|es]|] eqn:Ep.
    + right. eexists. split; [reflexivity|]. right. left.
      repeat split; auto.
      * unfold path_is_dir. now rewrite Ep.
      * exists (PurePath.parent p). split; [apply prefix_parent|].
        unfold path_is_file. now rewrite Ep.
    + left. exists (PurePath.parent p), (PurePath.name p), es.
      repeat split; auto.
      * now apply path_split.
      * rewrite <- (lookup_child _ (PurePath.name p) _ es Ep).
        now rewrite <- path_split.
    + destruct (existsb _ _) eqn:Eb.
      * right. eexists. split; [reflexivity|]. right. left.
        repeat split; auto.
        -- unfold path_is_dir. now rewrite Ep.
        -- apply existsb_exists in Eb as (n & _ & Hn).
           exists (firstn n p). split; [|exact Hn].
           exists (skipn n p). now rewrite firstn_skipn.
      * right. eexists. split; [reflexivity|]. right. right.
        repeat split; auto. unfold path_is_dir. now rewrite Ep.
Qed.

Lemma is_dir_after_mkdir par k es t :
  lookup par t = Some (Dir es) ->
  path_is_dir (add (par // k) (Dir []) t) (par // k) = true.
Proof.
  intros H. unfold path_is_dir.
  pose proof (lookup_add_at par k (Dir []) [] t es H) as E.
  rewrite app_nil_r in E. now rewrite E.
Qed.

(** [mkdir] of a refused path: [os.mkdir] fails, and so does the [is_dir]
    of the handler. *)
Lemma mkdir_exist_ok_refused p w :
  refused w p = true -> Fs.mkdir_exist_ok p w = (Raise (OSError p), w).
Proof.
  intros H. unfold Fs.mkdir_exist_ok, try_except, bind.
  now rewrite (os_mkdir_refused p w H), (is_dir_refused p w H).
Qed.

Lemma mkdir_parents_rec_refused n p w :
  refused w p = true -> Fs.mkdir_parents_rec n p w = (Raise (OSError p), w).
Proof.
  intros H. destruct n; cbn [Fs.mkdir_parents_rec]; unfold try_except, bind;
    now rewrite (os_mkdir_refused p w H), (is_dir_refused p w H).
Qed.

Lemma mkdir_exist_ok_run p w :
  exists o evs w',
    run (Fs.mkdir_exist_ok p) w o evs w' /\
    (forall e, In e evs -> e = MkdirEv p /\ lookup p (tree w) = None) /\
    o <> Diverge /\
    (o = Ok tt -> path_is_dir (tree w') p = true) /\
    (path_is_dir (tree w) (PurePath.parent p) = true ->
     path_is_file (tree w) p = false -> o = Ok tt \/ refusal o).
Proof.
  destruct (refused w p) eqn:Hacc.
  { exists (Raise (OSError p)), [], w. split; [|split; [|split; [|split]]].
    - apply run_unchanged. now apply mkdir_exist_ok_refused.
    - intros e [].
    - discriminate.
    - discriminate.
    - intros _ _. right. now exists p. }
  destruct (os_mkdir_cases p w Hacc)
    as [(par & k & es & -> & Hpar & Hk & Hmk) | (e & Hmk & Hcase)].
  - exists (Ok tt), [MkdirEv (par // k)],
      (add_event (MkdirEv (par // k)) (add (par // k) (Dir []) (tree w)) w).
    split; [|split; [|split; [|split]]].
    + apply run_effect; [|now apply (effect_mkdir par k es)].
      unfold Fs.mkdir_exist_ok, try_except. now rewrite Hmk.
    + intros e [<-|[]]. split; [reflexivity|].
      now rewrite (lookup_child par k _ es Hpar).
    + discriminate.
    + intros _. simpl. now apply (is_dir_after_mkdir par k es).
    + auto.
  - destruct (path_is_dir (tree w) p) eqn:Ed.
    + exists (Ok tt), [], w. split; [|split; [|split; [|split]]]; auto.
      * apply run_unchanged. unfold Fs.mkdir_exist_ok, try_except, bind.
        now rewrite Hmk, (is_dir_accepted p w Hacc), Ed.
      * intros e' [].
      * discriminate.
    + exists (Raise e), [], w. split; [|split; [|split; [|split]]].
      * apply run_unchanged. unfold Fs.mkdir_exist_ok, try_except, bind.
        now rewrite Hmk, (is_dir_accepted p w Hacc), Ed.
      * intros e' [].
      * discriminate.
      * discriminate.
      * intros Hpd Hnf. exfalso.
        destruct Hcase as [(_ & Hex) | [(_ & _ & Hp & _) | (_ & _ & Hp & _)]];
          try congruence.
        unfold path_exists in Hex. unfold path_is_dir in Ed.
        unfold path_is_file in Hnf.
        destruct (lookup p (tree w)) as [[d|es]|]; discriminate.
Qed.

Lemma length_parent (p : Path) :
  p <> [] -> S (List.length (PurePath.parent p)) = List.length p.
Proof.
  intros H. rewrite (path_split p H) at 2. rewrite length_app. simpl. lia.
Qed.

(** The handler of [mkdir] for an [OSError] other than a missing parent. *)
Lemma mkdir_handler_run p w e :
  refused w p = false ->
  Fs.os_mkdir p w = (Raise e, w) ->
  ((e = FileExistsError p /\ path_exists (tree w) p = true) \/
   (e = NotADirectoryError p /\ lookup p (tree w) = None /\
    path_is_dir (tree w) (PurePath.parent p) = false /\
    exists q, prefix q p /\ path_is_file (tree w) q = true)) ->
  forall n,
  exists o,
    run (Fs.mkdir_parents_rec n p) w o [] w /\
    o <> Diverge /\
    (o = Ok tt -> path_is_dir (tree w) p = true) /\
    ((forall q, prefix q p -> path_is_file (tree w) q = false) -> o = Ok tt).
Proof.
  intros Hacc Hmk Hcase n.
  assert (Heq : Fs.mkdir_parents_rec n p w
                = (if path_is_dir (tree w) p then (Ok tt, w) else (Raise e, w))).
  { destruct n; cbn [Fs.mkdir_parents_rec]; unfold try_except; rewrite Hmk;
      destruct Hcase as [(-> & _) | (-> & _)]; unfold bind;
      rewrite (is_dir_accepted p w Hacc);
      destruct (path_is_dir (tree w) p); reflexivity. }
  destruct (path_is_dir (tree w) p) eqn:Ed.
  - exists (Ok tt). split; [now apply run_unchanged|].
    split; [discriminate|]. split; auto.
  - exists (Raise e). split; [now apply run_unchanged|].
    split; [discriminate|]. split; [discriminate|].
    intros Hnf. exfalso.
    destruct Hcase as [(_ & Hex) | (_ & _ & _ & q & Hq & Hf)].
    + specialize (Hnf p (prefix_refl p)).
      unfold path_exists in Hex. unfold path_is_dir in Ed.
      unfold path_is_file in Hnf.
      destruct (lookup p (tree w)) as [[d|es]|]; discriminate.
    + rewrite (Hnf q Hq) in Hf. discriminate.
Qed.

Lemma mkdir_parents_rec_run n p w :
  List.length p <= n ->
  exists o evs w',
    run (Fs.mkdir_parents_rec n p) w o evs w' /\
    (forall e, In e evs ->
       exists q, e = MkdirEv q /\ prefix q p /\ lookup q (tree w) = None) /\
    o <> Diverge /\
    (o = Ok tt -> path_is_dir (tree w') p = true) /\
    ((forall q, prefix q p -> path_is_file (tree w) q = false) ->
     o = Ok tt \/ refusal o).
Proof.
  revert p w. induction n as [|n IH]; intros p w Hlen.
  all: destruct (refused w p) eqn:Hacc;
    [ exists (Raise (OSError p)), [], w;
      split; [apply run_unchanged; now apply mkdir_parents_rec_refused|];
      split; [intros ? []|]; split; [discriminate|]; split; [discriminate|];
      intros _; right; now exists p
    | ].
  all: destruct (os_mkdir_cases p w Hacc)
    as [(par & k & es & -> & Hpar & Hk & Hmk)
       | (e & Hmk & [Hc | [Hc | (-> & Hnone & Hpd & Hne)]])].
  1,5: exists (Ok tt), [MkdirEv (par // k)],
         (add_event (MkdirEv (par // k)) (add (par // k) (Dir []) (tree w)) w);
       split; [|split; [|split; [|split]]];
       [ apply run_effect; [|now apply (effect_mkdir par k es)];
         cbn [Fs.mkdir_parents_rec]; unfold try_except; now rewrite Hmk
       | intros e [<-|[]]; exists (par // k); repeat split;
         [apply prefix_refl | now rewrite (lookup_child par k _ es Hpar)]
       | discriminate
       | intros _; simpl; now apply (is_dir_after_mkdir par k es)
       | auto ].
  1,2,4,5:
    match goal with
    | |- context [Fs.mkdir_parents_rec ?m _] =>
        destruct (mkdir_handler_run p w e Hacc Hmk ltac:(tauto) m)
          as (o & R & Hd & Hok & Hsucc)
    end;
    exists o, [], w; split; [exact R|]; split; [intros ? []|]; auto.
  - exfalso. destruct p; [congruence | simpl in Hlen; lia].
  - assert (Hneq : path_eqb (PurePath.parent p) p = false).
    { destruct (path_eqb (PurePath.parent p) p) eqn:E; [|reflexivity].
      apply path_eqb_spec in E. pose proof (length_parent p Hne) as L.
      rewrite E in L. lia. }
    assert (Hunf : Fs.mkdir_parents_rec (S n) p w
                   = (Fs.mkdir_parents_rec n (PurePath.parent p) ;;
                      Fs.mkdir_exist_ok p) w).
    { cbn [Fs.mkdir_parents_rec]. unfold try_except. now rewrite Hmk, Hneq. }
    destruct (IH (PurePath.parent p) w)
      as (o1 & e1 & w1 & R1 & Hev1 & Hd1 & Hok1 & Hsucc1).
    { pose proof (length_parent p Hne). lia. }
    assert (Hev1' : forall e0, In e0 e1 ->
              exists q, e0 = MkdirEv q /\ prefix q p /\ lookup q (tree w) = None).
    { intros e0 Hin. destruct (Hev1 e0 Hin) as (q & -> & Hq & Hn).
      exists q. repeat split; auto.
      eapply prefix_trans; [exact Hq | apply prefix_parent]. }
    destruct o1 as [[]|ex|].
    + destruct (mkdir_exist_ok_run p w1)
        as (o2 & e2 & w2 & R2 & Hev2 & Hd2 & Hok2 & Hsucc2).
      exists o2, (e1 ++ e2), w2. split; [|split; [|split; [|split]]].
      * pose proof (run_bind _ (fun _ => Fs.mkdir_exist_ok p) _ _ _ _ _ _ _ R1 R2) as R.
        unfold run in *. now rewrite Hunf.
      * intros e0 Hin. apply in_app_or in Hin as [Hin|Hin]; [auto|].
        destruct (Hev2 e0 Hin) as [-> _].
        exists p. repeat split; [apply prefix_refl | exact Hnone].
      * exact Hd2.
      * exact Hok2.
      * intros Hnf. apply Hsucc2; [now apply Hok1|].
        destruct R1 as (_ & _ & _ & X1).
        apply (exec_nonfile e1 (tree w) (tree w1) p X1).
        -- apply Hnf, prefix_refl.
        -- intros e0 q Hin. destruct (Hev1 e0 Hin) as (q' & -> & _). intros [].
    + exists (Raise ex), e1, w1. split; [|split; [|split; [|split]]].
      * pose proof (run_bind_raise _ (fun _ => Fs.mkdir_exist_ok p) _ _ _ _ R1) as R.
        unfold run in *. now rewrite Hunf.
      * exact Hev1'.
      * discriminate.
      * discriminate.
      * intros Hnf.
        destruct Hsucc1 as [Hs | Hs]; [|discriminate Hs | right; exact Hs].
        intros q Hq. apply Hnf.
        eapply prefix_trans; [exact Hq | apply prefix_parent].
    + contradiction.
Qed.

Lemma mkdir_parents_run p w :
  exists o evs w',
    run (Fs.mkdir_parents p) w o evs w' /\
    (forall e, In e evs ->
       exists q, e = MkdirEv q /\ prefix q p /\ lookup q (tree w) = None) /\
    o <> Diverge /\
    (o = Ok tt -> path_is_dir (tree w') p = true) /\
    ((forall q, prefix q p -> path_is_file (tree w) q = false) ->
     o = Ok tt \/ refusal o).
Proof. apply mkdir_parents_rec_run. apply Nat.le_refl. Qed.

End PrimitiveFacts.

Section MoveFacts.

Import Tree.

Lemma lookup_file_prefix q p t d n :
  lookup q t = Some (File d) -> prefix q p -> lookup p t = Some n -> p = q.
Proof.
  intros Hq [r ->] Hp. rewrite lookup_app, Hq in Hp.
  destruct r; [now rewrite app_nil_r | discriminate].
Qed.

Lemma locked_spec p l : existsb (path_eqb p) l = true <-> In p l.
Proof.
  rewrite existsb_exists. split.
  - intros (x & Hx & E). apply path_eqb_spec in E. now subst.
  - intros H. exists p. split; [exact H | apply path_eqb_refl].
Qed.

(** [shutil.move] to a place where nothing is: one plain move, or an
    exception that leaves the world alone. *)
Lemma shutil_move_run ps ks pd kd w :
  refused w (ps // ks) = false ->
  refused w (pd // kd) = false ->
  lookup (pd // kd) (tree w) = None ->
  exists o evs w',
    run (Fs.shutil_move (ps // ks) (pd // kd)) w o evs w' /\
    ((o = Ok (pd // kd) /\ evs = [MoveEv (ps // ks) (pd // kd) false]) \/
     (exists e, o = Raise e /\ evs = [] /\ w' = w /\
        (lookup (ps // ks) (tree w) = None \/
         path_is_dir (tree w) pd = false \/
         (path_is_dir (tree w) (ps // ks) = true /\
          prefix (ps // ks) (pd // kd))))).
Proof.
  intros Hsacc Hdacc Hdst.
  assert (Hnd : path_is_dir (tree w) (pd // kd) = false)
    by (unfold path_is_dir; now rewrite Hdst).
  assert (Hunf : forall r, 
    match lookup (ps // ks) (tree w) with
    | None => (Raise (FileNotFoundError (ps // ks)), w)
    | Some x =>
        if path_eqb (ps // ks) (pd // kd) then (Ok (pd // kd), w)
        else if path_is_dir (tree w) (ps // ks) && prefixb (ps // ks) (pd // kd)
        then (Raise (ShutilError (pd // kd)), w)
        else
          match lookup pd (tree w) with
          | Some (Dir _) =>
              (Ok (pd // kd),
               add_event (MoveEv (ps // ks) (pd // kd) false)
                 (add (pd // kd) x (del (ps // ks) (tree w))) w)
          | Some (File _) => (Raise (NotADirectoryError (pd // kd)), w)
          | None => (Raise (FileNotFoundError (pd // kd)), w)
          end
    end = r -> Fs.shutil_move (ps // ks) (pd // kd) w = r).
  { intros r <-. unfold Fs.shutil_move, Fs.os_path_isdir.
    rewrite Hnd, Hdacc, Hsacc. cbn [andb negb].
    now rewrite Hdacc, parent_child, Hdst. }
  destruct (lookup (ps // ks) (tree w)) as [x|] eqn:Hsrc.
  2:{ exists (Raise (FileNotFoundError (ps // ks))), [], w.
      split; [apply run_unchanged; now apply Hunf|].
      right. eexists. repeat split. now left. }
  assert (Hneq : path_eqb (ps // ks) (pd // kd) = false).
  { destruct (path_eqb (ps // ks) (pd // kd)) eqn:E; [|reflexivity].
    apply path_eqb_spec in E. congruence. }
  rewrite Hneq in Hunf.
  destruct (path_is_dir (tree w) (ps // ks) && prefixb (ps // ks) (pd // kd)) eqn:Hin.
  { apply andb_true_iff in Hin as [Hd Hp]. apply prefixb_spec in Hp.
    exists (Raise (ShutilError (pd // kd))), [], w.
    split; [apply run_unchanged; now apply Hunf|].
    right. eexists. repeat split. right. right. auto. }
  destruct (lookup pd (tree w)) as [[d|es]|] eqn:Hpd.
  - exists (Raise (NotADirectoryError (pd // kd))), [], w.
    split; [apply run_unchanged; now apply Hunf|].
    right. eexists. repeat split. right. left.
    unfold path_is_dir. now rewrite Hpd.
  - eexists (Ok (pd // kd)), [MoveEv (ps // ks) (pd // kd) false], _.
    split; [|left; auto].
    apply run_effect; [now apply Hunf|].
    apply (effect_move ps ks pd kd x es); auto.
    + now rewrite <- (lookup_child pd kd _ es Hpd).
    + intros Hp. apply andb_false_iff in Hin as [Hd | Hb].
      * unfold path_is_dir in Hd. rewrite Hsrc in Hd.
        destruct x as [d|esx]; [|discriminate].
        apply prefix_child_inv in Hp as [Hp | Hp]; [|congruence].
        pose proof (lookup_file_prefix _ _ _ _ _ Hsrc Hp Hpd) as E.
        rewrite E, Hsrc in Hpd. discriminate.
      * apply prefixb_spec in Hp. congruence.
  - exists (Raise (FileNotFoundError (pd // kd))), [], w.
    split; [apply run_unchanged; now apply Hunf|].
    right. eexists. repeat split. right. left.
    unfold path_is_dir. now rewrite Hpd.
Qed.

Lemma rmdir_eq p w :
  refused w p = false ->
  Fs.rmdir p w =
  match lookup p (tree w) with
  | None => (Raise (FileNotFoundError p), w)
  | Some (File _) => (Raise (NotADirectoryError p), w)
  | Some (Dir es) =>
      match p with
      | [] => (Raise (PermissionError p), w)
      | _ :: _ =>
          match es with
          | _ :: _ => (Raise (DirectoryNotEmpty p), w)
          | [] =>
              if existsb (path_eqb p) (locked w)
              then (Raise (PermissionError p), w)
              else (Ok tt, add_event (RmdirEv p) (del p (tree w)) w)
          end
      end
  end.
Proof.
  intros Hacc. unfold Fs.rmdir. rewrite Hacc.
  destruct p; destruct (lookup _ (tree w)) as [[d|[|e es]]|]; reflexivity.
Qed.

(** [try: p.rmdir() except OSError: pass] never raises. *)
Lemma try_rmdir_run p w :
  refused w p = false ->
  exists evs w',
    run (try_except (Fs.rmdir p) (fun _ => ret tt)) w (Ok tt) evs w' /\
    ((evs = [RmdirEv p] /\ ~ In p (locked w)) \/
     (evs = [] /\ w' = w /\
      (lookup p (tree w) <> Some (Dir []) \/ In p (locked w) \/ p = []))).
Proof.
  intros Hacc.
  assert (Hfail : forall e, Fs.rmdir p w = (Raise e, w) ->
            try_except (Fs.rmdir p) (fun _ => ret tt) w = (Ok tt, w)).
  { intros e H. unfold try_except. now rewrite H. }
  pose proof (rmdir_eq p w Hacc) as Heq.
  destruct (lookup p (tree w)) as [[d|es]|] eqn:Hp.
  - exists [], w. split; [apply run_unchanged; eapply Hfail; exact Heq|].
    right. repeat split. left. discriminate.
  - destruct (list_eq_dec string_dec p []) as [Hnil | Hne].
    { exists [], w. split; [|right; auto].
      apply run_unchanged. eapply Hfail. rewrite Heq. rewrite Hnil. reflexivity. }
    assert (Heq' : Fs.rmdir p w =
              match es with
              | _ :: _ => (Raise (DirectoryNotEmpty p), w)
              | [] =>
                  if existsb (path_eqb p) (locked w)
                  then (Raise (PermissionError p), w)
                  else (Ok tt, add_event (RmdirEv p) (del p (tree w)) w)
              end).
    { rewrite Heq. destruct p; [congruence | reflexivity]. }
    clear Heq. destruct es as [|e es].
    + destruct (existsb (path_eqb p) (locked w)) eqn:Hl.
      * exists [], w. split; [apply run_unchanged; eapply Hfail; exact Heq'|].
        right. repeat split. right. left. now apply locked_spec.
      * eexists [RmdirEv p], _. split.
        -- apply run_effect.
           ++ unfold try_except. rewrite Heq'. reflexivity.
           ++ rewrite (path_split p Hne) in *. now apply effect_rmdir.
        -- left. split; [reflexivity|].
           intros Hin. apply locked_spec in Hin. congruence.
    + exists [], w. split; [apply run_unchanged; eapply Hfail; exact Heq'|].
      right. repeat split. left. discriminate.
  - exists [], w. split; [apply run_unchanged; eapply Hfail; exact Heq|].
    right. repeat split. left. discriminate.
Qed.

End MoveFacts.

(** * Part VII-b: refused paths *)

(** No computation of the program changes which paths are refused, and
    each raises [OSError] only for a path that is. *)
Section Honest.

Lemma refusal_raise {A B} ex : @refusal A (Raise ex) -> @refusal B (Raise ex).
Proof. intros (p & [= ->]). now exists p. Qed.

Lemma honest_ret {A} (a : A) : honest (ret a).
Proof. intros w o w' [= <- <-]. split; [reflexivity | discriminate]. Qed.

Lemma honest_raise {A} ex :
  (forall p, ex <> OSError p) -> honest (@raise A ex).
Proof.
  intros H w o w' [= <- <-]. split; [reflexivity|].
  intros p [= ->]. now destruct (H p).
Qed.

Lemma honest_bind {A B} (m : M A) (k : A -> M B) :
  honest m -> (forall a, honest (k a)) -> honest (bind m k).
Proof.
  intros Hm Hk w o w'. unfold bind.
  destruct (m w) as [[a|e|] w1] eqn:E; destruct (Hm _ _ _ E) as [Hr Hp].
  - intros H. destruct (Hk a _ _ _ H) as [Hr' Hp']. split; [congruence|].
    intros p Ho. rewrite <- Hr. now apply Hp'.
  - intros [= <- <-]. split; [exact Hr|]. intros p [= ->]. now apply Hp.
  - intros [= <- <-]. split; [exact Hr | discriminate].
Qed.

Lemma honest_for_each {A S} (xs : list A) (body : A -> S -> M S) :
  (forall x s, honest (body x s)) -> forall s, honest (for_each xs body s).
Proof.
  intros Hb. induction xs as [|x xs IH]; intros s; simpl.
  - apply honest_ret.
  - apply honest_bind; auto.
Qed.

Lemma honest_try_pass (m : M unit) :
  honest m -> honest (try_except m (fun _ => ret tt)).
Proof.
  intros Hm w o w'. unfold try_except.
  destruct (m w) as [[a|e|] w1] eqn:E; destruct (Hm _ _ _ E) as [Hr _];
    intros [= <- <-]; (split; [exact Hr | discriminate]).
Qed.

Lemma honest_if {A} (b : bool) (m1 m2 : M A) :
  honest m1 -> honest m2 -> honest (if b then m1 else m2).
Proof. destruct b; auto. Qed.

Lemma honest_exists p : honest (Fs.exists_ p).
Proof.
  intros w o w'. unfold Fs.exists_. destruct (refused w p) eqn:R;
    intros [= <- <-]; (split; [reflexivity|]); [|discriminate].
  now intros q [= <-].
Qed.

Lemma honest_is_dir p : honest (Fs.is_dir p).
Proof.
  intros w o w'. unfold Fs.is_dir. destruct (refused w p) eqn:R;
    intros [= <- <-]; (split; [reflexivity|]); [|discriminate].
  now intros q [= <-].
Qed.

Lemma honest_search_bound p : honest (Fs.search_bound p).
Proof. intros w o w' [= <- <-]. split; [reflexivity | discriminate]. Qed.

Lemma honest_iterdir p : honest (Fs.iterdir p).
Proof.
  intros w o w'. unfold Fs.iterdir. destruct (refused w p) eqn:R.
  - intros [= <- <-]. split; [reflexivity|]. now intros q [= <-].
  - destruct (Tree.lookup p (tree w)) as [[d|es]|]; intros [= <- <-];
      (split; [reflexivity | discriminate]).
Qed.

Lemma honest_os_mkdir p : honest (Fs.os_mkdir p).
Proof.
  intros w o w'. unfold Fs.os_mkdir. destruct (refused w p) eqn:R.
  - intros [= <- <-]. split; [reflexivity|]. now intros q [= <-].
  - repeat match goal with
           | |- (if ?b then _ else _) = _ -> _ => destruct b
           | |- match ?x with _ => _ end = _ -> _ => destruct x
           end;
      intros [= <- <-]; (split; [reflexivity | discriminate]).
Qed.

Lemma honest_rmdir p : honest (Fs.rmdir p).
Proof.
  intros w o w'. unfold Fs.rmdir. destruct (refused w p) eqn:R.
  - intros [= <- <-]. split; [reflexivity|]. now intros q [= <-].
  - repeat match goal with
           | |- (if ?b then _ else _) = _ -> _ => destruct b
           | |- match ?x with _ => _ end = _ -> _ => destruct x
           end;
      intros [= <- <-]; (split; [reflexivity | discriminate]).
Qed.

Lemma honest_shutil_move src dst : honest (Fs.shutil_move src dst).
Proof.
  intros w o w'. unfold Fs.shutil_move. cbv zeta.
  set (rd := if Fs.os_path_isdir w dst then dst // PurePath.name src else dst).
  destruct (Fs.os_path_isdir w dst && path_eqb src dst);
    [intros [= <- <-]; split; [reflexivity | discriminate]|].
  destruct (Fs.os_path_isdir w dst && Fs.os_path_exists w rd);
    [intros [= <- <-]; split; [reflexivity | discriminate]|].
  destruct (refused w src) eqn:Rs.
  { intros [= <- <-]. split; [reflexivity|]. now intros q [= <-]. }
  destruct (Tree.lookup src (tree w)) as [x|];
    [|intros [= <- <-]; split; [reflexivity | discriminate]].
  destruct (path_eqb src rd);
    [intros [= <- <-]; split; [reflexivity | discriminate]|].
  destruct (Tree.path_is_dir (tree w) src && prefixb src rd);
    [intros [= <- <-]; split; [reflexivity | discriminate]|].
  destruct (refused w rd) eqn:Rd.
  { intros [= <- <-]. split; [reflexivity|]. now intros q [= <-]. }
  destruct (Tree.lookup (PurePath.parent rd) (tree w)) as [[d|es]|];
    try (intros [= <- <-]; split; [reflexivity | discriminate]).
  destruct (Tree.lookup rd (tree w)) as [[d|es']|]; [destruct x| |];
    intros [= <- <-]; (split; [reflexivity | discriminate]).
Qed.

Lemma honest_unique_loop fuel cand c :
  honest (OrganizeGui.unique_loop fuel cand c).
Proof.
  revert c. induction fuel as [|fuel IH]; intros c; simpl.
  - intros w o w' [= <- <-]. split; [reflexivity | discriminate].
  - apply honest_bind; [apply honest_exists|]. intros e.
    apply honest_if; [apply honest_ret | apply IH].
Qed.

Lemma honest_ensure_unique_path t : honest (OrganizeGui.ensure_unique_path t).
Proof.
  unfold OrganizeGui.ensure_unique_path.
  apply honest_bind; [apply honest_exists|]. intros e.
  apply honest_if; [apply honest_ret|].
  apply honest_bind; [apply honest_search_bound|]. intros f.
  apply honest_unique_loop.
Qed.

Lemma honest_ensure_unique_dir t : honest (OrganizeGui.ensure_unique_dir t).
Proof.
  unfold OrganizeGui.ensure_unique_dir.
  apply honest_bind; [apply honest_exists|]. intros e.
  apply honest_if; [apply honest_ret|].
  apply honest_bind; [apply honest_search_bound|]. intros f.
  apply honest_unique_loop.
Qed.

(** [try: os.mkdir(p) except OSError: handler], where the handler raises
    the error it was given or what [is_dir] raises. *)
Lemma honest_mkdir_try p (h : exn -> M unit) :
  (forall e, (forall q, e <> OSError q) -> honest (h e)) ->
  (forall w, refused w p = true -> h (OSError p) w = (Raise (OSError p), w)) ->
  honest (try_except (Fs.os_mkdir p) h).
Proof.
  intros Hh Hr w o w'. unfold try_except.
  destruct (refused w p) eqn:R.
  - rewrite (os_mkdir_refused p w R), (Hr w R). intros [= <- <-].
    split; [reflexivity|]. now intros q [= <-].
  - destruct (Fs.os_mkdir p w) as [[a|e|] w1] eqn:E;
      destruct (honest_os_mkdir p _ _ _ E) as [Hk Hp].
    + intros [= <- <-]. split; [exact Hk | discriminate].
    + intros H. assert (He : forall q, e <> OSError q).
      { intros q ->. destruct (os_mkdir_cases p w R)
          as [(par & k & es & _ & _ & _ & Hm) | (e' & Hm & Hc)];
          rewrite Hm in E; [discriminate|].
        injection E as He' _.
        destruct Hc as [(Hx & _) | [(Hx & _) | (Hx & _)]]; congruence. }
      destruct (Hh e He _ _ _ H) as [Hk' Hp']. split; [congruence|].
      intros q Ho. rewrite <- Hk. now apply Hp'.
    + intros [= <- <-]. split; [exact Hk | discriminate].
Qed.

Lemma honest_mkdir_handler p e :
  (forall q, e <> OSError q) ->
  honest (d <- Fs.is_dir p ;; if d then ret tt else raise e).
Proof.
  intros He. apply honest_bind; [apply honest_is_dir|]. intros d.
  apply honest_if; [apply honest_ret | now apply honest_raise].
Qed.

Lemma honest_mkdir_exist_ok p : honest (Fs.mkdir_exist_ok p).
Proof.
  apply honest_mkdir_try.
  - intros e He. now apply honest_mkdir_handler.
  - intros w R. unfold bind. now rewrite (is_dir_refused p w R).
Qed.

Lemma honest_mkdir_parents_rec n p : honest (Fs.mkdir_parents_rec n p).
Proof.
  revert p. induction n as [|n IH]; intros p; cbn [Fs.mkdir_parents_rec];
    apply honest_mkdir_try.
  - intros e He. destruct e; try (now apply honest_mkdir_handler).
    now apply honest_raise.
  - intros w R. unfold bind. now rewrite (is_dir_refused p w R).
  - intros e He. destruct e; try (now apply honest_mkdir_handler).
    destruct (path_eqb (PurePath.parent p) p); [now apply honest_raise|].
    apply honest_bind; [apply IH|]. intros _. apply honest_mkdir_exist_ok.
  - intros w R. unfold bind. now rewrite (is_dir_refused p w R).
Qed.

Lemma honest_mkdir_parents p : honest (Fs.mkdir_parents p).
Proof. apply honest_mkdir_parents_rec. Qed.

Lemma honest_relocate_item pd item moves :
  honest (OrganizeGui.relocate_item pd item moves).
Proof.
  unfold OrganizeGui.relocate_item.
  apply honest_bind; [apply honest_is_dir|]. intros d. apply honest_if.
  - apply honest_bind; [apply honest_ensure_unique_dir|]. intros t.
    apply honest_bind; [apply honest_shutil_move|]. intros _. apply honest_ret.
  - apply honest_bind; [apply honest_ensure_unique_path|]. intros t.
    apply honest_bind; [apply honest_shutil_move|]. intros _. apply honest_ret.
Qed.

Lemma honest_relocate_legacy base remap moves :
  honest (OrganizeGui.relocate_legacy base remap moves).
Proof.
  destruct remap as [L d]. unfold OrganizeGui.relocate_legacy.
  apply honest_bind; [apply honest_exists|]. intros e.
  apply honest_bind; [apply honest_is_dir|]. intros d0.
  apply honest_if; [apply honest_ret|].
  apply honest_bind; [apply honest_mkdir_parents|]. intros _.
  apply honest_bind; [apply honest_iterdir|]. intros items.
  apply honest_bind; [apply honest_for_each; intros; apply honest_relocate_item|].
  intros m.
  apply honest_bind; [apply honest_try_pass, honest_rmdir|]. intros _.
  apply honest_ret.
Qed.

Lemma honest_relocate_legacy_folders base moves :
  honest (OrganizeGui.relocate_legacy_folders base moves).
Proof.
  unfold OrganizeGui.relocate_legacy_folders.
  apply honest_for_each. intros. apply honest_relocate_legacy.
Qed.

Lemma honest_organize_entry base entry moves :
  honest (OrganizeGui.organize_entry base entry moves).
Proof.
  unfold OrganizeGui.organize_entry.
  apply honest_bind; [apply honest_is_dir|]. intros d.
  apply honest_if; [apply honest_ret|].
  apply honest_bind; [apply honest_mkdir_parents|]. intros _.
  apply honest_bind; [apply honest_ensure_unique_path|]. intros t.
  apply honest_bind; [apply honest_shutil_move|]. intros _. apply honest_ret.
Qed.

Lemma honest_organize_top_level base :
  honest (OrganizeGui.organize_top_level base).
Proof.
  unfold OrganizeGui.organize_top_level.
  apply honest_bind; [apply honest_iterdir|]. intros entries.
  apply honest_for_each. intros. apply honest_organize_entry.
Qed.

Lemma honest_organize_folder base : honest (OrganizeGui.organize_folder base).
Proof.
  unfold OrganizeGui.organize_folder.
  apply honest_bind; [apply honest_organize_top_level|]. intros m.
  apply honest_relocate_legacy_folders.
Qed.


(** The refused paths after a run are those before it. *)
Lemma run_keeps_refused {A} (m : M A) w o evs w' :
  honest m -> run m w o evs w' -> refused w' = refused w.
Proof. intros H (E & _). now destruct (H _ _ _ E). Qed.

End Honest.

(** What a computation of the program creates, moves or removes is not
    refused. *)
Section Polite.



























End Polite.

(** * Part VIII: the engine, one entry at a time *)

Section Destinations.

Import Tree.

Lemma first_category_in ext tbl p :
  OrganizeGui.first_category ext tbl = Some p ->
  In p (map (fun e => PurePath.of_string (fst e)) tbl).
Proof.
  induction tbl as [|[dest exts] tbl IH]; simpl; [discriminate|].
  destruct (PyStr.mem ext exts); [intros [= <-]; now left | auto].
Qed.

Lemma dest_root_in nm : In (Dest.dest_root nm) Dest.all.
Proof.
  unfold Dest.dest_root, Dest.all.
  destruct (OrganizeGui.first_category _ _) eqn:E.
  - apply in_or_app. left. now apply first_category_in in E.
  - apply in_or_app. right. now left.
Qed.

Lemma dest_all_head d :
  In d Dest.all -> exists D ds, d = D :: ds /\ In D Dest.roots.
Proof.
  unfold Dest.all. simpl.
  intros H. repeat (destruct H as [<- | H]; [eexists _, _; split; [reflexivity | simpl; tauto]|]).
  contradiction.
Qed.

Lemma legacy_dest L d :
  In (L, d) OrganizeGui.LEGACY_FOLDER_REMAP ->
  In (PurePath.of_string d) Dest.all /\ ~ In L Dest.roots.
Proof.
  unfold Dest.all, Dest.roots. simpl.
  intros H.
  repeat (destruct H as [[= <- <-] | H];
          [split; [simpl; tauto | simpl; intros K; repeat (destruct K as [K|K]; [discriminate|]); exact K]|]).
  contradiction.
Qed.

(** No destination folder lies inside another one. *)
Lemma dest_all_antichain d d' x :
  In d Dest.all -> In d' Dest.all -> ~ prefix (d' // x) d.
Proof.
  unfold Dest.all. simpl. intros H H'.
  repeat (destruct H as [<- | H]);
    repeat (destruct H' as [<- | H']); try contradiction;
    simpl; intros P;
    repeat (apply prefix_cons_inv in P as [? P]; try discriminate);
    try (apply prefix_of_nil in P; discriminate).
Qed.

Lemma resolve_destination_child base n :
  OrganizeGui.resolve_destination (base // n)
  = OrganizeGui.first_category (PyStr.lower (PurePath.suffix_of n))
      OrganizeGui.CATEGORY_MAP.
Proof.
  unfold OrganizeGui.resolve_destination, PurePath.suffix.
  now rewrite name_child.
Qed.

End Destinations.

Section EntrySpecs.

Import Tree.

Lemma organize_entry_eq base n moves :
  OrganizeGui.organize_entry base (base // n) moves =
  (d <- Fs.is_dir (base // n) ;;
   if d then ret moves
   else
     Fs.mkdir_parents (base ++ Dest.dest_root n) ;;
     target <- OrganizeGui.ensure_unique_path ((base ++ Dest.dest_root n) // n) ;;
     _ <- Fs.shutil_move (base // n) target ;;
     ret (moves ++ [(base // n, target)])).
Proof.
  unfold OrganizeGui.organize_entry, Dest.dest_root.
  now rewrite resolve_destination_child, name_child.
Qed.

Lemma run_is_dir p w :
  refused w p = false ->
  run (Fs.is_dir p) w (Ok (path_is_dir (tree w) p)) [] w.
Proof. intros H. apply run_unchanged. now apply is_dir_accepted. Qed.

Lemma run_exists p w :
  refused w p = false ->
  run (Fs.exists_ p) w (Ok (path_exists (tree w) p)) [] w.
Proof. intros H. apply run_unchanged. now apply exists_accepted. Qed.

Lemma mkdirs_no_removed p t evs e q :
  mkdirs_under p t evs -> In e evs -> In q (removed e) -> False.
Proof. intros H Hin. destruct (H e Hin) as (q' & -> & _). intros []. Qed.


(** An entry whose path is refused stops the run at once. *)
Lemma organize_entry_refused base n moves w :
  refused w (base // n) = true ->
  OrganizeGui.organize_entry base (base // n) moves w
  = (Raise (OSError (base // n)), w).
Proof.
  intros H. unfold OrganizeGui.organize_entry, bind.
  now rewrite (is_dir_refused _ _ H).
Qed.

(** One top-level entry: skipped when it is a directory; otherwise its
    folder is made, and it is moved there under a free name. *)
Lemma organize_entry_run base n moves w :
  refused w (base // n) = false ->
  exists o evs w',
    run (OrganizeGui.organize_entry base (base // n) moves) w o evs w' /\
    o <> Diverge /\
    (path_is_dir (tree w) (base // n) = true -> o = Ok moves /\ evs = []) /\
    (path_is_dir (tree w) (base // n) = false ->
     exists mk,
       mkdirs_under (base ++ Dest.dest_root n) (tree w) mk /\
       ((exists x,
           evs = mk ++ [MoveEv (base // n) ((base ++ Dest.dest_root n) // x) false] /\
           o = Ok (moves ++ [(base // n, (base ++ Dest.dest_root n) // x)])) \/
        (exists e, o = Raise e /\ evs = mk /\
           (~ (forall q, prefix q (base ++ Dest.dest_root n) ->
                         path_is_file (tree w) q = false) \/
            path_is_file (tree w) (base // n) = false \/
            refusal o)))).
Proof.
  intros Hacc. rewrite organize_entry_eq.
  pose proof (run_is_dir (base // n) w Hacc) as R0.
  destruct (path_is_dir (tree w) (base // n)) eqn:Ed.
  { exists (Ok moves), [], w. split; [|split; [discriminate|split; [auto|discriminate]]].
    apply (run_bind _ _ _ _ _ _ _ _ _ R0). apply run_ret. }
  destruct (mkdir_parents_run (base ++ Dest.dest_root n) w)
    as (o1 & e1 & w1 & R1 & Hev1 & Hd1 & Hok1 & Hsucc1).
  pose proof (run_keeps_refused _ _ _ _ _ (honest_mkdir_parents _) R1) as Hk1.
  destruct o1 as [[]|ex|]; [| |contradiction].
  2:{ exists (Raise ex), e1, w1. split; [|split; [discriminate|split; [discriminate|]]].
      - apply (run_bind _ _ _ _ _ _ _ _ _ R0). now apply run_bind_raise.
      - intros _. exists e1. split; [exact Hev1|]. right.
        exists ex. repeat split.
        destruct ex;
          try (left; intros Hnf; destruct (Hsucc1 Hnf) as [Hs | (q & Hq)];
               discriminate).
        right. right. eexists. reflexivity. }
  specialize (Hok1 eq_refl).
  destruct (ensure_unique_path_spec ((base ++ Dest.dest_root n) // n) w1)
    as [(r & Hr & Hres & Hracc) | (q & Hr & Hq)].
  2:{ exists (Raise (OSError q)), e1, w1.
      split; [|split; [discriminate|split; [discriminate|]]].
      - apply (run_bind _ _ _ _ _ _ _ _ _ R0). simpl.
        rewrite <- (app_nil_r e1).
        apply (run_bind _ _ _ _ _ _ _ _ _ R1).
        apply run_bind_raise. now apply run_unchanged.
      - intros _. exists e1. split; [exact Hev1|]. right.
        eexists. repeat split. right. right. now exists q. }
  destruct (file_candidate_sibling _ _ _ _ Hres) as (x & -> & Hfree).
  assert (Hacc1 : refused w1 (base // n) = false) by now rewrite Hk1.
  destruct (shutil_move_run base n (base ++ Dest.dest_root n) x w1 Hacc1 Hracc Hfree)
    as (o3 & e3 & w3 & R3 & Hcase).
  destruct Hcase as [[-> ->] | (e & -> & -> & -> & Hwhy)].
  - eexists _, (e1 ++ [MoveEv (base // n) ((base ++ Dest.dest_root n) // x) false]), w3.
    split; [|split; [|split; [discriminate|]]].
    + apply (run_bind _ _ _ _ _ _ _ _ _ R0). simpl.
      apply (run_bind _ _ _ _ _ _ _ _ _ R1).
      apply (run_bind _ _ _ _ [] _ _ _ _ (run_unchanged _ _ _ Hr)). simpl.
      rewrite <- (app_nil_r [MoveEv _ _ _]).
      apply (run_bind _ _ _ _ _ _ _ _ _ R3). apply run_ret.
    + discriminate.
    + intros _. exists e1. split; [exact Hev1|]. left. exists x. split; reflexivity.
  - exists (Raise e), e1, w1. split; [|split; [discriminate|split; [discriminate|]]].
    + apply (run_bind _ _ _ _ _ _ _ _ _ R0). simpl.
      rewrite <- (app_nil_r e1).
      apply (run_bind _ _ _ _ _ _ _ _ _ R1).
      apply (run_bind _ _ _ _ [] _ _ _ _ (run_unchanged _ _ _ Hr)). simpl.
      apply run_bind_raise. exact R3.
    + intros _. exists e1. split; [exact Hev1|]. right.
      exists e. repeat split. right. left.
      destruct (path_is_file (tree w) (base // n)) eqn:Ef; [exfalso|reflexivity].
      apply is_file_iff_lookup in Ef as [d Hd].
      destruct R1 as (_ & _ & _ & X1).
      assert (Hd1' : lookup (base // n) (tree w1) = Some (File d)).
      { apply (exec_keeps_file e1 (tree w) (tree w1) _ d X1 Hd).
        intros e0 q Hin Hq. exfalso. eapply mkdirs_no_removed; eauto. }
      destruct Hwhy as [Hn | [Hn | [Hn _]]].
      * congruence.
      * congruence.
      * unfold path_is_dir in Hn. rewrite Hd1' in Hn. discriminate.
Qed.

End EntrySpecs.

Section LegacySpecs.

Import Tree.

Lemma for_each_cons {A S} (x : A) xs (body : A -> S -> M S) s :
  for_each (x :: xs) body s = (s' <- body x s ;; for_each xs body s').
Proof. reflexivity. Qed.

Lemma prefix_child_child (a b : Path) (x y : string) :
  prefix (a // x) (b // y) -> prefix a b.
Proof.
  intros H. apply prefix_child_inv in H as [H | H].
  - eapply prefix_trans; [apply prefix_app | exact H].
  - apply app_inj_tail in H as [-> _]. apply prefix_refl.
Qed.

Lemma child_inj (a : Path) (x y : string) : a // x = a // y -> x = y.
Proof. intros H. now apply app_inj_tail in H as [_ ->]. Qed.

Lemma not_above_sibling (a b : Path) (x y : string) :
  ~ prefix a b -> ~ above (a // x) (b // y).
Proof.
  intros Hn Ha. apply above_prefix in Ha. apply Hn.
  now apply prefix_child_child in Ha.
Qed.

Lemma not_above_same_dir (a : Path) (x y : string) : ~ above (a // x) (a // y).
Proof.
  intros (c & r & E). apply (f_equal (@List.length string)) in E.
  rewrite !length_app in E. simpl in E. lia.
Qed.

Lemma relocate_item_refused pd sd c moves w :
  refused w (sd // c) = true ->
  OrganizeGui.relocate_item pd (sd // c) moves w
  = (Raise (OSError (sd // c)), w).
Proof.
  intros H. unfold OrganizeGui.relocate_item, bind.
  now rewrite (is_dir_refused _ _ H).
Qed.

(** One item of a legacy folder: moved under a free name, whatever it is. *)
Lemma relocate_item_run pd sd c moves w :
  refused w (sd // c) = false ->
  exists o evs w',
    run (OrganizeGui.relocate_item pd (sd // c) moves) w o evs w' /\
    o <> Diverge /\
    ((exists x,
        evs = [MoveEv (sd // c) (pd // x) false] /\
        o = Ok (moves ++ [(sd // c, pd // x)]) /\
        Spec.resolved
          (if path_is_dir (tree w) (sd // c) then Spec.dir_candidate
           else Spec.file_candidate) (tree w) (pd // c) (pd // x)) \/
     (exists e, o = Raise e /\ evs = [] /\ w' = w /\
        (lookup (sd // c) (tree w) = None \/
         path_is_dir (tree w) pd = false \/
         prefix sd pd \/
         refusal o))).
Proof.
  intros Hacc.
  pose proof (run_is_dir (sd // c) w Hacc) as R0.
  assert (Hres :
    (exists x,
      run (if path_is_dir (tree w) (sd // c)
           then OrganizeGui.ensure_unique_dir (pd // c)
           else OrganizeGui.ensure_unique_path (pd // c)) w (Ok (pd // x)) [] w /\
      Spec.resolved (if path_is_dir (tree w) (sd // c) then Spec.dir_candidate
                     else Spec.file_candidate) (tree w) (pd // c) (pd // x) /\
      lookup (pd // x) (tree w) = None /\ refused w (pd // x) = false) \/
    (exists q,
      run (if path_is_dir (tree w) (sd // c)
           then OrganizeGui.ensure_unique_dir (pd // c)
           else OrganizeGui.ensure_unique_path (pd // c)) w
          (Raise (OSError q)) [] w)).
  { destruct (path_is_dir (tree w) (sd // c)).
    - destruct (ensure_unique_dir_spec (pd // c) w)
        as [(r & Hr & Hres & Hracc) | (q & Hr & Hq)].
      + destruct (dir_candidate_sibling _ _ _ _ Hres) as (x & -> & Hfree).
        left. exists x. split; [now apply run_unchanged | auto].
      + right. exists q. now apply run_unchanged.
    - destruct (ensure_unique_path_spec (pd // c) w)
        as [(r & Hr & Hres & Hracc) | (q & Hr & Hq)].
      + destruct (file_candidate_sibling _ _ _ _ Hres) as (x & -> & Hfree).
        left. exists x. split; [now apply run_unchanged | auto].
      + right. exists q. now apply run_unchanged. }
  destruct Hres as [(x & R1 & Hres & Hfree & Hracc) | (q & R1)].
  2:{ exists (Raise (OSError q)), [], w. split; [|split].
      - unfold OrganizeGui.relocate_item. rewrite name_child.
        apply (run_bind _ _ _ _ _ _ _ _ _ R0).
        destruct (path_is_dir (tree w) (sd // c)); now apply run_bind_raise.
      - discriminate.
      - right. eexists. repeat split. right. right. right. now exists q. }
  destruct (shutil_move_run sd c pd x w Hacc Hracc Hfree)
    as (o3 & e3 & w3 & R3 & Hcase).
  assert (Hrun : forall o,
    run (_ <- Fs.shutil_move (sd // c) (pd // x) ;;
         ret (moves ++ [(sd // c, pd // x)])) w o e3 w3 ->
    run (OrganizeGui.relocate_item pd (sd // c) moves) w o e3 w3).
  { intros o R. unfold OrganizeGui.relocate_item. rewrite name_child.
    apply (run_bind _ _ _ _ _ _ _ _ _ R0).
    destruct (path_is_dir (tree w) (sd // c));
      apply (run_bind _ _ _ _ _ _ _ _ _ R1); exact R. }
  destruct Hcase as [[-> ->] | (e & -> & -> & -> & Hwhy)].
  - eexists _, _, w3. split; [|split].
    + apply Hrun. rewrite <- (app_nil_r [MoveEv _ _ _]).
      apply (run_bind _ _ _ _ _ _ _ _ _ R3). apply run_ret.
    + discriminate.
    + left. exists x. auto.
  - exists (Raise e), [], w. split; [|split].
    + apply Hrun. now apply run_bind_raise.
    + discriminate.
    + right. exists e. repeat split.
      destruct Hwhy as [Hn | [Hn | [Hd Hp]]]; auto.
      right. right. left. apply prefix_child_inv in Hp as [Hp | Hp].
      * eapply prefix_trans; [apply prefix_app | exact Hp].
      * exfalso. apply is_dir_iff_lookup in Hd as [es Hd]. congruence.
Qed.

(** The items of a legacy folder, in listing order. *)
Lemma relocate_items_run pd sd cs :
  forall moves w,
  exists o evs w',
    run (for_each (map (fun c => sd // c) cs) (OrganizeGui.relocate_item pd) moves)
        w o evs w' /\
    o <> Diverge /\
    (forall e, In e evs ->
       exists c x, In c cs /\ e = MoveEv (sd // c) (pd // x) false) /\
    (forall moves', o = Ok moves' ->
       moves' = moves ++ moves_of evs /\
       map fst (moves_of evs) = map (fun c => sd // c) cs) /\
    (NoDup cs -> ~ prefix sd pd ->
     (forall c, In c cs -> lookup (sd // c) (tree w) <> None) ->
     (path_is_dir (tree w) pd = true ->
      (exists moves', o = Ok moves') \/ refusal o) /\
     (~ prefix pd sd -> forall moves', o = Ok moves' ->
      forall c, In c cs ->
        exists x, In (MoveEv (sd // c) (pd // x) false) evs /\
                  lookup (pd // x) (tree w') = lookup (sd // c) (tree w))).
Proof.
  induction cs as [|c cs IH]; intros moves w.
  - exists (Ok moves), [], w. split; [apply run_ret|]. split; [discriminate|].
    split; [intros e []|]. split.
    + intros moves' [= <-]. now rewrite app_nil_r.
    + intros _ _ _. split; [eauto | intros _ moves' _ c []].
  - destruct (refused w (sd // c)) eqn:Hacc.
    { exists (Raise (OSError (sd // c))), [], w.
      split; [|split; [discriminate|split; [intros ? []|split]]].
      - simpl map. rewrite for_each_cons. apply run_bind_raise.
        apply run_unchanged. now apply relocate_item_refused.
      - discriminate.
      - intros _ _ _. split; [|intros _ moves' [=]].
        intros _. right. now eexists. }
    destruct (relocate_item_run pd sd c moves w Hacc)
      as (o1 & e1 & w1 & R1 & Hd1 & Hcase).
    destruct Hcase as [(x & -> & -> & Hres) | (e & -> & -> & -> & Hwhy)].
    + destruct (IH (moves ++ [(sd // c, pd // x)]) w1)
        as (o2 & e2 & w2 & R2 & Hd2 & Hev2 & Hlog2 & Hsucc2).
      exists o2, ([MoveEv (sd // c) (pd // x) false] ++ e2), w2.
      split; [|split; [exact Hd2|split; [|split]]].
      * simpl map. rewrite for_each_cons. eapply run_bind; eauto.
      * intros e [<- | Hin]; [exists c, x; split; [now left | reflexivity]|].
        destruct (Hev2 e Hin) as (c' & x' & Hc' & ->).
        exists c', x'. split; [now right | reflexivity].
      * intros moves' Ho. destruct (Hlog2 moves' Ho) as [-> Hsrc].
        split; [simpl; now rewrite <- app_assoc | simpl; now rewrite Hsrc].
      * intros Hnd Hnp Hex. inversion Hnd as [|? ? Hc Hnd']; subst.
        destruct R1 as (_ & _ & _ & X1).
        assert (Hother : forall c', In c' cs -> ~ prefix (sd // c) (sd // c')).
        { intros c' Hc' Hp. apply prefix_child_inv in Hp as [Hp | Hp].
          - destruct Hp as [r Hr]. apply (f_equal (@List.length string)) in Hr.
            rewrite !length_app in Hr. simpl in Hr. lia.
          - apply child_inj in Hp. congruence. }
        assert (Hex1 : forall c', In c' cs -> lookup (sd // c') (tree w1) <> None).
        { intros c' Hc'.
          destruct (lookup (sd // c') (tree w)) as [n|] eqn:E;
            [|exfalso; apply (Hex c'); [now right | exact E]].
          destruct (exec_keeps_exists _ _ _ _ n X1 E) as [n' ->]; [|discriminate].
          intros e0 p [<-|[]] [<-|[]]. now apply Hother. }
        destruct (Hsucc2 Hnd' Hnp Hex1) as [Hs2 Hf2]. split.
        -- intros Hpd. apply Hs2.
           apply (exec_keeps_dir _ _ _ pd X1 Hpd).
           intros e0 p [<-|[]] [<-|[]] Hp. apply Hnp.
           eapply prefix_trans; [apply prefix_app | exact Hp].
        -- intros Hnp' moves' Ho c' [<- | Hc'].
           ++ exists x. split; [now left|].
              destruct R2 as (_ & _ & _ & X2).
              inversion X1 as [| ? ? ? ? ? He1 Hr1]; subst.
              inversion Hr1; subst.
              destruct (effect_moved _ _ _ _ _ [] He1) as [Hmv _].
              rewrite !app_nil_r in Hmv.
              destruct (lookup (sd // c) (tree w)) as [n|] eqn:E;
                [|exfalso; apply (Hex c); [now left | exact E]].
              apply (exec_same _ _ _ _ n X2 Hmv).
              ** intros e0 p Hin Hp.
                 destruct (Hev2 e0 Hin) as (c' & x' & Hc' & ->).
                 destruct Hp as [<-|[]]. intros Hp. apply Hnp.
                 now apply prefix_child_child in Hp.
              ** intros e0 p Hin Hp.
                 destruct (Hev2 e0 Hin) as (c' & x' & Hc' & ->).
                 destruct Hp as [<-|[<-|[]]].
                 --- now apply not_above_sibling.
                 --- apply not_above_same_dir.
           ++ destruct (Hf2 Hnp' moves' Ho c' Hc') as (x' & Hin & Hlk).
              exists x'. split; [now right|]. rewrite Hlk.
              destruct (lookup (sd // c') (tree w)) as [n|] eqn:E;
                [|exfalso; apply (Hex c'); [now right | exact E]].
              apply (exec_same _ _ _ _ n X1 E).
              ** intros e0 p [<-|[]] [<-|[]]. now apply Hother.
              ** intros e0 p [<-|[]] [<-|[<-|[]]].
                 --- apply not_above_same_dir.
                 --- now apply not_above_sibling.
    + exists (Raise e), [], w. split; [|split; [discriminate|split; [intros ? []|split]]].
      * simpl map. rewrite for_each_cons. now apply run_bind_raise.
      * discriminate.
      * intros Hnd Hnp Hex. split.
        -- intros Hpd. destruct Hwhy as [Hn | [Hn | [Hp | Href]]].
           ++ exfalso. apply (Hex c); [now left | exact Hn].
           ++ congruence.
           ++ contradiction.
           ++ right. exact Href.
        -- intros _ moves' [=].
Qed.

End LegacySpecs.

(** * Part IX: the first pass *)

Section FirstPass.

Import Tree.

Lemma lookup_above_is_dir q p t n :
  lookup p t = Some n -> above q p -> path_is_dir t q = true.
Proof.
  intros H (c & r & ->). destruct (lookup_ext_dir q c r t n H) as [es E].
  unfold path_is_dir. now rewrite E.
Qed.

Lemma prefix_top base n D ds x :
  prefix (base // n) ((base ++ D :: ds) // x) -> n = D.
Proof.
  rewrite <- !app_assoc. intros H. apply prefix_app_cancel in H.
  simpl in H. now apply prefix_cons_inv in H as [-> _].
Qed.

Lemma above_top base D ds x : above (base // D) ((base ++ D :: ds) // x).
Proof.
  destruct (ds // x) as [|c r] eqn:E.
  - destruct ds; discriminate.
  - exists c, r. rewrite <- E, <- !app_assoc. reflexivity.
Qed.

Lemma not_prefix_siblings base n n' : n <> n' -> ~ prefix (base // n) (base // n').
Proof.
  intros Hne H. apply prefix_app_cancel in H.
  apply prefix_cons_inv in H as [-> _]. congruence.
Qed.

Lemma exec_nil_inv t t' : exec [] t t' -> t' = t.
Proof. intros H. now inversion H. Qed.

Lemma top_event_removed base t ns e p :
  top_event base t ns e -> In p (removed e) ->
  exists n, In n ns /\ p = base // n /\ path_is_dir t (base // n) = false.
Proof.
  intros [(q & d & -> & _) | (n & x & Hn & Hd & ->)].
  - intros [].
  - intros [<-|[]]. eauto.
Qed.

Lemma top_event_target base t ns e p :
  top_event base t ns e -> In p (move_targets e) ->
  exists d x, In d Dest.all /\ p = (base ++ d) // x.
Proof.
  intros [(q & d & -> & _) | (n & x & Hn & Hd & ->)].
  - intros [].
  - intros [<-|[]]. exists (Dest.dest_root n), x. split; [apply dest_root_in | reflexivity].
Qed.

Lemma top_event_mono base t ns ns' e :
  incl ns ns' -> top_event base t ns e -> top_event base t ns' e.
Proof.
  intros Hi [H | (n & x & Hn & Hd & ->)]; [now left|].
  right. exists n, x. auto.
Qed.

(** Destination folders stay clear when entries move only into them. *)
Lemma clear_kept base evs t t' :
  Dest.clear base t -> exec evs t t' ->
  (forall e p, In e evs -> In p (move_targets e) ->
     exists d x, In d Dest.all /\ p = (base ++ d) // x) ->
  Dest.clear base t'.
Proof.
  intros Hc X Htg d q Hd Hq.
  apply (exec_nonfile evs t t' q X); [now apply (Hc d)|].
  intros e p Hin Hp. destruct (Htg e p Hin Hp) as (d' & x & Hd' & ->).
  intros Hpre. apply (dest_all_antichain d d' x Hd Hd').
  apply (prefix_app_cancel base). rewrite app_assoc.
  eapply prefix_trans; eauto.
Qed.

(** One top-level entry, digested. *)
Lemma organize_entry_step base n moves w :
  exists o e1 w1,
    run (OrganizeGui.organize_entry base (base // n) moves) w o e1 w1 /\
    o <> Diverge /\
    (forall e, In e e1 -> top_event base (tree w) [n] e) /\
    (forall m1, o = Ok m1 ->
       m1 = moves ++ moves_of e1 /\
       forall d, lookup (base // n) (tree w) = Some (File d) ->
         exists x,
           In (MoveEv (base // n) ((base ++ Dest.dest_root n) // x) false) e1 /\
           lookup ((base ++ Dest.dest_root n) // x) (tree w1) = Some (File d)) /\
    (lookup (base // n) (tree w) <> None -> Dest.clear base (tree w) ->
     (exists m1, o = Ok m1) \/ refusal o).
Proof.
  destruct (refused w (base // n)) eqn:Hacc.
  { exists (Raise (OSError (base // n))), [], w.
    split; [apply run_unchanged; now apply organize_entry_refused|].
    split; [discriminate|]. split; [intros e []|]. split; [discriminate|].
    intros _ _. right. now eexists. }
  destruct (organize_entry_run base n moves w Hacc)
    as (o & e1 & w1 & R & Hd & Hdir & Hfile).
  exists o, e1, w1. split; [exact R|]. split; [exact Hd|].
  destruct (path_is_dir (tree w) (base // n)) eqn:Ed.
  - destruct (Hdir eq_refl) as [-> ->]. split; [intros e []|]. split.
    + intros m1 [= <-]. split; [now rewrite app_nil_r|].
      intros d Hl. unfold path_is_dir in Ed. rewrite Hl in Ed. discriminate.
    + intros _ _. left. eauto.
  - destruct (Hfile eq_refl) as (mk & Hmk & Hcase).
    assert (Hmk' : forall e, In e mk -> top_event base (tree w) [n] e).
    { intros e Hin. destruct (Hmk e Hin) as (q & -> & Hq & _).
      left. exists q, (Dest.dest_root n). split; [reflexivity|].
      split; [apply dest_root_in | exact Hq]. }
    destruct Hcase as [(x & -> & ->) | (e & -> & -> & Hwhy)].
    + split; [|split].
      * intros e Hin. apply in_app_or in Hin as [Hin | [<-|[]]]; [auto|].
        right. exists n, x. split; [now left | auto].
      * intros m1 [= <-]. split.
        -- rewrite moves_of_app.
           assert (Hz : moves_of mk = []).
           { clear -Hmk. induction mk as [|e mk IH]; [reflexivity|].
             simpl. destruct (Hmk e (or_introl eq_refl)) as (q & -> & _).
             simpl. apply IH. intros e' Hin. apply Hmk. now right. }
           now rewrite Hz.
        -- intros d Hl. exists x. split; [apply in_or_app; right; now left|].
           destruct R as (_ & _ & _ & X).
           apply exec_app_inv in X as (tm & Xm & Xv).
           inversion Xv as [| ? ? ? ? ? He Hr]; subst.
           apply exec_nil_inv in Hr. subst.
           destruct (effect_moved _ _ _ _ _ [] He) as [Hmv _].
           rewrite !app_nil_r in Hmv. rewrite Hmv.
           apply (exec_keeps_file mk (tree w) tm _ d Xm Hl).
           intros e0 q Hin Hq. exfalso. eapply mkdirs_no_removed; eauto.
      * intros _ _. left. eauto.
    + split; [exact Hmk'|]. split; [discriminate|].
      intros Hex Hclear. destruct Hwhy as [Hn | [Hn | Href]].
      * exfalso. apply Hn. intros q Hq. apply (Hclear (Dest.dest_root n) q); auto.
        apply dest_root_in.
      * exfalso. unfold path_is_dir in Ed. unfold path_is_file in Hn.
        destruct (lookup (base // n) (tree w)) as [[d|es]|]; congruence.
      * right. exact Href.
Qed.

(** The loop over the top-level entries. *)
Lemma organize_entries_run base ns :
  forall moves w,
  exists o evs w',
    run (for_each (map (fun n => base // n) ns)
           (OrganizeGui.organize_entry base) moves) w o evs w' /\
    o <> Diverge /\
    (forall e, In e evs -> top_event base (tree w) ns e) /\
    (forall moves', o = Ok moves' -> moves' = moves ++ moves_of evs) /\
    (NoDup ns ->
     (forall moves', o = Ok moves' ->
      forall n d, In n ns -> lookup (base // n) (tree w) = Some (File d) ->
        exists x,
          In (MoveEv (base // n) ((base ++ Dest.dest_root n) // x) false) evs /\
          lookup ((base ++ Dest.dest_root n) // x) (tree w') = Some (File d)) /\
     ((forall n, In n ns -> lookup (base // n) (tree w) <> None) ->
      Dest.clear base (tree w) ->
      (exists moves', o = Ok moves') \/ refusal o)).
Proof.
  induction ns as [|n ns IH]; intros moves w.
  - exists (Ok moves), [], w. split; [apply run_ret|]. split; [discriminate|].
    split; [intros e []|]. split.
    + intros moves' [= <-]. now rewrite app_nil_r.
    + intros _. split; [intros moves' _ n d [] | left; eauto].
  - destruct (organize_entry_step base n moves w)
      as (o1 & e1 & w1 & R1 & Hd1 & Hev1 & Hok1 & Hsucc1).
    destruct o1 as [m1|ex|]; [| |contradiction].
    2:{ exists (Raise ex), e1, w1.
        split; [simpl map; rewrite for_each_cons; now apply run_bind_raise|].
        split; [discriminate|]. split.
        - intros e Hin. apply (top_event_mono base _ [n]); auto.
          intros a [<-|[]]. now left.
        - split; [discriminate|]. intros Hnd. split; [discriminate|].
          intros Hex Hcl.
          assert (Hl : lookup (base // n) (tree w) <> None)
            by (apply Hex; now left).
          destruct (Hsucc1 Hl Hcl) as [[m Hm] | Href];
            [discriminate | right; exact Href]. }
    destruct (Hok1 m1 eq_refl) as [-> Hmoved].
    destruct (IH (moves ++ moves_of e1) w1)
      as (o2 & e2 & w2 & R2 & Hd2 & Hev2 & Hok2 & Hrest2).
    pose proof R1 as (_ & _ & _ & X1). pose proof R2 as (_ & _ & _ & X2).
    assert (Hrem1 : forall e p, In e e1 -> In p (removed e) ->
              p = base // n /\ path_is_dir (tree w) (base // n) = false).
    { intros e p Hin Hp.
      destruct (top_event_removed _ _ _ _ _ (Hev1 e Hin) Hp) as (n' & [<-|[]] & -> & Hn').
      auto. }
    exists o2, (e1 ++ e2), w2.
    split; [simpl map; rewrite for_each_cons; eapply run_bind; eauto|].
    split; [exact Hd2|]. split; [|split].
    + intros e Hin. apply in_app_or in Hin as [Hin | Hin].
      * apply (top_event_mono base _ [n]); auto. intros a [<-|[]]. now left.
      * destruct (Hev2 e Hin) as [H | (n' & x & Hn' & Hdir' & ->)]; [now left|].
        right. exists n', x. split; [now right|]. split; [|reflexivity].
        destruct (path_is_dir (tree w) (base // n')) eqn:E; [|reflexivity].
        rewrite <- Hdir'. symmetry.
        apply (exec_keeps_dir e1 _ _ _ X1 E).
        intros e0 p Hin0 Hp. destruct (Hrem1 e0 p Hin0 Hp) as [-> Hnd].
        apply not_prefix_siblings. intros ->. congruence.
    + intros moves' Ho. rewrite (Hok2 moves' Ho), moves_of_app.
      now rewrite app_assoc.
    + intros Hnd. inversion Hnd as [|? ? Hn Hnd']; subst.
      destruct (Hrest2 Hnd') as [Hmv2 Hsucc2]. split.
      * intros moves' Ho n0 d [<- | Hn0] Hl.
        -- destruct (Hmoved d Hl) as (x & Hin & Htg).
           exists x. split; [apply in_or_app; now left|].
           apply (exec_keeps_file e2 _ _ _ d X2 Htg).
           intros e0 p Hin0 Hp Hpre.
           destruct (top_event_removed _ _ _ _ _ (Hev2 e0 Hin0) Hp)
             as (n' & _ & -> & Hdir').
           destruct (dest_all_head _ (dest_root_in n)) as (D & ds & HD & _).
           rewrite HD in Hpre, Htg.
           pose proof (prefix_top _ _ _ _ _ Hpre) as ->.
           pose proof (lookup_above_is_dir _ _ _ _ Htg (above_top base D ds x)).
           congruence.
        -- assert (n0 <> n) by (intros ->; contradiction).
           assert (Hl1 : lookup (base // n0) (tree w1) = Some (File d)).
           { apply (exec_keeps_file e1 _ _ _ d X1 Hl).
             intros e0 p Hin0 Hp. destruct (Hrem1 e0 p Hin0 Hp) as [-> _].
             apply not_prefix_siblings. congruence. }
           destruct (Hmv2 moves' Ho n0 d Hn0 Hl1) as (x & Hin & Htg).
           exists x. split; [apply in_or_app; now right | exact Htg].
      * intros Hex Hcl. apply Hsucc2.
        -- intros n0 Hn0.
           destruct (lookup (base // n0) (tree w)) as [nd|] eqn:E;
             [|exfalso; apply (Hex n0); [now right | exact E]].
           destruct (exec_keeps_exists e1 _ _ _ nd X1 E) as [n' ->]; [|discriminate].
           intros e0 p Hin0 Hp. destruct (Hrem1 e0 p Hin0 Hp) as [-> _].
           apply not_prefix_siblings. intros ->. contradiction.
        -- apply (clear_kept base e1 (tree w)); auto.
           intros e0 p Hin0 Hp.
           apply (top_event_target _ _ _ _ _ (Hev1 e0 Hin0) Hp).
Qed.

End FirstPass.

(** * Part X: the legacy-folder migration *)

Section OneLegacyFolder.

Import Tree.

Variables (base : Path) (L d : string).

Let sd : Path := base // L.
Let pd : Path := base ++ PurePath.of_string d.

Hypothesis Hdest : In (PurePath.of_string d) Dest.all.
Hypothesis Hname : ~ In L Dest.roots.

Lemma legacy_dest_shape :
  exists D ds, PurePath.of_string d = D :: ds /\ D <> L.
Proof.
  destruct (dest_all_head _ Hdest) as (D & ds & E & HD).
  exists D, ds. split; [exact E|]. intros ->. contradiction.
Qed.

Lemma legacy_src_not_in_dest : ~ prefix sd pd.
Proof.
  destruct legacy_dest_shape as (D & ds & E & HD).
  unfold sd, pd. rewrite E. intros H. apply prefix_app_cancel in H.
  apply prefix_cons_inv in H as [-> _]. congruence.
Qed.

Lemma legacy_dest_not_in_src : ~ prefix pd sd.
Proof.
  destruct legacy_dest_shape as (D & ds & E & HD).
  unfold sd, pd. rewrite E. intros H. apply prefix_app_cancel in H.
  apply prefix_cons_inv in H as [-> _]. congruence.
Qed.

Lemma legacy_src_not_target x : ~ prefix sd (pd // x).
Proof.
  intros H. apply prefix_child_inv in H as [H | H].
  - now apply legacy_src_not_in_dest.
  - apply legacy_dest_not_in_src. rewrite H. apply prefix_app.
Qed.

Lemma legacy_target_not_above_src x : ~ above (pd // x) sd.
Proof.
  intros H. apply above_prefix in H. apply legacy_dest_not_in_src.
  eapply prefix_trans; [apply prefix_app | exact H].
Qed.

Lemma relocate_legacy_eq moves :
  OrganizeGui.relocate_legacy base (L, d) moves =
  (e <- Fs.exists_ sd ;;
   d0 <- Fs.is_dir sd ;;
   if negb e || negb d0 then ret moves
   else
     Fs.mkdir_parents pd ;;
     items <- Fs.iterdir sd ;;
     moves <- for_each items (OrganizeGui.relocate_item pd) moves ;;
     try_except (Fs.rmdir sd) (fun _ => ret tt) ;;
     ret moves).
Proof. reflexivity. Qed.

Lemma is_dir_exists t p : path_is_dir t p = true -> path_exists t p = true.
Proof.
  unfold path_is_dir, path_exists. destruct (lookup p t); [reflexivity | discriminate].
Qed.

Lemma listing_child_exists t p c :
  In c (listing t p) -> lookup (p // c) t <> None.
Proof.
  unfold listing. destruct (lookup p t) as [[x|es]|] eqn:E; try contradiction.
  intros Hin. rewrite (lookup_child p c t es E).
  destruct (in_keys_assoc c es Hin) as [v ->]. discriminate.
Qed.

Lemma run_iterdir p w es :
  refused w p = false ->
  lookup p (tree w) = Some (Dir es) ->
  run (Fs.iterdir p) w (Ok (map (fun c => p // c) (listing (tree w) p))) [] w.
Proof.
  intros Hacc H. apply run_unchanged. unfold Fs.iterdir, listing.
  rewrite Hacc, H. now rewrite map_map.
Qed.

(** Making the destination folder leaves the legacy folder as it was. *)
Lemma legacy_src_after_mkdirs mk t t' r n :
  mkdirs_under pd t mk -> exec mk t t' ->
  lookup (sd ++ r) t = Some n -> lookup (sd ++ r) t' = Some n.
Proof.
  intros Hmk X Hl. apply (exec_same mk t t' _ n X Hl).
  - intros e p Hin Hp. exfalso. eapply mkdirs_no_removed; eauto.
  - intros e p Hin Hp Ha. destruct (Hmk e Hin) as (q & -> & Hq & _).
    destruct Hp as [<-|[]]. apply above_prefix in Ha.
    apply legacy_src_not_in_dest.
    eapply prefix_trans; [apply prefix_app|].
    eapply prefix_trans; eauto.
Qed.

(** Once each child has been moved out, the legacy folder is empty. *)
Lemma legacy_src_drained mv t t' es :
  exec mv t t' ->
  lookup sd t = Some (Dir es) ->
  (forall e, In e mv -> exists c x, e = MoveEv (sd // c) (pd // x) false) ->
  (forall c, In c (map fst es) -> exists x, In (MoveEv (sd // c) (pd // x) false) mv) ->
  lookup sd t' = Some (Dir []).
Proof.
  intros X Hsd Hshape Hall.
  assert (Hcre : forall e p, In e mv -> In p (created e) ->
                 forall c, ~ prefix p (sd // c)).
  { intros e p Hin Hp c Hpre. destruct (Hshape e Hin) as (c0 & x & ->).
    destruct Hp as [<-|[]]. apply prefix_child_inv in Hpre as [Hpre | Hpre].
    - apply legacy_dest_not_in_src.
      eapply prefix_trans; [apply prefix_app | exact Hpre].
    - apply app_inj_tail in Hpre as [Hpre _].
      apply legacy_dest_not_in_src. rewrite Hpre. apply prefix_refl. }
  assert (Hdir : path_is_dir t' sd = true).
  { apply (exec_keeps_dir mv t t' sd X).
    - unfold path_is_dir. now rewrite Hsd.
    - intros e p Hin Hp Hpre. destruct (Hshape e Hin) as (c0 & x & ->).
      destruct Hp as [<-|[]]. destruct Hpre as [r Hr].
      apply (f_equal (@List.length string)) in Hr.
      rewrite !length_app in Hr. simpl in Hr. lia. }
  apply is_dir_iff_lookup in Hdir as [es' Hes'].
  destruct es' as [|[c n] es']; [exact Hes'|]. exfalso.
  assert (Hc : lookup (sd // c) t' = Some n).
  { rewrite (lookup_child sd c t' _ Hes'). simpl. now rewrite String.eqb_refl. }
  assert (Hnone : lookup (sd // c) t' = None); [|congruence].
  destruct (lookup (sd // c) t) as [n0|] eqn:E.
  - assert (Hin : In c (map fst es)).
    { rewrite (lookup_child sd c t es Hsd) in E.
      destruct (in_dec string_dec c (map fst es)) as [H | H]; [exact H|].
      apply assoc_none_iff in H. congruence. }
    destruct (Hall c Hin) as (x & Hmv).
    apply in_split in Hmv as (a & b & ->).
    apply exec_app_inv in X as (ta & _ & Xr).
    inversion Xr as [| ? ? ? tb ? He Xb]; subst.
    destruct (effect_moved _ _ _ _ _ [] He) as [_ Hgone].
    rewrite !app_nil_r in Hgone.
    apply (exec_none b _ _ _ Xb Hgone).
    intros e p Hin' Hp. apply (Hcre e p); [|exact Hp].
    apply in_or_app. right. now right.
  - apply (exec_none mv _ _ _ X E). intros e p Hin Hp. now apply (Hcre e p).
Qed.

(** A legacy folder whose path is refused stops the run. *)
Lemma relocate_legacy_refused moves w :
  refused w sd = true ->
  OrganizeGui.relocate_legacy base (L, d) moves w = (Raise (OSError sd), w).
Proof.
  intros H. rewrite relocate_legacy_eq. unfold bind.
  now rewrite (exists_refused _ _ H).
Qed.

(** One legacy folder. *)
Lemma relocate_legacy_run moves w :
  refused w sd = false ->
  exists o evs w',
    run (OrganizeGui.relocate_legacy base (L, d) moves) w o evs w' /\
    o <> Diverge /\
    (forall moves', o = Ok moves' -> moves' = moves ++ moves_of evs) /\
    (path_is_dir (tree w) sd = false -> o = Ok moves /\ evs = []) /\
    (path_is_dir (tree w) sd = true ->
     exists mk mv rm,
       evs = mk ++ mv ++ rm /\
       mkdirs_under pd (tree w) mk /\
       (forall e, In e mv ->
          exists c x, In c (listing (tree w) sd) /\
                      e = MoveEv (sd // c) (pd // x) false) /\
       (rm = [] \/
        (rm = [RmdirEv sd] /\ ~ In sd (locked w) /\
         map fst (moves_of mv) = map (fun c => sd // c) (listing (tree w) sd))) /\
       (forall moves', o = Ok moves' ->
          map fst (moves_of mv) = map (fun c => sd // c) (listing (tree w) sd)) /\
       (wf (tree w) = true -> forall moves', o = Ok moves' ->
        forall c, In c (listing (tree w) sd) ->
          exists x, In (MoveEv (sd // c) (pd // x) false) mv /\
                    lookup (pd // x) (tree w') = lookup (sd // c) (tree w)) /\
       (wf (tree w) = true -> forall moves', o = Ok moves' ->
        ~ In sd (locked w) -> rm = [RmdirEv sd]) /\
       (forall moves', o = Ok moves' -> path_is_dir (tree w') pd = true)) /\
    (wf (tree w) = true ->
     (forall q, prefix q pd -> path_is_file (tree w) q = false) ->
     (exists moves', o = Ok moves') \/ refusal o).
Proof.
  intros Hacc. rewrite relocate_legacy_eq.
  pose proof (run_exists sd w Hacc) as Re.
  pose proof (run_is_dir sd w Hacc) as Rd.
  destruct (path_is_dir (tree w) sd) eqn:Ed.
  2:{ exists (Ok moves), [], w. split.
      - apply (run_bind _ _ _ _ _ _ _ _ _ Re).
        apply (run_bind _ _ _ _ _ _ _ _ _ Rd).
        rewrite orb_true_r. apply run_ret.
      - split; [discriminate|]. split; [intros m [= <-]; now rewrite app_nil_r|].
        split; [auto|]. split; [discriminate | left; eauto]. }
  assert (Hrun : forall o evs w',
    run (Fs.mkdir_parents pd ;;
         items <- Fs.iterdir sd ;;
         moves <- for_each items (OrganizeGui.relocate_item pd) moves ;;
         try_except (Fs.rmdir sd) (fun _ => ret tt) ;;
         ret moves) w o evs w' ->
    run (e <- Fs.exists_ sd ;;
         d0 <- Fs.is_dir sd ;;
         if negb e || negb d0 then ret moves
         else
           Fs.mkdir_parents pd ;;
           items <- Fs.iterdir sd ;;
           moves <- for_each items (OrganizeGui.relocate_item pd) moves ;;
           try_except (Fs.rmdir sd) (fun _ => ret tt) ;;
           ret moves) w o evs w').
  { intros o evs w' R.
    apply (run_bind _ _ _ _ _ _ _ _ _ Re).
    apply (run_bind _ _ _ _ _ _ _ _ _ Rd).
    now rewrite (is_dir_exists _ _ Ed). }
  apply is_dir_iff_lookup in Ed as [es Hsd].
  destruct (mkdir_parents_run pd w)
    as (o1 & e1 & w1 & R1 & Hev1 & Hd1 & Hok1 & Hsucc1).
  pose proof (run_keeps_refused _ _ _ _ _ (honest_mkdir_parents _) R1) as Hk1.
  destruct o1 as [[]|ex|]; [| |contradiction].
  2:{ exists (Raise ex), e1, w1. split; [apply Hrun; now apply run_bind_raise|].
      split; [discriminate|]. split; [discriminate|]. split; [discriminate|].
      split.
      - intros _. exists e1, [], []. rewrite app_nil_r.
        split; [reflexivity|]. split; [exact Hev1|]. split; [intros e []|].
        split; [now left|]. split; [|split; [|split]]; discriminate.
      - intros _ Hnf. destruct (Hsucc1 Hnf) as [Hs | Hs];
          [discriminate | right; exact (refusal_raise _ Hs)]. }
  specialize (Hok1 eq_refl).
  assert (Hacc1 : refused w1 sd = false) by now rewrite Hk1.
  pose proof R1 as (_ & _ & Hl1 & X1).
  assert (Hsd1 : lookup sd (tree w1) = Some (Dir es)).
  { pose proof (legacy_src_after_mkdirs e1 _ _ [] (Dir es) Hev1 X1) as H.
    rewrite !app_nil_r in H. now apply H. }
  assert (Hlist : listing (tree w1) sd = listing (tree w) sd).
  { unfold listing. now rewrite Hsd, Hsd1. }
  pose proof (run_iterdir sd w1 es Hacc1 Hsd1) as Ri. rewrite Hlist in Ri.
  destruct (relocate_items_run pd sd (listing (tree w) sd) moves w1)
    as (o2 & e2 & w2 & R2 & Hd2 & Hev2 & Hlog2 & Hrest2).
  assert (Hacc2 : refused w2 sd = false).
  { rewrite (run_keeps_refused _ _ _ _ _
               (honest_for_each _ _ (honest_relocate_item pd) moves) R2).
    exact Hacc1. }
  assert (Hz : moves_of e1 = []).
  { clear -Hev1. induction e1 as [|e mk IH]; [reflexivity|].
    simpl. destruct (Hev1 e (or_introl eq_refl)) as (q & -> & _).
    simpl. apply IH. intros e' Hin. apply Hev1. now right. }
  assert (Hex1 : forall c, In c (listing (tree w) sd) ->
                   lookup (sd // c) (tree w1) <> None).
  { intros c Hc. apply listing_child_exists. now rewrite Hlist. }
  assert (Hsame : forall c, In c (listing (tree w) sd) ->
                    lookup (sd // c) (tree w1) = lookup (sd // c) (tree w)).
  { intros c Hc.
    destruct (lookup (sd // c) (tree w)) as [n|] eqn:E;
      [|exfalso; now apply (listing_child_exists _ _ _ Hc)].
    now apply (legacy_src_after_mkdirs e1 _ _ [c] n Hev1 X1). }
  destruct o2 as [m2|ex|]; [| |contradiction].
  2:{ exists (Raise ex), (e1 ++ e2), w2. split.
      - apply Hrun. apply (run_bind _ _ _ _ _ _ _ _ _ R1).
        rewrite <- (app_nil_l e2).
        apply (run_bind _ _ _ _ _ _ _ _ _ Ri). now apply run_bind_raise.
      - split; [discriminate|]. split; [discriminate|]. split; [discriminate|].
        split.
        + intros _. exists e1, e2, []. rewrite app_nil_r.
          split; [reflexivity|]. split; [exact Hev1|]. split; [exact Hev2|].
          split; [now left|]. split; [|split; [|split]]; discriminate.
        + intros Hwf Hnf.
          destruct (Hrest2 (wf_listing_nodup _ sd Hwf) legacy_src_not_in_dest Hex1)
            as [Hs _].
          destruct (Hs Hok1) as [[m Hm] | Href];
            [discriminate | right; exact Href]. }
  destruct (Hlog2 m2 eq_refl) as [-> Hsrcs].
  destruct (try_rmdir_run sd w2 Hacc2) as (e3 & w3 & R3 & Hcase3).
  pose proof R2 as (_ & _ & Hl2 & X2).
  exists (Ok (moves ++ moves_of e2)), (e1 ++ e2 ++ e3), w3. split.
  { apply Hrun. apply (run_bind _ _ _ _ _ _ _ _ _ R1).
    rewrite <- (app_nil_l (e2 ++ e3)).
    apply (run_bind _ _ _ _ _ _ _ _ _ Ri).
    apply (run_bind _ _ _ _ _ _ _ _ _ R2).
    rewrite <- (app_nil_r e3).
    apply (run_bind _ _ _ _ _ _ _ _ _ R3). apply run_ret. }
  split; [discriminate|]. split.
  { intros m [= <-]. rewrite !moves_of_app, Hz. simpl.
    destruct Hcase3 as [[-> _] | (-> & _)]; simpl; now rewrite ?app_nil_r. }
  split; [discriminate|]. split.
  - intros _. exists e1, e2, e3. split; [reflexivity|]. split; [exact Hev1|].
    split; [exact Hev2|]. split; [|split; [|split; [|split]]].
    + destruct Hcase3 as [[-> Hnl] | (-> & _)]; [right | now left].
      split; [reflexivity|]. split; [|exact Hsrcs].
      now rewrite <- Hl1, <- Hl2.
    + intros _ _. exact Hsrcs.
    + intros Hwf m _ c Hc.
      destruct (Hrest2 (wf_listing_nodup _ sd Hwf) legacy_src_not_in_dest Hex1)
        as [_ Hf].
      destruct (Hf legacy_dest_not_in_src _ eq_refl c Hc) as (x & Hin & Hlk).
      exists x. split; [exact Hin|].
      rewrite <- (Hsame c Hc), <- Hlk.
      destruct (lookup (pd // x) (tree w2)) as [n|] eqn:E.
      2:{ exfalso. apply (Hex1 c Hc). now rewrite <- Hlk. }
      destruct R3 as (_ & _ & _ & X3).
      apply (exec_same e3 _ _ _ n X3 E).
      * intros e p Hin3 Hp.
        destruct Hcase3 as [[-> _] | (-> & _)]; [|destruct Hin3].
        destruct Hin3 as [<-|[]]. destruct Hp as [<-|[]].
        apply legacy_src_not_target.
      * intros e p Hin3 Hp.
        destruct Hcase3 as [[-> _] | (-> & _)]; [|destruct Hin3].
        destruct Hin3 as [<-|[]]. destruct Hp as [<-|[]].
        apply legacy_target_not_above_src.
    + intros Hwf m _ Hnl.
      destruct Hcase3 as [[-> _] | (_ & _ & [Hne | [Hlk | Hroot]])];
        [reflexivity | exfalso ..].
      * apply Hne. apply (legacy_src_drained e2 (tree w1) (tree w2) es X2 Hsd1).
        -- intros e Hin. destruct (Hev2 e Hin) as (c & x & _ & ->). eauto.
        -- intros c Hc.
           destruct (Hrest2 (wf_listing_nodup _ sd Hwf) legacy_src_not_in_dest Hex1)
             as [_ Hf].
           assert (Hc' : In c (listing (tree w) sd))
             by (unfold listing; now rewrite Hsd).
           destruct (Hf legacy_dest_not_in_src _ eq_refl c Hc') as (x & Hin & _).
           eauto.
      * apply Hnl. now rewrite Hl2, Hl1 in Hlk.
      * unfold sd in Hroot. now destruct base.
    + intros m _. destruct R3 as (_ & _ & _ & X3).
      apply (exec_keeps_dir (e2 ++ e3) (tree w1) (tree w3) pd
               (exec_app _ _ _ _ _ X2 X3) Hok1).
      intros e p Hin Hp Hpre. apply legacy_src_not_in_dest.
      apply in_app_or in Hin as [Hin | Hin].
      * destruct (Hev2 e Hin) as (c & x & _ & ->). destruct Hp as [<-|[]].
        eapply prefix_trans; [apply prefix_app | exact Hpre].
      * destruct Hcase3 as [[-> _] | (-> & _)]; [|destruct Hin].
        destruct Hin as [<-|[]]. now destruct Hp as [<-|[]].
  - left. eauto.
Qed.

End OneLegacyFolder.

Section Frames.

Import Tree.

Lemma exec_quiet evs t t' q n :
  exec evs t t' -> lookup q t = Some n ->
  (forall e, In e evs -> quiet q e) ->
  lookup q t' = Some n.
Proof.
  intros X Hq Hqu. apply (exec_same evs t t' q n X Hq).
  - intros e p Hin. now apply (Hqu e Hin).
  - intros e p Hin. now apply (Hqu e Hin).
Qed.

Lemma above_child_inv (q p : Path) (k : string) :
  above q (p // k) -> prefix q p.
Proof.
  intros (c & r & E). revert E. pattern r. apply rev_ind; clear r.
  - intros E. change (q ++ [c]) with (q // c) in E.
    apply app_inj_tail in E as [-> _]. apply prefix_refl.
  - intros a r _ E. rewrite app_comm_cons, app_assoc in E.
    apply app_inj_tail in E as [-> _]. apply prefix_app.
Qed.

Lemma prefix_dest_head base D q d :
  In d Dest.all -> prefix (base // D) q -> prefix q (base ++ d) ->
  In D Dest.roots.
Proof.
  intros Hd H1 H2. destruct (dest_all_head d Hd) as (D' & ds & -> & HD').
  pose proof (prefix_trans _ _ _ H1 H2) as H.
  apply prefix_app_cancel in H. now apply prefix_cons_inv in H as [-> _].
Qed.

Lemma prefix_into_dest base D d x :
  In d Dest.all -> prefix (base // D) ((base ++ d) // x) -> In D Dest.roots.
Proof.
  intros Hd H. destruct (dest_all_head d Hd) as (D' & ds & -> & HD').
  now rewrite (prefix_top _ _ _ _ _ H).
Qed.

Lemma target_not_under_top base d x D r :
  In d Dest.all -> ~ In D Dest.roots ->
  ~ prefix ((base ++ d) // x) (base ++ D :: r).
Proof.
  intros Hd HD H. destruct (dest_all_head d Hd) as (D' & ds & -> & HD').
  rewrite <- app_assoc in H. apply prefix_app_cancel in H. simpl in H.
  apply prefix_cons_inv in H as [-> _]. contradiction.
Qed.

Lemma target_not_in_dest base d d' x :
  In d Dest.all -> In d' Dest.all -> ~ prefix ((base ++ d) // x) (base ++ d').
Proof.
  intros Hd Hd' H. rewrite <- app_assoc in H. apply prefix_app_cancel in H.
  now apply (dest_all_antichain d' d x).
Qed.

(** The first pass leaves alone every top-level directory it does not
    fill. *)
Lemma top_event_quiet base t ns e D :
  top_event base t ns e ->
  ~ In D Dest.roots -> path_is_dir t (base // D) = true ->
  quiet (base // D) e.
Proof.
  intros He HD Hdir.
  destruct He as [(q & d & -> & Hd & Hq) | (n & x & Hn & Hnd & ->)].
  - split.
    + intros p [].
    + intros p [<-|[]] Ha. apply above_prefix in Ha.
      apply HD. now apply (prefix_dest_head base D q d).
  - split.
    + intros p [<-|[]] Hp. apply prefix_app_cancel in Hp.
      apply prefix_cons_inv in Hp as [-> _]. congruence.
    + intros p [<-|[<-|[]]] Ha.
      * now apply not_above_same_dir in Ha.
      * apply above_prefix in Ha. apply HD.
        apply (prefix_into_dest base D _ x (dest_root_in n) Ha).
Qed.

Section LegacyTable.

Variables (base : Path) (tbl : list (string * string)).

Hypothesis Htbl :
  forall L d, In (L, d) tbl ->
    In (PurePath.of_string d) Dest.all /\ ~ In L Dest.roots.

(** The migration leaves alone every top-level directory that is neither
    a legacy folder nor one it fills. *)
Lemma legacy_event_quiet_dir e D :
  legacy_event base tbl e ->
  ~ In D Dest.roots -> ~ In D (map fst tbl) ->
  quiet (base // D) e.
Proof.
  intros He HD HDt.
  assert (HneL : forall L d, In (L, d) tbl -> D <> L).
  { intros L d Hin ->. apply HDt. apply (in_map fst) in Hin. exact Hin. }
  destruct He as [(q & d & -> & Hd & Hq)
                 | [(L & d & c & x & Hin & ->) | (L & d & Hin & ->)]].
  - split.
    + intros p [].
    + intros p [<-|[]] Ha. apply above_prefix in Ha.
      apply HD. now apply (prefix_dest_head base D q d).
  - destruct (Htbl L d Hin) as [Hd HL]. split.
    + intros p [<-|[]] Hp. rewrite <- app_assoc in Hp.
      apply prefix_app_cancel in Hp. simpl in Hp.
      apply prefix_cons_inv in Hp as [_ Hp]. apply prefix_of_nil in Hp.
      discriminate.
    + intros p [<-|[<-|[]]] Ha; apply above_prefix in Ha.
      * rewrite <- app_assoc in Ha. apply prefix_app_cancel in Ha. simpl in Ha.
        apply prefix_cons_inv in Ha as [E _]. exact (HneL L d Hin E).
      * apply HD. apply (prefix_into_dest base D _ x Hd Ha).
  - split.
    + intros p [<-|[]] Hp. apply prefix_app_cancel in Hp.
      apply prefix_cons_inv in Hp as [E _]. symmetry in E.
      exact (HneL L d Hin E).
    + intros p [<-|[]] Ha. now apply not_above_same_dir in Ha.
Qed.

(** The migration leaves alone what already sits in a destination
    folder. *)
Lemma legacy_event_quiet_target e dd x :
  legacy_event base tbl e ->
  In dd Dest.all ->
  quiet ((base ++ dd) // x) e.
Proof.
  intros He Hdd.
  destruct He as [(q & d & -> & Hd & Hq)
                 | [(L & d & c & x' & Hin & ->) | (L & d & Hin & ->)]].
  - split.
    + intros p [].
    + intros p [<-|[]] Ha. apply above_prefix in Ha.
      apply (target_not_in_dest base dd d x Hdd Hd).
      eapply prefix_trans; eauto.
  - destruct (Htbl L d Hin) as [Hd HL]. split.
    + intros p [<-|[]] Hp. apply HL.
      apply (prefix_into_dest base L dd x Hdd).
      eapply prefix_trans; [apply prefix_app | exact Hp].
    + intros p [<-|[<-|[]]] Ha.
      * apply above_prefix in Ha.
        apply (target_not_under_top base dd x L [c] Hdd HL).
        rewrite <- (app_assoc base [L] [c]) in Ha. exact Ha.
      * apply above_child_inv in Ha.
        now apply (target_not_in_dest base dd _ x Hdd Hd).
  - destruct (Htbl L d Hin) as [Hd HL]. split.
    + intros p [<-|[]] Hp. apply HL.
      apply (prefix_into_dest base L dd x Hdd Hp).
    + intros p [<-|[]] Ha. apply above_prefix in Ha.
      now apply (target_not_under_top base dd x L [] Hdd HL).
Qed.

End LegacyTable.

End Frames.

Section Drained.

Lemma drained_app ch seen a b :
  drained_before_removal ch seen (a ++ b) <->
  drained_before_removal ch seen a /\ drained_before_removal ch (seen ++ a) b.
Proof.
  revert seen. induction a as [|e a IH]; intros seen; simpl.
  - rewrite app_nil_r. tauto.
  - rewrite IH, <- app_assoc. simpl. tauto.
Qed.

Lemma drained_no_rmdir ch seen evs :
  (forall e p, In e evs -> e <> RmdirEv p) ->
  drained_before_removal ch seen evs.
Proof.
  revert seen. induction evs as [|e evs IH]; intros seen H; simpl; [exact I|].
  split.
  - destruct e; try exact I. exfalso. apply (H (RmdirEv p) p); [now left | reflexivity].
  - apply IH. intros e' p Hin. apply H. now right.
Qed.

Lemma drained_children ch ch' seen evs :
  (forall p, In (RmdirEv p) evs -> incl (ch p) (ch' p)) ->
  drained_before_removal ch' seen evs ->
  drained_before_removal ch seen evs.
Proof.
  revert seen. induction evs as [|e evs IH]; intros seen Hi; simpl; [tauto|].
  intros [H1 H2]. split.
  - destruct e; try exact I. intros c Hc. apply H1. apply (Hi p); [now left | exact Hc].
  - apply IH; [|exact H2]. intros p Hin. apply Hi. now right.
Qed.

(** Read as a statement about positions in the trace. *)
Lemma drained_split ch seen evs e1 p e2 :
  drained_before_removal ch seen evs ->
  evs = e1 ++ RmdirEv p :: e2 ->
  forall c, In c (ch p) -> exists dst, In (MoveEv (p // c) dst false) (seen ++ e1).
Proof.
  intros H ->. apply drained_app in H as [_ H]. simpl in H. now destruct H.
Qed.

End Drained.

Section LegacyLoop.

Import Tree.

Lemma moves_of_in src dst evs :
  In (src, dst) (moves_of evs) -> exists b, In (MoveEv src dst b) evs.
Proof.
  unfold moves_of. rewrite in_flat_map. intros (e & Hin & He).
  destruct e; try contradiction. destruct He as [[= <- <-]|[]]. eauto.
Qed.

(** One legacy folder, digested. *)
Lemma relocate_legacy_step base L d moves w :
  In (PurePath.of_string d) Dest.all -> ~ In L Dest.roots ->
  exists o e1 w1,
    run (OrganizeGui.relocate_legacy base (L, d) moves) w o e1 w1 /\
    o <> Diverge /\
    (forall e, In e e1 ->
       legacy_event base [(L, d)] e /\
       forall p, e = RmdirEv p -> ~ In p (locked w)) /\
    (forall m1, o = Ok m1 -> m1 = moves ++ moves_of e1) /\
    (forall seen, drained_before_removal (listing (tree w)) seen e1) /\
    (wf (tree w) = true -> forall m1, o = Ok m1 ->
     forall c, In c (listing (tree w) (base // L)) ->
       exists x,
         In (MoveEv (base // L // c) ((base ++ PurePath.of_string d) // x) false) e1 /\
         lookup ((base ++ PurePath.of_string d) // x) (tree w1)
         = lookup (base // L // c) (tree w)) /\
    (wf (tree w) = true -> forall m1, o = Ok m1 ->
     path_is_dir (tree w) (base // L) = true -> ~ In (base // L) (locked w) ->
     In (RmdirEv (base // L)) e1) /\
    (wf (tree w) = true ->
     (forall q, prefix q (base ++ PurePath.of_string d) ->
                path_is_file (tree w) q = false) ->
     (exists m1, o = Ok m1) \/ refusal o).
Proof.
  intros Hdest Hname.
  destruct (refused w (base // L)) eqn:Hacc.
  { exists (Raise (OSError (base // L))), [], w.
    split; [apply run_unchanged; now apply relocate_legacy_refused|].
    split; [discriminate|]. split; [intros e []|]. split; [discriminate|].
    split; [intros; exact I|]. split; [discriminate|]. split; [discriminate|].
    intros _ _. right. now eexists. }
  destruct (relocate_legacy_run base L d Hdest Hname moves w Hacc)
    as (o & e1 & w1 & R & Hd & Hlog & Hnodir & Hdir & Hsucc).
  exists o, e1, w1. split; [exact R|]. split; [exact Hd|].
  destruct (path_is_dir (tree w) (base // L)) eqn:Ed.
  2:{ destruct (Hnodir eq_refl) as [-> ->].
      split; [intros e []|]. split; [exact Hlog|]. split; [intros; exact I|].
      split; [|split; [discriminate | exact Hsucc]].
      intros _ m1 _ c Hc. exfalso. unfold listing in Hc. unfold path_is_dir in Ed.
      destruct (lookup (base // L) (tree w)) as [[x|es]|]; try contradiction.
      discriminate. }
  destruct (Hdir eq_refl)
    as (mk & mv & rm & -> & Hmk & Hmv & Hrm & Hsrcs & Hfin & Hgone & _).
  assert (Hmvin : forall c, In c (listing (tree w) (base // L)) ->
            map fst (moves_of mv)
            = map (fun c => base // L // c) (listing (tree w) (base // L)) ->
            exists dst, In (MoveEv (base // L // c) dst false) mv).
  { intros c Hc Hs.
    assert (Hin : In (base // L // c) (map fst (moves_of mv))).
    { rewrite Hs. apply in_map_iff. eauto. }
    apply in_map_iff in Hin as ([src dst] & E & Hin). simpl in E. subst src.
    apply moves_of_in in Hin as [b Hin].
    destruct (Hmv _ Hin) as (c' & x' & _ & E). injection E as _ -> ->. eauto. }
  split; [|split; [exact Hlog|split; [|split; [|split; [|exact Hsucc]]]]].
  - intros e Hin. apply in_app_or in Hin as [Hin | Hin];
      [|apply in_app_or in Hin as [Hin | Hin]].
    + destruct (Hmk e Hin) as (q & -> & Hq & _).
      split; [left; eauto | discriminate].
    + destruct (Hmv e Hin) as (c & x & _ & ->).
      split; [|discriminate]. right. left.
      exists L, d, c, x. split; [now left | reflexivity].
    + destruct Hrm as [-> | (-> & Hnl & _)]; [destruct Hin|].
      destruct Hin as [<-|[]]. split; [|now intros p [= <-]].
      right. right. exists L, d. split; [now left | reflexivity].
  - intros seen. apply drained_app. split.
    + apply drained_no_rmdir. intros e p Hin ->.
      destruct (Hmk _ Hin) as (q & [=] & _).
    + apply drained_app. split.
      * apply drained_no_rmdir. intros e p Hin ->.
        destruct (Hmv _ Hin) as (c & x & _ & [=]).
      * destruct Hrm as [-> | (-> & _ & Hs)]; simpl; [exact I|].
        split; [|exact I]. intros c Hc.
        destruct (Hmvin c Hc Hs) as [dst Hin].
        exists dst. apply in_or_app. now right.
  - intros Hwf m1 Ho c Hc.
    destruct (Hfin Hwf m1 Ho c Hc) as (x & Hin & Hlk).
    exists x. split; [|exact Hlk].
    apply in_or_app. right. apply in_or_app. now left.
  - intros Hwf m1 Ho _ Hnl. rewrite (Hgone Hwf m1 Ho Hnl).
    apply in_or_app. right. apply in_or_app. right. now left.
Qed.

Section Table.

Variable base : Path.

Lemma legacy_event_mono tbl tbl' e :
  incl tbl tbl' -> legacy_event base tbl e -> legacy_event base tbl' e.
Proof.
  intros Hi [H | [(L & d & c & x & Hin & ->) | (L & d & Hin & ->)]].
  - now left.
  - right. left. exists L, d, c, x. auto.
  - right. right. exists L, d. auto.
Qed.

Lemma legacy_event_target tbl e p :
  (forall L d, In (L, d) tbl -> In (PurePath.of_string d) Dest.all) ->
  legacy_event base tbl e -> In p (move_targets e) ->
  exists d x, In d Dest.all /\ p = (base ++ d) // x.
Proof.
  intros Htbl [(q & d & -> & _) | [(L & d & c & x & Hin & ->) | (L & d & Hin & ->)]].
  - intros [].
  - intros [<-|[]]. exists (PurePath.of_string d), x. split; [eauto | reflexivity].
  - intros [].
Qed.

(** A legacy folder other than the one being migrated keeps its content. *)
Lemma other_legacy_kept L d L' e1 t t1 n :
  In (PurePath.of_string d) Dest.all -> ~ In L Dest.roots ->
  ~ In L' Dest.roots -> L' <> L ->
  (forall e, In e e1 -> legacy_event base [(L, d)] e) ->
  exec e1 t t1 ->
  lookup (base // L') t = Some n -> lookup (base // L') t1 = Some n.
Proof.
  intros Hd HL HL' Hne Hev X Hl.
  apply (exec_quiet e1 t t1 _ n X Hl).
  intros e Hin. apply (legacy_event_quiet_dir base [(L, d)]); auto.
  - intros L0 d0 [[= <- <-]|[]]. auto.
  - simpl. intros [E|[]]. congruence.
Qed.

Lemma listing_eq_of_lookup t t' p :
  lookup p t' = lookup p t -> listing t' p = listing t p.
Proof. unfold listing. now intros ->. Qed.

(** The loop over the legacy table. *)
Lemma relocate_legacy_folders_run tbl :
  (forall L d, In (L, d) tbl ->
     In (PurePath.of_string d) Dest.all /\ ~ In L Dest.roots) ->
  forall moves w,
  exists o evs w',
    run (for_each tbl (OrganizeGui.relocate_legacy base) moves) w o evs w' /\
    o <> Diverge /\
    (forall e, In e evs ->
       legacy_event base tbl e /\
       forall p, e = RmdirEv p -> ~ In p (locked w)) /\
    (forall moves', o = Ok moves' -> moves' = moves ++ moves_of evs) /\
    (NoDup (map fst tbl) ->
     (forall seen, drained_before_removal (listing (tree w)) seen evs) /\
     (wf (tree w) = true -> forall moves', o = Ok moves' ->
      forall L d c, In (L, d) tbl -> In c (listing (tree w) (base // L)) ->
        exists x,
          In (MoveEv (base // L // c) ((base ++ PurePath.of_string d) // x) false) evs /\
          lookup ((base ++ PurePath.of_string d) // x) (tree w')
          = lookup (base // L // c) (tree w)) /\
     (wf (tree w) = true -> forall moves', o = Ok moves' ->
      forall L d, In (L, d) tbl ->
        path_is_dir (tree w) (base // L) = true -> ~ In (base // L) (locked w) ->
        In (RmdirEv (base // L)) evs)) /\
    (wf (tree w) = true -> Dest.clear base (tree w) ->
     (exists moves', o = Ok moves') \/ refusal o).
Proof.
  induction tbl as [|[L d] tbl IH]; intros Htbl moves w.
  - exists (Ok moves), [], w. split; [apply run_ret|]. split; [discriminate|].
    split; [intros e []|]. split; [intros m [= <-]; now rewrite app_nil_r|].
    split; [|left; eauto]. intros _. split; [intros; exact I|].
    split; [intros _ m _ L d c [] | intros _ m _ L d []].
  - destruct (Htbl L d (or_introl eq_refl)) as [Hd HL].
    assert (Htbl' : forall L0 d0, In (L0, d0) tbl ->
              In (PurePath.of_string d0) Dest.all /\ ~ In L0 Dest.roots).
    { intros L0 d0 Hin. apply Htbl. now right. }
    destruct (relocate_legacy_step base L d moves w Hd HL)
      as (o1 & e1 & w1 & R1 & Hd1 & Hev1l & Hlog1 & Hdr1 & Hfin1 & Hgone1 & Hsucc1).
    assert (Hev1 : forall e, In e e1 -> legacy_event base [(L, d)] e)
      by (intros e Hin; now apply Hev1l).
    assert (Hev1' : forall e, In e e1 ->
              legacy_event base ((L, d) :: tbl) e /\
              forall p, e = RmdirEv p -> ~ In p (locked w)).
    { intros e Hin. split; [|now apply Hev1l].
      apply (legacy_event_mono [(L, d)]); auto.
      intros a [<-|[]]. now left. }
    destruct o1 as [m1|ex|]; [| |contradiction].
    2:{ exists (Raise ex), e1, w1.
        split; [rewrite for_each_cons; now apply run_bind_raise|].
        split; [discriminate|]. split; [exact Hev1'|]. split; [discriminate|].
        split.
        - intros _. split; [exact Hdr1 | split; discriminate].
        - intros Hwf Hcl.
          destruct (Hsucc1 Hwf) as [[m Hm] | Href];
            [intros q Hq; now apply (Hcl (PurePath.of_string d) q)
            | discriminate | right; exact Href]. }
    pose proof (Hlog1 m1 eq_refl) as Em. subst m1.
    destruct (IH Htbl' (moves ++ moves_of e1) w1)
      as (o2 & e2 & w2 & R2 & Hd2 & Hev2l & Hlog2 & Hrest2 & Hsucc2).
    assert (Hev2 : forall e, In e e2 -> legacy_event base tbl e)
      by (intros e Hin; now apply Hev2l).
    pose proof R1 as (_ & _ & Hl1 & X1). pose proof R2 as (_ & _ & _ & X2).
    exists o2, (e1 ++ e2), w2.
    split; [rewrite for_each_cons; eapply run_bind; eauto|].
    split; [exact Hd2|]. split; [|split; [|split]].
    + intros e Hin. apply in_app_or in Hin as [Hin | Hin]; [auto|].
      split; [|rewrite <- Hl1; now apply Hev2l].
      apply (legacy_event_mono tbl); auto. intros a Ha. now right.
    + intros moves' Ho. rewrite (Hlog2 moves' Ho), moves_of_app.
      now rewrite app_assoc.
    + intros Hnd. simpl in Hnd. inversion Hnd as [|? ? HLn Hnd']; subst.
      destruct (Hrest2 Hnd') as (Hdr2 & Hfin2 & Hgone2).
      assert (Hkept : forall L' d' n, In (L', d') tbl ->
                lookup (base // L') (tree w) = Some n ->
                lookup (base // L') (tree w1) = Some n).
      { intros L' d' n Hin Hl.
        apply (other_legacy_kept L d L' e1 (tree w)); auto.
        - now apply (Htbl' L' d').
        - intros ->. apply HLn. apply (in_map fst) in Hin. exact Hin. }
      split; [|split].
      * intros seen. apply drained_app. split; [apply Hdr1|].
        apply (drained_children _ (listing (tree w1))); [|apply Hdr2].
        intros p Hin.
        destruct (Hev2 _ Hin) as [(q & d0 & [=] & _)
                                 | [(L' & d' & c & x & _ & [=]) | (L' & d' & Hin' & [= ->])]].
        destruct (lookup (base // L') (tree w)) as [n|] eqn:E.
        -- rewrite (listing_eq_of_lookup (tree w) (tree w1) (base // L'));
             [apply incl_refl|].
           rewrite E. eapply Hkept; eauto.
        -- unfold listing at 1. rewrite E. intros a [].
      * intros Hwf moves' Ho L0 d0 c [[= <- <-] | Hin0] Hc.
        -- destruct (Hfin1 Hwf _ eq_refl c Hc) as (x & Hin & Hlk).
           exists x. split; [apply in_or_app; now left|].
           destruct (lookup (base // L // c) (tree w)) as [n|] eqn:E;
             [|exfalso; now apply (listing_child_exists _ _ _ Hc)].
           apply (exec_quiet e2 _ _ _ n X2 Hlk).
           intros e He. apply (legacy_event_quiet_target base tbl Htbl'); auto.
        -- assert (Hl0 : lookup (base // L0) (tree w1) = lookup (base // L0) (tree w)).
           { destruct (lookup (base // L0) (tree w)) as [n|] eqn:E;
               [eapply Hkept; eauto|].
             exfalso. unfold listing in Hc. rewrite E in Hc. contradiction. }
           rewrite <- (listing_eq_of_lookup _ _ _ Hl0) in Hc.
           destruct (Hfin2 (exec_wf _ _ _ X1 Hwf) moves' Ho L0 d0 c Hin0 Hc)
             as (x & Hin & Hlk).
           exists x. split; [apply in_or_app; now right|].
           rewrite Hlk, !(lookup_app (base // L0) [c]). now rewrite Hl0.
      * intros Hwf moves' Ho L0 d0 [[= <- <-] | Hin0] Hdir0 Hnl0;
          apply in_or_app; [left; now apply (Hgone1 Hwf _ eq_refl)|right].
        apply (Hgone2 (exec_wf _ _ _ X1 Hwf) moves' Ho L0 d0 Hin0);
          [|now rewrite Hl1].
        apply is_dir_iff_lookup in Hdir0 as [n Hn].
        apply is_dir_iff_lookup. exists n. eapply Hkept; eauto.
    + intros Hwf Hcl. apply Hsucc2; [now apply (exec_wf _ _ _ X1)|].
      apply (clear_kept base e1 (tree w)); auto.
      intros e p Hin Hp. apply (legacy_event_target [(L, d)] e p); auto.
      intros L0 d0 [[= <- <-]|[]]. exact Hd.
Qed.

End Table.

End LegacyLoop.

(** * Part XI: the whole run *)

Section WholeRun.

Import Tree.


Lemma legacy_names_nodup : NoDup (map fst OrganizeGui.LEGACY_FOLDER_REMAP).
Proof. apply nodupb_spec. reflexivity. Qed.

Lemma top_event_no_rmdir base t ns e p : top_event base t ns e -> e <> RmdirEv p.
Proof. intros [(q & d & -> & _) | (n & x & _ & _ & ->)]; discriminate. Qed.

(** The first pass. *)
Lemma organize_top_level_run base w :
  exists o e1 w1,
    run (OrganizeGui.organize_top_level base) w o e1 w1 /\
    o <> Diverge /\
    (forall e, In e e1 -> top_event base (tree w) (listing (tree w) base) e) /\
    (forall moves, o = Ok moves -> moves = moves_of e1) /\
    (path_is_dir (tree w) base = false -> exists ex, o = Raise ex /\ e1 = []) /\
    (wf (tree w) = true ->
     (forall moves, o = Ok moves ->
      forall n d, In n (listing (tree w) base) ->
        lookup (base // n) (tree w) = Some (File d) ->
        exists x,
          In (MoveEv (base // n) ((base ++ Dest.dest_root n) // x) false) e1 /\
          lookup ((base ++ Dest.dest_root n) // x) (tree w1) = Some (File d)) /\
     (path_is_dir (tree w) base = true -> Dest.clear base (tree w) ->
      (exists moves, o = Ok moves) \/ refusal o)).
Proof.
  unfold OrganizeGui.organize_top_level.
  destruct (refused w base) eqn:Hacc.
  { exists (Raise (OSError base)), [], w. split.
    - apply run_bind_raise. apply run_unchanged. unfold Fs.iterdir.
      now rewrite Hacc.
    - split; [discriminate|]. split; [intros e []|]. split; [discriminate|].
      split; [eauto|]. intros _. split; [discriminate|].
      intros _ _. right. now eexists. }
  destruct (lookup base (tree w)) as [[x|es]|] eqn:Hb.
  1,3: eexists (Raise _), [], w; split;
    [apply run_bind_raise; apply run_unchanged; unfold Fs.iterdir;
     rewrite Hacc, Hb; reflexivity|];
    split; [discriminate|]; split; [intros e []|]; split; [discriminate|];
    split; [eauto|]; intros _; split; [discriminate|];
    unfold path_is_dir; rewrite Hb; discriminate.
  pose proof (run_iterdir base w es Hacc Hb) as Ri.
  destruct (organize_entries_run base (listing (tree w) base) [] w)
    as (o & e1 & w1 & R & Hd & Hev & Hlog & Hrest).
  exists o, e1, w1. split.
  { rewrite <- (app_nil_l e1). eapply run_bind; eauto. }
  split; [exact Hd|]. split; [exact Hev|]. split; [exact Hlog|]. split.
  { unfold path_is_dir. rewrite Hb. discriminate. }
  intros Hwf. destruct (Hrest (wf_listing_nodup _ base Hwf)) as [Hmv Hsucc].
  split; [exact Hmv|]. intros _ Hcl. apply Hsucc; [|exact Hcl].
  intros n. apply listing_child_exists.
Qed.

(** The whole run: the first pass, then the migration. *)
Lemma organize_folder_run base w :
  exists o evs w' e1 e2,
    run (OrganizeGui.organize_folder base) w o evs w' /\
    o <> Diverge /\
    evs = e1 ++ e2 /\
    (forall e, In e e1 -> top_event base (tree w) (listing (tree w) base) e) /\
    (forall e, In e e2 ->
       legacy_event base OrganizeGui.LEGACY_FOLDER_REMAP e /\
       forall p, e = RmdirEv p -> ~ In p (locked w)) /\
    (forall moves, o = Ok moves -> moves = moves_of evs) /\
    (path_is_dir (tree w) base = false -> exists ex, o = Raise ex /\ evs = []) /\
    (forall seen, drained_before_removal (listing (tree w)) seen evs) /\
    (wf (tree w) = true ->
     (forall moves, o = Ok moves ->
      (forall n d, In n (listing (tree w) base) ->
         lookup (base // n) (tree w) = Some (File d) ->
         exists x,
           In (MoveEv (base // n) ((base ++ Dest.dest_root n) // x) false) e1 /\
           lookup ((base ++ Dest.dest_root n) // x) (tree w') = Some (File d)) /\
      (forall L d c, In (L, d) OrganizeGui.LEGACY_FOLDER_REMAP ->
         In c (listing (tree w) (base // L)) ->
         exists x,
           In (MoveEv (base // L // c) ((base ++ PurePath.of_string d) // x) false) e2 /\
           lookup ((base ++ PurePath.of_string d) // x) (tree w')
           = lookup (base // L // c) (tree w))) /\
     (path_is_dir (tree w) base = true -> Dest.clear base (tree w) ->
      (exists moves, o = Ok moves) \/ refusal o)) /\
    (wf (tree w) = true -> forall moves, o = Ok moves ->
     forall L d, In (L, d) OrganizeGui.LEGACY_FOLDER_REMAP ->
       path_is_dir (tree w) (base // L) = true -> ~ In (base // L) (locked w) ->
       In (RmdirEv (base // L)) e2).
Proof.
  unfold OrganizeGui.organize_folder.
  destruct (organize_top_level_run base w)
    as (o1 & e1 & w1 & R1 & Hd1 & Hev1 & Hlog1 & Hnodir1 & Hrest1).
  destruct o1 as [m1|ex|]; [| |contradiction].
  2:{ exists (Raise ex), e1, w1, e1, []. split; [now apply run_bind_raise|].
      split; [discriminate|]. split; [now rewrite app_nil_r|].
      split; [exact Hev1|]. split; [intros e []|]. split; [discriminate|].
      split; [exact Hnodir1|]. split; [|split; [|discriminate]].
      - intros seen. apply drained_no_rmdir. intros e p Hin.
        eapply top_event_no_rmdir; eauto.
      - intros Hwf. destruct (Hrest1 Hwf) as [_ Hsucc]. split; [discriminate|].
        intros Hb Hcl. destruct (Hsucc Hb Hcl) as [[m Hm] | Href];
          [discriminate | right; exact Href]. }
  pose proof (Hlog1 m1 eq_refl) as Em. subst m1.
  destruct (relocate_legacy_folders_run base OrganizeGui.LEGACY_FOLDER_REMAP
              legacy_dest (moves_of e1) w1)
    as (o2 & e2 & w2 & R2 & Hd2 & Hev2l & Hlog2 & Hrest2 & Hsucc2).
  assert (Hev2 : forall e, In e e2 ->
            legacy_event base OrganizeGui.LEGACY_FOLDER_REMAP e)
    by (intros e Hin; now apply Hev2l).
  pose proof R1 as (_ & _ & Hl1 & X1). pose proof R2 as (_ & _ & _ & X2).
  destruct (Hrest2 legacy_names_nodup) as (Hdr2 & Hfin2 & Hgone2).
  assert (Hkept : forall L d n, In (L, d) OrganizeGui.LEGACY_FOLDER_REMAP ->
            lookup (base // L) (tree w) = Some (Dir n) ->
            lookup (base // L) (tree w1) = Some (Dir n)).
  { intros L d n Hin Hl. apply (exec_quiet e1 _ _ _ _ X1 Hl).
    intros e He. apply (top_event_quiet base (tree w) _ e L (Hev1 e He)).
    - now apply (legacy_dest L d).
    - unfold path_is_dir. now rewrite Hl. }
  assert (Hlist : forall L d, In (L, d) OrganizeGui.LEGACY_FOLDER_REMAP ->
            incl (listing (tree w) (base // L)) (listing (tree w1) (base // L)) /\
            (forall c, In c (listing (tree w) (base // L)) ->
               lookup (base // L // c) (tree w1) = lookup (base // L // c) (tree w))).
  { intros L d Hin.
    destruct (lookup (base // L) (tree w)) as [[x|es]|] eqn:E;
      try (unfold listing at 1 3; rewrite E; split; [intros a [] | intros c []]).
    pose proof (Hkept L d es Hin E) as E1. split.
    - unfold listing. rewrite E, E1. apply incl_refl.
    - intros c _. rewrite !(lookup_app (base // L) [c]). now rewrite E, E1. }
  exists o2, (e1 ++ e2), w2, e1, e2.
  split; [eapply run_bind; eauto|]. split; [exact Hd2|]. split; [reflexivity|].
  split; [exact Hev1|]. split.
  { intros e Hin. split; [now apply Hev2 | rewrite <- Hl1; now apply Hev2l]. }
  split.
  { intros moves Ho. rewrite (Hlog2 moves Ho). now rewrite moves_of_app. }
  split.
  { intros Hnd. destruct (Hnodir1 Hnd) as (ex & [=] & _). }
  split.
  { intros seen. apply drained_app. split.
    - apply drained_no_rmdir. intros e p Hin. eapply top_event_no_rmdir; eauto.
    - apply (drained_children _ (listing (tree w1))); [|apply Hdr2].
      intros p Hin.
      destruct (Hev2 _ Hin) as [(q & d0 & [=] & _)
                               | [(L' & d' & c & x & _ & [=]) | (L' & d' & Hin' & [= ->])]].
      now apply (Hlist L' d'). }
  split.
  2:{ intros Hwf moves Ho L d Hin Hdir Hnl.
      apply (Hgone2 (exec_wf _ _ _ X1 Hwf) moves Ho L d Hin); [|now rewrite Hl1].
      apply is_dir_iff_lookup in Hdir as [n Hn].
      apply is_dir_iff_lookup. exists n. eapply Hkept; eauto. }
  intros Hwf. destruct (Hrest1 Hwf) as [Hmv1 Hsucc1]. split.
  - intros moves Ho. split.
    + intros n d Hn Hl. destruct (Hmv1 _ eq_refl n d Hn Hl) as (x & Hin & Htg).
      exists x. split; [exact Hin|].
      apply (exec_quiet e2 _ _ _ _ X2 Htg).
      intros e He.
      apply (legacy_event_quiet_target base _ legacy_dest e _ x (Hev2 e He)).
      apply dest_root_in.
    + intros L d c Hin Hc. destruct (Hlist L d Hin) as [Hi Hsame].
      destruct (Hfin2 (exec_wf _ _ _ X1 Hwf) moves Ho L d c Hin (Hi c Hc))
        as (x & Hinx & Hlk).
      exists x. split; [exact Hinx|]. now rewrite Hlk, Hsame.
  - intros Hb Hcl. apply Hsucc2; [now apply (exec_wf _ _ _ X1)|].
    apply (clear_kept base e1 (tree w)); auto.
    intros e p Hin Hp. apply (top_event_target _ _ _ _ _ (Hev1 e Hin) Hp).
Qed.

End WholeRun.

(** * Part XII: classification *)

Section Classification.

Lemma first_category_first ext pre dest exts post :
  In ext exts ->
  (forall e, In e pre -> ~ In ext (snd e)) ->
  OrganizeGui.first_category ext (pre ++ (dest, exts) :: post)
  = Some (PurePath.of_string dest).
Proof.
  intros Hin Hpre. induction pre as [|[d0 e0] pre IH]; simpl.
  - apply mem_true_iff in Hin. now rewrite Hin.
  - destruct (PyStr.mem ext e0) eqn:E.
    + apply mem_true_iff in E. exfalso.
      apply (Hpre (d0, e0)); [now left | exact E].
    + apply IH. intros e He. apply Hpre. now right.
Qed.

Lemma first_category_none ext tbl :
  (forall e, In e tbl -> ~ In ext (snd e)) ->
  OrganizeGui.first_category ext tbl = None.
Proof.
  intros H. induction tbl as [|[d0 e0] tbl IH]; simpl; [reflexivity|].
  destruct (PyStr.mem ext e0) eqn:E.
  - apply mem_true_iff in E. exfalso. apply (H (d0, e0)); [now left | exact E].
  - apply IH. intros e He. apply H. now right.
Qed.

Lemma rfind_none_iff c s :
  PyStr.rfind c s = None <-> ~ In c (list_ascii_of_string s).
Proof.
  induction s as [|a s IH]; simpl; [tauto|].
  destruct (PyStr.rfind c s) as [i|].
  - split; [discriminate|]. intros H. exfalso. apply H. right.
    destruct (in_dec ascii_dec c (list_ascii_of_string s)) as [Hin|Hn]; [exact Hin|].
    apply IH in Hn. discriminate.
  - destruct (Ascii.eqb_spec a c) as [->|Hne].
    + split; [discriminate | intros H; exfalso; apply H; now left].
    + split; [|reflexivity]. intros _ [E|Hin]; [congruence|].
      now apply (proj1 IH eq_refl).
Qed.

(** A name without a dot, or with only a leading dot, has no suffix. *)
Lemma suffix_of_dotless nm :
  ~ In "."%char (list_ascii_of_string nm) -> PurePath.suffix_of nm = "".
Proof.
  intros H. unfold PurePath.suffix_of. apply rfind_none_iff in H. now rewrite H.
Qed.

Lemma suffix_of_dotfile r :
  ~ In "."%char (list_ascii_of_string r) ->
  PurePath.suffix_of (String "." r) = "".
Proof.
  intros H. unfold PurePath.suffix_of. simpl. apply rfind_none_iff in H.
  now rewrite H.
Qed.

Lemma dest_root_no_suffix nm :
  PurePath.suffix_of nm = "" -> Dest.dest_root nm = ["Other"].
Proof. intros H. unfold Dest.dest_root. now rewrite H. Qed.

Lemma substring_all s : substring 0 (String.length s) s = s.
Proof. induction s as [|c s IH]; simpl; [reflexivity | now rewrite IH]. Qed.

Lemma substring_split s i :
  i <= String.length s ->
  (substring 0 i s ++ substring i (String.length s - i) s)%string = s.
Proof.
  revert i. induction s as [|c s IH]; intros i Hi; simpl in Hi.
  - assert (i = 0) by lia. subst. reflexivity.
  - destruct i as [|i].
    + simpl. now rewrite substring_all.
    + simpl. rewrite IH by lia. reflexivity.
Qed.

Lemma rfind_lt c s i : PyStr.rfind c s = Some i -> i < String.length s.
Proof.
  revert i. induction s as [|a s IH]; intros i; simpl; [discriminate|].
  destruct (PyStr.rfind c s) as [j|].
  - intros [= <-]. specialize (IH j eq_refl). lia.
  - destruct (Ascii.eqb a c); [intros [= <-]; lia | discriminate].
Qed.

(** The name is its stem followed by its suffix. *)
Lemma stem_suffix nm :
  (PurePath.stem_of nm ++ PurePath.suffix_of nm)%string = nm.
Proof.
  unfold PurePath.stem_of, PurePath.suffix_of.
  destruct (PyStr.rfind "." nm) as [i|] eqn:E.
  - destruct ((0 <? i) && (i <? String.length nm - 1))%nat.
    + apply substring_split. apply rfind_lt in E. lia.
    + clear E. induction nm; simpl; congruence.
  - clear E. induction nm; simpl; congruence.
Qed.

End Classification.

Section RunFacts.

Import Tree.

(** While the base folder is a directory, no folder at or above it is
    made anew. *)
Lemma exec_mkdir_not_above evs t t' base :
  exec evs t t' ->
  path_is_dir t base = true ->
  (forall e p, In e evs -> In p (removed e) -> ~ prefix p base) ->
  forall q, In (MkdirEv q) evs -> ~ prefix q base.
Proof.
  intros X. induction X as [|e evs t t1 t2 He Hr IH]; intros Hb Hrem q Hin.
  - destruct Hin.
  - destruct Hin as [-> | Hin].
    + inversion He as [par k es t0 Hpar Hk | |]; subst. intros Hp.
      apply is_dir_iff_lookup in Hb as [esb Hb].
      destruct (lookup_prefix_some _ _ _ _ Hb Hp) as [m Hm].
      rewrite (lookup_child par k t es Hpar) in Hm. congruence.
    + apply IH; auto.
      * apply (effect_keeps_dir e t t1 base He Hb). intros p. apply Hrem. now left.
      * intros e' p He'. apply Hrem. now right.
Qed.

Lemma run_of_eq {A} (m : M A) w o w' o1 evs w1 :
  m w = (o, w') -> run m w o1 evs w1 -> o1 = o /\ w1 = w'.
Proof. intros H (H1 & _). rewrite H in H1. now injection H1 as <- <-. Qed.

End RunFacts.

Section NameShapes.

Lemma append_assoc_s (a b c : string) : ((a ++ b) ++ c = a ++ (b ++ c))%string.
Proof. induction a as [|x a IH]; simpl; [reflexivity | now rewrite IH]. Qed.

Lemma append_empty_r (a : string) : (a ++ "" = a)%string.
Proof. induction a as [|x a IH]; simpl; [reflexivity | now rewrite IH]. Qed.

Lemma rfind_app c a b :
  PyStr.rfind c (a ++ b)%string =
  match PyStr.rfind c b with
  | Some j => Some (String.length a + j)
  | None => PyStr.rfind c a
  end.
Proof.
  induction a as [|x a IH]; simpl.
  - now destruct (PyStr.rfind c b).
  - rewrite IH. now destruct (PyStr.rfind c b).
Qed.

(** A string splits at its last [c]. *)
Lemma rfind_split c s i :
  PyStr.rfind c s = Some i ->
  exists a b, s = (a ++ String c b)%string /\ String.length a = i /\
              PyStr.rfind c b = None.
Proof.
  revert i. induction s as [|x s IH]; simpl; intros i; [discriminate|].
  destruct (PyStr.rfind c s) as [j|] eqn:E.
  - intros [= <-]. destruct (IH j eq_refl) as (a & b & -> & <- & Hb).
    exists (String x a), b. auto.
  - destruct (Ascii.eqb_spec x c) as [->|]; [|discriminate].
    intros [= <-]. exists ""%string, s. auto.
Qed.

Lemma rfind_at_split c a b :
  PyStr.rfind c b = None ->
  PyStr.rfind c (a ++ String c b)%string = Some (String.length a).
Proof.
  intros Hb. rewrite rfind_app. simpl. rewrite Hb, Ascii.eqb_refl.
  now rewrite Nat.add_0_r.
Qed.

(** Decimal numerals have no dot, nor has [" (N)"]. *)
Lemma str_no_dot N : PyStr.rfind "." (PyStr.str N) = None.
Proof.
  unfold PyStr.str. generalize (Nat.to_uint N). intros u.
  induction u; simpl; rewrite ?IHu; reflexivity.
Qed.

Lemma counter_no_dot N :
  PyStr.rfind "." (" (" ++ PyStr.str N ++ ")")%string = None.
Proof. simpl. rewrite rfind_app. simpl. now rewrite str_no_dot. Qed.

Lemma substring_zero s : substring 0 0 s = ""%string.
Proof. now destruct s. Qed.

Lemma substring_app_l a x : substring 0 (String.length a) (a ++ x) = a.
Proof.
  induction a as [|c a IH]; simpl; [apply substring_zero | now rewrite IH].
Qed.

Lemma substring_app_r a x :
  substring (String.length a) (String.length x) (a ++ x) = x.
Proof. induction a as [|c a IH]; simpl; [apply substring_all | exact IH]. Qed.

(** Suffix and stem of a name, read off its split at the last dot. *)
Lemma suffix_stem_of_split a b :
  PyStr.rfind "." b = None ->
  (a <> ""%string -> b <> ""%string ->
   PurePath.suffix_of (a ++ String "." b) = String "." b /\
   PurePath.stem_of (a ++ String "." b) = a) /\
  (a = ""%string \/ b = ""%string ->
   PurePath.suffix_of (a ++ String "." b) = ""%string /\
   PurePath.stem_of (a ++ String "." b) = (a ++ String "." b)%string).
Proof.
  intros Hb. unfold PurePath.suffix_of, PurePath.stem_of.
  rewrite (rfind_at_split "." a b Hb), length_append. simpl String.length.
  split.
  - intros Ha Hnb.
    assert (0 < String.length a) by (destruct a; [congruence | simpl; lia]).
    assert (0 < String.length b) by (destruct b; [congruence | simpl; lia]).
    replace ((0 <? String.length a)
             && (String.length a <? String.length a + S (String.length b) - 1))%nat
      with true.
    2:{ symmetry. apply andb_true_iff. split; apply Nat.ltb_lt; lia. }
    replace (String.length a + S (String.length b) - String.length a)
      with (String.length (String "." b)) by (simpl; lia).
    split; [apply substring_app_r | apply substring_app_l].
  - intros Hab.
    replace ((0 <? String.length a)
             && (String.length a <? String.length a + S (String.length b) - 1))%nat
      with false; [auto|].
    symmetry. apply andb_false_iff.
    destruct Hab as [-> | ->]; [left | right]; apply Nat.ltb_ge; simpl; lia.
Qed.

(** *** Names as the specification reads them *)

Lemma no_dot_rfind s : Spec.no_dot s <-> PyStr.rfind "." s = None.
Proof. unfold Spec.no_dot. symmetry. apply rfind_none_iff. Qed.

(** A name with a proper extension: a non-empty stem, a dot, a non-empty
    extension without a dot. *)
Lemma suffix_of_proper stem e :
  stem <> ""%string -> e <> ""%string -> Spec.no_dot e ->
  PurePath.suffix_of (stem ++ String "." e) = String "." e /\
  PurePath.stem_of (stem ++ String "." e) = stem.
Proof.
  intros Hs He Hd. apply no_dot_rfind in Hd.
  now apply (proj1 (suffix_stem_of_split stem e Hd)).
Qed.

(** A name without a dot, with only a leading one, or ending in its last
    one has no extension. *)
Lemma suffix_of_improper n :
  Spec.no_dot n \/
  (exists r, n = String "." r /\ Spec.no_dot r) \/
  (exists r, n = (r ++ ".")%string) ->
  PurePath.suffix_of n = ""%string /\ PurePath.stem_of n = n.
Proof.
  intros [Hd | [(r & -> & Hd) | (r & ->)]].
  - apply no_dot_rfind in Hd. unfold PurePath.suffix_of, PurePath.stem_of.
    now rewrite Hd.
  - apply no_dot_rfind in Hd.
    apply (proj2 (suffix_stem_of_split "" r Hd)). now left.
  - apply (proj2 (suffix_stem_of_split r "" eq_refl)). now right.
Qed.

(** *** Lower-casing ASCII names *)

Lemma all_ascii (f : ascii -> bool) :
  forallb f (map ascii_of_nat (seq 0 256)) = true -> forall a, f a = true.
Proof.
  intros H a. rewrite forallb_forall in H. apply H.
  rewrite <- (ascii_nat_embedding a). apply in_map. apply in_seq.
  pose proof (nat_ascii_bounded a). lia.
Qed.

Lemma lower_step a :
  nat_of_ascii a < 128 ->
  (N_of_ascii a <? 128)%N = true /\
  (N_of_ascii a =? 931)%N = false /\
  Unicode.to_lower_full (N_of_ascii a) = [N_of_ascii (Spec.ascii_lower_char a)] /\
  Unicode.encode_point (N_of_ascii (Spec.ascii_lower_char a))
  = String (Spec.ascii_lower_char a) "".
Proof.
  intros H. apply Nat.ltb_lt in H.
  pose proof (all_ascii
    (fun a =>
       implb (nat_of_ascii a <? 128)%nat
         ((N_of_ascii a <? 128)%N
          && negb (N_of_ascii a =? 931)%N
          && match Unicode.to_lower_full (N_of_ascii a) with
             | [c] => (c =? N_of_ascii (Spec.ascii_lower_char a))%N
             | _ => false
             end
          && String.eqb
               (Unicode.encode_point (N_of_ascii (Spec.ascii_lower_char a)))
               (String (Spec.ascii_lower_char a) "")))
    ltac:(vm_compute; reflexivity) a) as Hall.
  cbv beta in Hall. rewrite H in Hall. cbn [implb] in Hall.
  apply andb_true_iff in Hall as [Hall H4].
  apply andb_true_iff in Hall as [Hall H3].
  apply andb_true_iff in Hall as [H1 H2].
  split; [exact H1|]. split; [now apply negb_true_iff in H2|]. split.
  - destruct (Unicode.to_lower_full (N_of_ascii a)) as [|c [|c' l]];
      try discriminate. apply N.eqb_eq in H3. now subst c.
  - now apply String.eqb_eq in H4.
Qed.

Lemma decode_ascii_cons a s :
  (N_of_ascii a <? 128)%N = true ->
  Unicode.decode (String a s) = N_of_ascii a :: Unicode.decode s.
Proof.
  intros H. cbn [Unicode.decode]. unfold Unicode.classify. rewrite H.
  reflexivity.
Qed.

Lemma lower_from_ascii s :
  Spec.is_ascii s ->
  forall b, Unicode.encode (Unicode.lower_from b (Unicode.decode s))
            = Spec.ascii_lower s.
Proof.
  induction s as [|a s IH]; intros Hs b; [reflexivity|].
  destruct (lower_step a) as (H1 & H2 & H3 & H4); [apply Hs; now left|].
  rewrite (decode_ascii_cons a s H1). cbn [Unicode.lower_from].
  rewrite H2, H3. cbn [app Unicode.encode]. rewrite H4.
  cbn [append Spec.ascii_lower]. f_equal. apply IH.
  intros c Hc. apply Hs. now right.
Qed.

(** On an ASCII string [str.lower] makes the capital letters small and
    changes nothing else. *)
Lemma lower_is_ascii_lower s :
  Spec.is_ascii s -> PyStr.lower s = Spec.ascii_lower s.
Proof. intros H. apply (lower_from_ascii s H false). Qed.

Lemma ascii_lower_char_facts a :
  (nat_of_ascii (Spec.ascii_lower_char a) < 128 -> nat_of_ascii a < 128) /\
  (Spec.ascii_lower_char a = "."%char -> a = "."%char).
Proof.
  pose proof (all_ascii
    (fun a =>
       implb (nat_of_ascii (Spec.ascii_lower_char a) <? 128)%nat
             (nat_of_ascii a <? 128)%nat
       && implb (Ascii.eqb (Spec.ascii_lower_char a) ".") (Ascii.eqb a "."))
    ltac:(vm_compute; reflexivity) a) as Hall.
  cbv beta in Hall. apply andb_true_iff in Hall as [H1 H2]. split.
  - intros H. apply Nat.ltb_lt in H. rewrite H in H1. now apply Nat.ltb_lt.
  - intros H. rewrite H in H2. now apply Ascii.eqb_eq.
Qed.

Lemma ascii_lower_is_ascii s :
  Spec.is_ascii (Spec.ascii_lower s) -> Spec.is_ascii s.
Proof.
  induction s as [|a s IH]; intros H c Hc; [destruct Hc|].
  destruct Hc as [<- | Hc].
  - apply ascii_lower_char_facts. apply H. now left.
  - apply IH; [|exact Hc]. intros c' Hc'. apply H. now right.
Qed.

Lemma ascii_lower_no_dot s :
  Spec.no_dot (Spec.ascii_lower s) -> Spec.no_dot s.
Proof.
  unfold Spec.no_dot. induction s as [|a s IH]; intros H; [exact H|].
  simpl in *. intros [E | Hin].
  - apply H. left. now subst a.
  - apply IH; [|exact Hin]. intros Hd. apply H. now right.
Qed.

(** The listed extensions are ASCII, begin with a dot and have no other. *)
Lemma listed_extension dest exts x :
  In (dest, exts) OrganizeGui.CATEGORY_MAP -> In x exts ->
  Spec.is_ascii x /\
  exists x', x = String "." x' /\ x' <> ""%string /\ Spec.no_dot x'.
Proof.
  intros Hd Hx.
  assert (Hall : forallb
            (fun e => forallb
               (fun x => forallb (fun c => (nat_of_ascii c <? 128)%nat)
                           (list_ascii_of_string x)
                         && match x with
                            | String a (String c r) =>
                                Ascii.eqb a "."
                                && match PyStr.rfind "." (String c r) with
                                   | None => true
                                   | Some _ => false
                                   end
                            | _ => false
                            end)
               (snd e)) OrganizeGui.CATEGORY_MAP = true) by reflexivity.
  rewrite forallb_forall in Hall. specialize (Hall _ Hd). simpl in Hall.
  rewrite forallb_forall in Hall. specialize (Hall _ Hx).
  apply andb_true_iff in Hall as [Ha Hs]. split.
  - intros c Hc. rewrite forallb_forall in Ha. apply Nat.ltb_lt. now apply Ha.
  - destruct x as [|a [|c r]]; try discriminate.
    apply andb_true_iff in Hs as [Hdot Hs]. apply Ascii.eqb_eq in Hdot. subst a.
    exists (String c r). split; [reflexivity|]. split; [discriminate|].
    apply no_dot_rfind.
    destruct (PyStr.rfind "." (String c r)) eqn:E; [|reflexivity].
    simpl in E. rewrite E in Hs. discriminate.
Qed.

(** A name that ends in a listed extension, up to the case of ASCII
    letters, has it as its lower-cased extension. *)
Lemma listed_suffix stem e dest exts x :
  stem <> ""%string ->
  In (dest, exts) OrganizeGui.CATEGORY_MAP -> In x exts ->
  Spec.ascii_lower e = x ->
  PyStr.lower (PurePath.suffix_of (stem ++ e)) = x.
Proof.
  intros Hs Hd Hx He.
  destruct (listed_extension dest exts x Hd Hx) as (Hasc & x' & Ex & Hne & Hnd).
  assert (Hea : Spec.is_ascii e) by (apply ascii_lower_is_ascii; now rewrite He).
  destruct e as [|a e']; [subst x; discriminate|].
  rewrite Ex in He. simpl in He. injection He as Ha He'.
  apply ascii_lower_char_facts in Ha. subst a.
  assert (Hd' : Spec.no_dot e') by (apply ascii_lower_no_dot; now rewrite He').
  assert (Hne' : e' <> ""%string) by (intros ->; now apply Hne).
  rewrite (proj1 (suffix_of_proper stem e' Hs Hne' Hd')).
  rewrite (lower_is_ascii_lower _ Hea). simpl. now rewrite He', Ex.
Qed.

Lemma is_ascii_app a b :
  Spec.is_ascii (a ++ b) -> Spec.is_ascii a /\ Spec.is_ascii b.
Proof.
  unfold Spec.is_ascii. intros H.
  assert (E : forall s, list_ascii_of_string (s ++ b)
                        = list_ascii_of_string s ++ list_ascii_of_string b).
  { intros s. induction s as [|c s IH]; simpl; [reflexivity | now rewrite IH]. }
  rewrite E in H. split; intros c Hc; apply H; apply in_or_app; auto.
Qed.

(** A name with an extension has a stem before it. *)
Lemma suffix_has_stem n :
  PurePath.suffix_of n <> ""%string -> PurePath.stem_of n <> ""%string.
Proof.
  unfold PurePath.suffix_of, PurePath.stem_of.
  destruct (PyStr.rfind "." n) as [i|] eqn:E; [|congruence].
  destruct ((0 <? i) && (i <? String.length n - 1))%nat eqn:C; [|congruence].
  intros _. apply andb_true_iff in C as [C1 C2].
  apply Nat.ltb_lt in C1. apply Nat.ltb_lt in C2.
  destruct n as [|a n]; [simpl in C2; lia|].
  destruct i as [|i]; [lia|]. simpl. discriminate.
Qed.

(** An ASCII name that ends in no listed extension, whatever the case of
    its letters, has a lower-cased extension that no category lists. *)
Lemma unlisted_suffix n :
  Spec.is_ascii n ->
  (forall stem e dest exts,
     n = (stem ++ e)%string -> stem <> ""%string ->
     In (dest, exts) OrganizeGui.CATEGORY_MAP ->
     ~ In (Spec.ascii_lower e) exts) ->
  forall c, In c OrganizeGui.CATEGORY_MAP ->
    ~ In (PyStr.lower (PurePath.suffix_of n)) (snd c).
Proof.
  intros Ha H [dest exts] Hc Hin. simpl in Hin.
  destruct (string_dec (PurePath.suffix_of n) "") as [E | E].
  - rewrite E in Hin. change (PyStr.lower "") with ""%string in Hin.
    now destruct (listed_extension dest exts _ Hc Hin) as (_ & x' & [=] & _).
  - pose proof (stem_suffix n) as Hn.
    assert (Hsa : Spec.is_ascii (PurePath.suffix_of n)).
    { rewrite <- Hn in Ha. now apply is_ascii_app in Ha. }
    rewrite (lower_is_ascii_lower _ Hsa) in Hin.
    apply (H (PurePath.stem_of n) (PurePath.suffix_of n) dest exts); auto.
    now apply suffix_has_stem.
Qed.

End NameShapes.

(** * Part XII-b: which exceptions get out *)

Section Exceptions.

Variable P : exn -> Prop.

Hypothesis Honly : forall ex, P ex -> rmdir_error ex.

Lemma nr_ret {A} (a : A) : never_raises P (ret a).
Proof. intros w ex w' H. discriminate. Qed.

Lemma nr_bind {A B} (m : M A) (k : A -> M B) :
  never_raises P m -> (forall a, never_raises P (k a)) ->
  never_raises P (bind m k).
Proof.
  intros Hm Hk w ex w'. unfold bind.
  destruct (m w) as [[a|e|] w1] eqn:E.
  - apply Hk.
  - intros [= <- <-]. now apply (Hm w e w1).
  - discriminate.
Qed.

Lemma nr_for_each {A S} (xs : list A) (body : A -> S -> M S) :
  (forall x s, never_raises P (body x s)) ->
  forall s, never_raises P (for_each xs body s).
Proof.
  intros Hb. induction xs as [|x xs IH]; intros s; simpl.
  - apply nr_ret.
  - apply nr_bind; auto.
Qed.

(** [try: m except OSError: pass] lets nothing out. *)
Lemma nr_try_pass (m : M unit) :
  never_raises P (try_except m (fun _ => ret tt)).
Proof.
  intros w ex w'. unfold try_except.
  destruct (m w) as [[a|e|] w1]; discriminate.
Qed.

Lemma nr_if {A} (b : bool) (m1 m2 : M A) :
  never_raises P m1 -> never_raises P m2 ->
  never_raises P (if b then m1 else m2).
Proof. destruct b; auto. Qed.

Lemma nr_exists p : never_raises P (Fs.exists_ p).
Proof.
  intros w ex w'. unfold Fs.exists_.
  destruct (refused w p); [|discriminate].
  intros [= <- <-] Hp. apply Honly in Hp. exact Hp.
Qed.

Lemma nr_is_dir p : never_raises P (Fs.is_dir p).
Proof.
  intros w ex w'. unfold Fs.is_dir.
  destruct (refused w p); [|discriminate].
  intros [= <- <-] Hp. apply Honly in Hp. exact Hp.
Qed.

Lemma nr_search_bound p : never_raises P (Fs.search_bound p).
Proof. intros w ex w' H. discriminate. Qed.

Lemma nr_unique_loop fuel cand c :
  never_raises P (OrganizeGui.unique_loop fuel cand c).
Proof.
  revert c. induction fuel as [|fuel IH]; intros c; simpl.
  - intros w ex w' H. discriminate.
  - apply nr_bind; [apply nr_exists|]. intros e.
    apply nr_if; [apply nr_ret | apply IH].
Qed.

Lemma nr_ensure_unique_path t : never_raises P (OrganizeGui.ensure_unique_path t).
Proof.
  unfold OrganizeGui.ensure_unique_path.
  apply nr_bind; [apply nr_exists|]. intros e.
  apply nr_if; [apply nr_ret|].
  apply nr_bind; [apply nr_search_bound|]. intros f. apply nr_unique_loop.
Qed.

Lemma nr_ensure_unique_dir t : never_raises P (OrganizeGui.ensure_unique_dir t).
Proof.
  unfold OrganizeGui.ensure_unique_dir.
  apply nr_bind; [apply nr_exists|]. intros e.
  apply nr_if; [apply nr_ret|].
  apply nr_bind; [apply nr_search_bound|]. intros f. apply nr_unique_loop.
Qed.

Lemma nr_raise {A} ex : ~ rmdir_error ex -> never_raises P (@raise A ex).
Proof. intros H w e w' [= <- <-] Hp. apply H. now apply Honly. Qed.

Lemma nr_iterdir p : never_raises P (Fs.iterdir p).
Proof.
  intros w ex w'. unfold Fs.iterdir.
  destruct (refused w p);
    [intros [= <- <-] Hp; apply Honly in Hp; exact Hp|].
  destruct (Tree.lookup p (tree w)) as [[d|es]|];
    intros [= <- <-] Hp; apply Honly in Hp; exact Hp.
Qed.

Lemma os_mkdir_raises p w ex w' :
  Fs.os_mkdir p w = (Raise ex, w') -> ~ rmdir_error ex.
Proof.
  unfold Fs.os_mkdir.
  destruct (refused w p); [intros [= <- <-]; exact id|].
  destruct (Tree.path_exists (tree w) p); [intros [= <- <-]; exact id|].
  destruct (Tree.lookup (PurePath.parent p) (tree w)) as [[d|es]|].
  - intros [= <- <-]. exact id.
  - discriminate.
  - destruct (existsb _ _); intros [= <- <-]; exact id.
Qed.

Lemma nr_mkdir_handler p ex :
  ~ rmdir_error ex ->
  never_raises P (d <- Fs.is_dir p ;; if d then ret tt else raise ex).
Proof.
  intros H. apply nr_bind; [apply nr_is_dir|]. intros d.
  apply nr_if; [apply nr_ret | now apply nr_raise].
Qed.

Lemma nr_mkdir_exist_ok p : never_raises P (Fs.mkdir_exist_ok p).
Proof.
  intros w ex w'. unfold Fs.mkdir_exist_ok, try_except.
  destruct (Fs.os_mkdir p w) as [[a|e|] w1] eqn:E; try discriminate.
  apply nr_mkdir_handler. now apply (os_mkdir_raises p w e w1).
Qed.

Lemma nr_mkdir_parents_rec n p : never_raises P (Fs.mkdir_parents_rec n p).
Proof.
  revert p. induction n as [|n IH]; intros p w ex w';
    cbn [Fs.mkdir_parents_rec]; unfold try_except;
    destruct (Fs.os_mkdir p w) as [[a|e|] w1] eqn:E; try discriminate;
    pose proof (os_mkdir_raises p w e w1 E) as He.
  - destruct e; try (now apply nr_mkdir_handler).
    now apply nr_raise.
  - destruct e; try (now apply nr_mkdir_handler).
    destruct (path_eqb (PurePath.parent p) p); [now apply nr_raise|].
    apply nr_bind; [apply IH|]. intros _. apply nr_mkdir_exist_ok.
Qed.

Lemma nr_shutil_move src dst : never_raises P (Fs.shutil_move src dst).
Proof.
  intros w ex w'. unfold Fs.shutil_move.
  repeat match goal with
         | |- (if ?b then _ else _) = _ -> _ => destruct b
         | |- match ?x with _ => _ end = _ -> _ => destruct x
         end;
    try discriminate; intros [= <- <-] Hp; apply Honly in Hp; exact Hp.
Qed.

Lemma nr_relocate_item pd item moves :
  never_raises P (OrganizeGui.relocate_item pd item moves).
Proof.
  unfold OrganizeGui.relocate_item.
  apply nr_bind; [apply nr_is_dir|]. intros d. apply nr_if.
  - apply nr_bind; [apply nr_ensure_unique_dir|]. intros t.
    apply nr_bind; [apply nr_shutil_move|]. intros _. apply nr_ret.
  - apply nr_bind; [apply nr_ensure_unique_path|]. intros t.
    apply nr_bind; [apply nr_shutil_move|]. intros _. apply nr_ret.
Qed.

Lemma nr_relocate_legacy base remap moves :
  never_raises P (OrganizeGui.relocate_legacy base remap moves).
Proof.
  destruct remap as [L d]. unfold OrganizeGui.relocate_legacy.
  apply nr_bind; [apply nr_exists|]. intros e.
  apply nr_bind; [apply nr_is_dir|]. intros d0.
  apply nr_if; [apply nr_ret|].
  apply nr_bind; [apply nr_mkdir_parents_rec|]. intros _.
  apply nr_bind; [apply nr_iterdir|]. intros items.
  apply nr_bind; [apply nr_for_each; intros; apply nr_relocate_item|]. intros m.
  apply nr_bind; [apply nr_try_pass|]. intros _. apply nr_ret.
Qed.

Lemma nr_organize_entry base entry moves :
  never_raises P (OrganizeGui.organize_entry base entry moves).
Proof.
  unfold OrganizeGui.organize_entry.
  apply nr_bind; [apply nr_is_dir|]. intros d.
  apply nr_if; [apply nr_ret|].
  apply nr_bind; [apply nr_mkdir_parents_rec|]. intros _.
  apply nr_bind; [apply nr_ensure_unique_path|]. intros t.
  apply nr_bind; [apply nr_shutil_move|]. intros _. apply nr_ret.
Qed.

(** Whatever [organize_folder] raises, it is not an error of [rmdir]. *)
Lemma nr_organize_folder base :
  never_raises P (OrganizeGui.organize_folder base).
Proof.
  unfold OrganizeGui.organize_folder, OrganizeGui.organize_top_level,
    OrganizeGui.relocate_legacy_folders.
  apply nr_bind.
  - apply nr_bind; [apply nr_iterdir|]. intros entries.
    apply nr_for_each. intros. apply nr_organize_entry.
  - intros m. apply nr_for_each. intros. apply nr_relocate_legacy.
Qed.

End Exceptions.

(** The end-to-end run of four files, one per kind. *)
Example organize_four_files :
  fst (OrganizeGui.organize_folder Example.base Example.four)
  = Ok [(Example.base // "a.pdf",
         Example.base // "Documents" // "PDF" // "a.pdf");
        (Example.base // "b.jpg",
         Example.base // "Media" // "Images" // "b.jpg");
        (Example.base // "c.mp4",
         Example.base // "Media" // "Videos" // "c.mp4");
        (Example.base // "d.unknownext",
         Example.base // "Other" // "d.unknownext")].
Proof. vm_compute. reflexivity. Qed.

(** * Part XIII: the claims *)

Section Claims.

Import Tree.

Lemma moves_of_intro src dst b evs :
  In (MoveEv src dst b) evs -> In (src, dst) (moves_of evs).
Proof.
  intros H. unfold moves_of. apply in_flat_map.
  exists (MoveEv src dst b). split; [exact H | now left].
Qed.

Lemma lookup_in_listing par k t n :
  lookup (par // k) t = Some n -> In k (listing t par).
Proof.
  intros H. apply exists_child_in_listing. unfold path_exists. now rewrite H.
Qed.

(** C1, as stated, fails: a top-level regular file named [Other] has no
    extension, yet no run moves it into the folder [Other]; the folder
    cannot be created, [organize_folder] raises and the file stays where it
    is. *)
Lemma C1_counterexample :
  ~ (forall (base : Path) (w : world) (n d : string),
       wf (tree w) = true ->
       lookup (base // n) (tree w) = Some (File d) ->
       exists o w' folder x,
         OrganizeGui.organize_folder base w = (o, w') /\
         (OrganizeGui.resolve_destination (base // n) = Some folder \/
          OrganizeGui.resolve_destination (base // n) = None /\
          folder = ["Other"]) /\
         lookup ((base ++ folder) // x) (tree w') = Some (File d)).
Proof.
  intros H.
  destruct (H Example.base Example.blocked "Other" "not a folder")
    as (o & w' & folder & x & E & Hf & Hl).
  - vm_compute. reflexivity.
  - vm_compute. reflexivity.
  - vm_compute in E. injection E as _ <-.
    destruct Hf as [Hf | [_ ->]]; [vm_compute in Hf; discriminate|].
    vm_compute in Hl. discriminate.
Qed.

(** C1, amended — Whenever [organize_folder] returns a log, a top-level
    regular file whose lower-cased extension belongs to some category has
    been moved into the base folder's sub-folder of the first such category
    in declared order, and a file whose extension belongs to no category
    into [Other]: the move was performed (onto a free name), it is recorded
    in the log, and the file sits in that folder.  The extension is what
    follows the last dot of a name, the dot included, when something stands
    before that dot; its ASCII letters are compared without regard to case:
    a name [stem ++ e], where [e] is a listed extension up to the case of
    its letters, goes to the first category that lists it, and an ASCII
    name that ends in no listed extension goes to no category.  Letters
    outside ASCII are lower-cased as Unicode has it: the Kelvin sign counts
    as a [k]. *)
Theorem C1_classified_file_is_moved :
  (forall (base : Path) (w w' : world) (moves : OrganizeGui.MoveLog)
          (n d : string),
     wf (tree w) = true ->
     OrganizeGui.organize_folder base w = (Ok moves, w') ->
     lookup (base // n) (tree w) = Some (File d) ->
     exists folder x evs,
       (forall pre dest exts post,
          OrganizeGui.CATEGORY_MAP = pre ++ (dest, exts) :: post ->
          In (PyStr.lower (PurePath.suffix_of n)) exts ->
          (forall e, In e pre ->
             ~ In (PyStr.lower (PurePath.suffix_of n)) (snd e)) ->
          folder = PurePath.of_string dest /\
          OrganizeGui.resolve_destination (base // n) = Some folder) /\
       ((forall e, In e OrganizeGui.CATEGORY_MAP ->
                   ~ In (PyStr.lower (PurePath.suffix_of n)) (snd e)) ->
        folder = ["Other"] /\
        OrganizeGui.resolve_destination (base // n) = None) /\
       In (base // n, (base ++ folder) // x) moves /\
       events w' = events w ++ evs /\
       In (MoveEv (base // n) ((base ++ folder) // x) false) evs /\
       lookup ((base ++ folder) // x) (tree w') = Some (File d)) /\
  (forall (base : Path) (stem e : string) pre dest exts post,
     stem <> ""%string ->
     OrganizeGui.CATEGORY_MAP = pre ++ (dest, exts) :: post ->
     In (Spec.ascii_lower e) exts ->
     (forall c, In c pre -> ~ In (Spec.ascii_lower e) (snd c)) ->
     PyStr.lower (PurePath.suffix_of (stem ++ e)) = Spec.ascii_lower e /\
     OrganizeGui.resolve_destination (base // (stem ++ e)%string)
     = Some (PurePath.of_string dest)) /\
  (forall (base : Path) (n : string),
     Spec.is_ascii n ->
     (forall stem e dest exts,
        n = (stem ++ e)%string -> stem <> ""%string ->
        In (dest, exts) OrganizeGui.CATEGORY_MAP ->
        ~ In (Spec.ascii_lower e) exts) ->
     OrganizeGui.resolve_destination (base // n) = None) /\
  (OrganizeGui.resolve_destination (Example.base // "REPORT.PDF")
   = Some ["Documents"; "PDF"] /\
   OrganizeGui.resolve_destination (Example.base // "photo.JpEg")
   = Some ["Media"; "Images"] /\
   OrganizeGui.resolve_destination (Example.base // "archive.tar.gz") = None /\
   OrganizeGui.resolve_destination (Example.base // "notes.txt.mp4")
   = Some ["Media"; "Videos"] /\
   OrganizeGui.resolve_destination (Example.base // ".pdf") = None /\
   OrganizeGui.resolve_destination (Example.base // "pdf") = None /\
   OrganizeGui.resolve_destination (Example.base // Example.kelvin_name)
   = Some ["Media"; "Videos"] /\
   exists w',
     OrganizeGui.organize_folder Example.base Example.kelvin
     = (Ok [(Example.base // Example.kelvin_name,
             Example.base // "Media" // "Videos" // Example.kelvin_name)], w') /\
     lookup (Example.base // "Media" // "Videos" // Example.kelvin_name) (tree w')
     = Some (File "k")).
Proof.
  split; [|split; [|split]].
  - intros base w w' moves n d Hwf Hrun Hfile.
    destruct (organize_folder_run base w)
      as (o & evs & w1 & e1 & e2 & R & _ & -> & _ & _ & Hlog & _ & _ & Hrest & _).
    destruct (run_of_eq _ _ _ _ _ _ _ Hrun R) as [-> ->].
    destruct (Hrest Hwf) as [Hmoved _].
    destruct (Hmoved moves eq_refl) as [Htop _].
    destruct (Htop n d (lookup_in_listing _ _ _ _ Hfile) Hfile) as (x & Hin & Htg).
    exists (Dest.dest_root n), x, (e1 ++ e2).
    split; [|split; [|split; [|split; [|split]]]].
    + intros pre dest exts post Htab Hext Hpre.
      rewrite resolve_destination_child. unfold Dest.dest_root. rewrite Htab.
      now rewrite (first_category_first _ pre dest exts post Hext Hpre).
    + intros Hnone. rewrite resolve_destination_child. unfold Dest.dest_root.
      now rewrite (first_category_none _ _ Hnone).
    + rewrite (Hlog moves eq_refl). apply (moves_of_intro _ _ false).
      apply in_or_app. now left.
    + now destruct R as (_ & E & _).
    + apply in_or_app. now left.
    + exact Htg.
  - intros base stem e pre dest exts post Hstem Htab Hext Hpre.
    assert (Hd : In (dest, exts) OrganizeGui.CATEGORY_MAP).
    { rewrite Htab. apply in_or_app. right. now left. }
    pose proof (listed_suffix stem e dest exts _ Hstem Hd Hext eq_refl) as Hl.
    split; [exact Hl|].
    rewrite resolve_destination_child, Hl, Htab.
    now apply first_category_first.
  - intros base n Ha Hno.
    rewrite resolve_destination_child.
    apply first_category_none. now apply unlisted_suffix.
  - repeat split; try (vm_compute; reflexivity).
    eexists. split; vm_compute; reflexivity.
Qed.

Lemma C1_witness :
  exists moves w',
    OrganizeGui.organize_folder Example.base Example.mixed = (Ok moves, w') /\
    exists folder x evs,
      (forall pre dest exts post,
         OrganizeGui.CATEGORY_MAP = pre ++ (dest, exts) :: post ->
         In (PyStr.lower (PurePath.suffix_of "b.JPG")) exts ->
         (forall e, In e pre ->
            ~ In (PyStr.lower (PurePath.suffix_of "b.JPG")) (snd e)) ->
         folder = PurePath.of_string dest /\
         OrganizeGui.resolve_destination (Example.base // "b.JPG") = Some folder) /\
      ((forall e, In e OrganizeGui.CATEGORY_MAP ->
                  ~ In (PyStr.lower (PurePath.suffix_of "b.JPG")) (snd e)) ->
       folder = ["Other"] /\
       OrganizeGui.resolve_destination (Example.base // "b.JPG") = None) /\
      In (Example.base // "b.JPG", (Example.base ++ folder) // x) moves /\
      events w' = events Example.mixed ++ evs /\
      In (MoveEv (Example.base // "b.JPG") ((Example.base ++ folder) // x) false) evs /\
      lookup ((Example.base ++ folder) // x) (tree w') = Some (File "b").
Proof.
  eexists. eexists. split.
  - vm_compute. reflexivity.
  - apply (proj1 C1_classified_file_is_moved Example.base Example.mixed);
      vm_compute; reflexivity.
Defined.

(** C9, as stated, fails: [README] has no extension, yet beside a regular
    file named [Other] no run moves it into the folder [Other]; the folder
    cannot be created and [organize_folder] raises. *)
Lemma C9_counterexample :
  ~ (forall (base : Path) (w : world) (n d : string),
       (~ In "."%char (list_ascii_of_string n) \/
        exists r, n = String "." r /\ ~ In "."%char (list_ascii_of_string r)) ->
       wf (tree w) = true ->
       lookup (base // n) (tree w) = Some (File d) ->
       exists o w' x,
         OrganizeGui.organize_folder base w = (o, w') /\
         lookup (base // "Other" // x) (tree w') = Some (File d)).
Proof.
  intros H.
  destruct (H Example.base Example.readme_blocked "README" "r")
    as (o & w' & x & E & Hl).
  - left. simpl. intros K. repeat (destruct K as [K|K]; [discriminate|]). exact K.
  - vm_compute. reflexivity.
  - vm_compute. reflexivity.
  - vm_compute in E. injection E as _ <-.
    vm_compute in Hl. discriminate.
Qed.

(** C9, amended — A top-level regular file whose name has no dot, or only
    a leading dot, has an empty extension and classification returns no
    match; whenever [organize_folder] returns a log, the file has been
    moved into [Other]. *)
Theorem C9_no_extension_goes_to_other
  (base : Path) (w w' : world) (moves : OrganizeGui.MoveLog) (n d : string) :
  (~ In "."%char (list_ascii_of_string n) \/
   exists r, n = String "." r /\ ~ In "."%char (list_ascii_of_string r)) ->
  wf (tree w) = true ->
  OrganizeGui.organize_folder base w = (Ok moves, w') ->
  lookup (base // n) (tree w) = Some (File d) ->
  PurePath.suffix (base // n) = "" /\
  OrganizeGui.resolve_destination (base // n) = None /\
  exists x evs,
    In (base // n, base // "Other" // x) moves /\
    events w' = events w ++ evs /\
    In (MoveEv (base // n) (base // "Other" // x) false) evs /\
    lookup (base // "Other" // x) (tree w') = Some (File d).
Proof.
  intros Hname Hwf Hrun Hfile.
  assert (Hsuf : PurePath.suffix_of n = "").
  { destruct Hname as [H | (r & -> & H)];
      [now apply suffix_of_dotless | now apply suffix_of_dotfile]. }
  split; [unfold PurePath.suffix; now rewrite name_child|].
  split; [rewrite resolve_destination_child, Hsuf; reflexivity|].
  destruct (organize_folder_run base w)
    as (o & evs & w1 & e1 & e2 & R & _ & -> & _ & _ & Hlog & _ & _ & Hrest & _).
  destruct (run_of_eq _ _ _ _ _ _ _ Hrun R) as [-> ->].
  destruct (Hrest Hwf) as [Hmoved _].
  destruct (Hmoved moves eq_refl) as [Htop _].
  destruct (Htop n d (lookup_in_listing _ _ _ _ Hfile) Hfile) as (x & Hin & Htg).
  rewrite (dest_root_no_suffix n Hsuf) in Hin, Htg.
  exists x, (e1 ++ e2). split; [|split; [|split]].
  - rewrite (Hlog moves eq_refl). apply (moves_of_intro _ _ false).
    apply in_or_app. now left.
  - now destruct R as (_ & E & _).
  - apply in_or_app. now left.
  - exact Htg.
Qed.

Lemma C9_witness :
  exists moves w',
    OrganizeGui.organize_folder Example.base Example.mixed = (Ok moves, w') /\
    PurePath.suffix (Example.base // ".gitignore") = "" /\
    OrganizeGui.resolve_destination (Example.base // ".gitignore") = None /\
    exists x evs,
      In (Example.base // ".gitignore", Example.base // "Other" // x) moves /\
      events w' = events Example.mixed ++ evs /\
      In (MoveEv (Example.base // ".gitignore") (Example.base // "Other" // x) false) evs /\
      lookup (Example.base // "Other" // x) (tree w') = Some (File "g").
Proof.
  eexists. eexists. split.
  - vm_compute. reflexivity.
  - apply (C9_no_extension_goes_to_other Example.base Example.mixed).
    + right. exists "gitignore". split; [reflexivity|].
      simpl. intros H. repeat (destruct H as [H|H]; [discriminate|]). exact H.
    + vm_compute. reflexivity.
    + vm_compute. reflexivity.
    + vm_compute. reflexivity.
Defined.

(** C2, as stated, fails: for a target whose name of 255 bytes is taken,
    the first numbered candidate has a name longer than the operating
    system accepts; the check whether it exists raises, and the resolver
    returns no path. *)
Lemma C2_counterexample :
  ~ (forall (target : Path) (w : world),
       exists r,
         OrganizeGui.ensure_unique_path target w = (Ok r, w) /\
         Spec.resolved Spec.file_candidate (tree w) target r).
Proof.
  intros H.
  destruct (H (Example.base // "Documents" // "PDF" // Example.long_name)
              Example.long) as (r & E & _).
  vm_compute in E. discriminate.
Qed.

(** C2, amended — The collision resolvers change nothing.  Each checks the
    target and then its numbered candidates, counting from 1, and returns
    the first of these paths that does not exist: the target itself when it
    does not exist, otherwise the candidate of the lowest counter [N >= 1]
    that does not exist; unless the operating system refuses one of the
    paths before a free one is found: then the resolver raises that error.
    Where no path is refused a resolver always returns.  For a file whose
    name is [stem.e] (a non-empty stem, a non-empty extension without a
    dot) the candidate is [stem (N).e]; for a file name without extension
    (no dot, only a leading dot, or a final dot; every name is of one of
    these shapes) and for every directory name it is the name followed by
    [" (N)"], [N] in decimal. *)
Theorem C2_collision_resolver :
  (forall (target : Path) (w : world),
     (exists o,
        OrganizeGui.ensure_unique_path target w = (o, w) /\
        Spec.resolves Spec.file_candidate w target o) /\
     (exists o,
        OrganizeGui.ensure_unique_dir target w = (o, w) /\
        Spec.resolves Spec.dir_candidate w target o)) /\
  (forall candidate (w : world) (target : Path) (o : outcome Path),
     Spec.resolves candidate w target o ->
     (exists r, o = Ok r /\ Spec.resolved candidate (tree w) target r) \/
     (exists p, o = Raise (OSError p) /\ refused w p = true)) /\
  (forall candidate (w : world) (target : Path) (o : outcome Path),
     (forall p, refused w p = false) ->
     Spec.resolves candidate w target o ->
     exists r, o = Ok r /\ Spec.resolved candidate (tree w) target r) /\
  (forall (par : Path) (stem e : string) (N : nat),
     stem <> ""%string -> e <> ""%string -> Spec.no_dot e ->
     Spec.file_candidate (par // (stem ++ "." ++ e)%string) N
     = par // (stem ++ " (" ++ PyStr.str N ++ ")." ++ e)%string) /\
  (forall (par : Path) (n : string) (N : nat),
     Spec.no_dot n \/
     (exists r, n = ("." ++ r)%string /\ Spec.no_dot r) \/
     (exists r, n = (r ++ ".")%string) ->
     Spec.file_candidate (par // n) N
     = par // (n ++ " (" ++ PyStr.str N ++ ")")%string) /\
  (forall n : string,
     (exists stem e,
        n = (stem ++ "." ++ e)%string /\
        stem <> ""%string /\ e <> ""%string /\ Spec.no_dot e) \/
     Spec.no_dot n \/
     (exists r, n = ("." ++ r)%string /\ Spec.no_dot r) \/
     (exists r, n = (r ++ ".")%string)) /\
  (forall (par : Path) (n : string) (N : nat),
     Spec.dir_candidate (par // n) N
     = par // (n ++ " (" ++ PyStr.str N ++ ")")%string) /\
  (forall target : Path,
     (PurePath.stem target ++ PurePath.suffix target)%string
     = PurePath.name target) /\
  (PyStr.str 1 = "1" /\ PyStr.str 10 = "10" /\ PyStr.str 123 = "123" /\
   Spec.file_candidate (Example.base // "report.pdf") 1
   = Example.base // "report (1).pdf" /\
   Spec.file_candidate (Example.base // "archive.tar.gz") 12
   = Example.base // "archive.tar (12).gz" /\
   Spec.file_candidate (Example.base // ".bashrc") 2
   = Example.base // ".bashrc (2)" /\
   Spec.dir_candidate (Example.base // "Logs") 1 = Example.base // "Logs (1)" /\
   Spec.dir_candidate (Example.base // "v1.2") 3 = Example.base // "v1.2 (3)").
Proof.
  split; [|split; [|split; [|split; [|split; [|split; [|split; [|split]]]]]]].
  - intros target w. split.
    + apply ensure_unique_path_resolves.
    + apply ensure_unique_dir_resolves.
  - intros candidate w target o H.
    destruct (resolves_cases _ _ _ _ H) as [(r & -> & Hr & _) | (p & -> & Hp)];
      [left | right]; eauto.
  - intros candidate w target o Hfree H.
    destruct (resolves_cases _ _ _ _ H) as [(r & -> & Hr & _) | (p & -> & Hp)].
    + eauto.
    + rewrite Hfree in Hp. discriminate.
  - intros par stem e N Hs He Hd.
    unfold Spec.file_candidate, PurePath.stem, PurePath.suffix.
    rewrite name_child, parent_child.
    change (stem ++ "." ++ e)%string with (stem ++ String "." e)%string.
    destruct (suffix_of_proper stem e Hs He Hd) as [-> ->]. reflexivity.
  - intros par n N Hn.
    unfold Spec.file_candidate, PurePath.stem, PurePath.suffix.
    rewrite name_child, parent_child.
    assert (Hn' : Spec.no_dot n \/
                  (exists r, n = String "." r /\ Spec.no_dot r) \/
                  (exists r, n = (r ++ ".")%string)).
    { exact Hn. }
    destruct (suffix_of_improper n Hn') as [-> ->]. reflexivity.
  - intros n. destruct (PyStr.rfind "." n) as [i|] eqn:E.
    + destruct (rfind_split "." n i E) as (a & b & -> & _ & Hb).
      apply no_dot_rfind in Hb.
      destruct (string_dec a "") as [-> | Ha];
        [right; right; left; now exists b|].
      destruct (string_dec b "") as [-> | Hne];
        [right; right; right; now exists a|].
      left. now exists a, b.
    + right. left. now apply no_dot_rfind.
  - intros par n N. unfold Spec.dir_candidate.
    now rewrite name_child, parent_child.
  - intros target. apply stem_suffix.
  - repeat split; vm_compute; reflexivity.
Qed.

Lemma C2_witness :
  exists r,
    OrganizeGui.ensure_unique_path
      (Example.base // "Documents" // "PDF" // "report.pdf") Example.collision
    = (Ok r, Example.collision) /\
    Spec.resolved Spec.file_candidate (tree Example.collision)
      (Example.base // "Documents" // "PDF" // "report.pdf") r.
Proof.
  destruct (proj1 (proj1 C2_collision_resolver
                     (Example.base // "Documents" // "PDF" // "report.pdf")
                     Example.collision)) as (o & E & Hres).
  destruct (proj1 (proj2 (proj2 C2_collision_resolver))
              Spec.file_candidate Example.collision _ o
              (fun _ => eq_refl) Hres) as (r & -> & Hr).
  exists r. split; [exact E | exact Hr].
Defined.

Example ensure_unique_examples :
  OrganizeGui.ensure_unique_path
    (Example.base // "Documents" // "PDF" // "report.pdf") Example.collision
  = (Ok (Example.base // "Documents" // "PDF" // "report (1).pdf"),
     Example.collision) /\
  OrganizeGui.ensure_unique_dir
    (Example.base // "Documents" // "PDF") Example.collision
  = (Ok (Example.base // "Documents" // "PDF (1)"), Example.collision) /\
  OrganizeGui.ensure_unique_path
    (Example.base // "Documents" // "PDF" // "fresh.pdf") Example.collision
  = (Ok (Example.base // "Documents" // "PDF" // "fresh.pdf"),
     Example.collision) /\
  OrganizeGui.ensure_unique_path
    (Example.base // "Documents" // "PDF" // Example.long_name) Example.long
  = (Raise (OSError (Example.base // "Documents" // "PDF"
                       // (string_of_list_ascii (repeat "a"%char 251)
                           ++ " (1).pdf")%string)),
     Example.long).
Proof. repeat split. Qed.

(** C10 — The two source variants define the same tables and the same
    five core functions: on every input and every world each pair returns
    the same result and leaves the same world (file tree and trace of
    effects). *)
Theorem C10_variants_agree :
  OrganizeGui.CATEGORY_MAP = OrganizeGuiRiot.CATEGORY_MAP /\
  OrganizeGui.LEGACY_FOLDER_REMAP = OrganizeGuiRiot.LEGACY_FOLDER_REMAP /\
  OrganizeGui.OTHER_FOLDER = OrganizeGuiRiot.OTHER_FOLDER /\
  (forall p, OrganizeGui.resolve_destination p
             = OrganizeGuiRiot.resolve_destination p) /\
  (forall target w, OrganizeGui.ensure_unique_path target w
                    = OrganizeGuiRiot.ensure_unique_path target w) /\
  (forall target w, OrganizeGui.ensure_unique_dir target w
                    = OrganizeGuiRiot.ensure_unique_dir target w) /\
  (forall base w, OrganizeGui.organize_folder base w
                  = OrganizeGuiRiot.organize_folder base w) /\
  (forall base moves w, OrganizeGui.relocate_legacy_folders base moves w
                        = OrganizeGuiRiot.relocate_legacy_folders base moves w).
Proof. repeat split. Qed.

Lemma exec_move_at_free_place pre src dst b post t t' :
  exec (pre ++ MoveEv src dst b :: post) t t' ->
  b = false /\ exists tm, exec pre t tm /\ lookup dst tm = None.
Proof.
  intros X. apply exec_app_inv in X as (tm & Xpre & Xrest).
  inversion Xrest as [| ? ? ? ? ? He _]; subst.
  inversion He as [| ps ks pd kd x es t0 Hsrc Hpd Hkd Hnp |]; subst.
  split; [reflexivity|]. exists tm. split; [exact Xpre|].
  now rewrite (lookup_child pd kd tm es Hpd).
Qed.

(** C3 — Every move [organize_folder] performs, in the first pass and in
    the legacy migration, goes to a path where nothing exists in the tree
    the effects before it lead to, so no move replaces an existing entry;
    the log records exactly these moves.  In the collision scenario the new [report.pdf] ends up as
    [Documents/PDF/report (1).pdf] and the old one is as it was. *)
Theorem C3_moves_never_overwrite :
  (forall (base : Path) (w w' : world) (o : outcome OrganizeGui.MoveLog),
     OrganizeGui.organize_folder base w = (o, w') ->
     exists evs,
       events w' = events w ++ evs /\
       no_overwrite evs /\
       (forall pre src dst b post,
          evs = pre ++ MoveEv src dst b :: post ->
          exists tm, exec pre (tree w) tm /\ lookup dst tm = None /\
                     forall tm', exec pre (tree w) tm' -> tm' = tm) /\
       (forall moves, o = Ok moves -> moves = moves_of evs)) /\
  (exists w',
     OrganizeGui.organize_folder Example.base Example.collision
     = (Ok [(Example.base // "report.pdf",
             Example.base // "Documents" // "PDF" // "report (1).pdf")], w') /\
     lookup (Example.base // "Documents" // "PDF" // "report (1).pdf") (tree w')
     = Some (File "new report") /\
     lookup (Example.base // "Documents" // "PDF" // "report.pdf") (tree w')
     = Some (File "old report") /\
     lookup (Example.base // "report.pdf") (tree w') = None).
Proof.
  split.
  - intros base w w' o Hrun.
    destruct (organize_folder_run base w)
      as (o1 & evs & w1 & e1 & e2 & R & _ & _ & _ & _ & Hlog & _).
    destruct (run_of_eq _ _ _ _ _ _ _ Hrun R) as [-> ->].
    destruct R as (_ & E & _ & X).
    exists evs. split; [exact E|]. split; [now apply (exec_no_overwrite _ _ _ X)|].
    split; [|exact Hlog].
    intros pre src dst b post ->.
    destruct (exec_move_at_free_place _ _ _ _ _ _ _ X) as [_ (tm & Xp & Hfree)].
    exists tm. split; [exact Xp|]. split; [exact Hfree|].
    intros tm' Xp'. exact (exec_det _ _ _ _ Xp' Xp).
  - eexists. split; [vm_compute; reflexivity|].
    repeat split; vm_compute; reflexivity.
Qed.

Lemma C3_witness :
  exists o w' evs,
    OrganizeGui.organize_folder Example.base Example.legacy = (o, w') /\
    events w' = events Example.legacy ++ evs /\
    no_overwrite evs.
Proof.
  eexists. eexists.
  destruct (proj1 C3_moves_never_overwrite Example.base Example.legacy
              (snd (OrganizeGui.organize_folder Example.base Example.legacy))
              (fst (OrganizeGui.organize_folder Example.base Example.legacy)))
    as (evs & E & Hno & _).
  - vm_compute. reflexivity.
  - exists evs. split; [vm_compute; reflexivity|]. split; [exact E | exact Hno].
Defined.





(** Where the moves of a run go from and to. *)
Lemma move_event_shape base t ns e1 e2 src dst b :
  (forall e, In e e1 -> top_event base t ns e) ->
  (forall e, In e e2 -> legacy_event base OrganizeGui.LEGACY_FOLDER_REMAP e) ->
  In (MoveEv src dst b) (e1 ++ e2) ->
  ((exists n, src = base // n /\ path_is_dir t (base // n) = false) \/
   (exists L d c, In (L, d) OrganizeGui.LEGACY_FOLDER_REMAP /\
                  src = base // L // c)) /\
  (exists dd x, In dd Dest.all /\ dst = (base ++ dd) // x).
Proof.
  intros H1 H2 Hin. apply in_app_or in Hin as [Hin | Hin].
  - destruct (H1 _ Hin) as [(q & d & [=] & _) | (n & x & _ & Hd & [= -> -> _])].
    split; [left; eauto|]. exists (Dest.dest_root n), x.
    split; [apply dest_root_in | reflexivity].
  - destruct (H2 _ Hin) as [(q & d & [=] & _)
                           | [(L & d & c & x & HL & [= -> -> _]) | (L & d & _ & [=])]].
    split; [right; eauto|]. exists (PurePath.of_string d), x.
    split; [now apply (legacy_dest L d) | reflexivity].
Qed.

Lemma source_is_no_target base dd x src :
  In dd Dest.all ->
  ((exists n, src = base // n) \/
   (exists L d c, In (L, d) OrganizeGui.LEGACY_FOLDER_REMAP /\
                  src = base // L // c)) ->
  src <> (base ++ dd) // x.
Proof.
  intros Hdd Hsrc E. destruct (dest_all_head dd Hdd) as (D & ds & -> & HD).
  destruct Hsrc as [(n & ->) | (L & d & c & HL & ->)].
  - apply app_inj_tail in E as [E _].
    rewrite <- (app_nil_r base) in E at 1. apply app_inv_head in E. discriminate.
  - apply app_inj_tail in E as [E _]. apply app_inv_head in E.
    injection E as -> _. now apply (legacy_dest D d).
Qed.

(** C5 — When [organize_folder] succeeds twice in a row on the same
    folder, no record of the second log has as its source a destination of
    the first log, and in neither run does a move replace an existing
    entry. *)
Theorem C5_second_run_moves_nothing_again
  (base : Path) (w w1 w2 : world) (m1 m2 : OrganizeGui.MoveLog) :
  OrganizeGui.organize_folder base w = (Ok m1, w1) ->
  OrganizeGui.organize_folder base w1 = (Ok m2, w2) ->
  (forall s2 d2 s1 d1, In (s2, d2) m2 -> In (s1, d1) m1 -> s2 <> d1) /\
  exists ev1 ev2,
    events w1 = events w ++ ev1 /\ events w2 = events w1 ++ ev2 /\
    no_overwrite ev1 /\ no_overwrite ev2 /\
    m1 = moves_of ev1 /\ m2 = moves_of ev2.
Proof.
  intros Hrun1 Hrun2.
  destruct (organize_folder_run base w)
    as (o & ev1 & w1' & a1 & a2 & R1 & _ & -> & Ha1 & Ha2 & Hlog1 & _).
  destruct (run_of_eq _ _ _ _ _ _ _ Hrun1 R1) as [-> ->].
  destruct (organize_folder_run base w1)
    as (o & ev2 & w2' & b1 & b2 & R2 & _ & -> & Hb1 & Hb2 & Hlog2 & _).
  destruct (run_of_eq _ _ _ _ _ _ _ Hrun2 R2) as [-> ->].
  split.
  - intros s2 d2 s1 d1 H2 H1.
    rewrite (Hlog2 m2 eq_refl) in H2. rewrite (Hlog1 m1 eq_refl) in H1.
    apply moves_of_in in H2 as [b2' H2]. apply moves_of_in in H1 as [b1' H1].
    destruct (move_event_shape _ _ _ _ _ _ _ _ Hb1 (fun e He => proj1 (Hb2 e He)) H2)
      as [Hsrc _].
    destruct (move_event_shape _ _ _ _ _ _ _ _ Ha1 (fun e He => proj1 (Ha2 e He)) H1)
      as [_ (dd & x & Hdd & ->)].
    apply source_is_no_target; [exact Hdd|].
    destruct Hsrc as [(n & -> & _) | H]; [left; eauto | now right].
  - destruct R1 as (_ & E1 & _ & X1). destruct R2 as (_ & E2 & _ & X2).
    exists (a1 ++ a2), (b1 ++ b2). repeat split; auto.
    + now apply (exec_no_overwrite _ _ _ X1).
    + now apply (exec_no_overwrite _ _ _ X2).
Qed.

Lemma C5_witness :
  OrganizeGui.organize_folder Example.base Example.mixed
  = (Ok (log_of (fst (OrganizeGui.organize_folder Example.base Example.mixed))),
     snd (OrganizeGui.organize_folder Example.base Example.mixed)) /\
  exists ev1 ev2,
    events (snd (OrganizeGui.organize_folder Example.base Example.mixed))
    = events Example.mixed ++ ev1 /\
    events (snd (OrganizeGui.organize_folder Example.base
                   (snd (OrganizeGui.organize_folder Example.base Example.mixed))))
    = events (snd (OrganizeGui.organize_folder Example.base Example.mixed)) ++ ev2 /\
    no_overwrite ev1 /\ no_overwrite ev2.
Proof.
  split; [vm_compute; reflexivity|].
  destruct (C5_second_run_moves_nothing_again Example.base Example.mixed
              (snd (OrganizeGui.organize_folder Example.base Example.mixed))
              (snd (OrganizeGui.organize_folder Example.base
                      (snd (OrganizeGui.organize_folder Example.base Example.mixed))))
              (log_of (fst (OrganizeGui.organize_folder Example.base Example.mixed)))
              (log_of (fst (OrganizeGui.organize_folder Example.base
                              (snd (OrganizeGui.organize_folder Example.base
                                      Example.mixed))))))
    as [_ (ev1 & ev2 & E1 & E2 & N1 & N2 & _)].
  - vm_compute. reflexivity.
  - vm_compute. reflexivity.
  - exists ev1, ev2. auto.
Defined.

(** C6 — The engine never deletes a file: whatever the outcome, the
    regular files of the final tree are those of the initial one.  A
    legacy folder is removed only after a move of each of its children out
    of it.  A removal that fails is swallowed: when the environment denies
    the removal the folder stays in place, and [organize_folder] still
    returns its log, complete, whenever no folder creation or move can
    fail, however many legacy folders cannot be removed (where the
    operating system refuses a path, the run may instead raise the error
    of that path); and whatever [organize_folder] raises, it is never one
    of the errors of a removal. *)
Theorem C6_no_file_deleted_and_cleanup_swallowed
  (base : Path) (w w' : world) (o : outcome OrganizeGui.MoveLog) :
  OrganizeGui.organize_folder base w = (o, w') ->
  exists evs,
    events w' = events w ++ evs /\
    (wf (tree w) = true -> Permutation (files (tree w')) (files (tree w))) /\
    (forall before p after,
       evs = before ++ RmdirEv p :: after ->
       (exists L d, In (L, d) OrganizeGui.LEGACY_FOLDER_REMAP /\ p = base // L) /\
       forall c, In c (listing (tree w) p) ->
         exists dst, In (MoveEv (p // c) dst false) before) /\
    (forall L d,
       In (L, d) OrganizeGui.LEGACY_FOLDER_REMAP ->
       In (base // L) (locked w) ->
       path_is_dir (tree w) (base // L) = true ->
       ~ In (RmdirEv (base // L)) evs /\
       path_is_dir (tree w') (base // L) = true) /\
    (wf (tree w) = true -> path_is_dir (tree w) base = true ->
     Dest.clear base (tree w) ->
     ((forall p, refused w p = false) ->
      exists moves, o = Ok moves /\ moves = moves_of evs) /\
     ((exists moves, o = Ok moves /\ moves = moves_of evs) \/
      (exists p, o = Raise (OSError p) /\ refused w p = true))) /\
    (forall ex, o = Raise ex -> ~ rmdir_error ex).
Proof.
  intros Hrun.
  assert (Hnr : forall ex, o = Raise ex -> ~ rmdir_error ex).
  { intros ex ->.
    exact (nr_organize_folder rmdir_error (fun _ H => H) base w ex w' Hrun). }
  destruct (organize_folder_run base w)
    as (o1 & evs & w1 & e1 & e2 & R & _ & -> & Hev1 & Hev2 & Hlog & _ & Hdr & Hrest & _).
  destruct (run_of_eq _ _ _ _ _ _ _ Hrun R) as [-> ->].
  destruct R as (_ & E & _ & X).
  exists (e1 ++ e2). split; [exact E|]. split; [|split; [|split; [|split; [|exact Hnr]]]].
  - intros Hwf. now apply (exec_files _ _ _ X).
  - intros before p after Hsplit. split.
    + assert (Hin : In (RmdirEv p) (e1 ++ e2))
        by (rewrite Hsplit; apply in_or_app; right; now left).
      apply in_app_or in Hin as [Hin | Hin].
      * exfalso. eapply top_event_no_rmdir; eauto.
      * destruct (Hev2 _ Hin) as [[(q & d & [=] & _)
                                  | [(L & d & c & x & _ & [=]) | (L & d & HL & [= ->])]] _].
        eauto.
    + intros c Hc.
      apply (drained_split _ [] _ _ _ _ (Hdr []) Hsplit c Hc).
  - intros L d HL Hlocked Hdir.
    assert (Hnorm : ~ In (RmdirEv (base // L)) (e1 ++ e2)).
    { intros Hin. apply in_app_or in Hin as [Hin | Hin].
      - eapply top_event_no_rmdir; eauto.
      - destruct (Hev2 _ Hin) as [_ Hnl]. now apply (Hnl (base // L)). }
    split; [exact Hnorm|].
    apply (exec_keeps_dir _ _ _ _ X Hdir).
    intros e p Hin Hp Hpre. apply in_app_or in Hin as [Hin | Hin].
    + destruct (top_event_removed _ _ _ _ _ (Hev1 e Hin) Hp) as (n & _ & -> & Hn).
      apply prefix_app_cancel in Hpre. apply prefix_cons_inv in Hpre as [-> _].
      congruence.
    + destruct (Hev2 _ Hin) as [[(q & d0 & -> & _)
                                | [(L' & d' & c & x & _ & ->) | (L' & d' & HL' & ->)]] _].
      * destruct Hp.
      * destruct Hp as [<-|[]]. destruct Hpre as [r Hr].
        apply (f_equal (@List.length string)) in Hr.
        rewrite !length_app in Hr. simpl in Hr. lia.
      * destruct Hp as [<-|[]].
        apply prefix_app_cancel in Hpre. apply prefix_cons_inv in Hpre as [-> _].
        apply Hnorm. apply in_or_app. now right.
  - intros Hwf Hb Hcl. destruct (Hrest Hwf) as [_ Hsucc].
    destruct (Hsucc Hb Hcl) as [[moves ->] | [p ->]].
    + assert (Hm : exists m, Ok moves = Ok m /\ m = moves_of (e1 ++ e2))
        by (exists moves; split; [reflexivity | now apply Hlog]).
      split; [intros _; exact Hm | now left].
    + pose proof (proj2 (honest_organize_folder base w _ _ Hrun) p eq_refl) as Hp.
      split; [intros Hfree; rewrite Hfree in Hp; discriminate|].
      right. exists p. split; [reflexivity | exact Hp].
Qed.

Lemma clearb_sound base t : clearb base t = true -> Dest.clear base t.
Proof.
  unfold clearb, Dest.clear. rewrite forallb_forall. intros H d q Hd [r Hq].
  specialize (H d Hd). rewrite forallb_forall in H.
  assert (Hin : In (List.length q) (seq 0 (S (List.length (base ++ d))))).
  { apply in_seq. rewrite Hq, length_app. lia. }
  specialize (H (List.length q) Hin).
  rewrite Hq, firstn_app, Nat.sub_diag, firstn_all in H.
  cbn [firstn] in H. rewrite app_nil_r in H. now apply negb_true_iff.
Qed.

Lemma C6_witness :
  OrganizeGui.organize_folder Example.base Example.legacy_locked
  = (fst (OrganizeGui.organize_folder Example.base Example.legacy_locked),
     snd (OrganizeGui.organize_folder Example.base Example.legacy_locked)) /\
  exists evs,
    events (snd (OrganizeGui.organize_folder Example.base Example.legacy_locked))
    = events Example.legacy_locked ++ evs /\
    Permutation
      (files (tree (snd (OrganizeGui.organize_folder Example.base
                           Example.legacy_locked))))
      (files (tree Example.legacy_locked)) /\
    ~ In (RmdirEv (Example.base // "Excel")) evs /\
    path_is_dir
      (tree (snd (OrganizeGui.organize_folder Example.base Example.legacy_locked)))
      (Example.base // "Excel") = true /\
    exists moves,
      fst (OrganizeGui.organize_folder Example.base Example.legacy_locked)
      = Ok moves /\ moves = moves_of evs.
Proof.
  split; [vm_compute; reflexivity|].
  destruct (C6_no_file_deleted_and_cleanup_swallowed
              Example.base Example.legacy_locked
              (snd (OrganizeGui.organize_folder Example.base Example.legacy_locked))
              (fst (OrganizeGui.organize_folder Example.base Example.legacy_locked)))
    as (evs & E & Hfiles & _ & Hlock & Hok & _).
  - vm_compute. reflexivity.
  - exists evs. split; [exact E|].
    split; [apply Hfiles; vm_compute; reflexivity|].
    destruct (Hlock "Excel" "Documents/Excel") as [H1 H2].
    + simpl. tauto.
    + simpl. tauto.
    + vm_compute. reflexivity.
    + split; [exact H1|]. split; [exact H2|].
      destruct Hok as [Hok _];
        [vm_compute; reflexivity | vm_compute; reflexivity | |].
      * apply clearb_sound. vm_compute. reflexivity.
      * apply Hok. intros p. reflexivity.
Defined.

(** C7, as stated, fails: a base folder that exists and can be listed,
    but holds a regular file named [Other], makes the folder creation
    raise. *)
Lemma C7_counterexample :
  ~ (forall (base : Path) (w : world),
       wf (tree w) = true ->
       path_is_dir (tree w) base = true ->
       exists moves w', OrganizeGui.organize_folder base w = (Ok moves, w')).
Proof.
  intros H.
  destruct (H Example.base Example.blocked) as (moves & w' & E).
  - vm_compute. reflexivity.
  - vm_compute. reflexivity.
  - vm_compute in E. discriminate.
Qed.

(** C7, amended — [organize_folder] raises when the base folder cannot be
    listed, and then does nothing.  When the base folder is a directory (of
    a well-formed tree) in which no destination folder, and no folder above
    one, exists as a regular file, it returns a log, unless the operating
    system refuses a path the run names, such as a numbered candidate whose
    name is too long: then that error gets out.  Where no path is refused
    it returns a log.  In the example the base folder can be listed and
    every destination is clear, yet the file of 255 bytes whose name is
    taken in [Documents/PDF] makes the run raise. *)
Theorem C7_returns_log_when_destinations_are_clear (base : Path) (w : world) :
  (path_is_dir (tree w) base = false ->
   exists ex w',
     OrganizeGui.organize_folder base w = (Raise ex, w') /\
     tree w' = tree w /\ events w' = events w) /\
  (wf (tree w) = true ->
   path_is_dir (tree w) base = true ->
   Dest.clear base (tree w) ->
   (exists moves w', OrganizeGui.organize_folder base w = (Ok moves, w')) \/
   (exists p w',
      OrganizeGui.organize_folder base w = (Raise (OSError p), w') /\
      refused w p = true)) /\
  (wf (tree w) = true ->
   path_is_dir (tree w) base = true ->
   Dest.clear base (tree w) ->
   (forall p, refused w p = false) ->
   exists moves w', OrganizeGui.organize_folder base w = (Ok moves, w')) /\
  (wf (tree Example.long) = true /\
   path_is_dir (tree Example.long) Example.base = true /\
   Dest.clear Example.base (tree Example.long) /\
   exists w',
     OrganizeGui.organize_folder Example.base Example.long
     = (Raise (OSError (Example.base // "Documents" // "PDF"
                          // (string_of_list_ascii (repeat "a"%char 251)
                              ++ " (1).pdf")%string)), w') /\
     tree w' = tree Example.long).
Proof.
  destruct (organize_folder_run base w)
    as (o & evs & w1 & e1 & e2 & R & _ & _ & _ & _ & _ & Hnodir & _ & Hrest & _).
  assert (Hsome : wf (tree w) = true ->
            path_is_dir (tree w) base = true ->
            Dest.clear base (tree w) ->
            (exists moves w', OrganizeGui.organize_folder base w = (Ok moves, w')) \/
            (exists p w',
               OrganizeGui.organize_folder base w = (Raise (OSError p), w') /\
               refused w p = true)).
  { intros Hwf Hb Hcl. destruct (Hrest Hwf) as [_ Hsucc].
    destruct R as (Hrun & _).
    destruct (Hsucc Hb Hcl) as [[moves ->] | [p ->]].
    - left. exists moves, w1. exact Hrun.
    - right. exists p, w1. split; [exact Hrun|].
      exact (proj2 (honest_organize_folder base w _ _ Hrun) p eq_refl). }
  split; [|split; [exact Hsome|split]].
  - intros Hb. destruct (Hnodir Hb) as (ex & -> & ->).
    destruct R as (Hrun & E & _ & X). exists ex, w1.
    split; [exact Hrun|]. split; [now apply exec_nil_inv in X|].
    now rewrite app_nil_r in E.
  - intros Hwf Hb Hcl Hfree.
    destruct (Hsome Hwf Hb Hcl) as [H | (p & w' & _ & Hp)]; [exact H|].
    rewrite Hfree in Hp. discriminate.
  - split; [vm_compute; reflexivity|]. split; [vm_compute; reflexivity|].
    split; [apply clearb_sound; vm_compute; reflexivity|].
    eexists. split; vm_compute; reflexivity.
Qed.

Lemma C7_witness :
  wf (tree Example.mixed) = true /\
  path_is_dir (tree Example.mixed) Example.base = true /\
  exists moves w',
    OrganizeGui.organize_folder Example.base Example.mixed = (Ok moves, w').
Proof.
  split; [vm_compute; reflexivity|]. split; [vm_compute; reflexivity|].
  apply (proj1 (proj2 (proj2 (C7_returns_log_when_destinations_are_clear
                                Example.base Example.mixed)))).
  - vm_compute. reflexivity.
  - vm_compute. reflexivity.
  - apply clearb_sound. vm_compute. reflexivity.
  - intros p. reflexivity.
Defined.

(** C8, as stated, fails: a top-level directory named [Other] is no
    legacy folder, yet the run moves files into it. *)
Lemma C8_counterexample :
  ~ (forall (base : Path) (w w' : world) (moves : OrganizeGui.MoveLog)
            (D : string),
       OrganizeGui.organize_folder base w = (Ok moves, w') ->
       path_is_dir (tree w) (base // D) = true ->
       ~ In D Dest.legacy_names ->
       lookup (base // D) (tree w') = lookup (base // D) (tree w)).
Proof.
  intros H.
  assert (E : lookup (Example.base // "Other")
                (tree (snd (OrganizeGui.organize_folder Example.base
                              Example.other_dir)))
              = lookup (Example.base // "Other") (tree Example.other_dir)).
  { apply (H Example.base Example.other_dir _
             (log_of (fst (OrganizeGui.organize_folder Example.base
                             Example.other_dir))) "Other").
    - vm_compute. reflexivity.
    - vm_compute. reflexivity.
    - simpl. intros K. repeat (destruct K as [K|K]; [discriminate|]). exact K. }
  vm_compute in E. discriminate.
Qed.

(** C8, amended — In the first pass every immediate sub-directory of the
    base folder is skipped: it is still a directory afterwards, and no move
    of the pass (hence no record of its log) has it, or anything in it, as
    its source.  Over the whole run, a top-level directory whose name is
    neither a legacy name nor one of the folders the engine fills
    ([Documents], [Media], [Other]) is left exactly as it was, and no
    record of the log has a source or a destination at or under it. *)
Theorem C8_directories_are_skipped :
  (forall (base : Path) (w w1 : world) (o : outcome OrganizeGui.MoveLog)
          (D : string),
     OrganizeGui.organize_top_level base w = (o, w1) ->
     path_is_dir (tree w) (base // D) = true ->
     exists evs,
       events w1 = events w ++ evs /\
       path_is_dir (tree w1) (base // D) = true /\
       (forall src dst b, In (MoveEv src dst b) evs -> ~ prefix (base // D) src) /\
       (forall moves, o = Ok moves -> moves = moves_of evs)) /\
  (forall (base : Path) (w w' : world) (o : outcome OrganizeGui.MoveLog)
          (D : string),
     OrganizeGui.organize_folder base w = (o, w') ->
     path_is_dir (tree w) (base // D) = true ->
     ~ In D Dest.legacy_names ->
     ~ In D Dest.roots ->
     lookup (base // D) (tree w') = lookup (base // D) (tree w) /\
     forall moves, o = Ok moves ->
       forall s t, In (s, t) moves ->
         ~ prefix (base // D) s /\ ~ prefix (base // D) t).
Proof.
  split.
  - intros base w w1 o D Hrun Hdir.
    destruct (organize_top_level_run base w)
      as (o1 & e1 & w1' & R & _ & Hev & Hlog & _).
    destruct (run_of_eq _ _ _ _ _ _ _ Hrun R) as [-> ->].
    destruct R as (_ & E & _ & X).
    assert (Hsrc : forall e p, In e e1 -> In p (removed e) -> ~ prefix (base // D) p).
    { intros e p Hin Hp Hpre.
      destruct (top_event_removed _ _ _ _ _ (Hev e Hin) Hp) as (n & _ & -> & Hn).
      apply prefix_app_cancel in Hpre. apply prefix_cons_inv in Hpre as [-> _].
      congruence. }
    exists e1. split; [exact E|]. split; [|split; [|exact Hlog]].
    + apply (exec_keeps_dir _ _ _ _ X Hdir).
      intros e p Hin Hp Hpre.
      destruct (top_event_removed _ _ _ _ _ (Hev e Hin) Hp) as (n & _ & -> & Hn).
      apply prefix_app_cancel in Hpre. apply prefix_cons_inv in Hpre as [-> _].
      congruence.
    + intros src dst b Hin. apply (Hsrc (MoveEv src dst b) src Hin). now left.
  - intros base w w' o D Hrun Hdir Hnl Hnr.
    destruct (organize_folder_run base w)
      as (o1 & evs & w1 & e1 & e2 & R & _ & -> & Hev1 & Hev2 & Hlog & _).
    destruct (run_of_eq _ _ _ _ _ _ _ Hrun R) as [-> ->].
    destruct R as (_ & E & _ & X). split.
    + pose proof Hdir as Hd. apply is_dir_iff_lookup in Hd as [es Hd].
      rewrite Hd. apply (exec_quiet _ _ _ _ _ X Hd).
      intros e Hin. apply in_app_or in Hin as [Hin | Hin].
      * now apply (top_event_quiet base (tree w) _ e D (Hev1 e Hin)).
      * apply (legacy_event_quiet_dir base _ legacy_dest e D); auto.
        now apply Hev2.
    + intros moves Ho s t Hin. rewrite (Hlog moves Ho) in Hin.
      apply moves_of_in in Hin as [b Hin].
      destruct (move_event_shape _ _ _ _ _ _ _ _ Hev1
                  (fun e He => proj1 (Hev2 e He)) Hin)
        as [Hsrc (dd & x & Hdd & ->)].
      split.
      * destruct Hsrc as [(n & -> & Hn) | (L & d & c & HL & ->)]; intros Hpre.
        -- apply prefix_app_cancel in Hpre.
           apply prefix_cons_inv in Hpre as [-> _]. congruence.
        -- rewrite <- (app_assoc base [L] [c]) in Hpre.
           apply prefix_app_cancel in Hpre. simpl in Hpre.
           apply prefix_cons_inv in Hpre as [-> _].
           apply Hnl. apply (in_map fst) in HL. exact HL.
      * intros Hpre. apply Hnr. now apply (prefix_into_dest base D dd x).
Qed.

Lemma C8_witness :
  OrganizeGui.organize_folder Example.base Example.mixed
  = (fst (OrganizeGui.organize_folder Example.base Example.mixed),
     snd (OrganizeGui.organize_folder Example.base Example.mixed)) /\
  lookup (Example.base // "Projects")
    (tree (snd (OrganizeGui.organize_folder Example.base Example.mixed)))
  = lookup (Example.base // "Projects") (tree Example.mixed).
Proof.
  split; [vm_compute; reflexivity|].
  apply (proj2 C8_directories_are_skipped Example.base Example.mixed
           (snd (OrganizeGui.organize_folder Example.base Example.mixed))
           (fst (OrganizeGui.organize_folder Example.base Example.mixed))
           "Projects").
  - vm_compute. reflexivity.
  - vm_compute. reflexivity.
  - simpl. intros K. repeat (destruct K as [K|K]; [discriminate|]). exact K.
  - simpl. intros K. repeat (destruct K as [K|K]; [discriminate|]). exact K.
Defined.

End Claims.

(** * Part XIV: further properties *)

(** ** The preview *)

Section Preview.

Import Tree.

Lemma preview_entry_eq base n moves :
  OrganizeGuiRiot.preview_entry base (base // n) moves =
  (d <- Fs.is_dir (base // n) ;;
   if d then ret moves
   else
     target <- OrganizeGui.ensure_unique_path ((base ++ Dest.dest_root n) // n) ;;
     ret (moves ++ [(base // n, target)])).
Proof.
  unfold OrganizeGuiRiot.preview_entry, Dest.dest_root.
  change OrganizeGuiRiot.resolve_destination with OrganizeGui.resolve_destination.
  now rewrite resolve_destination_child, name_child.
Qed.

(** The loop of the preview: nothing changes; each entry that is no
    directory gets its record, unless a path is refused. *)
Lemma preview_entries base ns :
  forall moves w,
  exists o,
    for_each (map (fun n => base // n) ns) (OrganizeGuiRiot.preview_entry base)
      moves w = (o, w) /\
    ((exists pm,
        o = Ok (moves ++ pm) /\
        (forall n, In n ns -> refused w (base // n) = false) /\
        Forall2 (previewed (tree w) base)
          (filter (fun n => negb (path_is_dir (tree w) (base // n))) ns) pm) \/
     refusal o).
Proof.
  induction ns as [|n ns IH]; intros moves w.
  - exists (Ok moves). split; [reflexivity|]. left. exists [].
    split; [now rewrite app_nil_r|]. split; [intros n []|constructor].
  - simpl map. rewrite for_each_cons. unfold bind at 1.
    rewrite preview_entry_eq. unfold bind at 1.
    destruct (refused w (base // n)) eqn:Hacc.
    { rewrite (is_dir_refused _ _ Hacc). eexists. split; [reflexivity|].
      right. eexists. reflexivity. }
    rewrite (is_dir_accepted _ _ Hacc).
    simpl filter. destruct (path_is_dir (tree w) (base // n)) eqn:Ed; simpl.
    + destruct (IH moves w) as (o & Hrun & Ho). exists o. split; [exact Hrun|].
      destruct Ho as [(pm & -> & Hns & Hall) | Ho]; [left | now right].
      exists pm. split; [reflexivity|]. split; [|exact Hall].
      intros n0 [<- | Hn0]; auto.
    + destruct (ensure_unique_path_spec ((base ++ Dest.dest_root n) // n) w)
        as [(r & Hr & Hres & _) | (p & Hr & _)]; unfold bind at 1; rewrite Hr.
      * simpl.
        destruct (IH (moves ++ [(base // n, r)]) w) as (o & Hrun & Ho).
        exists o. split; [exact Hrun|].
        destruct Ho as [(pm & -> & Hns & Hall) | Ho]; [left | now right].
        exists ((base // n, r) :: pm). split; [now rewrite <- app_assoc|].
        split; [intros n0 [<- | Hn0]; auto|].
        constructor; [split; [reflexivity | exact Hres] | exact Hall].
      * eexists. split; [reflexivity|]. right. eexists. reflexivity.
Qed.

Lemma preview_organization_run base w es :
  refused w base = false ->
  lookup base (tree w) = Some (Dir es) ->
  exists o,
    OrganizeGuiRiot.preview_organization base w = (o, w) /\
    ((exists pm,
        o = Ok pm /\
        (forall n, In n (listing (tree w) base) -> refused w (base // n) = false) /\
        Forall2 (previewed (tree w) base) (top_level_files (tree w) base) pm) \/
     refusal o).
Proof.
  intros Hacc Hb. unfold OrganizeGuiRiot.preview_organization, bind, Fs.iterdir.
  rewrite Hacc, Hb.
  destruct (preview_entries base (map fst es) [] w) as (o & Hrun & Ho).
  rewrite map_map in Hrun. exists o. split; [exact Hrun|].
  unfold top_level_files, listing. now rewrite Hb.
Qed.

(** A preview that returns has listed a directory that was not refused. *)
Lemma preview_organization_ok base w moves w' :
  OrganizeGuiRiot.preview_organization base w = (Ok moves, w') ->
  w' = w /\
  refused w base = false /\
  path_is_dir (tree w) base = true /\
  (forall n, In n (listing (tree w) base) -> refused w (base // n) = false) /\
  Forall2 (previewed (tree w) base) (top_level_files (tree w) base) moves.
Proof.
  intros Hrun.
  destruct (refused w base) eqn:Hacc.
  { unfold OrganizeGuiRiot.preview_organization, bind, Fs.iterdir in Hrun.
    rewrite Hacc in Hrun. discriminate. }
  destruct (lookup base (tree w)) as [[d|es]|] eqn:Hb;
    try (unfold OrganizeGuiRiot.preview_organization, bind, Fs.iterdir in Hrun;
         rewrite Hacc, Hb in Hrun; discriminate).
  destruct (preview_organization_run base w es Hacc Hb) as (o & Hrun' & Ho).
  rewrite Hrun' in Hrun. injection Hrun as -> <-.
  destruct Ho as [(pm & [= <-] & Hns & Hall) | (p & [=])].
  split; [reflexivity|]. split; [reflexivity|].
  split; [unfold path_is_dir; now rewrite Hb|]. auto.
Qed.

End Preview.


(** X2 — The log [preview_organization] returns has one record for each
    top-level entry that is no directory, in listing order, and none for
    anything else (no directory, nothing inside a legacy folder).  The
    destination of a record is what the collision resolver answers in the
    tree as it is: a sibling of [<category folder>/<name>] that does not
    exist. *)
Theorem X2_preview_lists_top_level_files
  (base : Path) (w w' : world) (moves : OrganizeGuiRiot.MoveLog) :
  OrganizeGuiRiot.preview_organization base w = (Ok moves, w') ->
  Forall2 (previewed (tree w) base) (top_level_files (tree w) base) moves /\
  map fst moves = map (fun n => base // n) (top_level_files (tree w) base) /\
  forall src dst, In (src, dst) moves ->
    Tree.path_exists (tree w) dst = false /\
    exists n x, src = base // n /\ dst = (base ++ Dest.dest_root n) // x.
Proof.
  intros Hrun.
  destruct (preview_organization_ok base w moves w' Hrun)
    as (_ & _ & _ & _ & Hall).
  split; [exact Hall|]. split.
  - clear -Hall. induction Hall as [|n rec ns pm [Hf _] _ IH]; [reflexivity|].
    simpl. now rewrite Hf, IH.
  - intros src dst Hin. clear -Hall Hin.
    induction Hall as [|n rec ns pm [Hf Hres] _ IH]; [destruct Hin|].
    destruct Hin as [-> | Hin]; [|auto]. simpl in Hf, Hres.
    split; [apply Hres|].
    destruct (file_candidate_sibling _ _ _ _ Hres) as (x & -> & _).
    exists n, x. auto.
Qed.

Lemma X2_witness :
  exists moves w',
    OrganizeGuiRiot.preview_organization Example.base Example.mixed = (Ok moves, w') /\
    map fst moves
    = map (fun n => Example.base // n)
        (top_level_files (tree Example.mixed) Example.base).
Proof.
  eexists. eexists. split; [vm_compute; reflexivity|].
  apply (X2_preview_lists_top_level_files Example.base Example.mixed
           (snd (OrganizeGuiRiot.preview_organization Example.base Example.mixed))).
  vm_compute. reflexivity.
Defined.

(** ** More on what a trace of the engine leaves alone *)

Section MoreFrames.

Import Tree.

(** No directory appears except at or under a created path. *)
Lemma effect_not_dir e t t' q :
  effect e t t' ->
  path_is_dir t q = false ->
  (forall p, In p (created e) -> ~ prefix p q) ->
  path_is_dir t' q = false.
Proof.
  unfold path_is_dir. intros H Hq Hcre.
  destruct H as [par k es t Hpar Hk | ps ks pd kd x es t Hsrc Hpd Hkd Hnp | par k t Hp].
  - destruct (lookup_add_cases par k (Dir []) t es q Hpar)
      as [(r & -> & E) | [(Ha & es1 & es2 & E1 & E2) | (_ & _ & E)]].
    + exfalso. apply (Hcre (par // k)); [now left | apply prefix_app].
    + rewrite E1 in Hq. discriminate.
    + now rewrite E.
  - destruct (lookup_child_dir ps ks t x Hsrc) as (ess & Hps & _).
    destruct (move_mid ps ks pd kd x es t Hsrc Hpd Hkd Hnp) as (es1 & Hpd1 & Hkd1).
    assert (Hq1 : match lookup q (del (ps // ks) t) with
                  | Some (Dir _) => true | _ => false end = false).
    { destruct (lookup_del_cases ps ks t ess q Hps)
        as [[_ E] | [(Ha & e1 & e2 & E1 & E2) | (_ & _ & E)]].
      - now rewrite E.
      - rewrite E1 in Hq. discriminate.
      - now rewrite E. }
    destruct (lookup_add_cases pd kd x (del (ps // ks) t) es1 q Hpd1)
      as [(r & -> & _) | [(Ha & e1 & e2 & E1 & E2) | (_ & _ & E)]].
    + exfalso. apply (Hcre (pd // kd)); [now left | apply prefix_app].
    + rewrite E1 in Hq1. discriminate.
    + now rewrite E.
  - destruct (lookup_child_dir par k t _ Hp) as (es & Hpar & _).
    destruct (lookup_del_cases par k t es q Hpar)
      as [[_ E] | [(Ha & e1 & e2 & E1 & E2) | (_ & _ & E)]].
    + now rewrite E.
    + rewrite E1 in Hq. discriminate.
    + now rewrite E.
Qed.

Lemma exec_not_dir evs t t' q :
  exec evs t t' ->
  path_is_dir t q = false ->
  (forall e p, In e evs -> In p (created e) -> ~ prefix p q) ->
  path_is_dir t' q = false.
Proof.
  intros H. induction H as [|e evs t t1 t2 He Hr IH]; intros Hq Hcre.
  - exact Hq.
  - apply IH.
    + apply (effect_not_dir e t t1 q He Hq). intros p. apply Hcre. now left.
    + intros e' p Hin. apply Hcre. now right.
Qed.

Lemma listing_not_dir t p : path_is_dir t p = false -> listing t p = [].
Proof.
  unfold path_is_dir, listing. destruct (lookup p t) as [[d|es]|]; auto.
  discriminate.
Qed.

Lemma top_event_engine base t ns e : top_event base t ns e -> engine_event base e.
Proof.
  intros [(q & d & -> & Hd & Hq) | (n & x & _ & _ & ->)]; split.
  - intros p [<-|[]]. left. eauto.
  - intros p [].
  - intros p [<-|[]]. right. exists (Dest.dest_root n), x.
    split; [apply dest_root_in | reflexivity].
  - intros p [<-|[]]. exists n, []. reflexivity.
Qed.

Lemma legacy_event_engine base tbl e :
  (forall L d, In (L, d) tbl -> In (PurePath.of_string d) Dest.all) ->
  legacy_event base tbl e -> engine_event base e.
Proof.
  intros Htbl [(q & d & -> & Hd & Hq)
              | [(L & d & c & x & Hin & ->) | (L & d & Hin & ->)]]; split.
  - intros p [<-|[]]. left. eauto.
  - intros p [].
  - intros p [<-|[]]. right. exists (PurePath.of_string d), x.
    split; [eauto | reflexivity].
  - intros p [<-|[]]. exists L, [c]. now rewrite <- app_assoc.
  - intros p [].
  - intros p [<-|[]]. exists L, []. reflexivity.
Qed.

Lemma engine_removed_not_base base e p :
  engine_event base e -> In p (removed e) -> ~ prefix p base.
Proof.
  intros [_ Hr] Hp [s Hs]. destruct (Hr p Hp) as (n & r & ->).
  apply (f_equal (@List.length string)) in Hs.
  rewrite !length_app in Hs. simpl in Hs. lia.
Qed.

(** While the base folder is a directory, the engine creates nothing at or
    under a top-level name that is no destination root. *)
Lemma engine_created_not_under base evs t t' D r :
  exec evs t t' ->
  path_is_dir t base = true ->
  (forall e, In e evs -> engine_event base e) ->
  ~ In D Dest.roots ->
  forall e p, In e evs -> In p (created e) -> ~ prefix p (base ++ D :: r).
Proof.
  intros X Hb Hev HD e p Hin Hp Hpre.
  destruct (Hev e Hin) as [Hc _].
  destruct (Hc p Hp) as [[-> (d & Hd & Hq)] | (d & x & Hd & ->)].
  - assert (Hnb : ~ prefix p base).
    { apply (exec_mkdir_not_above evs t t' base X Hb); [|exact Hin].
      intros e0 p0 Hin0 Hp0. now apply (engine_removed_not_base base e0 p0 (Hev e0 Hin0)). }
    destruct (prefix_comparable p base (base ++ D :: r) Hpre (prefix_app _ _))
      as [Hc1 | [s ->]]; [contradiction|].
    apply prefix_app_cancel in Hq. apply prefix_app_cancel in Hpre.
    destruct s as [|a s].
    + apply Hnb. rewrite app_nil_r. apply prefix_refl.
    + destruct (dest_all_head d Hd) as (D' & ds & -> & HD').
      apply prefix_cons_inv in Hq as [-> _].
      apply prefix_cons_inv in Hpre as [-> _]. contradiction.
  - rewrite <- app_assoc in Hpre. apply prefix_app_cancel in Hpre.
    destruct (dest_all_head d Hd) as (D' & ds & -> & HD').
    simpl in Hpre. apply prefix_cons_inv in Hpre as [-> _]. contradiction.
Qed.

(** A top-level name that is no destination root and no directory does
    not become a directory. *)
Lemma engine_not_dir_stays base evs t t' D :
  exec evs t t' ->
  path_is_dir t base = true ->
  (forall e, In e evs -> engine_event base e) ->
  ~ In D Dest.roots ->
  path_is_dir t (base // D) = false ->
  path_is_dir t' (base // D) = false.
Proof.
  intros X Hb Hev HD Hnd. apply (exec_not_dir evs t t' _ X Hnd).
  apply (engine_created_not_under base evs t t' D [] X Hb Hev HD).
Qed.

Lemma engine_base_stays base evs t t' :
  exec evs t t' ->
  (forall e, In e evs -> engine_event base e) ->
  path_is_dir t base = true -> path_is_dir t' base = true.
Proof.
  intros X Hev Hb. apply (exec_keeps_dir evs t t' base X Hb).
  intros e p Hin Hp. now apply (engine_removed_not_base base e p (Hev e Hin)).
Qed.

End MoreFrames.

(** ** What exactly is moved *)

Section Sources.

Import Tree.

Lemma moves_of_mkdirs p t mk : mkdirs_under p t mk -> moves_of mk = [].
Proof.
  induction mk as [|e mk IH]; intros H; [reflexivity|].
  destruct (H e (or_introl eq_refl)) as (q & -> & _). simpl.
  apply IH. intros e' Hin. apply H. now right.
Qed.

Lemma flat_map_ext_in {A B} (f g : A -> list B) l :
  (forall a, In a l -> f a = g a) -> flat_map f l = flat_map g l.
Proof.
  induction l as [|a l IH]; intros H; [reflexivity|].
  simpl. rewrite (H a (or_introl eq_refl)), IH; [reflexivity|].
  intros b Hb. apply H. now right.
Qed.

(** The first pass moves the entries that are no directories, each once,
    in listing order. *)
Lemma organize_entries_sources base ns :
  NoDup ns ->
  forall moves w moves' w',
  (forall n, In n ns -> lookup (base // n) (tree w) <> None) ->
  for_each (map (fun n => base // n) ns) (OrganizeGui.organize_entry base) moves w
  = (Ok moves', w') ->
  map fst moves' =
  map fst moves ++
  map (fun n => base // n)
    (filter (fun n => negb (path_is_dir (tree w) (base // n))) ns).
Proof.
  induction 1 as [|n ns Hn Hnd IH]; intros moves w moves' w' Hex Hrun.
  - simpl in Hrun. injection Hrun as <- <-. simpl. now rewrite app_nil_r.
  - simpl map in Hrun. rewrite for_each_cons in Hrun. unfold bind in Hrun at 1.
    destruct (refused w (base // n)) eqn:Hacc.
    { rewrite (organize_entry_refused _ _ _ _ Hacc) in Hrun. discriminate. }
    destruct (organize_entry_run base n moves w Hacc)
      as (o & e1 & w1 & R & _ & Hdir & Hfile).
    pose proof R as (E & _ & _ & X). rewrite E in Hrun.
    assert (Hstep : exists m1, o = Ok m1 /\
              (forall e p, In e e1 -> In p (removed e) -> p = base // n) /\
              map fst m1 = map fst moves ++
                map (fun n => base // n)
                  (filter (fun n => negb (path_is_dir (tree w) (base // n))) [n])).
    { simpl filter. destruct (path_is_dir (tree w) (base // n)) eqn:Ed.
      - destruct (Hdir eq_refl) as [-> ->]. exists moves.
        split; [reflexivity|]. split; [intros e p []|]. simpl. now rewrite app_nil_r.
      - destruct (Hfile eq_refl) as (mk & Hmk & [(x & -> & ->) | (e & -> & _)]);
          [|discriminate].
        eexists. split; [reflexivity|]. split.
        + intros e p Hin Hp. apply in_app_or in Hin as [Hin | [<-|[]]].
          * exfalso. eapply mkdirs_no_removed; eauto.
          * now destruct Hp as [<-|[]].
        + now rewrite map_app. }
    destruct Hstep as (m1 & -> & Hrem & Hm1).
    assert (Hkeep : forall n', In n' ns ->
              lookup (base // n') (tree w1) <> None /\
              path_is_dir (tree w1) (base // n') = path_is_dir (tree w) (base // n')).
    { intros n' Hn'.
      assert (Hsib : forall e p, In e e1 -> In p (removed e) -> ~ prefix p (base // n')).
      { intros e p Hin Hp. rewrite (Hrem e p Hin Hp).
        apply not_prefix_siblings. intros ->. contradiction. }
      destruct (lookup (base // n') (tree w)) as [[d|es]|] eqn:El.
      - pose proof (exec_keeps_file e1 _ _ _ d X El Hsib) as El1.
        unfold path_is_dir. rewrite El, El1. split; [discriminate | reflexivity].
      - assert (Hd : path_is_dir (tree w) (base // n') = true)
          by (unfold path_is_dir; now rewrite El).
        pose proof (exec_keeps_dir e1 _ _ _ X Hd Hsib) as Hd1.
        rewrite Hd, Hd1. split; [|reflexivity].
        unfold path_is_dir in Hd1. destruct (lookup (base // n') (tree w1)); discriminate.
      - exfalso. apply (Hex n'); [now right | exact El]. }
    rewrite (IH m1 w1 moves' w' (fun n' Hn' => proj1 (Hkeep n' Hn')) Hrun), Hm1.
    rewrite <- app_assoc, <- map_app. f_equal. f_equal.
    change (n :: ns) with ([n] ++ ns). rewrite filter_app. f_equal.
    apply filter_ext_in. intros n' Hn'. now rewrite (proj2 (Hkeep n' Hn')).
Qed.

Lemma organize_top_level_sources base w m1 w1 :
  wf (tree w) = true ->
  OrganizeGui.organize_top_level base w = (Ok m1, w1) ->
  map fst m1 = map (fun n => base // n) (top_level_files (tree w) base).
Proof.
  intros Hwf Hrun. unfold OrganizeGui.organize_top_level, bind, Fs.iterdir in Hrun.
  destruct (refused w base); [discriminate|].
  destruct (lookup base (tree w)) as [[d|es]|] eqn:Hb; try discriminate.
  assert (Hl : map (fun e : string * node => base // fst e) es
               = map (fun n => base // n) (listing (tree w) base))
    by (unfold listing; now rewrite Hb, map_map).
  rewrite Hl in Hrun.
  rewrite (organize_entries_sources base _ (wf_listing_nodup _ base Hwf)
             [] w m1 w1 (fun n => listing_child_exists _ _ n) Hrun).
  reflexivity.
Qed.

(** One legacy folder: its children, each once, in listing order. *)
Lemma relocate_legacy_sources base L d moves w moves' w' :
  In (PurePath.of_string d) Dest.all -> ~ In L Dest.roots ->
  OrganizeGui.relocate_legacy base (L, d) moves w = (Ok moves', w') ->
  map fst moves' =
  map fst moves ++ map (fun c => base // L // c) (listing (tree w) (base // L)).
Proof.
  intros Hd HL Hrun.
  destruct (refused w (base // L)) eqn:Hacc.
  { rewrite (relocate_legacy_refused _ _ _ _ _ Hacc) in Hrun. discriminate. }
  destruct (relocate_legacy_run base L d Hd HL moves w Hacc)
    as (o & evs & w1 & R & _ & Hlog & Hnodir & Hdir & _).
  destruct (run_of_eq _ _ _ _ _ _ _ Hrun R) as [-> ->].
  destruct (path_is_dir (tree w) (base // L)) eqn:Ed.
  - destruct (Hdir eq_refl) as (mk & mv & rm & -> & Hmk & Hmv & Hrm & Hsrcs & _).
    rewrite (Hlog _ eq_refl), map_app, !moves_of_app, (moves_of_mkdirs _ _ _ Hmk).
    assert (Hz : moves_of rm = []) by (destruct Hrm as [-> | (-> & _)]; reflexivity).
    rewrite Hz, app_nil_r. simpl. now rewrite (Hsrcs _ eq_refl).
  - destruct (Hnodir eq_refl) as [[= <-] _].
    rewrite (listing_not_dir _ _ Ed). simpl. now rewrite app_nil_r.
Qed.

(** Migrating one legacy folder leaves the listing of another as it was. *)
Lemma other_legacy_listing base L d L' e1 t t1 :
  In (PurePath.of_string d) Dest.all -> ~ In L Dest.roots ->
  ~ In L' Dest.roots -> L' <> L ->
  path_is_dir t base = true ->
  (forall e, In e e1 -> legacy_event base [(L, d)] e) ->
  exec e1 t t1 ->
  lookup (base // L') t1 = lookup (base // L') t.
Proof.
  intros Hd HL HL' Hne Hb Hev X.
  destruct (lookup (base // L') t) as [n|] eqn:El.
  - now apply (other_legacy_kept base L d L' e1 t t1 n).
  - apply (exec_none e1 t t1 _ X El).
    apply (engine_created_not_under base e1 t t1 L' [] X Hb); [|exact HL'].
    intros e He. apply (legacy_event_engine base [(L, d)]); auto.
    intros L0 d0 [[= <- <-]|[]]. exact Hd.
Qed.

(** The migration: the children of each legacy folder, in table order. *)
Lemma relocate_legacy_folders_sources base tbl :
  (forall L d, In (L, d) tbl ->
     In (PurePath.of_string d) Dest.all /\ ~ In L Dest.roots) ->
  NoDup (map fst tbl) ->
  forall moves w moves' w',
  path_is_dir (tree w) base = true ->
  for_each tbl (OrganizeGui.relocate_legacy base) moves w = (Ok moves', w') ->
  map fst moves' =
  map fst moves ++
  flat_map
    (fun r => map (fun c => base // fst r // c) (listing (tree w) (base // fst r)))
    tbl.
Proof.
  induction tbl as [|[L d] tbl IH]; intros Htbl Hnd moves w moves' w' Hb Hrun.
  - simpl in Hrun. injection Hrun as <- <-. simpl. now rewrite app_nil_r.
  - rewrite for_each_cons in Hrun. unfold bind in Hrun at 1.
    destruct (Htbl L d (or_introl eq_refl)) as [Hd HL].
    destruct (relocate_legacy_step base L d moves w Hd HL)
      as (o1 & e1 & w1 & R1 & _ & Hev1 & _).
    pose proof R1 as (E1 & _ & _ & X1). rewrite E1 in Hrun.
    destruct o1 as [m1|ex|]; try discriminate.
    simpl in Hnd. inversion Hnd as [|? ? HLn Hnd']; subst.
    assert (Hev : forall e, In e e1 -> legacy_event base [(L, d)] e)
      by (intros e He; now apply Hev1).
    assert (Hb1 : path_is_dir (tree w1) base = true).
    { apply (engine_base_stays base e1 (tree w) _ X1); [|exact Hb].
      intros e He. apply (legacy_event_engine base [(L, d)]); auto.
      intros L0 d0 [[= <- <-]|[]]. exact Hd. }
    rewrite (IH (fun L0 d0 H0 => Htbl L0 d0 (or_intror H0)) Hnd' m1 w1 moves' w' Hb1 Hrun).
    rewrite (relocate_legacy_sources base L d moves w m1 w1 Hd HL E1).
    simpl. rewrite <- !app_assoc. f_equal. f_equal.
    apply flat_map_ext_in. intros [L' d'] Hin. simpl.
    unfold listing.
    rewrite (other_legacy_listing base L d L' e1 (tree w) (tree w1)); auto.
    + now apply (Htbl L' d'); right.
    + intros ->. apply HLn. now apply (in_map fst) in Hin.
Qed.

(** The first pass leaves the legacy folders as they were. *)
Lemma first_pass_keeps_legacy base w m1 w1 L d :
  OrganizeGui.organize_top_level base w = (Ok m1, w1) ->
  In (L, d) OrganizeGui.LEGACY_FOLDER_REMAP ->
  path_is_dir (tree w1) base = true /\
  path_is_dir (tree w1) (base // L) = path_is_dir (tree w) (base // L) /\
  listing (tree w1) (base // L) = listing (tree w) (base // L) /\
  (forall n, lookup (base // L) (tree w) = Some (Dir n) ->
             lookup (base // L) (tree w1) = Some (Dir n)).
Proof.
  intros Hrun HL.
  destruct (organize_top_level_run base w)
    as (o & e1 & w1' & R & _ & Hev & _ & Hnodir & _).
  destruct (run_of_eq _ _ _ _ _ _ _ Hrun R) as [-> ->].
  destruct R as (_ & _ & _ & X).
  assert (Hb : path_is_dir (tree w) base = true).
  { destruct (path_is_dir (tree w) base) eqn:E; [reflexivity|].
    destruct (Hnodir eq_refl) as (ex & [=] & _). }
  assert (Heng : forall e, In e e1 -> engine_event base e)
    by (intros e He; eapply top_event_engine; eauto).
  destruct (legacy_dest L d HL) as [_ HLr].
  split; [now apply (engine_base_stays base e1 (tree w))|].
  assert (Hkept : forall n, lookup (base // L) (tree w) = Some (Dir n) ->
                            lookup (base // L) (tree w1) = Some (Dir n)).
  { intros n Hl. apply (exec_quiet e1 _ _ _ _ X Hl).
    intros e He. apply (top_event_quiet base (tree w) _ e L (Hev e He) HLr).
    unfold path_is_dir. now rewrite Hl. }
  destruct (lookup (base // L) (tree w)) as [[x|es]|] eqn:El.
  - assert (Hnd : path_is_dir (tree w) (base // L) = false)
      by (unfold path_is_dir; now rewrite El).
    pose proof (engine_not_dir_stays base e1 _ _ L X Hb Heng HLr Hnd) as Hnd1.
    rewrite Hnd, Hnd1, (listing_not_dir _ _ Hnd1).
    unfold listing. rewrite El. repeat split. discriminate.
  - pose proof (Hkept es eq_refl) as El1.
    unfold path_is_dir, listing. rewrite El, El1. repeat split. auto.
  - assert (Hnd : path_is_dir (tree w) (base // L) = false)
      by (unfold path_is_dir; now rewrite El).
    pose proof (engine_not_dir_stays base e1 _ _ L X Hb Heng HLr Hnd) as Hnd1.
    rewrite Hnd, Hnd1, (listing_not_dir _ _ Hnd1).
    unfold listing. rewrite El. repeat split. discriminate.
Qed.

Lemma organize_folder_split base w moves w' :
  OrganizeGui.organize_folder base w = (Ok moves, w') ->
  exists m1 w1,
    OrganizeGui.organize_top_level base w = (Ok m1, w1) /\
    OrganizeGui.relocate_legacy_folders base m1 w1 = (Ok moves, w').
Proof.
  unfold OrganizeGui.organize_folder, bind. intros H.
  destruct (OrganizeGui.organize_top_level base w) as [[m1|ex|] w1];
    try discriminate.
  eauto.
Qed.

Lemma organize_folder_sources base w moves w' :
  wf (tree w) = true ->
  OrganizeGui.organize_folder base w = (Ok moves, w') ->
  map fst moves = expected_sources (tree w) base.
Proof.
  intros Hwf Hrun.
  destruct (organize_folder_split base w moves w' Hrun) as (m1 & w1 & H1 & H2).
  unfold OrganizeGui.relocate_legacy_folders in H2.
  assert (Hb1 : path_is_dir (tree w1) base = true).
  { apply (first_pass_keeps_legacy base w m1 w1 "Excel" "Documents/Excel" H1).
    simpl. tauto. }
  rewrite (relocate_legacy_folders_sources base _ legacy_dest legacy_names_nodup
             m1 w1 moves w' Hb1 H2).
  rewrite (organize_top_level_sources base w m1 w1 Hwf H1).
  unfold expected_sources, legacy_children. f_equal.
  apply flat_map_ext_in. intros [L d] Hin. simpl.
  destruct (first_pass_keeps_legacy base w m1 w1 L d H1 Hin) as (_ & _ & -> & _).
  reflexivity.
Qed.

End Sources.



(** ** No two records alike *)

Section Distinct.

Import Tree.

Lemma nodup_app_disjoint {A} (l1 l2 : list A) (x : A) :
  NoDup (l1 ++ l2) -> In x l1 -> In x l2 -> False.
Proof.
  induction l1 as [|a l1 IH]; intros H H1 H2; [destruct H1|].
  simpl in H. inversion H as [|? ? Ha Hnd]; subst.
  destruct H1 as [-> | H1]; [|auto].
  apply Ha. apply in_or_app. now right.
Qed.

Lemma nodup_flat_map {A B} (f : A -> list B) (l : list A) :
  NoDup l ->
  (forall a, In a l -> NoDup (f a)) ->
  (forall a a' b, In a l -> In a' l -> In b (f a) -> In b (f a') -> a = a') ->
  NoDup (flat_map f l).
Proof.
  induction 1 as [|a l Ha Hnd IH]; intros Hf Hdis; simpl; [constructor|].
  apply NoDup_app.
  - apply Hf. now left.
  - apply IH.
    + intros a' Ha'. apply Hf. now right.
    + intros a1 a2 b H1 H2. apply Hdis; now right.
  - intros b Hb Hin. apply in_flat_map in Hin as (a' & Ha' & Hb').
    assert (a = a') by (apply (Hdis a a' b); auto; [now left | now right]).
    subst. contradiction.
Qed.

(** What is to be moved is listed once. *)
Lemma expected_sources_nodup t base :
  wf t = true -> NoDup (expected_sources t base).
Proof.
  intros Hwf. unfold expected_sources. apply NoDup_app.
  - apply NoDup_map_inj; [intros x y H; now apply child_inj in H|].
    apply NoDup_filter. now apply wf_listing_nodup.
  - unfold legacy_children. apply nodup_flat_map.
    + apply NoDup_map_inv with (f := fst). apply legacy_names_nodup.
    + intros [L d] _. simpl.
      apply NoDup_map_inj; [intros x y H; now apply child_inj in H|].
      now apply wf_listing_nodup.
    + intros [L d] [L' d'] b Hin Hin' Hb Hb'. simpl in Hb, Hb'.
      apply in_map_iff in Hb as (c & <- & _).
      apply in_map_iff in Hb' as (c' & E & _).
      apply app_inj_tail in E as [E _]. apply app_inj_tail in E as [_ ->].
      pose proof legacy_names_nodup as Hnd.
      clear -Hin Hin' Hnd.
      simpl in Hin, Hin'.
      repeat (destruct Hin as [[= <- <-] | Hin]; [|]);
        repeat (destruct Hin' as [[= <-] | Hin']; try reflexivity);
        try contradiction; try discriminate.
  - intros a Ha Hl. apply in_map_iff in Ha as (n & <- & _).
    unfold legacy_children in Hl. apply in_flat_map in Hl as ([L d] & _ & Hc).
    simpl in Hc. apply in_map_iff in Hc as (c & E & _).
    apply (f_equal (@List.length string)) in E.
    rewrite !length_app in E. simpl in E. lia.
Qed.

(** No two moves of a trace share a destination, unless two do. *)
Lemma nodup_targets evs :
  (forall a s1 d b1 m s2 b2 c,
     evs = a ++ MoveEv s1 d b1 :: m ++ MoveEv s2 d b2 :: c -> False) ->
  NoDup (map snd (moves_of evs)).
Proof.
  induction evs as [|e evs IH]; intros H; [constructor|].
  assert (Hrest : NoDup (map snd (moves_of evs))).
  { apply IH. intros a s1 d b1 m s2 b2 c ->.
    apply (H (e :: a) s1 d b1 m s2 b2 c). reflexivity. }
  destruct e as [p | s d b | p]; simpl; try exact Hrest.
  constructor; [|exact Hrest].
  intros Hin. apply in_map_iff in Hin as ([s2 d2] & E & Hin). simpl in E. subst d2.
  apply moves_of_in in Hin as [b2 Hin]. apply in_split in Hin as (m & c & ->).
  apply (H [] s d b m s2 b2 c). reflexivity.
Qed.

(** In a trace of the engine a destination is used once, as long as a
    source is. *)
Lemma engine_targets_distinct base t t' e1 e2 :
  exec (e1 ++ e2) t t' ->
  (forall e, In e e1 -> top_event base t (listing t base) e) ->
  (forall e, In e e2 -> legacy_event base OrganizeGui.LEGACY_FOLDER_REMAP e) ->
  NoDup (map fst (moves_of (e1 ++ e2))) ->
  NoDup (map snd (moves_of (e1 ++ e2))).
Proof.
  intros X H1 H2 Hsrc. apply nodup_targets.
  intros a s1 d b1 m s2 b2 c Hsplit.
  assert (Hshape : forall e, In e (e1 ++ e2) ->
            engine_event base e /\
            forall p, In p (removed e) ->
              (exists L r, ~ In L Dest.roots /\ p = base ++ L :: r) \/
              (exists f x, p = base // fst f /\ e = MoveEv p x false /\
                           lookup p t = Some (File (snd f)))).
  { intros e He. apply in_app_or in He as [He | He].
    - split; [eapply top_event_engine; eauto|].
      intros p Hp. right.
      destruct (H1 e He) as [(q & d0 & -> & _) | (n & x & Hn & Hnd & ->)];
        [destruct Hp|].
      destruct Hp as [<-|[]].
      pose proof (listing_child_exists _ _ _ Hn) as Hex.
      unfold path_is_dir in Hnd.
      destruct (lookup (base // n) t) as [[f|es]|]; try congruence.
      exists (n, f), ((base ++ Dest.dest_root n) // x). auto.
    - split; [apply (legacy_event_engine base _ e (fun L d H => proj1 (legacy_dest L d H)));
              auto|].
      intros p Hp. left.
      destruct (H2 e He) as [(q & d0 & -> & _)
                            | [(L & d0 & c0 & x & Hin & ->) | (L & d0 & Hin & ->)]].
      + destruct Hp.
      + destruct Hp as [<-|[]]. exists L, [c0].
        split; [apply (legacy_dest L d0 Hin) | now rewrite <- app_assoc].
      + destruct Hp as [<-|[]]. exists L, [].
        split; [apply (legacy_dest L d0 Hin) | reflexivity]. }
  rewrite Hsplit in X, Hsrc, Hshape.
  apply exec_app_inv in X as (ta & Xa & X).
  inversion X as [| ? ? ? tb ? He1 X']; subst. clear X.
  apply exec_app_inv in X' as (tc & Xm & X').
  inversion X' as [| ? ? ? td ? He2 _]; subst. clear X'.
  (* the destination exists after the first move, not before the second *)
  assert (Hd1 : exists x, lookup d tb = Some x).
  { destruct (effect_moved _ _ _ _ _ [] He1) as [Hmv _]. rewrite !app_nil_r in Hmv.
    inversion He1; subst. rewrite Hmv. eauto. }
  destruct Hd1 as [x Hd1].
  assert (Hd2 : lookup d tc = None).
  { inversion He2 as [| ps ks pd kd y es t0 Hs Hpd Hkd Hnp |]; subst.
    now rewrite (lookup_child pd kd tc es Hpd). }
  destruct (exec_keeps_exists m tb tc d x Xm Hd1) as [n' Hn']; [|congruence].
  intros e p Hin Hp Hpre.
  (* the shape of the destination *)
  destruct (Hshape (MoveEv s1 d b1)) as [[Hc _] _];
    [apply in_or_app; right; now left|].
  destruct (Hc d (or_introl eq_refl)) as [[[=] _] | (dd & x' & Hdd & ->)].
  destruct (dest_all_head dd Hdd) as (D & ds & -> & HD).
  assert (Hine : In e (a ++ MoveEv s1 ((base ++ D :: ds) // x') b1
                         :: m ++ MoveEv s2 ((base ++ D :: ds) // x') b2 :: c)).
  { apply in_or_app. right. right. apply in_or_app. now left. }
  destruct (Hshape e Hine) as [_ Hr].
  destruct (Hr p Hp) as [(L & r & HL & ->) | ([n f] & y & -> & -> & Hfile)].
  - apply HL. rewrite <- app_assoc in Hpre. apply prefix_app_cancel in Hpre.
    simpl in Hpre. now apply prefix_cons_inv in Hpre as [-> _].
  - simpl in Hfile, Hpre. pose proof (prefix_top _ _ _ _ _ Hpre) as ->.
    (* the top-level file [D] was a directory by the first move *)
    pose proof (lookup_above_is_dir _ _ _ _ Hd1 (above_top base D ds x')) as Hdir.
    assert (Hf : lookup (base // D) tb = Some (File f)).
    { apply (exec_keeps_file (a ++ [MoveEv s1 ((base ++ D :: ds) // x') b1]) t tb).
      - eapply exec_app; [exact Xa|]. now apply exec_one.
      - exact Hfile.
      - intros e0 p0 Hin0 Hp0 Hpre0.
        assert (Hine0 : In e0 (a ++ MoveEv s1 ((base ++ D :: ds) // x') b1
                                 :: m ++ MoveEv s2 ((base ++ D :: ds) // x') b2 :: c)).
        { apply in_app_or in Hin0 as [Hin0 | [<-|[]]]; apply in_or_app;
            [now left | right; now left]. }
        destruct (Hshape e0 Hine0) as [_ Hr0].
        destruct (Hr0 p0 Hp0) as [(L & r & HL & ->) | ([n0 f0] & y0 & -> & -> & _)].
        + apply HL. apply prefix_app_cancel in Hpre0.
          now apply prefix_cons_inv in Hpre0 as [-> _].
        + simpl in Hpre0. apply prefix_app_cancel in Hpre0.
          apply prefix_cons_inv in Hpre0 as [-> _].
          (* the source [base // D] twice *)
          change (a ++ MoveEv s1 ((base ++ D :: ds) // x') b1
                    :: m ++ MoveEv s2 ((base ++ D :: ds) // x') b2 :: c)
            with (a ++ [MoveEv s1 ((base ++ D :: ds) // x') b1]
                    ++ m ++ MoveEv s2 ((base ++ D :: ds) // x') b2 :: c) in Hsrc.
          rewrite app_assoc, moves_of_app, map_app in Hsrc.
          apply (nodup_app_disjoint _ _ (base // D) Hsrc).
          * apply in_map_iff. exists (base // D, y0). split; [reflexivity|].
            now apply (moves_of_intro _ _ false).
          * apply in_map_iff. exists (base // D, y). split; [reflexivity|].
            apply (moves_of_intro _ _ false). apply in_or_app. now left. }
    unfold path_is_dir in Hdir. rewrite Hf in Hdir. discriminate.
Qed.

End Distinct.

(** X4 — In the log of a successful [organize_folder] no entry is moved
    twice and no destination is used twice: the sources of the records are
    pairwise different, and so are their destinations. *)
Theorem X4_log_records_are_distinct
  (base : Path) (w w' : world) (moves : OrganizeGui.MoveLog) :
  Tree.wf (tree w) = true ->
  OrganizeGui.organize_folder base w = (Ok moves, w') ->
  NoDup (map fst moves) /\ NoDup (map snd moves).
Proof.
  intros Hwf Hrun.
  assert (Hsrc : NoDup (map fst moves)).
  { rewrite (organize_folder_sources base w moves w' Hwf Hrun).
    now apply expected_sources_nodup. }
  split; [exact Hsrc|].
  destruct (organize_folder_run base w)
    as (o & evs & w1 & e1 & e2 & R & _ & -> & Hev1 & Hev2 & Hlog & _).
  destruct (run_of_eq _ _ _ _ _ _ _ Hrun R) as [-> ->].
  destruct R as (_ & _ & _ & X).
  rewrite (Hlog moves eq_refl) in Hsrc |- *.
  apply (engine_targets_distinct base (tree w) (tree w') e1 e2 X Hev1); [|exact Hsrc].
  intros e He. now apply Hev2.
Qed.

Lemma X4_witness :
  exists moves w',
    OrganizeGui.organize_folder Example.base Example.legacy = (Ok moves, w') /\
    NoDup (map snd moves).
Proof.
  eexists. eexists. split; [vm_compute; reflexivity|].
  apply (X4_log_records_are_distinct Example.base Example.legacy
           (snd (OrganizeGui.organize_folder Example.base Example.legacy))).
  - vm_compute. reflexivity.
  - vm_compute. reflexivity.
Defined.

(** ** A second run *)

Section SecondRun.

Import Tree.














End SecondRun.



(** ** What a run leaves alone *)

Section LeftAlone.

Import Tree.

(** The events of any run, with their shapes. *)
Lemma organize_folder_events base w o w' :
  OrganizeGui.organize_folder base w = (o, w') ->
  exists evs,
    events w' = events w ++ evs /\
    exec evs (tree w) (tree w') /\
    (evs <> [] -> path_is_dir (tree w) base = true) /\
    (forall e, In e evs -> engine_event base e) /\
    (forall e p, In e evs -> In p (removed e) ->
       (exists n, p = base // n /\ In n (listing (tree w) base) /\
                  path_is_dir (tree w) (base // n) = false) \/
       (exists L d r, In (L, d) OrganizeGui.LEGACY_FOLDER_REMAP /\
                      p = base // L ++ r)).
Proof.
  intros Hrun.
  destruct (organize_folder_run base w)
    as (o1 & evs & w1 & e1 & e2 & R & _ & -> & Hev1 & Hev2 & _ & Hnodir & _).
  destruct (run_of_eq _ _ _ _ _ _ _ Hrun R) as [-> ->].
  destruct R as (_ & E & _ & X).
  exists (e1 ++ e2). split; [exact E|]. split; [exact X|]. split; [|split].
  - intros Hne. destruct (path_is_dir (tree w) base) eqn:Eb; [reflexivity|].
    destruct (Hnodir eq_refl) as (ex & _ & Hnil). contradiction.
  - intros e He. apply in_app_or in He as [He | He].
    + eapply top_event_engine; eauto.
    + apply (legacy_event_engine base _ e (fun L d H => proj1 (legacy_dest L d H))).
      now apply Hev2.
  - intros e p He Hp. apply in_app_or in He as [He | He].
    + left. destruct (top_event_removed _ _ _ _ _ (Hev1 e He) Hp) as (n & Hn & -> & Hd).
      eauto.
    + right.
      destruct (proj1 (Hev2 e He)) as [(q & d0 & -> & _)
                                      | [(L & d0 & c & x & Hin & ->) | (L & d0 & Hin & ->)]].
      * destruct Hp.
      * destruct Hp as [<-|[]]. exists L, d0, [c]. auto.
      * destruct Hp as [<-|[]]. exists L, d0, []. split; [exact Hin|].
        now rewrite app_nil_r.
Qed.


End LeftAlone.





(** ** The preview against the run *)

Section PreviewAgainstRun.

Import Tree.





Lemma Forall2_in_l {A B} (R : A -> B -> Prop) l l' a :
  Forall2 R l l' -> In a l -> exists b, In b l' /\ R a b.
Proof.
  induction 1 as [|x y l l' Hxy _ IH]; intros Hin; [destruct Hin|].
  destruct Hin as [-> | Hin].
  - exists y. split; [now left | exact Hxy].
  - destruct (IH Hin) as (b & Hb & Hr). exists b. split; [now right | exact Hr].
Qed.


End PreviewAgainstRun.



(** X9 — The preview does not see the batch: when a top-level file [n1]
    finds its place taken and the first numbered name the resolver tries is
    the name of another top-level file [n2] of the same category, whose
    place is free, [preview_organization] promises the same destination to
    both. *)
Theorem X9_preview_can_promise_one_destination_twice
  (base : Path) (w w' : world) (moves : OrganizeGuiRiot.MoveLog) (n1 n2 : string) :
  OrganizeGuiRiot.preview_organization base w = (Ok moves, w') ->
  In n1 (top_level_files (tree w) base) ->
  In n2 (top_level_files (tree w) base) ->
  Dest.dest_root n2 = Dest.dest_root n1 ->
  Tree.path_exists (tree w) ((base ++ Dest.dest_root n1) // n1) = true ->
  Spec.file_candidate ((base ++ Dest.dest_root n1) // n1) 1
  = (base ++ Dest.dest_root n1) // n2 ->
  Tree.path_exists (tree w) ((base ++ Dest.dest_root n1) // n2) = false ->
  In (base // n1, (base ++ Dest.dest_root n1) // n2) moves /\
  In (base // n2, (base ++ Dest.dest_root n1) // n2) moves.
Proof.
  intros Hpre H1 H2 Hcat Htaken Hcand Hfree.
  destruct (preview_organization_ok base w moves w' Hpre)
    as (_ & _ & _ & _ & Hall).
  split.
  - destruct (Forall2_in_l _ _ _ n1 Hall H1) as ([s dst] & Hin & Hs & Hres).
    simpl in Hs, Hres. subst s.
    destruct Hres as [_ [[Hex _] | [_ (N & HN & -> & Hbelow)]]]; [congruence|].
    destruct (Nat.eq_dec N 1) as [-> | Hne]; [now rewrite <- Hcand|].
    exfalso. specialize (Hbelow 1). rewrite Hcand, Hfree in Hbelow.
    assert (1 <= 1 < N) by lia. specialize (Hbelow H). discriminate.
  - destruct (Forall2_in_l _ _ _ n2 Hall H2) as ([s dst] & Hin & Hs & Hres).
    simpl in Hs, Hres. subst s. rewrite Hcat in Hres.
    destruct Hres as [_ [[_ ->] | [Hex _]]]; [exact Hin | congruence].
Qed.

Lemma X9_witness :
  exists moves w',
    OrganizeGuiRiot.preview_organization Example.base Example.twins = (Ok moves, w') /\
    In (Example.base // "a.pdf",
        Example.base // "Documents" // "PDF" // "a (1).pdf") moves /\
    In (Example.base // "a (1).pdf",
        Example.base // "Documents" // "PDF" // "a (1).pdf") moves.
Proof.
  eexists. eexists. split; [vm_compute; reflexivity|].
  apply (X9_preview_can_promise_one_destination_twice Example.base Example.twins
           (snd (OrganizeGuiRiot.preview_organization Example.base Example.twins))
           _ "a.pdf" "a (1).pdf").
  - vm_compute. reflexivity.
  - vm_compute. tauto.
  - vm_compute. tauto.
  - vm_compute. reflexivity.
  - vm_compute. reflexivity.
  - vm_compute. reflexivity.
  - vm_compute. reflexivity.
Defined.

(** ** The name a file gets on a collision *)

Section RenamedFiles.

Lemma spaced_suffix_unclassified r :
  OrganizeGui.first_category (PyStr.lower (String "." (String " " r)))
    OrganizeGui.CATEGORY_MAP = None.
Proof. reflexivity. Qed.

(** A name with [mid] (no dot in it, a space first) between stem and
    suffix keeps the extension, and in any case the category. *)
Lemma spaced_name_classified nm mid0 :
  PyStr.rfind "." (String " " mid0) = None ->
  let nm' := (PurePath.stem_of nm ++ String " " mid0 ++ PurePath.suffix_of nm)%string in
  OrganizeGui.first_category (PyStr.lower (PurePath.suffix_of nm'))
    OrganizeGui.CATEGORY_MAP
  = OrganizeGui.first_category (PyStr.lower (PurePath.suffix_of nm))
      OrganizeGui.CATEGORY_MAP /\
  (PurePath.suffix_of nm <> ""%string ->
   PurePath.suffix_of nm' = PurePath.suffix_of nm).
Proof.
  intros Hmid nm'. subst nm'.
  pose proof (spaced_suffix_unclassified mid0) as Hun.
  remember (String " " mid0) as mid eqn:Emid.
  assert (Hmidne : mid <> ""%string) by (subst mid; discriminate).
  destruct (PyStr.rfind "." nm) as [i|] eqn:E.
  - destruct (rfind_split "." nm i E) as (a & b & -> & _ & Hb).
    destruct (suffix_stem_of_split a b Hb) as [Hyes Hno].
    destruct (string_dec a "") as [Ha | Ha]; [|destruct (string_dec b "") as [Hnb | Hnb]].
    + (* a leading dot only *)
      destruct (Hno (or_introl Ha)) as [-> ->]. subst a.
      rewrite append_empty_r.
      assert (Hb' : PyStr.rfind "." (b ++ mid)%string = None)
        by (now rewrite rfind_app, Hmid).
      destruct (suffix_stem_of_split "" (b ++ mid) Hb') as [_ Hno'].
      destruct (Hno' (or_introl eq_refl)) as [Hs _].
      change (("" ++ String "." b) ++ mid)%string
        with ("" ++ String "." (b ++ mid))%string.
      rewrite Hs. split; [reflexivity | congruence].
    + (* a trailing dot *)
      destruct (Hno (or_intror Hnb)) as [-> ->]. subst b.
      rewrite append_empty_r, append_assoc_s.
      change (String "." "" ++ mid)%string with (String "." mid).
      destruct (suffix_stem_of_split a mid Hmid) as [Hyes' _].
      destruct (Hyes' Ha Hmidne) as [Hs _]. rewrite Hs.
      split; [|congruence]. rewrite Hun. reflexivity.
    + (* a proper extension *)
      destruct (Hyes Ha Hnb) as [-> ->].
      rewrite <- append_assoc_s.
      destruct (suffix_stem_of_split (a ++ mid) b Hb) as [Hyes' _].
      destruct Hyes' as [Hs _]; [|exact Hnb|].
      * destruct a; [congruence | discriminate].
      * rewrite Hs. auto.
  - assert (Hs : PurePath.suffix_of nm = ""%string)
      by (unfold PurePath.suffix_of; now rewrite E).
    assert (Hst : PurePath.stem_of nm = nm)
      by (unfold PurePath.stem_of; now rewrite E).
    rewrite Hs, Hst, append_empty_r.
    assert (Hs' : PurePath.suffix_of (nm ++ mid) = ""%string).
    { unfold PurePath.suffix_of. now rewrite rfind_app, Hmid, E. }
    rewrite Hs'. split; [reflexivity | congruence].
Qed.

Lemma numbered_name_classified nm N :
  let nm' := (PurePath.stem_of nm ++ " (" ++ PyStr.str N ++ ")"
                ++ PurePath.suffix_of nm)%string in
  OrganizeGui.first_category (PyStr.lower (PurePath.suffix_of nm'))
    OrganizeGui.CATEGORY_MAP
  = OrganizeGui.first_category (PyStr.lower (PurePath.suffix_of nm))
      OrganizeGui.CATEGORY_MAP /\
  (PurePath.suffix_of nm <> ""%string ->
   PurePath.suffix_of nm' = PurePath.suffix_of nm).
Proof.
  intros nm'. subst nm'.
  replace (PurePath.stem_of nm ++ " (" ++ PyStr.str N ++ ")" ++ PurePath.suffix_of nm)%string
    with (PurePath.stem_of nm ++ String " " (String "(" (PyStr.str N ++ ")"))
            ++ PurePath.suffix_of nm)%string.
  - apply spaced_name_classified. exact (counter_no_dot N).
  - f_equal. change (" (" ++ PyStr.str N ++ ")" ++ PurePath.suffix_of nm)%string
      with (String " " (String "(" (PyStr.str N ++ ")" ++ PurePath.suffix_of nm)))%string.
    change (String " " (String "(" (PyStr.str N ++ ")")) ++ PurePath.suffix_of nm)%string
      with (String " " (String "(" ((PyStr.str N ++ ")") ++ PurePath.suffix_of nm)))%string.
    now rewrite append_assoc_s.
Qed.

End RenamedFiles.

(** X10 — The name [ensure_unique_path] answers is in the folder of the
    target and is classified like the target: a file renamed on a collision
    ([report (1).pdf]) would be routed where the original name was, and it
    keeps its extension whenever the target has one. *)
Theorem X10_renamed_file_keeps_its_category
  (target r : Path) (w w' : world) :
  OrganizeGui.ensure_unique_path target w = (Ok r, w') ->
  OrganizeGui.resolve_destination r = OrganizeGui.resolve_destination target /\
  (PurePath.suffix target <> ""%string -> PurePath.suffix r = PurePath.suffix target) /\
  (r = target \/ PurePath.parent r = PurePath.parent target).
Proof.
  intros Hrun.
  destruct (ensure_unique_path_spec target w)
    as [(r' & Hr & (_ & Hres) & _) | (p & Hr & _)];
    rewrite Hr in Hrun; [|discriminate].
  injection Hrun as -> _.
  destruct Hres as [[_ ->] | [_ (N & _ & -> & _)]]; [auto|].
  unfold OrganizeGui.resolve_destination, PurePath.suffix, Spec.file_candidate.
  rewrite name_child, parent_child.
  destruct (numbered_name_classified (PurePath.name target) N) as [H1 H2].
  unfold PurePath.stem, PurePath.suffix. auto.
Qed.

Lemma X10_witness :
  exists r w',
    OrganizeGui.ensure_unique_path
      (Example.base // "Documents" // "PDF" // "report.pdf") Example.collision
    = (Ok r, w') /\
    OrganizeGui.resolve_destination r
    = OrganizeGui.resolve_destination
        (Example.base // "Documents" // "PDF" // "report.pdf").
Proof.
  eexists. eexists. split; [vm_compute; reflexivity|].
  apply (X10_renamed_file_keeps_its_category
           (Example.base // "Documents" // "PDF" // "report.pdf") _
           Example.collision
           (snd (OrganizeGui.ensure_unique_path
                   (Example.base // "Documents" // "PDF" // "report.pdf")
                   Example.collision))).
  vm_compute. reflexivity.
Defined.

(** ** The category table *)

Section CategoryTable.

Lemma first_category_owners ext tbl :
  OrganizeGui.first_category ext tbl =
  match category_owners ext tbl with
  | [] => None
  | e :: _ => Some (PurePath.of_string (fst e))
  end.
Proof.
  unfold category_owners.
  induction tbl as [|[dest exts] tbl IH]; simpl; [reflexivity|].
  destruct (PyStr.mem ext exts); [reflexivity | exact IH].
Qed.

Lemma permutation_filter {A} (f : A -> bool) l l' :
  Permutation l l' -> Permutation (filter f l) (filter f l').
Proof.
  induction 1 as [| x l l' _ IH | x y l | l l' l'' _ IH1 _ IH2]; simpl.
  - constructor.
  - destruct (f x); [now constructor | exact IH].
  - destruct (f x), (f y); try apply Permutation_refl. constructor.
  - eapply Permutation_trans; eauto.
Qed.

Lemma category_map_one_owner :
  one_owner_each OrganizeGui.CATEGORY_MAP = true.
Proof. vm_compute. reflexivity. Qed.

(** The entry that lists an extension is the only one that does. *)
Lemma category_owner dest exts ext :
  In (dest, exts) OrganizeGui.CATEGORY_MAP -> In ext exts ->
  exists exts', category_owners ext OrganizeGui.CATEGORY_MAP = [(dest, exts')].
Proof.
  intros He Hx. pose proof category_map_one_owner as H.
  unfold one_owner_each in H. rewrite forallb_forall in H.
  specialize (H _ He). cbn [snd fst] in H. rewrite forallb_forall in H.
  specialize (H _ Hx). cbv beta in H.
  destruct (category_owners ext OrganizeGui.CATEGORY_MAP) as [|[d e'] [|? ?]];
    try discriminate.
  cbn [map fst] in H. apply String.eqb_eq in H. subst. eauto.
Qed.

End CategoryTable.

(** X11 — [resolve_destination] answers the folder of the one category
    that lists the lower-cased extension of the name, and no folder when no
    category lists it.  No extension is listed by two categories, so the
    order in which the table declares the categories does not matter: the
    scan gives the same answer on any reordering of the table.  The
    extension is lower-cased as [str.lower] does it, by the Unicode tables:
    the extension of [clip.M], Kelvin sign, [V], reads [.mkv] and the name
    goes to [Media/Videos]. *)
Theorem X11_classification_does_not_depend_on_table_order
  (file_path : Path) :
  (forall q,
     OrganizeGui.resolve_destination file_path = Some q <->
     exists dest exts,
       In (dest, exts) OrganizeGui.CATEGORY_MAP /\ q = PurePath.of_string dest /\
       In (PyStr.lower (PurePath.suffix file_path)) exts) /\
  (OrganizeGui.resolve_destination file_path = None <->
   forall dest exts,
     In (dest, exts) OrganizeGui.CATEGORY_MAP ->
     ~ In (PyStr.lower (PurePath.suffix file_path)) exts) /\
  (forall table,
     Permutation OrganizeGui.CATEGORY_MAP table ->
     OrganizeGui.first_category (PyStr.lower (PurePath.suffix file_path)) table
     = OrganizeGui.resolve_destination file_path) /\
  (PyStr.lower ".MKV" = ".mkv" /\
   PyStr.lower (PurePath.suffix [Example.kelvin_name]) = ".mkv" /\
   OrganizeGui.resolve_destination [Example.kelvin_name]
   = Some ["Media"; "Videos"]).
Proof.
  unfold OrganizeGui.resolve_destination.
  set (ext := PyStr.lower (PurePath.suffix file_path)).
  assert (Hinv : forall e, In e (category_owners ext OrganizeGui.CATEGORY_MAP) ->
            In e OrganizeGui.CATEGORY_MAP /\ In ext (snd e)).
  { intros e He. unfold category_owners in He. apply filter_In in He as [H1 H2].
    split; [exact H1 | now apply mem_true_iff]. }
  split; [|split; [|split; [|repeat split; vm_compute; reflexivity]]].
  - intros q. rewrite first_category_owners. split.
    + destruct (category_owners ext OrganizeGui.CATEGORY_MAP) as [|[d e] l] eqn:E;
        [discriminate|].
      intros [= <-]. destruct (Hinv (d, e)) as [H1 H2]; [now left|].
      exists d, e. auto.
    + intros (dest & exts & He & -> & Hx).
      destruct (category_owner dest exts ext He Hx) as [exts' ->]. reflexivity.
  - rewrite first_category_owners. split.
    + destruct (category_owners ext OrganizeGui.CATEGORY_MAP) as [|[d e] l] eqn:E;
        [|discriminate].
      intros _ dest exts He Hx.
      destruct (category_owner dest exts ext He Hx) as [exts' H]. congruence.
    + intros H.
      destruct (category_owners ext OrganizeGui.CATEGORY_MAP) as [|[d e] l] eqn:E;
        [reflexivity|].
      exfalso. destruct (Hinv (d, e)) as [H1 H2]; [now left|].
      exact (H d e H1 H2).
  - intros table Hperm. rewrite !first_category_owners.
    pose proof (permutation_filter (fun e => PyStr.mem ext (snd e)) _ _ Hperm) as P.
    fold (category_owners ext OrganizeGui.CATEGORY_MAP) in P.
    fold (category_owners ext table) in P.
    destruct (category_owners ext OrganizeGui.CATEGORY_MAP) as [|[d e] l] eqn:E.
    + apply Permutation_nil in P. now rewrite P.
    + destruct (Hinv (d, e)) as [H1 H2]; [now left|].
      destruct (category_owner d e ext H1 H2) as [exts' H]. rewrite E in H.
      injection H as <- ->.
      apply Permutation_length_1_inv in P. now rewrite P.
Qed.

(** ** The activity log *)

Section ActivityLog.

Import OrganizerApp.

Lemma skipn_app_exact {A} (l r : list A) : skipn (List.length l) (l ++ r) = r.
Proof. induction l as [|a l IH]; simpl; [reflexivity | exact IH]. Qed.

Lemma insert_moves_under folder_var base moves :
  parse folder_var = absolute base ->
  forall calls,
  (forall r, In r moves -> exists s, snd r = base ++ s /\ s <> []) ->
  insert_moves folder_var (map record moves) calls
  = (calls ++ map (shown base) moves, None).
Proof.
  intros Hp. induction moves as [|[src dst] moves IH]; intros calls H; simpl.
  - now rewrite app_nil_r.
  - destruct (H (src, dst) (or_introl eq_refl)) as (s & Hs & Hne). simpl in Hs.
    unfold relative_to. rewrite Hp. simpl root. simpl tail.
    assert (Hpre : prefixb base dst = true)
      by (apply prefixb_spec; rewrite Hs; apply prefix_app).
    rewrite Hpre. simpl.
    rewrite IH by (intros r Hr; apply H; now right).
    rewrite <- app_assoc. simpl. f_equal. f_equal. f_equal.
    unfold shown, str, name. simpl. subst dst. rewrite skipn_app_exact.
    destruct s; [congruence | reflexivity].
Qed.

End ActivityLog.

(** X12 — [write_log] shows the log [organize_folder] returned: when the
    folder field holds the base folder as organized, it never fails on
    this log (every destination is inside the base folder), and it enables
    the widget, clears it, inserts ["No files to move."] for an empty log
    and otherwise one line [<name> -> <category folder>/<new name>] per
    record, in order, and disables the widget again. *)
Theorem X12_activity_log_shows_the_moves
  (base : Path) (w w' : world) (moves : OrganizeGui.MoveLog) (folder_var : string) :
  OrganizeGui.organize_folder base w = (Ok moves, w') ->
  OrganizerApp.parse folder_var = OrganizerApp.absolute base ->
  OrganizerApp.write_log folder_var (map OrganizerApp.record moves)
  = ([OrganizerApp.Configure "normal"; OrganizerApp.Delete "1.0" "end"]
       ++ match moves with
          | [] => [OrganizerApp.Insert "end"
                     ("No files to move." ++ OrganizerApp.newline)%string]
          | _ :: _ => map (OrganizerApp.shown base) moves
          end
       ++ [OrganizerApp.Configure "disabled"], None) /\
  forall src dst, In (src, dst) moves ->
    exists d x, In d Dest.all /\ skipn (List.length base) dst = d ++ [x].
Proof.
  intros Hrun Hp.
  assert (Hshape : forall src dst, In (src, dst) moves ->
            exists d x, In d Dest.all /\ dst = (base ++ d) // x).
  { intros src dst Hin.
    destruct (organize_folder_events base w (Ok moves) w' Hrun)
      as (evs & _ & _ & _ & Heng & _).
    destruct (organize_folder_run base w)
      as (o & evs' & w1 & e1 & e2 & R & _ & -> & _ & _ & Hlog & _).
    destruct (run_of_eq _ _ _ _ _ _ _ Hrun R) as [-> ->].
    pose proof R as (_ & E' & _).
    destruct (organize_folder_events base w (Ok moves) w' Hrun)
      as (evs2 & E2 & _ & _ & Heng2 & _).
    rewrite E' in E2. apply app_inv_head in E2. subst evs2.
    rewrite (Hlog moves eq_refl) in Hin. apply moves_of_in in Hin as [b Hin].
    destruct (proj1 (Heng2 _ Hin) dst (or_introl eq_refl)) as [[[=] _] | H]; exact H. }
  split.
  - destruct moves as [|r moves]; [reflexivity|].
    unfold OrganizerApp.write_log.
    change (map OrganizerApp.record (r :: moves))
      with (OrganizerApp.record r :: map OrganizerApp.record moves).
    cbv iota.
    change (OrganizerApp.record r :: map OrganizerApp.record moves)
      with (map OrganizerApp.record (r :: moves)).
    rewrite (insert_moves_under folder_var base (r :: moves) Hp).
    + now rewrite <- app_assoc.
    + intros [src dst] Hin. destruct (Hshape src dst Hin) as (d & x & _ & ->).
      exists (d // x). split; [simpl; now rewrite app_assoc|].
      intros H. now apply app_eq_nil in H as [_ H].
  - intros src dst Hin. destruct (Hshape src dst Hin) as (d & x & Hd & ->).
    exists d, x. split; [exact Hd|].
    rewrite <- app_assoc. apply skipn_app_exact.
Qed.

Lemma X12_witness :
  exists moves w',
    OrganizeGui.organize_folder Example.base Example.four = (Ok moves, w') /\
    OrganizerApp.write_log "/home/user/Downloads" (map OrganizerApp.record moves)
    = ([OrganizerApp.Configure "normal"; OrganizerApp.Delete "1.0" "end"]
         ++ map (OrganizerApp.shown Example.base) moves
         ++ [OrganizerApp.Configure "disabled"], None).
Proof.
  eexists. eexists. split; [vm_compute; reflexivity|].
  destruct (X12_activity_log_shows_the_moves Example.base Example.four
              (snd (OrganizeGui.organize_folder Example.base Example.four))
              (log_of (fst (OrganizeGui.organize_folder Example.base Example.four)))
              "/home/user/Downloads") as [H _].
  - vm_compute. reflexivity.
  - vm_compute. reflexivity.
  - exact H.
Defined.



(** X14 — [organize_folder] always comes to an end: on every base folder
    and every file tree it returns a log or raises, the [while True]
    searches for a free name included. *)
Theorem X14_organize_folder_terminates (base : Path) (w : world) :
  (exists moves w', OrganizeGui.organize_folder base w = (Ok moves, w')) \/
  (exists ex w', OrganizeGui.organize_folder base w = (Raise ex, w')).
Proof.
  destruct (organize_folder_run base w) as (o & evs & w' & e1 & e2 & R & Hd & _).
  destruct R as (E & _). destruct o as [m|ex|]; [left | right | contradiction]; eauto.
Qed.
